(** * TURTLE: the tile stack, its clients and the geodetic conversions

    A shallow embedding of [src/turtle_datum.c] (the datum handle with its
    stack of tiles), of the client of [turtle_client.c] and of the structures
    of [turtle_datum.h].

    Conventions of the embedding.
    - A [double] is a binary64 float ([PrimFloat.float]); the operations of
      C on doubles are the primitive ones.  [atan] and [atan2] come from the
      C mathematical library and are parameters of the geodesy section.
    - An [int] is a [Z].  Signed overflow is undefined in C and no operation
      below is meant to be used outside the range of [int]; the conversion of
      a double to [int] is partial and yields a fault outside that range.
    - A pointer to a tile is an [addr]; [NULL] is [None].  Tiles live in a
      heap, a finite map from addresses to tile structures, which keeps the
      [prev] and [next] links of the source.
    - A function of the source becomes a computation in the monad [M]: a
      state transformer that may fault.  [None] stands for an execution with
      no defined result: a [NULL] or dangling pointer is dereferenced, an
      array is read out of its bounds, a conversion is undefined, or a loop
      exceeds the bound that the size of the heap puts on any traversal of a
      well-formed list.
    - The lock and unlock callbacks, the GeoTIFF reader and [malloc] are the
      environment: callbacks answer as a function of the history of events,
      the reader is a function of the file path.  The history records the
      calls of the callbacks, the files that the reader is asked for and the
      tiles that are freed, each with its count of clients at that time.

    The reader of GeoTIFF files of [turtle/io/geotiff16.c] and the error
    context of [turtle/error.c] are embedded in the same way, each in a
    module of its own with a state of its own.

    The program comes first, then the definitions in which its properties
    are stated, then the properties.  A property that answers a claim of the
    specification of the library names the claim, [C1] to [C10]; the other
    properties of the code are numbered [X1] to [X26]. *)

From Stdlib Require Import ZArith Lia Floats.
From Stdlib Require Import Ascii String DecimalString.
From stdpp Require Import base option list gmap strings.

Local Open Scope Z_scope.

(** ** Return codes ([turtle.h]) *)

Inductive turtle_return : Type :=
  | TURTLE_RETURN_SUCCESS
  | TURTLE_RETURN_BAD_ADDRESS
  | TURTLE_RETURN_BAD_EXTENSION
  | TURTLE_RETURN_BAD_FORMAT
  | TURTLE_RETURN_BAD_PROJECTION
  | TURTLE_RETURN_BAD_JSON
  | TURTLE_RETURN_DOMAIN_ERROR
  | TURTLE_RETURN_LIBRARY_ERROR
  | TURTLE_RETURN_LOCK_ERROR
  | TURTLE_RETURN_MEMORY_ERROR
  | TURTLE_RETURN_PATH_ERROR
  | TURTLE_RETURN_UNLOCK_ERROR.

#[global] Instance turtle_return_eq_dec : EqDecision turtle_return.
Proof. solve_decision. Defined.

(** ** Numbers *)

Definition INT_MIN : Z := - 2 ^ 31.
Definition INT_MAX : Z := 2 ^ 31 - 1.

(** [(double)n] for an [int] (or [int16_t]) [n]. *)
Definition double_of_int (n : Z) : float :=
  if n <? 0 then PrimFloat.opp (PrimFloat.of_uint63 (Uint63.of_Z (- n)))
  else PrimFloat.of_uint63 (Uint63.of_Z n).

(** [(int)x] for a double [x]: truncation toward zero.  The conversion is
    undefined for a NaN, an infinity and a value whose integral part is not
    an [int]. *)
Definition int_of_double (x : float) : option Z :=
  match Prim2SF x with
  | S754_zero _ => Some 0
  | S754_finite s m e =>
      let mag := Z.shiftl (Z.pos m) e in
      let v := if s then - mag else mag in
      if (INT_MIN <=? v) && (v <=? INT_MAX) then Some v else None
  | _ => None
  end.

(** ** Strings *)

(** [strrchr(path, '/')], then the character after it: the part of [s] that
    follows its last ['/'], or [s] itself when it has none. *)
Fixpoint after_last_slash (s : string) : option string :=
  match s with
  | EmptyString => None
  | String c s' =>
      match after_last_slash s' with
      | Some b => Some b
      | None => if Ascii.eqb c "/" then Some s' else None
      end
  end.

Definition basename (s : string) : string :=
  match after_last_slash s with
  | Some b => b
  | None => s
  end.

(** The last character of a string: [path[n-2]] for [n = strlen(path)+1]. *)
Fixpoint last_char (s : string) : option ascii :=
  match s with
  | EmptyString => None
  | String c EmptyString => Some c
  | String _ s' => last_char s'
  end.

(** [%0wd] of [sprintf] for a non negative [n]. *)
Definition zero_pad (w : nat) (n : Z) : string :=
  let digits := NilZero.string_of_uint (N.to_uint (Z.to_N n)) in
  String.append
    (string_of_list_ascii (repeat "0"%char (w - String.length digits)))
    digits.

(** ** Structures ([turtle_datum.h]) *)

Definition addr := positive.

Inductive datum_format : Type :=
  | DATUM_FORMAT_NONE
  | DATUM_FORMAT_ASTER_GDEM2.

(** Container for a data tile. *)
Record datum_tile : Type := Tile {
  prev : option addr;
  next : option addr;
  clients : Z;
  nx : Z;
  ny : Z;
  x0 : float;
  y0 : float;
  dx : float;
  dy : float;
  z : list Z
}.

(** What the environment does and what the allocator releases. *)
Inductive event : Type :=
  | Lock_called
  | Unlock_called
  | File_opened (file : string)
  | Tile_freed (a : addr) (pins : Z).

(** [turtle_datum_cb]: returns [0] on success. *)
Definition turtle_datum_cb : Type := list event -> Z.

(** Container for a geodetic datum.  The flexible array [path] holds the
    path given at creation, then one byte that is either the terminating
    zero or a ['/'] written over it ([path_slash]), then the I/O [buffer]. *)
Record turtle_datum : Type := Datum {
  stack : option addr;
  stack_size : Z;
  max_size : Z;
  format : datum_format;
  lock : option turtle_datum_cb;
  unlock : option turtle_datum_cb;
  path : string;
  path_slash : bool;
  buffer : string
}.

(** The C string that starts at [datum->path]. *)
Definition path_string (d : turtle_datum) : string :=
  if path_slash d then String.append (path d) (String "/" (buffer d))
  else path d.

(** The client of a stack.  [tile] is the tile it has reserved. *)
Record turtle_client : Type := Client {
  tile : option addr;
  index_la : Z;
  index_lo : Z
}.

(** ** Creating a datum *)

(** [turtle_datum_create].  [malloc_ok] tells whether the allocation of the
    handle succeeds. *)
Definition turtle_datum_create (malloc_ok : bool) (path0 : string)
    (size : Z) (lock0 unlock0 : option turtle_datum_cb)
  : turtle_return * option turtle_datum :=
  (* Check the lock and unlock consistency. *)
  if (bool_decide (lock0 = None) && negb (bool_decide (unlock0 = None)))
     || (bool_decide (unlock0 = None) && negb (bool_decide (lock0 = None)))
  then (TURTLE_RETURN_BAD_ADDRESS, None)
  else
    (* Check the data format. *)
    let fmt :=
      if String.eqb (basename path0) "ASTGTM2" then DATUM_FORMAT_ASTER_GDEM2
      else DATUM_FORMAT_NONE in
    match fmt with
    | DATUM_FORMAT_NONE => (TURTLE_RETURN_BAD_FORMAT, None)
    | _ =>
        (* Allocate the new datum handle. *)
        if negb malloc_ok then (TURTLE_RETURN_MEMORY_ERROR, None)
        else
          (TURTLE_RETURN_SUCCESS,
           Some {| stack := None; stack_size := 0; max_size := size;
                   format := fmt; lock := lock0; unlock := unlock0;
                   path := path0;
                   path_slash :=
                     negb (bool_decide (last_char path0 = Some "/"%char));
                   buffer := EmptyString |})
    end.

(** ** The state and the monad of the routines *)

Record state : Type := State {
  heap : gmap addr datum_tile;        (* the allocated tiles *)
  datum : option turtle_datum;        (* the handle, [NULL] once destroyed *)
  handles : gmap positive turtle_client;  (* the allocated clients *)
  trace : list event                  (* the history, latest event first *)
}.

Definition M (A : Type) : Type := state -> option (A * state).

Definition ret {A} (a : A) : M A := fun s => Some (a, s).
Definition fault {A} : M A := fun _ => None.
Definition bind {A B} (m : M A) (k : A -> M B) : M B :=
  fun s => match m s with
           | Some (a, s') => k a s'
           | None => None
           end.

Declare Scope M_scope.
Delimit Scope M_scope with M.
Notation "x ← y ; z" := (bind y (fun x => z))
  (at level 20, y at level 100, z at level 200, only parsing) : M_scope.
Notation "' x ← y ; z" := (bind y (fun x => z))
  (at level 20, x pattern, y at level 100, z at level 200, only parsing)
  : M_scope.
Notation "x ;; z" := (bind x (fun _ => z))
  (at level 100, z at level 200, only parsing, right associativity)
  : M_scope.
Local Open Scope M_scope.

Definition get_heap : M (gmap addr datum_tile) := fun s => Some (heap s, s).
Definition set_heap (h : gmap addr datum_tile) : M unit :=
  fun s => Some (tt, State h (datum s) (handles s) (trace s)).
Definition set_datum (d : option turtle_datum) : M unit :=
  fun s => Some (tt, State (heap s) d (handles s) (trace s)).
Definition set_handles (c : gmap positive turtle_client) : M unit :=
  fun s => Some (tt, State (heap s) (datum s) c (trace s)).
Definition emit (e : event) : M unit :=
  fun s => Some (tt, State (heap s) (datum s) (handles s) (e :: trace s)).

(** [*datum]: a fault on [NULL]. *)
Definition get_datum : M turtle_datum :=
  fun s => match datum s with Some d => Some (d, s) | None => None end.
Definition put_datum (d : turtle_datum) : M unit := set_datum (Some d).

(** [*p] for a pointer to a tile: a fault on [NULL] and on a freed tile. *)
Definition deref (p : option addr) : M datum_tile :=
  fun s => match p with
           | Some a => match heap s !! a with
                       | Some t => Some (t, s)
                       | None => None
                       end
           | None => None
           end.

(** An assignment to fields of [*p]. *)
Definition update (p : option addr) (f : datum_tile -> datum_tile) : M unit :=
  t ← deref p;
  match p with
  | Some a => fun s => set_heap (<[a := f t]> (heap s)) s
  | None => fault
  end.

Definition set_prev (v : option addr) (t : datum_tile) : datum_tile :=
  Tile v (next t) (clients t) (nx t) (ny t) (x0 t) (y0 t) (dx t) (dy t) (z t).
Definition set_next (v : option addr) (t : datum_tile) : datum_tile :=
  Tile (prev t) v (clients t) (nx t) (ny t) (x0 t) (y0 t) (dx t) (dy t) (z t).
Definition set_clients (v : Z) (t : datum_tile) : datum_tile :=
  Tile (prev t) (next t) v (nx t) (ny t) (x0 t) (y0 t) (dx t) (dy t) (z t).

Definition set_stack (v : option addr) (d : turtle_datum) : turtle_datum :=
  Datum v (stack_size d) (max_size d) (format d) (lock d) (unlock d)
        (path d) (path_slash d) (buffer d).
Definition set_stack_size (v : Z) (d : turtle_datum) : turtle_datum :=
  Datum (stack d) v (max_size d) (format d) (lock d) (unlock d)
        (path d) (path_slash d) (buffer d).
Definition set_buffer (v : string) (d : turtle_datum) : turtle_datum :=
  Datum (stack d) (stack_size d) (max_size d) (format d) (lock d) (unlock d)
        (path d) (path_slash d) v.

(** [free(tile)]. *)
Definition free (a : addr) : M unit :=
  t ← deref (Some a);
  emit (Tile_freed a (clients t));;
  fun s => set_heap (delete a (heap s)) s.

(** A call of a callback that is not [NULL]. *)
Definition call (e : event) (cb : turtle_datum_cb) : M Z :=
  fun s => Some (cb (trace s), State (heap s) (datum s) (handles s)
                                     (e :: trace s)).

(** The bound on the number of iterations of a traversal. *)
Definition fuel : M nat := fun s => Some (S (size (heap s)), s).

(** ** Tile utility routines *)

(** [datum_tile_touch]: move a tile to the top of the stack. *)
Definition datum_tile_touch (a : addr) : M unit :=
  t ← deref (Some a);
  match next t with
  | None => ret tt (* Already on top. *)
  | Some n =>
      let p := prev t in
      update (Some n) (set_prev p);;
      (match p with
       | Some _ => update p (set_next (Some n))
       | None => ret tt
       end);;
      d ← get_datum;
      update (stack d) (set_next (Some a));;
      update (Some a) (set_prev (stack d));;
      update (Some a) (set_next None);;
      put_datum (set_stack (Some a) d)
  end.

(** [datum_tile_destroy]: remove a tile from the stack. *)
Definition datum_tile_destroy (a : addr) : M unit :=
  t ← deref (Some a);
  let p := prev t in
  let n := next t in
  (match p with
   | Some _ => update p (set_next n)
   | None => ret tt
   end);;
  (match n with
   | Some _ => update n (set_prev p)
   | None => d ← get_datum; put_datum (set_stack p d)
   end);;
  free a;;
  d ← get_datum;
  put_datum (set_stack_size (stack_size d - 1) d).

(** [datum_clear]: low level routine for cleaning the stack. *)
Fixpoint datum_clear_loop (n : nat) (force : bool) (p : option addr)
  : M unit :=
  match p with
  | None => ret tt
  | Some current =>
      match n with
      | O => fault
      | S n' =>
          t ← deref p;
          (if force || (clients t =? 0) then datum_tile_destroy current
           else ret tt);;
          datum_clear_loop n' force (prev t)
      end
  end.

Definition datum_clear (force : bool) : M unit :=
  d ← get_datum;
  n ← fuel;
  datum_clear_loop n force (stack d).

(** [turtle_datum_destroy]: destroy a datum and all its loaded tiles. *)
Definition turtle_datum_destroy : M unit :=
  fun s =>
    match datum s with
    | None => Some (tt, s)
    | Some _ => (datum_clear true ;; set_datum None) s
    end.

(** [(cb != NULL) && (cb() != 0)] for a callback [cb]. *)
Definition fails (e : event) (cb : option turtle_datum_cb) : M bool :=
  match cb with
  | Some f => r ← call e f; ret (negb (r =? 0))
  | None => ret false
  end.

(** [turtle_datum_clear]: clear the stack from unused tiles. *)
Definition turtle_datum_clear : M turtle_return :=
  d ← get_datum;
  ko ← fails Lock_called (lock d);
  if ko : bool then ret TURTLE_RETURN_LOCK_ERROR
  else
    (* Soft clean of the stack. *)
    datum_clear false;;
    d ← get_datum;
    ko ← fails Unlock_called (unlock d);
    if ko : bool then ret TURTLE_RETURN_UNLOCK_ERROR
    else ret TURTLE_RETURN_SUCCESS.

(** ** The error macros

    [error.h] and [turtle_return.h] are not among the sources.  Their macros
    report the error to the handler of the library, which is outside of this
    development, and return a code. *)

(** Modelled from the spec: [TURTLE_ERROR_MISSING_DATA], from [error.h], is
    the error of a missing tile, which Client elevation returns as
    [PathError] when no [inside] parameter was provided. *)
Definition TURTLE_ERROR_MISSING_DATA : turtle_return :=
  TURTLE_RETURN_PATH_ERROR.

(** Modelled from the spec: [TURTLE_ERROR_LOCK] and [TURTLE_ERROR_UNLOCK],
    from [error.h], surface [LockError] and [UnlockError]. *)
Definition TURTLE_ERROR_LOCK : turtle_return := TURTLE_RETURN_LOCK_ERROR.
Definition TURTLE_ERROR_UNLOCK : turtle_return := TURTLE_RETURN_UNLOCK_ERROR.

(** Modelled from the spec: [TURTLE_ERROR_MEMORY], from [error.h], is the
    [MemoryError] of a failed allocation. *)
Definition TURTLE_ERROR_MEMORY : turtle_return := TURTLE_RETURN_MEMORY_ERROR.

(** Modelled from the spec: [TURTLE_RETURN], [TURTLE_ERROR_MESSAGE] and
    [TURTLE_ERROR_UNEXPECTED], from [turtle_return.h] and [error.h], return
    the code they are given to the caller unchanged. *)
Definition TURTLE_RETURN (rc : turtle_return) : turtle_return := rc.
Definition TURTLE_ERROR_MESSAGE (rc : turtle_return) : turtle_return := rc.
Definition TURTLE_ERROR_UNEXPECTED (rc : turtle_return) : turtle_return := rc.

(** ** The reader of the tiles *)

(** What [geotiff16_open], [malloc] and [geotiff16_readinto] make of a file
    in [load_gdem2]. *)
Inductive geotiff16 : Type :=
  | No_file                                  (* the file cannot be opened *)
  | No_memory                                (* the tile cannot be allocated *)
  | Unreadable (width height : Z)            (* the samples cannot be read *)
  | Raster (width height : Z) (data : list Z).

Definition to_int (x : float) : M Z :=
  fun s => match int_of_double x with
           | Some n => Some (n, s)
           | None => None
           end.

(** [zm[i]] for the samples [zm] of a tile: a fault out of the array. *)
Definition sample (t : datum_tile) (i : Z) : M float :=
  fun s => if i <? 0 then None
           else match z t !! Z.to_nat i with
                | Some v => Some (double_of_int v, s)
                | None => None
                end.

(** [(hx >= 0.) && (hx <= tile->nx) && (hy >= 0.) && (hy <= tile->ny)] *)
Definition inside_tile (t : datum_tile) (hx hy : float) : bool :=
  ((0 <=? hx) && (hx <=? double_of_int (nx t)) &&
   (0 <=? hy) && (hy <=? double_of_int (ny t)))%float.

(** [(hx < 0.) || (hx > tile->nx) || (hy < 0.) || (hy > tile->ny)] *)
Definition outside_tile (t : datum_tile) (hx hy : float) : bool :=
  ((hx <? 0) || (double_of_int (nx t) <? hx) ||
   (hy <? 0) || (double_of_int (ny t) <? hy))%float.

(** The fractional coordinates of a point in the grid of a tile. *)
Definition grid_x (t : datum_tile) (longitude : float) : float :=
  ((longitude - x0 t) / dx t)%float.
Definition grid_y (t : datum_tile) (latitude : float) : float :=
  ((latitude - y0 t) / dy t)%float.

(** The block of [turtle_datum_elevation] under the comment [Interpolate
    the elevation], for the tile at [p], which is [datum->stack]. *)
Definition interpolate (p : option addr) (hx hy : float) : M float :=
  ix ← to_int hx;
  iy ← to_int hy;
  let hx := (hx - double_of_int ix)%float in
  let hy := (hy - double_of_int iy)%float in
  t ← deref p;
  let nx := nx t in
  let ny := ny t in
  let ix := if ix <? 0 then 0 else ix in
  let iy := if iy <? 0 then 0 else iy in
  let ix1 := if ix >=? nx - 1 then nx - 1 else ix + 1 in
  let iy1 := if iy >=? ny - 1 then ny - 1 else iy + 1 in
  z00 ← sample t (iy * nx + ix);
  z01 ← sample t (iy1 * nx + ix);
  z10 ← sample t (iy * nx + ix1);
  z11 ← sample t (iy1 * nx + ix1);
  ret (z00 * (1 - hx) * (1 - hy) + z01 * (1 - hx) * hy +
       z10 * hx * (1 - hy) + z11 * hx * hy)%float.

Section Stack.

(** The files of the file system, as the reader sees them. *)
Variable reader : string -> geotiff16.

(** [malloc] of a tile of [w] by [h] samples: a block that is not
    allocated yet, with no field initialised but those that [load_gdem2]
    sets. *)
Definition malloc_tile (w h : Z) (data : list Z) : M addr :=
  fun s =>
    let a := fresh (dom (heap s)) in
    Some (a, State (<[a := Tile None None 0 w h 0 0 0 0 data]> (heap s))
                   (datum s) (handles s) (trace s)).

(** [load_gdem2]: load ASTER-GDEM2 data to a tile. *)
Definition load_gdem2 (file : string)
  : M (turtle_return * option addr) :=
  emit (File_opened file);;
  match reader file with
  | No_file => ret (TURTLE_RETURN_PATH_ERROR, None)
  | No_memory => ret (TURTLE_RETURN_MEMORY_ERROR, None)
  | Unreadable w h =>
      a ← malloc_tile w h [];
      ret (TURTLE_RETURN_BAD_FORMAT, Some a)
  | Raster w h data =>
      a ← malloc_tile w h data;
      ret (TURTLE_RETURN_SUCCESS, Some a)
  end.

(** The name that [sprintf] writes to the buffer. *)
Definition gdem2_name (latitude longitude : Z) : string :=
  let absL := Z.abs latitude in
  let absl := Z.abs longitude in
  let cL := if latitude >=? 0 then "N"%char else "S"%char in
  let cl := if longitude >=? 0 then "E"%char else "W"%char in
  String.append "ASTGTM2_"
    (String cL (String.append (zero_pad 2 absL)
       (String cl (String.append (zero_pad 3 absl) "_dem.tif")))).

(** [while (last->prev != NULL) last = last->prev;] *)
Fixpoint last_tile (n : nat) (last : option addr) : M (option addr) :=
  match n with
  | O => fault
  | S n' =>
      t ← deref last;
      match prev t with
      | None => ret last
      | Some _ => last_tile n' (prev t)
      end
  end.

(** The second loop of [datum_tile_load], from the last tile upwards. *)
Fixpoint make_room (n : nat) (last : option addr) : M unit :=
  match last with
  | None => ret tt
  | Some current =>
      d ← get_datum;
      if stack_size d >=? max_size d then
        match n with
        | O => fault
        | S n' =>
            t ← deref last;
            (if clients t =? 0 then datum_tile_destroy current
             else ret tt);;
            make_room n' (next t)
        end
      else ret tt
  end.

(** The initialisation of the new tile in [datum_tile_load]. *)
Definition init_tile (latitude longitude : Z) (t : datum_tile)
  : datum_tile :=
  Tile (prev t) (next t) 0 (nx t) (ny t)
       (double_of_int longitude) (double_of_int latitude)
       (if nx t >? 1 then 1 / double_of_int (nx t - 1) else 0)%float
       (if ny t >? 1 then 1 / double_of_int (ny t - 1) else 0)%float
       (z t).

(** [datum_tile_load]: load a new tile and manage the stack. *)
Definition datum_tile_load (latitude longitude : Z) : M turtle_return :=
  d ← get_datum;
  match format d with
  | DATUM_FORMAT_ASTER_GDEM2 =>
      (* Format the path.  [abs] is [Z.abs]: C leaves [abs(INT_MIN)]
         undefined. *)
      let absL := Z.abs latitude in
      let absl := Z.abs longitude in
      if (absl >? 180) || (absL >? 89) then ret TURTLE_RETURN_DOMAIN_ERROR
      else
        put_datum (set_buffer (gdem2_name latitude longitude) d);;
        (* Load the tile data. *)
        d ← get_datum;
        '(rc, tile) ← load_gdem2 (path_string d);
        if negb (bool_decide (rc = TURTLE_RETURN_SUCCESS)) then ret rc
        else
          (* Initialise the new tile. *)
          update tile (init_tile latitude longitude);;
          (* Make room for the new tile, if needed. *)
          d ← get_datum;
          (if stack_size d >=? max_size d then
             n ← fuel;
             last ← last_tile n (stack d);
             make_room n last
           else ret tt);;
          (* Append the new tile on top of the stack. *)
          update tile (set_next None);;
          d ← get_datum;
          update tile (set_prev (stack d));;
          (match stack d with
           | Some _ => update (stack d) (set_next tile)
           | None => ret tt
           end);;
          put_datum (set_stack_size (stack_size d + 1) (set_stack tile d));;
          ret TURTLE_RETURN_SUCCESS
  | _ => ret TURTLE_RETURN_BAD_FORMAT
  end.

(** The loop of [turtle_datum_elevation] over the tiles below the top. *)
Fixpoint datum_find (n : nat) (latitude longitude : float)
    (p : option addr) : M (option (float * float)) :=
  match p with
  | None => ret None
  | Some a =>
      match n with
      | O => fault
      | S n' =>
          t ← deref p;
          let hx := grid_x t longitude in
          let hy := grid_y t latitude in
          if inside_tile t hx hy then
            (* Move the valid tile to the top of the stack. *)
            datum_tile_touch a;;
            ret (Some (hx, hy))
          else datum_find n' latitude longitude (prev t)
      end
  end.

(** [turtle_datum_elevation]: the elevation at the given geodetic
    coordinates.  The second component is the value written to
    [*elevation], if any. *)
Definition turtle_datum_elevation (latitude longitude : float)
  : M (turtle_return * option float) :=
  (* Get the proper tile. *)
  d ← get_datum;
  found ← match stack d with
          | Some _ =>
              (* First let's check the top of the stack. *)
              t ← deref (stack d);
              let hx := grid_x t longitude in
              let hy := grid_y t latitude in
              if outside_tile t hx hy then
                n ← fuel;
                datum_find n latitude longitude (prev t)
              else ret (Some (hx, hy))
          | None => ret None
          end;
  match found with
  | Some (hx, hy) =>
      d ← get_datum;
      v ← interpolate (stack d) hx hy;
      ret (TURTLE_RETURN_SUCCESS, Some v)
  | None =>
      (* No valid tile was found. Let's try to load it. *)
      la ← to_int latitude;
      lo ← to_int longitude;
      rc ← datum_tile_load la lo;
      if negb (bool_decide (rc = TURTLE_RETURN_SUCCESS))
      then ret (TURTLE_RETURN rc, None)
      else
        d ← get_datum;
        t ← deref (stack d);
        v ← interpolate (stack d) (grid_x t longitude) (grid_y t latitude);
        ret (TURTLE_RETURN_SUCCESS, Some v)
  end.

(** ** The client ([turtle_client.c])

    The client is written against [stack.h], which is not among the sources.
    Its stack is the datum of [turtle_datum.h]: [stack->head] and
    [stack->size] are [datum->stack] and [datum->stack_size], and its
    [tile_touch], [tile_destroy] and [tile_load] are [datum_tile_touch],
    [datum_tile_destroy] and [datum_tile_load]. *)

Definition get_client (c : positive) : M turtle_client :=
  fun s => match handles s !! c with
           | Some cl => Some (cl, s)
           | None => None
           end.
Definition put_client (c : positive) (cl : turtle_client) : M unit :=
  fun s => set_handles (<[c := cl]> (handles s)) s.

Definition set_tile (v : option addr) (cl : turtle_client) : turtle_client :=
  Client v (index_la cl) (index_lo cl).

(** [turtle_client_create]: create a new stack client.  [malloc_ok] tells
    whether the allocation succeeds; the result carries the new handle. *)
Definition turtle_client_create (malloc_ok : bool)
  : M (turtle_return * option positive) :=
  fun s =>
    (* Check that one has a valid stack. *)
    match datum s with
    | Some (Datum _ _ _ _ (Some _) _ _ _ _) =>
        (* Allocate the new client and initialise it. *)
        if negb malloc_ok then Some ((TURTLE_ERROR_MEMORY, None), s)
        else
          let c := fresh (dom (handles s)) in
          Some ((TURTLE_RETURN_SUCCESS, Some c),
                State (heap s) (datum s)
                      (<[c := Client None INT_MIN INT_MIN]> (handles s))
                      (trace s))
    | _ => Some ((TURTLE_ERROR_MESSAGE TURTLE_RETURN_BAD_ADDRESS, None), s)
    end.

(** [client_release]: release any active tile. *)
Definition client_release (c : positive) (lock0 : bool) : M turtle_return :=
  cl ← get_client c;
  match tile cl with
  | None => ret TURTLE_RETURN_SUCCESS
  | Some a =>
      (* Lock the stack. *)
      d ← get_datum;
      ko ← (if lock0 then fails Lock_called (lock d) else ret false);
      if ko : bool then ret TURTLE_RETURN_LOCK_ERROR
      else
        (* Update the reference count. *)
        put_client c (set_tile None cl);;
        t ← deref (Some a);
        update (Some a) (set_clients (clients t - 1));;
        rc ← (if clients t - 1 <? 0 then
                update (Some a) (set_clients 0);;
                ret TURTLE_RETURN_LIBRARY_ERROR
              else
                (* Remove the tile if it is unused and if there is a stack
                   overflow. *)
                d ← get_datum;
                (if (clients t - 1 =? 0) && (stack_size d >? max_size d)
                 then datum_tile_destroy a
                 else ret tt);;
                ret TURTLE_RETURN_SUCCESS);
        (* Unlock and return. *)
        d ← get_datum;
        ko ← (if lock0 then fails Unlock_called (unlock d) else ret false);
        if ko : bool then ret TURTLE_RETURN_UNLOCK_ERROR
        else ret rc
  end.

(** [turtle_client_destroy]: destroy a client.  [c] is [*client]. *)
Definition turtle_client_destroy (c : option positive) : M turtle_return :=
  match c with
  | None => ret TURTLE_RETURN_SUCCESS
  | Some c =>
      (* Release any active tile. *)
      rc ← client_release c true;
      if bool_decide (rc = TURTLE_RETURN_LOCK_ERROR)
      then ret TURTLE_ERROR_LOCK
      else if bool_decide (rc = TURTLE_RETURN_UNLOCK_ERROR)
      then ret TURTLE_ERROR_UNLOCK
      else
        (* Free the memory and return. *)
        (fun s => set_handles (delete c (handles s)) s);;
        ret TURTLE_RETURN_SUCCESS
  end.

(** [turtle_client_clear]: clear the client's memory. *)
Definition turtle_client_clear (c : positive) : M turtle_return :=
  rc ← client_release c true;
  if bool_decide (rc = TURTLE_RETURN_LOCK_ERROR)
  then ret TURTLE_ERROR_LOCK
  else if bool_decide (rc = TURTLE_RETURN_UNLOCK_ERROR)
  then ret TURTLE_ERROR_UNLOCK
  else ret TURTLE_RETURN_SUCCESS.

(** What [turtle_client_elevation] returns and what it has written to its
    two output parameters: [None] for [*elevation] left unwritten, and for
    [inside] when it is [NULL]. *)
Record elevation_result : Type := Result {
  rc : turtle_return;
  elevation : option float;
  inside : option Z
}.

(** [if (inside != NULL) *inside = v;] *)
Definition write_inside (has_inside : bool) (v : Z) : option Z :=
  if has_inside then Some v else None.

(** Modelled from the spec: [zm(tile, ix, iy)], the callback [tile->z] of
    [stack.h], returns the elevation at the grid node [(ix, iy)] of the
    tile.  It is the sample at [iy*nx+ix], which [turtle_datum_elevation]
    reads from the array of the tile. *)
Definition zm (t : datum_tile) (ix iy : Z) : M float :=
  sample t (iy * nx t + ix).

(** The label [interpolate] of [turtle_client_elevation]. *)
Definition elevation_interpolate (c : positive) (has_inside : bool)
    (hx hy : float) : M elevation_result :=
  ix ← to_int hx;
  iy ← to_int hy;
  let hx := (hx - double_of_int ix)%float in
  let hy := (hy - double_of_int iy)%float in
  cl ← get_client c;
  t ← deref (tile cl);
  let nx := nx t in
  let ny := ny t in
  let ix := if ix <? 0 then 0 else ix in
  let iy := if iy <? 0 then 0 else iy in
  let ix1 := if ix >=? nx - 1 then nx - 1 else ix + 1 in
  let iy1 := if iy >=? ny - 1 then ny - 1 else iy + 1 in
  z00 ← zm t ix iy;
  z01 ← zm t ix iy1;
  z10 ← zm t ix1 iy;
  z11 ← zm t ix1 iy1;
  ret (Result TURTLE_RETURN_SUCCESS
              (Some (z00 * (1 - hx) * (1 - hy) + z01 * (1 - hx) * hy +
                     z10 * hx * (1 - hy) + z11 * hx * hy)%float)
              (write_inside has_inside 1)).

(** How the part of [turtle_client_elevation] that precedes the label
    [interpolate] ends: with a [return], or at the label. *)
Inductive before_interpolate : Type :=
  | Return (r : elevation_result)
  | Goto_interpolate (hx hy : float).

(** The label [unlock]. *)
Definition elevation_unlock (has_inside : bool) (rc : turtle_return)
    (hx hy : float) : M before_interpolate :=
  d ← get_datum;
  ko ← fails Unlock_called (unlock d);
  if ko : bool then
    ret (Return (Result TURTLE_ERROR_UNLOCK None (write_inside has_inside 0)))
  else if negb (bool_decide (rc = TURTLE_RETURN_SUCCESS)) then
    (* *elevation = 0. *)
    let result code :=
      Return (Result code (Some 0%float) (write_inside has_inside 0)) in
    match rc with
    | TURTLE_RETURN_PATH_ERROR =>
        if has_inside then ret (result TURTLE_RETURN_SUCCESS)
        else ret (result TURTLE_ERROR_MISSING_DATA)
    | TURTLE_RETURN_LOCK_ERROR => ret (result TURTLE_ERROR_LOCK)
    | TURTLE_RETURN_UNLOCK_ERROR => ret (result TURTLE_ERROR_UNLOCK)
    | _ => ret (result (TURTLE_ERROR_UNEXPECTED rc))
    end
  else ret (Goto_interpolate hx hy).

(** The label [update]: [current] is the tile found or loaded. *)
Definition elevation_update (c : positive) (has_inside : bool)
    (current : option addr) (hx hy : float) : M before_interpolate :=
  rc ← client_release c false;
  if negb (bool_decide (rc = TURTLE_RETURN_SUCCESS))
  then elevation_unlock has_inside rc hx hy
  else
    t ← deref current;
    update current (set_clients (clients t + 1));;
    put_client c (Client current INT_MIN INT_MIN);;
    elevation_unlock has_inside TURTLE_RETURN_SUCCESS hx hy.

(** The loop over the full stack, which skips the tile of the client. *)
Fixpoint client_find (n : nat) (skip : option addr)
    (latitude longitude : float) (p : option addr)
  : M (option (addr * float * float)) :=
  match p with
  | None => ret None
  | Some a =>
      match n with
      | O => fault
      | S n' =>
          t ← deref p;
          if bool_decide (p = skip)
          then client_find n' skip latitude longitude (prev t)
          else
            let hx := grid_x t longitude in
            let hy := grid_y t latitude in
            if inside_tile t hx hy then
              datum_tile_touch a;;
              ret (Some (a, hx, hy))
            else client_find n' skip latitude longitude (prev t)
      end
  end.

(** The part of [turtle_client_elevation] under the comment [Lock the
    stack], down to the label [interpolate]. *)
Definition elevation_locked (c : positive) (latitude longitude : float)
    (has_inside : bool) : M before_interpolate :=
  cl ← get_client c;
  (* Lock the stack. *)
  d ← get_datum;
  ko ← fails Lock_called (lock d);
  if ko : bool then
    ret (Return (Result TURTLE_ERROR_LOCK None (write_inside has_inside 0)))
  else
    (* The requested coordinates are not in the current tile. Let's check
       the full stack. *)
    n ← fuel;
    found ← client_find n (tile cl) latitude longitude (stack d);
    match found with
    | Some (current, hx, hy) =>
        elevation_update c has_inside (Some current) hx hy
    | None =>
        (* No valid tile was found. Let's try to load it. *)
        la ← to_int latitude;
        lo ← to_int longitude;
        rc ← datum_tile_load la lo;
        if negb (bool_decide (rc = TURTLE_RETURN_SUCCESS)) then
          (* The requested tile is not available. Let's record this. *)
          client_release c false;;
          cl ← get_client c;
          put_client c (Client (tile cl) la lo);;
          elevation_unlock has_inside rc 0 0
        else
          d ← get_datum;
          t ← deref (stack d);
          elevation_update c has_inside (stack d)
            (grid_x t longitude) (grid_y t latitude)
    end.

(** The part of [turtle_client_elevation] that precedes the label
    [interpolate]. *)
Definition elevation_lookup (c : positive) (latitude longitude : float)
    (has_inside : bool) : M before_interpolate :=
  cl ← get_client c;
  (* Get the proper tile. *)
  match tile cl with
  | Some _ =>
      (* First let's check the current tile. *)
      t ← deref (tile cl);
      let hx := grid_x t longitude in
      let hy := grid_y t latitude in
      if inside_tile t hx hy then ret (Goto_interpolate hx hy)
      else elevation_locked c latitude longitude has_inside
  | None =>
      la ← to_int latitude;
      known ← (if la =? index_la cl then
                 lo ← to_int longitude;
                 ret (lo =? index_lo cl)
               else ret false);
      if known : bool then
        if has_inside then
          ret (Return (Result TURTLE_RETURN_SUCCESS None
                              (write_inside has_inside 0)))
        else
          ret (Return (Result TURTLE_ERROR_MISSING_DATA None
                              (write_inside has_inside 0)))
      else elevation_locked c latitude longitude has_inside
  end.

(** [turtle_client_elevation]: supervised access to the elevation data. *)
Definition turtle_client_elevation (c : positive)
    (latitude longitude : float) (has_inside : bool)
  : M elevation_result :=
  b ← elevation_lookup c latitude longitude has_inside;
  match b with
  | Return r => ret r
  | Goto_interpolate hx hy => elevation_interpolate c has_inside hx hy
  end.

End Stack.

(** ** Geodetic coordinates *)

(** [M_PI] of [math.h]. *)
Definition M_PI : float := 0x1.921fb54442d18p+1%float.

(** [get_ellipsoid]: the parameters [a] and [e] of the reference ellipsoid,
    [6378137.0] and [0.081819190842622] for the only format. *)
Definition get_ellipsoid (format : datum_format)
  : turtle_return * option (float * float) :=
  match format with
  | DATUM_FORMAT_NONE => (TURTLE_RETURN_BAD_FORMAT, None)
  | DATUM_FORMAT_ASTER_GDEM2 =>
      (TURTLE_RETURN_SUCCESS,
       Some (0x1.854a64p+22%float, 0x1.4f21a3cdaafbfp-4%float))
  end.

Section Geodetic.

(** The two functions of the C mathematical library that the conversion
    calls and that the primitive floats lack. *)
Variable atan : float → float.
Variable atan2 : float → float → float.

(** [turtle_datum_geodetic]: the geodetic coordinates from the ECEF ones,
    with the latitude, the longitude and the elevation that it writes. *)
Definition turtle_datum_geodetic (datum : turtle_datum)
    (ecef : float * float * float)
  : turtle_return * option (float * float * float) :=
  let '(ecef0, ecef1, ecef2) := ecef in
  (* Get the parameters of the reference ellipsoid. *)
  match get_ellipsoid (format datum) with
  | (TURTLE_RETURN_SUCCESS, Some (a, e)) =>
      let b2 := (a * a * (1 - e * e))%float in
      let b := PrimFloat.sqrt b2 in
      let eb2 := (e * e * a * a / b2)%float in
      (* Compute the geodetic coordinates. *)
      if ((ecef0 =? 0) && (ecef1 =? 0))%float then
        (TURTLE_RETURN_SUCCESS,
         Some ((if (0 <=? ecef2)%float then 90 else -90)%float,
               0%float,
               (PrimFloat.abs ecef2 - b)%float))
      else
        let longitude := (atan2 ecef1 ecef0 * 180 / M_PI)%float in
        let p2 := (ecef0 * ecef0 + ecef1 * ecef1)%float in
        let p := PrimFloat.sqrt p2 in
        if (ecef2 =? 0)%float then
          (TURTLE_RETURN_SUCCESS, Some (0%float, longitude, (p - a)%float))
        else
          let r := PrimFloat.sqrt (p2 + ecef2 * ecef2) in
          let tu := (b * ecef2 * (1 + eb2 * b / r) / (a * p))%float in
          let tu2 := (tu * tu)%float in
          let cu := (1 / PrimFloat.sqrt (1 + tu2))%float in
          let su := (cu * tu)%float in
          let tp := ((ecef2 + eb2 * b * su * su * su)
                     / (p - e * e * a * cu * cu * cu))%float in
          let latitude := (atan tp * 180 / M_PI)%float in
          let cp := (1 / PrimFloat.sqrt (1 + tp * tp))%float in
          let sp := (cp * tp)%float in
          (TURTLE_RETURN_SUCCESS,
           Some (latitude, longitude,
                 (p * cp + ecef2 * sp
                  - a * PrimFloat.sqrt (1 - e * e * sp * sp))%float))
  | (rc, _) => (TURTLE_RETURN rc, None)
  end.

End Geodetic.

(** ** The buffer of the names

    [buffer_size[DATUM_FORMAT_ASTER_GDEM2]] in [turtle_datum_create]: the
    number of bytes that follow the path in the handle, into which
    [datum_tile_load] prints the name of a tile. *)
Definition buffer_size : Z := 32.

(** ** The other conversions of [turtle_datum.c] *)

Section Geodesy.

(** The functions of the C mathematical library that the conversions call
    and that the primitive floats lack. *)
Variable sin : float → float.
Variable cos : float → float.
Variable asin : float → float.
Variable atan2 : float → float → float.

(** [turtle_datum_ecef]: the ECEF coordinates from the geodetic ones, with
    the three coordinates that it writes. *)
Definition turtle_datum_ecef (datum : turtle_datum)
    (latitude longitude elevation : float)
  : turtle_return * option (float * float * float) :=
  (* Get the parameters of the reference ellipsoid. *)
  match get_ellipsoid (format datum) with
  | (TURTLE_RETURN_SUCCESS, Some (a, e)) =>
      (* Compute the Cartesian coordinates. *)
      let s := sin (latitude * M_PI / 180)%float in
      let c := cos (latitude * M_PI / 180)%float in
      let R := (a / PrimFloat.sqrt (1 - e * e * s * s))%float in
      (TURTLE_RETURN_SUCCESS,
       Some ((R + elevation) * c * cos (longitude * M_PI / 180),
             (R + elevation) * c * sin (longitude * M_PI / 180),
             (R * (1 - e * e) + elevation) * s)%float)
  | (rc, _) => (TURTLE_RETURN rc, None)
  end.

(** [compute_enu]: the local East, North, Up basis vectors. *)
Definition compute_enu (latitude longitude : float)
  : (float * float * float) * (float * float * float)
    * (float * float * float) :=
  let lambda := (longitude * M_PI / 180)%float in
  let phi := (latitude * M_PI / 180)%float in
  let sl := sin lambda in
  let cl := cos lambda in
  let sp := sin phi in
  let cp := cos phi in
  ((PrimFloat.opp sl, cl, 0%float),
   ((PrimFloat.opp cl * sp)%float, (PrimFloat.opp sl * sp)%float, cp),
   ((cl * cp)%float, (sl * cp)%float, sp)).

(** [turtle_datum_direction]: the direction vector in ECEF from the
    horizontal coordinates. *)
Definition turtle_datum_direction (datum : turtle_datum)
    (latitude longitude azimuth elevation : float)
  : turtle_return * option (float * float * float) :=
  (* Sanity check. *)
  match format datum with
  | DATUM_FORMAT_NONE => (TURTLE_RETURN TURTLE_RETURN_BAD_FORMAT, None)
  | _ =>
      (* Compute the local E, N, U basis vectors. *)
      let '((e0, e1, e2), (n0, n1, n2), (u0, u1, u2)) :=
        compute_enu latitude longitude in
      (* Project on the E,N,U basis. *)
      let az := (azimuth * M_PI / 180)%float in
      let el := (elevation * M_PI / 180)%float in
      let ce := cos el in
      let r0 := (ce * sin az)%float in
      let r1 := (ce * cos az)%float in
      let r2 := sin el in
      (TURTLE_RETURN_SUCCESS,
       Some (r0 * e0 + r1 * n0 + r2 * u0,
             r0 * e1 + r1 * n1 + r2 * u1,
             r0 * e2 + r1 * n2 + r2 * u2)%float)
  end.

(** [turtle_datum_horizontal]: the horizontal coordinates of a direction
    vector in ECEF, with the azimuth and the elevation that it writes. *)
Definition turtle_datum_horizontal (datum : turtle_datum)
    (latitude longitude : float) (direction : float * float * float)
  : turtle_return * option (float * float) :=
  let '(d0, d1, d2) := direction in
  (* Sanity check. *)
  match format datum with
  | DATUM_FORMAT_NONE => (TURTLE_RETURN TURTLE_RETURN_BAD_FORMAT, None)
  | _ =>
      (* Compute the local E, N, U basis vectors. *)
      let '((e0, e1, e2), (n0, n1, n2), (u0, u1, u2)) :=
        compute_enu latitude longitude in
      (* Project on the E,N,U basis. *)
      let x := (e0 * d0 + e1 * d1 + e2 * d2)%float in
      let y := (n0 * d0 + n1 * d1 + n2 * d2)%float in
      let z := (u0 * d0 + u1 * d1 + u2 * d2)%float in
      let r := (d0 * d0 + d1 * d1 + d2 * d2)%float in
      if (r <=? 0)%float
      then (TURTLE_RETURN TURTLE_RETURN_DOMAIN_ERROR, None)
      else
        let r := PrimFloat.sqrt r in
        (TURTLE_RETURN_SUCCESS,
         Some (atan2 x y * 180 / M_PI, asin (z / r) * 180 / M_PI)%float)
  end.

End Geodesy.

(** ** The reader of GeoTIFF files ([geotiff16.c])

    [turtle/io.h] and [tiffio.h] are not among the sources.  The structures
    below have the fields that [geotiff16.c] uses.  The TIFF library is the
    environment: a file is what the library tells of it, and the files that
    [TIFFOpen] has opened and [TIFFClose] has not closed are kept in a
    table. *)

Module Geotiff16.

(** The types of projection other than [PROJECTION_NONE] stand as one. *)
Inductive projection_type : Type :=
  | PROJECTION_NONE
  | PROJECTION_OTHER.

(** [io->meta], with [projection] for [projection.type]. *)
Record turtle_meta : Type := Meta {
  nx : Z;
  ny : Z;
  x0 : float;
  y0 : float;
  dx : float;
  dy : float;
  z0 : float;
  dz : float;
  projection : projection_type
}.

(** A TIFF file of 16 bit samples, as the library presents it: the tag
    [TIFFTAG_IMAGELENGTH], the number of samples of a scanline, of which
    [TIFFScanlineSize] is the double, the values of the tags
    [TIFFTAG_GEOPIXELSCALE] and [TIFFTAG_GEOTIEPOINTS] when they are
    present, and the samples that [TIFFReadScanline] writes for a row,
    unless it fails. *)
Record tiff_file : Type := Tiff {
  image_length : Z;
  scanline_samples : Z;
  pixel_scale : option (list float);
  tie_points : option (list float);
  scanline : Z → option (list Z)
}.

(** The file system and the table of the open files. *)
Record world : Type := World {
  files : string → option tiff_file;
  opened : gmap positive tiff_file
}.

(** [struct geotiff16_io]: [meta] is [base.meta]. *)
Record geotiff16_io : Type := Io {
  meta : turtle_meta;
  tiff : option positive;
  path : option string
}.

(** [struct turtle_map]: its meta data and its samples, which are
    [uint16_t]. *)
Record turtle_map : Type := Map {
  map_meta : turtle_meta;
  data : list Z
}.

(** [geotiff16_close] *)
Definition geotiff16_close (io : geotiff16_io) (w : world)
  : geotiff16_io * world :=
  match tiff io with
  | Some h => (Io (meta io) None None, World (files w) (delete h (opened w)))
  | None => (io, w)
  end.

(** [TIFFGetField] for a tag with a count: [count] and [data] are written
    when the tag is present. *)
Definition get_field (tag : option (list float))
    (count : Z) (data : list float) : Z * list float :=
  match tag with
  | Some l => (Z.of_nat (length l), l)
  | None => (count, data)
  end.

(** [data[i]] *)
Definition at_index (data : list float) (i : nat) : float :=
  default 0%float (data !! i).

(** [geotiff16_open]: [TURTLE_ERROR_VREGISTER] registers a message and
    gives the code that it is given. *)
Definition geotiff16_open (io : geotiff16_io) (path0 mode : string)
    (w : world) : turtle_return * geotiff16_io * world :=
  let '(io, w) :=
    match tiff io with
    | None => geotiff16_close io w
    | Some _ => (io, w)
    end in
  match mode with
  | String "r"%char _ =>
      (* Initialise the io object *)
      let m := Meta 0 0 0 0 0 0 (-32767) 1 PROJECTION_NONE in
      (* Open the TIFF file *)
      match files w path0 with
      | None => (TURTLE_RETURN_PATH_ERROR, Io m None (path io), w)
      | Some f =>
          let h := fresh (dom (opened w)) in
          let w := World (files w) (<[h := f]> (opened w)) in
          (* Initialise the new io and return *)
          let height := image_length f in
          let m := Meta (nx m) height (x0 m) (y0 m) (dx m) (dy m)
                        (z0 m) (dz m) (projection m) in
          let size := 2 * scanline_samples f in
          let m := Meta (size ÷ 2) (ny m) (x0 m) (y0 m) (dx m) (dy m)
                        (z0 m) (dz m) (projection m) in
          let '(count, data) := get_field (pixel_scale f) 0 [] in
          let m :=
            if count =? 3
            then Meta (nx m) (ny m) (x0 m) (y0 m)
                      (at_index data 0) (at_index data 1)
                      (z0 m) (dz m) (projection m)
            else m in
          let '(count, data) := get_field (tie_points f) count data in
          let m :=
            if count =? 6
            then Meta (nx m) (ny m) (at_index data 3)
                      (at_index data 4 + (1 - double_of_int (ny m)) * dy m)
                      (dx m) (dy m) (z0 m) (dz m) (projection m)
            else m in
          (TURTLE_RETURN_SUCCESS, Io m (Some h) (Some path0), w)
      end
  | _ =>
      (* Write mode is not yet implemented *)
      (TURTLE_RETURN_BAD_FORMAT, io, w)
  end.

(** [(int16_t)v] for a [uint16_t], and [(uint16_t)v] for an [int16_t]. *)
Definition int16_of_uint16 (v : Z) : Z :=
  if v <? 2 ^ 15 then v else v - 2 ^ 16.
Definition uint16_of_int16 (v : Z) : Z := v mod 2 ^ 16.

(** [get_z]: a fault out of the samples. *)
Definition get_z (map : turtle_map) (ix iy : Z) : option float :=
  let i := iy * nx (map_meta map) + ix in
  if i <? 0 then None
  else match data map !! Z.to_nat i with
       | Some v => Some (double_of_int (int16_of_uint16 v))
       | None => None
       end.

(** [set_z]: a fault out of the samples, and for a [z] whose integral part
    is not an [int16_t]. *)
Definition set_z (map : turtle_map) (ix iy : Z) (z : float)
  : option turtle_map :=
  let i := iy * nx (map_meta map) + ix in
  match int_of_double z with
  | Some v =>
      if (i <? 0) || (Z.of_nat (length (data map)) <=? i)
         || (v <? - 2 ^ 15) || (2 ^ 15 <=? v)
      then None
      else Some (Map (map_meta map)
                     (<[Z.to_nat i := uint16_of_int16 v]> (data map)))
  | None => None
  end.

(** What [TIFFReadScanline] does to the samples from [buffer] on, [buffer]
    being [off] samples after the start of [data]: a fault if the row does
    not fit. *)
Definition write_row (off : Z) (row : list Z) (data : list Z)
  : option (list Z) :=
  if (off <? 0) || (Z.of_nat (length data) <? off + Z.of_nat (length row))
  then None
  else Some (take (Z.to_nat off) data ++ row
             ++ drop (Z.to_nat off + length row) data).

(** The loop of [geotiff16_read], with [n] rows to go from the row [i],
    which goes [off] samples after the start of the map. *)
Fixpoint read_rows (f : tiff_file) (width : Z) (n : nat) (i off : Z)
    (data : list Z) : option (turtle_return * list Z) :=
  match n with
  | O => Some (TURTLE_RETURN_SUCCESS, data)
  | S n' =>
      match scanline f i with
      | None => Some (TURTLE_RETURN_BAD_FORMAT, data)
      | Some row =>
          match write_row off row data with
          | Some data' => read_rows f width n' (i + 1) (off - width) data'
          | None => None
          end
      end
  end.

(** [geotiff16_read]: a fault for a file that is not open, if there is a
    row to read. *)
Definition geotiff16_read (io : geotiff16_io) (map : turtle_map) (w : world)
  : option (turtle_return * turtle_map) :=
  (* Unpack the data *)
  let width := nx (meta io) in
  let height := ny (meta io) in
  if height <=? 0 then Some (TURTLE_RETURN_SUCCESS, map)
  else
    match tiff io with
    | Some h =>
        match opened w !! h with
        | Some f =>
            match read_rows f width (Z.to_nat height) 0
                            (width * (height - 1)) (data map) with
            | Some (rc, data') => Some (rc, Map (map_meta map) data')
            | None => None
            end
        | None => None
        end
    | None => None
    end.

(** [turtle_io_geotiff16_create_]: [malloc_ok] tells whether the allocation
    succeeds; [memset] leaves every number at zero. *)
Definition turtle_io_geotiff16_create_ (malloc_ok : bool)
  : turtle_return * option geotiff16_io :=
  if negb malloc_ok then (TURTLE_RETURN_MEMORY_ERROR, None)
  else (TURTLE_RETURN_SUCCESS,
        Some (Io (Meta 0 0 0 0 0 0 0 0 PROJECTION_NONE) None None)).

End Geotiff16.

(** ** The errors of the library ([error.c])

    [error.h] is not among the sources.  The context of an error has the
    fields that [error.c] uses.  A string is either a literal of the
    program or a block of the heap, which holds the messages that [malloc]
    has returned and [free] has not released.  A function of the library is
    known by its name. *)

Module Error.

Inductive pointer : Type :=
  | Literal (text : string)
  | Block (a : positive).

(** [struct turtle_error_context] *)
Record turtle_error_context : Type := Context {
  function : string;
  code : turtle_return;
  file : string;
  line : Z;
  message : option pointer;
  dynamic : bool
}.

(** The handlers: [handle_error], which prints the message and exits, and
    the handlers of the users of the library, which return. *)
Inductive turtle_error_handler_t : Type :=
  | handle_error
  | user_handler.

(** A call of the handler. *)
Record report : Type := Report {
  report_code : turtle_return;
  report_function : string;
  report_message : string
}.

(** [_handler], the heap and the calls of the handler, latest first. *)
Record state : Type := State {
  _handler : option turtle_error_handler_t;
  messages : gmap positive string;
  reports : list report
}.

(** The state in which a program starts: [_handler] is [&handle_error]. *)
Definition initial : state := State (Some handle_error) ∅ [].

(** [turtle_error_handler_get] and [turtle_error_handler_set] *)
Definition turtle_error_handler_get (st : state)
  : option turtle_error_handler_t := _handler st.

Definition turtle_error_handler_set
    (handler : option turtle_error_handler_t) (st : state) : state :=
  State handler (messages st) (reports st).

(** [free(p)]: a fault for a literal and for a block that is not
    allocated. *)
Definition free (p : pointer) (st : state) : option state :=
  match p with
  | Block a =>
      match messages st !! a with
      | Some _ => Some (State (_handler st) (delete a (messages st))
                              (reports st))
      | None => None
      end
  | Literal _ => None
  end.

(** The string at [p]: a fault for a block that is not allocated. *)
Definition string_at (p : option pointer) (st : state) : option string :=
  match p with
  | Some (Literal text) => Some text
  | Some (Block a) => messages st !! a
  | None => None
  end.

(** [if (error_->dynamic && (error_->message != NULL)) { free(...);
    error_->message = NULL; }] *)
Definition release_message (error_ : turtle_error_context) (st : state)
  : option (turtle_error_context * state) :=
  match dynamic error_, message error_ with
  | true, Some p =>
      match free p st with
      | Some st' =>
          Some (Context (function error_) (code error_) (file error_)
                        (line error_) None (dynamic error_), st')
      | None => None
      end
  | _, _ => Some (error_, st)
  end.

(** [turtle_error_message_]: set a static error. *)
Definition turtle_error_message_ (error_ : turtle_error_context)
    (rc : turtle_return) (file0 : string) (line0 : Z) (message0 : string)
    (st : state) : option (turtle_return * turtle_error_context * state) :=
  let error_ := Context (function error_) rc (file error_) (line error_)
                        (message error_) (dynamic error_) in
  if bool_decide (_handler st = None)
     || bool_decide (rc = TURTLE_RETURN_SUCCESS)
  then Some (rc, error_, st)
  else
    let error_ := Context (function error_) (code error_) file0 line0
                          (message error_) (dynamic error_) in
    match release_message error_ st with
    | Some (error_, st) =>
        let error_ := Context (function error_) (code error_) (file error_)
                              (line error_) (Some (Literal message0))
                              false in
        Some (code error_, error_, st)
    | None => None
    end.

(** [turtle_error_format_]: format an error.  [text] is what [vsprintf]
    makes of the format and of its arguments, and [malloc_ok] tells whether
    the allocation of the message succeeds. *)
Definition turtle_error_format_ (error_ : turtle_error_context)
    (rc : turtle_return) (file0 : string) (line0 : Z) (text : string)
    (malloc_ok : bool) (st : state)
  : option (turtle_return * turtle_error_context * state) :=
  let error_ := Context (function error_) rc (file error_) (line error_)
                        (message error_) (dynamic error_) in
  if bool_decide (_handler st = None)
     || bool_decide (rc = TURTLE_RETURN_SUCCESS)
  then Some (rc, error_, st)
  else
    let error_ := Context (function error_) (code error_) file0 line0
                          (message error_) (dynamic error_) in
    (* Allocate memory on the heap for the error message *)
    match release_message error_ st with
    | Some (error_, st) =>
        if negb malloc_ok then
          (* Fallback message *)
          Some (rc,
                Context (function error_) (code error_) (file error_)
                        (line error_)
                        (Some (Literal
                                 "unknown error (could not allocate memory)"))
                        false,
                st)
        else
          let a := fresh (dom (messages st)) in
          (* Fill the error message and return *)
          Some (code error_,
                Context (function error_) (code error_) (file error_)
                        (line error_) (Some (Block a)) true,
                State (_handler st) (<[a := text]> (messages st))
                      (reports st))
    | None => None
    end.

(** The functions of the library that [turtle_error_function] knows. *)
Definition known_functions : list string :=
  [ "turtle_client_clear"; "turtle_client_create"; "turtle_client_destroy";
    "turtle_client_elevation";
    "turtle_ecef_from_geodetic"; "turtle_ecef_from_horizontal";
    "turtle_ecef_to_geodetic"; "turtle_ecef_to_horizontal";
    "turtle_error_function"; "turtle_error_handler_get";
    "turtle_error_handler_set";
    "turtle_map_create"; "turtle_map_destroy"; "turtle_map_dump";
    "turtle_map_elevation"; "turtle_map_fill"; "turtle_map_load";
    "turtle_map_meta"; "turtle_map_node"; "turtle_map_projection";
    "turtle_projection_configure"; "turtle_projection_create";
    "turtle_projection_destroy"; "turtle_projection_name";
    "turtle_projection_project"; "turtle_projection_unproject";
    "turtle_stack_clear"; "turtle_stack_create"; "turtle_stack_destroy";
    "turtle_stack_elevation"; "turtle_stack_load";
    "turtle_stepper_add_flat"; "turtle_stepper_add_layer";
    "turtle_stepper_add_map"; "turtle_stepper_add_stack";
    "turtle_stepper_create"; "turtle_stepper_destroy";
    "turtle_stepper_geoid_get"; "turtle_stepper_geoid_set";
    "turtle_stepper_range_get"; "turtle_stepper_range_set";
    "turtle_stepper_position"; "turtle_stepper_step" ]%string.

(** [turtle_error_function]: the name of a function of the library, [NULL]
    for any other function. *)
Definition turtle_error_function (caller : string) : option string :=
  if bool_decide (caller ∈ known_functions) then Some caller else None.

(** The number of a code, and [%d]. *)
Definition code_number (rc : turtle_return) : Z :=
  match rc with
  | TURTLE_RETURN_SUCCESS => 0
  | TURTLE_RETURN_BAD_ADDRESS => 1
  | TURTLE_RETURN_BAD_EXTENSION => 2
  | TURTLE_RETURN_BAD_FORMAT => 3
  | TURTLE_RETURN_BAD_PROJECTION => 4
  | TURTLE_RETURN_BAD_JSON => 5
  | TURTLE_RETURN_DOMAIN_ERROR => 6
  | TURTLE_RETURN_LIBRARY_ERROR => 7
  | TURTLE_RETURN_LOCK_ERROR => 8
  | TURTLE_RETURN_MEMORY_ERROR => 9
  | TURTLE_RETURN_PATH_ERROR => 10
  | TURTLE_RETURN_UNLOCK_ERROR => 11
  end.

Definition decimal (n : Z) : string := NilZero.string_of_int (Z.to_int n).

(** ["{ %s [#%d], %s:%d } "]: a fault for a name that is [NULL]. *)
Definition header (error_ : turtle_error_context) : option string :=
  match turtle_error_function (function error_) with
  | Some name =>
      Some ("{ " ++ name ++ " [#" ++ decimal (code_number (code error_))
            ++ "], " ++ file error_ ++ ":" ++ decimal (line error_)
            ++ " } ")%string
  | None => None
  end.

(** How [turtle_error_raise_] ends: it returns a code, or the handler has
    ended the program. *)
Inductive outcome : Type :=
  | Returns (rc : turtle_return)
  | Exits.

(** [turtle_error_raise_]: handle an error. *)
Definition turtle_error_raise_ (error_ : turtle_error_context) (st : state)
  : option (outcome * turtle_error_context * state) :=
  match _handler st with
  | None => Some (Returns (code error_), error_, st)
  | Some handler =>
      if bool_decide (code error_ = TURTLE_RETURN_SUCCESS)
      then Some (Returns (code error_), error_, st)
      else
        (* Format the error message on the stack *)
        match header error_, string_at (message error_) st with
        | Some head, Some text =>
            let message0 := (head ++ text)%string in
            (* Free any dynamic memory *)
            let freed :=
              if dynamic error_ then
                match message error_ with
                | Some p =>
                    match free p st with
                    | Some st' =>
                        Some (Context (function error_) (code error_)
                                      (file error_) (line error_)
                                      (message error_) false, st')
                    | None => None
                    end
                | None =>
                    Some (Context (function error_) (code error_)
                                  (file error_) (line error_)
                                  (message error_) false, st)
                end
              else Some (error_, st) in
            match freed with
            | Some (error_, st) =>
                (* Call the library error handler *)
                let st := State (_handler st) (messages st)
                                (Report (code error_) (function error_)
                                        message0 :: reports st) in
                match handler with
                | handle_error => Some (Exits, error_, st)
                | user_handler => Some (Returns (code error_), error_, st)
                end
            | None => None
            end
        | _, _ => None
        end
  end.

End Error.

(** * The words of the invariants and of the specification *)

(** ** The tiles of a stack *)

(** The tile above position [i] in the list [l] of a stack, from the top. *)
Definition above (l : list addr) (i : nat) : option addr :=
  match i with
  | O => None
  | S j => l !! j
  end.

(** The tiles of [l] are linked in the heap [h], top first. *)
Record dll (h : gmap addr datum_tile) (l : list addr) : Prop := Dll {
  dll_nodup : NoDup l;
  dll_links : ∀ i a, l !! i = Some a →
    ∃ t, h !! a = Some t ∧ prev t = l !! S i ∧ next t = above l i
}.

(** A tile without its links. *)
Definition erase (t : datum_tile) : datum_tile :=
  set_prev None (set_next None t).

(** The heap after [datum_tile_destroy]. *)
Definition unlink (h : gmap addr datum_tile) (t : datum_tile)
  : gmap addr datum_tile :=
  let h1 := match prev t with
            | Some p =>
                match h !! p with
                | Some tp => <[p := set_next (next t) tp]> h
                | None => h
                end
            | None => h
            end in
  match next t with
  | Some n =>
      match h1 !! n with
      | Some tn => <[n := set_prev (prev t) tn]> h1
      | None => h1
      end
  | None => h1
  end.

(** The heap after [datum_tile_touch] of a tile that is not on top. *)
Definition relink (h : gmap addr datum_tile) (top : addr) (a : addr)
    (t : datum_tile) : gmap addr datum_tile :=
  let h1 := unlink h t in
  let h2 := match h1 !! top with
            | Some t0 => <[top := set_next (Some a) t0]> h1
            | None => h1
            end in
  <[a := set_next None (set_prev (Some top) t)]> h2.

(** The heap after the new tile [a] is put on top of the stack. *)
Definition push_heap (h : gmap addr datum_tile) (l : list addr) (a : addr)
    (t : datum_tile) : gmap addr datum_tile :=
  let h1 := <[a := set_prev (head l) (set_next None t)]> h in
  match head l with
  | Some top =>
      match h1 !! top with
      | Some t0 => <[top := set_next (Some a) t0]> h1
      | None => h1
      end
  | None => h1
  end.

(** The block that [load_gdem2] allocates. *)
Definition new_tile (w h : Z) (data : list Z) : datum_tile :=
  Tile None None 0 w h 0 0 0 0 data.

(** The reference count of the tile at [b]. *)
Definition pins (h : gmap addr datum_tile) (b : addr) : Z :=
  match h !! b with
  | Some t => clients t
  | None => 0
  end.

(** The fields of a datum that the routines on tiles leave alone. *)
Definition static (d : turtle_datum) :=
  (max_size d, format d, lock d, unlock d, path d, path_slash d, buffer d).

(** The fields of a datum that never change. *)
Definition settings (d : turtle_datum) :=
  (max_size d, format d, lock d, unlock d, path d, path_slash d).

(** The stack of [s] holds the tiles of [l], top first. *)
Definition rep (s : state) (l : list addr) : Prop :=
  ∃ d, datum s = Some d ∧ stack d = l !! 0%nat
       ∧ stack_size d = Z.of_nat (length l) ∧ dll (heap s) l.

(** What a routine on the tiles of a stack may do: the stack goes from the
    tiles [l] to tiles [l'] among them; the tiles that stay keep their
    data; the tiles that leave are freed; nothing else changes. *)
Record stack_step (s s' : state) (l l' : list addr) : Prop := Stack_step {
  st_rep : rep s' l';
  st_sub : ∀ b, b ∈ l' → b ∈ l;
  st_payload : ∀ b, b ∈ l' → erase <$> heap s' !! b = erase <$> heap s !! b;
  st_frame : ∀ b, b ∉ l → heap s' !! b = heap s !! b;
  st_handles : handles s' = handles s;
  st_static : static <$> datum s' = static <$> datum s;
  st_trace : ∃ evs, trace s' = evs ++ trace s ∧
     ∀ e, e ∈ evs → ∃ b, e = Tile_freed b (pins (heap s) b) ∧ b ∈ l ∧ b ∉ l'
}.

(** The tiles that [datum_clear] keeps. *)
Definition in_use (h : gmap addr datum_tile) (force : bool) (b : addr)
  : Prop :=
  force = false ∧ pins h b ≠ 0.

#[global] Instance in_use_dec h force b : Decision (in_use h force b).
Proof. unfold in_use. apply _. Defined.

(** The tiles that remain when the tiles of [rl], the stack from its last
    tile upwards, are scanned for room: a tile is removed if it has no
    client, as long as the stack holds [max] tiles or more. *)
Fixpoint scan (pin : addr → Z) (max size : Z) (rl : list addr)
  : list addr :=
  match rl with
  | [] => []
  | a :: rl' =>
      if size >=? max then
        if pin a =? 0 then scan pin max (size - 1) rl'
        else a :: scan pin max size rl'
      else rl
  end.

(** ** Reference counts *)

(** A client holds the tile at [a]. *)
Definition pinning (a : addr) (kv : positive * turtle_client) : Prop :=
  tile kv.2 = Some a.

#[global] Instance pinning_dec a kv : Decision (pinning a kv).
Proof. unfold pinning. apply _. Defined.

(** The number of clients whose tile is the tile at [a]. *)
Definition pinned_by (cs : gmap positive turtle_client) (a : addr) : nat :=
  size (filter (pinning a) cs).

Definition one_if (P : Prop) `{Decision P} : nat := if decide P then 1 else 0.

(** Pin accounting: the reference count of each tile of the stack is the
    number of clients that hold it, and clients hold tiles of the stack. *)
Definition pin_accounting (s : state) (l : list addr) : Prop :=
  (∀ a, a ∈ l → pins (heap s) a = Z.of_nat (pinned_by (handles s) a))
  ∧ (∀ c cl a, handles s !! c = Some cl → tile cl = Some a → a ∈ l).

(** The well-formed states. *)
Definition good (s : state) (l : list addr) : Prop :=
  rep s l ∧ pin_accounting s l.

Definition wf (s : state) : Prop := ∃ l, good s l.

(** The stack is within its bound, the tile [cur] aside: it holds no more
    tiles than its maximal size, or its other tiles are all in use. *)
Definition within (s : state) (l : list addr) (cur : option addr) : Prop :=
  ∃ d, datum s = Some d ∧
       (Z.of_nat (length l) <= max_size d
        ∨ ∀ b, b ∈ l → Some b ≠ cur → 0 < pins (heap s) b).

(** The events that free no tile in use. *)
Definition harmless (e : event) : Prop :=
  match e with
  | Tile_freed _ n => n = 0
  | _ => True
  end.

(** The events other than the calls of the reader: they free no tile in
    use. *)
Definition quiet (e : event) : Prop :=
  match e with
  | File_opened _ => False
  | Tile_freed _ n => n = 0
  | _ => True
  end.

(** ** The outcomes of the routines *)

Definition cb_fails (cb : option turtle_datum_cb) (tr : list event) : bool :=
  match cb with
  | Some f => negb (f tr =? 0)
  | None => false
  end.

Definition cb_trace (e : event) (cb : option turtle_datum_cb)
    (tr : list event) : list event :=
  match cb with
  | Some _ => e :: tr
  | None => tr
  end.

(** The state once the lock callback has been called. *)
Definition locked (s : state) (d : turtle_datum) : state :=
  State (heap s) (datum s) (handles s)
        (cb_trace Lock_called (lock d) (trace s)).

(** The state in which the client [c] has given up its tile [a]. *)
Definition released (s : state) (c : positive) (cl : turtle_client)
    (a : addr) (t : datum_tile) : state :=
  State (<[a := set_clients (clients t - 1) t]> (heap s)) (datum s)
        (<[c := set_tile None cl]> (handles s)) (trace s).

(** The state in which the count of the tile at [a] was found negative and
    set to zero. *)
Definition snapped (s : state) (c : positive) (cl : turtle_client)
    (a : addr) (t : datum_tile) : state :=
  State (<[a := set_clients 0 t]> (heap s)) (datum s)
        (<[c := set_tile None cl]> (handles s)) (trace s).

(** The state in which the client [c] has taken the tile at [a]. *)
Definition taken (s : state) (c : positive) (a : addr) (t : datum_tile)
  : state :=
  State (<[a := set_clients (clients t + 1) t]> (heap s)) (datum s)
        (<[c := Client (Some a) INT_MIN INT_MIN]> (handles s)) (trace s).

(** What [client_release], without the lock, makes of a well-formed
    state. *)
Record release_post (s s' : state) (l l' : list addr) (c : positive)
    (cl : turtle_client) : Prop := Release_post {
  rp_good : good s' l';
  rp_handles : handles s' = <[c := set_tile None cl]> (handles s);
  rp_sub : ∀ b, b ∈ l' → b ∈ l;
  rp_keep : ∀ b, b ∈ l → Some b ≠ tile cl →
    b ∈ l' ∧ erase <$> heap s' !! b = erase <$> heap s !! b;
  rp_frame : ∀ b, b ∉ l → heap s' !! b = heap s !! b;
  rp_trace : ∃ evs, trace s' = evs ++ trace s
                    ∧ Forall (λ e, ∃ b, e = Tile_freed b 0) evs;
  rp_static : static <$> datum s' = static <$> datum s;
  rp_within : ∀ cur, within s l cur → within s' l' cur;
  rp_own : ∀ a, tile cl = Some a → a ∈ l' →
    pins (heap s') a = pins (heap s) a - 1
}.

(** What every operation but the destruction of the stack guarantees. *)
Record op_post (s s' : state) (l' : list addr) : Prop := Op_post {
  op_good : good s' l';
  op_trace : ∃ evs, trace s' = evs ++ trace s ∧ Forall harmless evs;
  op_settings : settings <$> datum s' = settings <$> datum s
}.

(** The code that [load_gdem2] returns for a file. *)
Definition load_code (f : geotiff16) : turtle_return :=
  match f with
  | No_file => TURTLE_RETURN_PATH_ERROR
  | No_memory => TURTLE_RETURN_MEMORY_ERROR
  | Unreadable _ _ => TURTLE_RETURN_BAD_FORMAT
  | Raster _ _ _ => TURTLE_RETURN_SUCCESS
  end.

(** The code that a failure to get the tile becomes after the stack is
    unlocked. *)
Definition demote (rc : turtle_return) (has_inside : bool) : turtle_return :=
  match rc with
  | TURTLE_RETURN_PATH_ERROR =>
      if has_inside then TURTLE_RETURN_SUCCESS else TURTLE_RETURN_PATH_ERROR
  | _ => rc
  end.

(** The outcome of the label [unlock], given whether the callback failed. *)
Definition unlock_result (has_inside : bool) (rc : turtle_return)
    (hx hy : float) (failed : bool) : before_interpolate :=
  if failed then
    Return (Result TURTLE_RETURN_UNLOCK_ERROR None (write_inside has_inside 0))
  else if bool_decide (rc = TURTLE_RETURN_SUCCESS) then Goto_interpolate hx hy
  else Return (Result (demote rc has_inside) (Some 0%float)
                      (write_inside has_inside 0)).

Section Outcomes.

Variable reader : string → geotiff16.

(** The events of a call: they free no tile in use, and the files that
    the reader was called for gave the code [rc]. *)
Definition event_of (rc : turtle_return) (e : event) : Prop :=
  match e with
  | File_opened f => load_code (reader f) = rc
  | Tile_freed _ n => n = 0
  | _ => True
  end.

(** How the locked part of [turtle_client_elevation] ends. *)
Inductive locked_case (c : positive) (cl : turtle_client)
    (lat lon : float) (hi : bool) (s : state) (d : turtle_datum)
  : before_interpolate → state → Prop :=
  | Lock_failed :
      cb_fails (lock d) (trace s) = true →
      locked_case c cl lat lon hi s d
        (Return (Result TURTLE_RETURN_LOCK_ERROR None (write_inside hi 0)))
        (locked s d)
  | Tile_taken a hx hy s' evs :
      cb_fails (lock d) (trace s) = false →
      tile cl ≠ Some a →
      handles s' = <[c := Client (Some a) INT_MIN INT_MIN]> (handles s) →
      is_Some (heap s' !! a) →
      pins (heap s') a = pins (heap s) a + 1 →
      trace s'
      = cb_trace Unlock_called (unlock d) (evs ++ trace (locked s d)) →
      Forall (event_of TURTLE_RETURN_SUCCESS) evs →
      locked_case c cl lat lon hi s d
        (unlock_result hi TURTLE_RETURN_SUCCESS hx hy
           (cb_fails (unlock d) (evs ++ trace (locked s d))))
        s'
  | No_tile rc la lo s' evs :
      cb_fails (lock d) (trace s) = false →
      rc ≠ TURTLE_RETURN_SUCCESS →
      int_of_double lat = Some la → int_of_double lon = Some lo →
      handles s' = <[c := Client None la lo]> (handles s) →
      trace s'
      = cb_trace Unlock_called (unlock d) (evs ++ trace (locked s d)) →
      Forall (event_of rc) evs →
      locked_case c cl lat lon hi s d
        (unlock_result hi rc 0 0
           (cb_fails (unlock d) (evs ++ trace (locked s d))))
        s'.

(** How the part of [turtle_client_elevation] that precedes the label
    [interpolate] ends. *)
Inductive lookup_case (c : positive) (cl : turtle_client)
    (lat lon : float) (hi : bool) (s : state) (d : turtle_datum)
  : before_interpolate → state → Prop :=
  | In_tile a t :
      tile cl = Some a → heap s !! a = Some t →
      inside_tile t (grid_x t lon) (grid_y t lat) = true →
      lookup_case c cl lat lon hi s d
        (Goto_interpolate (grid_x t lon) (grid_y t lat)) s
  | Missing :
      tile cl = None →
      int_of_double lat = Some (index_la cl) →
      int_of_double lon = Some (index_lo cl) →
      lookup_case c cl lat lon hi s d
        (Return (Result (if hi then TURTLE_RETURN_SUCCESS
                         else TURTLE_RETURN_PATH_ERROR)
                        None (write_inside hi 0))) s
  | Looked_up b s' :
      (tile cl = None →
       ¬ (int_of_double lat = Some (index_la cl)
          ∧ int_of_double lon = Some (index_lo cl))) →
      locked_case c cl lat lon hi s d b s' →
      lookup_case c cl lat lon hi s d b s'.

End Outcomes.

(** The computations that leave the state as it is. *)
Definition reads {A} (m : M A) : Prop :=
  ∀ s a s', m s = Some (a, s') → s' = s.

(** ** The operations *)

(** The functions of the library on a stack and its clients, with the two
    internal routines that the invariants of the stack speak of. *)
Inductive operation : Type :=
  | Datum_clear
  | Datum_destroy
  | Datum_elevation (latitude longitude : float)
  | Tile_load (latitude longitude : Z)
  | Client_create (malloc_ok : bool)
  | Client_destroy (c : option positive)
  | Client_clear (c : positive)
  | Client_elevation (c : positive) (latitude longitude : float)
                     (has_inside : bool)
  | Client_release (c : positive) (lock0 : bool).

#[global] Instance operation_eq_dec_destroy (o : operation) :
  Decision (o = Datum_destroy).
Proof. destruct o; first [now left | now right]. Defined.

(** A computation run for its effect. *)
Definition void {A} (m : M A) : M unit := bind m (fun _ => ret tt).

(** The operations that run the loader of the tiles. *)
Definition loads (o : operation) : bool :=
  match o with
  | Datum_elevation _ _ | Tile_load _ _ => true
  | _ => false
  end.

Section Operations.

Variable reader : string → geotiff16.

Definition run (o : operation) : M unit :=
  match o with
  | Datum_clear => void turtle_datum_clear
  | Datum_destroy => turtle_datum_destroy
  | Datum_elevation lat lon => void (turtle_datum_elevation reader lat lon)
  | Tile_load la lo => void (datum_tile_load reader la lo)
  | Client_create ok => void (turtle_client_create ok)
  | Client_destroy c => void (turtle_client_destroy c)
  | Client_clear c => void (turtle_client_clear c)
  | Client_elevation c lat lon hi =>
      void (turtle_client_elevation reader c lat lon hi)
  | Client_release c lock0 => void (client_release c lock0)
  end.

End Operations.

(** The state of a stack that [turtle_datum_create] has just returned. *)
Definition created (d : turtle_datum) : state := State ∅ (Some d) ∅ [].

Section Sequences.

Variable reader : string → geotiff16.

(** The state after a sequence of operations, if they all return. *)
Fixpoint runs (os : list operation) (s : state) : option state :=
  match os with
  | [] => Some s
  | o :: os' =>
      match run reader o s with
      | Some (_, s') => runs os' s'
      | None => None
      end
  end.

End Sequences.

(** The state of [runs], or the initial state if they do not all return. *)
Definition after (reader : string → geotiff16) (os : list operation)
    (d : turtle_datum) : state :=
  default (created d) (runs reader os (created d)).

(** ** The words of the specification *)

(** [⌊x⌋] for a double [x]: the largest integer that is at most [x]. *)
Definition floor_of_double (x : float) : option Z :=
  match Prim2SF x with
  | S754_zero _ => Some 0
  | S754_finite s m e => Some (Z.shiftl (if s then Z.neg m else Z.pos m) e)
  | _ => None
  end.

(** [clamp(v, lo, hi)] *)
Definition clamp (v lo hi : Z) : Z := Z.max lo (Z.min v hi).

(** The bilinear interpolation of the specification inside a tile:
    [ix = clamp(⌊hx⌋, 0, nx−1)], [ix1 = min(ix+1, nx−1)], [fx = hx − ix],
    and the same along [y];
    [z = z(ix,iy)·(1−fx)(1−fy) + z(ix,iy1)·(1−fx)fy + z(ix1,iy)·fx(1−fy)
         + z(ix1,iy1)·fx·fy]. *)
Definition node (t : datum_tile) (ix iy : Z) : option float :=
  double_of_int <$> z t !! Z.to_nat (iy * nx t + ix).

Definition bilinear (t : datum_tile) (hx hy : float) : option float :=
  match floor_of_double hx, floor_of_double hy with
  | Some kx, Some ky =>
      let ix := clamp kx 0 (nx t - 1) in
      let iy := clamp ky 0 (ny t - 1) in
      let ix1 := Z.min (ix + 1) (nx t - 1) in
      let iy1 := Z.min (iy + 1) (ny t - 1) in
      let fx := (hx - double_of_int ix)%float in
      let fy := (hy - double_of_int iy)%float in
      match node t ix iy, node t ix iy1, node t ix1 iy, node t ix1 iy1 with
      | Some z00, Some z01, Some z10, Some z11 =>
          Some (z00 * (1 - fx) * (1 - fy) + z01 * (1 - fx) * fy +
                z10 * fx * (1 - fy) + z11 * fx * fy)%float
      | _, _, _, _ => None
      end
  | _, _ => None
  end.

(** The name of a tile of ASTER-GDEM2:
    [ASTGTM2_{N|S}{LL:02}{E|W}{LLL:03}_dem.tif]. *)
Definition digit (n : Z) : ascii := ascii_of_nat (48 + Z.to_nat n).

Definition two_digits (n : Z) : string :=
  String (digit (n / 10)) (String (digit (n mod 10)) "").

Definition three_digits (n : Z) : string :=
  String (digit (n / 100)) (two_digits (n mod 100)).

Definition aster_name (latitude longitude : Z) : string :=
  String.append "ASTGTM2_"
    (String.append (if 0 <=? latitude then "N" else "S")
       (String.append (two_digits (Z.abs latitude))
          (String.append (if 0 <=? longitude then "E" else "W")
             (String.append (three_digits (Z.abs longitude)) "_dem.tif")))).

(** Exactly one of the two callbacks is given. *)
Definition one_callback (lock0 unlock0 : option turtle_datum_cb) : bool :=
  match lock0, unlock0 with
  | Some _, None | None, Some _ => true
  | _, _ => false
  end.

(** The call of [turtle_client_elevation] is suppressed: it returns [SUCCESS]
    with [inside = 0], or [PATH_ERROR] when [inside] is not asked for, and
    leaves the state alone: no callback is called and no file is opened. *)
Definition suppressed (has_inside : bool) (s : state)
    (res : option (elevation_result * state)) : Prop :=
  ∃ r, res = Some (r, s)
       ∧ rc r = (if has_inside then TURTLE_RETURN_SUCCESS
                 else TURTLE_RETURN_PATH_ERROR)
       ∧ inside r = write_inside has_inside 0.

(** Known-missing suppression, for a conversion [conv] of the coordinates
    to integer degrees. *)
Definition known_missing (conv : float → option Z) : Prop :=
  ∀ reader s c cl lat lon hi,
    handles s !! c = Some cl → tile cl = None →
    conv lat = Some (index_la cl) → conv lon = Some (index_lo cl) →
    suppressed hi s (turtle_client_elevation reader c lat lon hi s).

(** The tiles freed from [s] to [s'] had no client when they were freed. *)
Definition frees_only_unused (s s' : state) : Prop :=
  ∃ evs, trace s' = evs ++ trace s ∧ ∀ a n, Tile_freed a n ∈ evs → n = 0.

(** The soft bound of the stack: its size is at most the larger of its
    maximal size and of the number of its tiles in use, [k] more tiles
    allowed. *)
Definition in_use_count (s : state) (l : list addr) : Z :=
  Z.of_nat (length (filter (λ b, 0 < pins (heap s) b) l)).

Definition soft_bound_plus (k : Z) (s : state) (l : list addr) : Prop :=
  ∃ d, datum s = Some d
       ∧ stack_size d <= Z.max (max_size d) (in_use_count s l + k).

Definition soft_bound : state → list addr → Prop := soft_bound_plus 0.

(** ** A checker of the well-formed states *)

Definition linked (h : gmap addr datum_tile) (l : list addr) (i : nat)
  : bool :=
  match l !! i with
  | Some a =>
      match h !! a with
      | Some t =>
          bool_decide (prev t = l !! S i) && bool_decide (next t = above l i)
      | None => false
      end
  | None => true
  end.

Definition dllb (h : gmap addr datum_tile) (l : list addr) : bool :=
  bool_decide (NoDup l) && forallb (linked h l) (seq 0 (length l)).

Definition repb (s : state) (l : list addr) : bool :=
  match datum s with
  | Some d =>
      bool_decide (stack d = l !! 0%nat)
      && (stack_size d =? Z.of_nat (length l))
      && dllb (heap s) l
  | None => false
  end.

Definition holds_tile_of (l : list addr) (kv : positive * turtle_client)
  : bool :=
  match tile kv.2 with
  | Some a => bool_decide (a ∈ l)
  | None => true
  end.

Definition pin_accountingb (s : state) (l : list addr) : bool :=
  forallb (λ a, pins (heap s) a =? Z.of_nat (pinned_by (handles s) a)) l
  && forallb (holds_tile_of l) (map_to_list (handles s)).

Definition goodb (s : state) (l : list addr) : bool :=
  repb s l && pin_accountingb s l.

(** ** Examples of callbacks, files and states *)

(** A callback that always answers [n]. *)
Definition always (n : Z) : turtle_datum_cb := λ _, n.

(** A file system in which every file is a raster of [w] by [h] samples,
    and one with no file. *)
Definition every_file (w h : Z) (data : list Z) : string → geotiff16 :=
  λ _, Raster w h data.

Definition no_file : string → geotiff16 := λ _, No_file.

(** A stack of one tile at most, with callbacks that succeed. *)
Definition small_datum : turtle_datum :=
  Datum None 0 1 DATUM_FORMAT_ASTER_GDEM2 (Some (always 0)) (Some (always 0))
        "data/ASTGTM2" true "".

(** The same with an unlock callback that fails. *)
Definition stuck_datum : turtle_datum :=
  Datum None 0 1 DATUM_FORMAT_ASTER_GDEM2 (Some (always 0)) (Some (always 1))
        "data/ASTGTM2" true "".

(** A client has asked for the elevation in a tile of 2 by 2 samples, and
    holds this tile. *)
Definition one_pinned : state :=
  after (every_file 2 2 [10; 20; 30; 40])
        [Client_create true; Client_elevation 1 0.5 0.5 true] small_datum.

(** A tile that nobody holds is in the stack, which is full. *)
Definition one_unused : state :=
  after (every_file 2 2 [10; 20; 30; 40]) [Datum_elevation 0.5 0.5]
        small_datum.

(** A state in which a client holds a tile whose count of clients is zero:
    a client has taken a tile, and the count of the tile is set to zero.
    The unlock callback of the stack fails. *)
Definition miscounted : state :=
  let s := after (every_file 2 2 [10; 20; 30; 40])
                 [Client_create true; Client_elevation 1 0.5 0.5 true]
                 stuck_datum in
  State (set_clients 0 <$> heap s) (datum s) (handles s) (trace s).

(** A tile of 3 by 3 samples at the origin, whose samples are their own
    indices; the stack that holds it; and a client that holds it. *)
Definition ramp : list Z := [0; 1; 2; 3; 4; 5; 6; 7; 8].

Definition ramp_tile : datum_tile := Tile None None 0 3 3 0 0 0.5 0.5 ramp.

Definition ramp_stack : state :=
  after (every_file 3 3 ramp) [Datum_elevation 0.5 0.5] small_datum.

Definition ramp_client : state :=
  after (every_file 3 3 ramp)
        [Client_create true; Client_elevation 1 0.5 0.5 true] small_datum.

(** ** The words of the other properties *)

(** A stack of four tiles at most, with callbacks that succeed. *)
Definition wide_datum : turtle_datum :=
  Datum None 0 4 DATUM_FORMAT_ASTER_GDEM2 (Some (always 0)) (Some (always 0))
        "data/ASTGTM2" true "".

(** Two tiles of 2 by 2 samples are in the stack, and nobody holds them. *)
Definition two_tiles : state :=
  after (every_file 2 2 [10; 20; 30; 40]) [Tile_load 0 0; Tile_load 1 1]
        wide_datum.

(** Two tiles are in the stack: a client holds the older one, nobody holds
    the one on top. *)
Definition one_of_two : state :=
  after (every_file 2 2 [10; 20; 30; 40])
        [Client_create true; Client_elevation 1 0.5 0.5 true; Tile_load 1 1]
        wide_datum.

(** A file system in which every file opens and none can be read. *)
Definition unreadable_file (w h : Z) : string → geotiff16 :=
  λ _, Unreadable w h.

(** A stack of no tile at most. *)
Definition no_room_datum : turtle_datum :=
  Datum None 0 0 DATUM_FORMAT_ASTER_GDEM2 None None "data/ASTGTM2" true "".

(** The callbacks of a handle. *)
Definition callbacks (d : turtle_datum)
  : option turtle_datum_cb * option turtle_datum_cb :=
  (lock d, unlock d).

(** The events that are calls of a callback. *)
Definition is_call (e : event) : bool :=
  match e with
  | Lock_called | Unlock_called => true
  | _ => false
  end.

(** A computation that calls no callback: from a state whose handle has the
    callbacks [cbs], it leads to such a state, and none of its events is a
    call. *)
Definition calm (cbs : option turtle_datum_cb * option turtle_datum_cb)
    {A} (m : M A) : Prop :=
  ∀ s a s', callbacks <$> datum s = Some cbs → m s = Some (a, s') →
    callbacks <$> datum s' = Some cbs
    ∧ ∃ evs, trace s' = evs ++ trace s
             ∧ Forall (λ e, is_call e = false) evs.

(** A computation that calls the unlock callback once, at its end, and no
    other callback; [failed] is what it returns when the callback fails. *)
Definition unlocking (cbs : option turtle_datum_cb * option turtle_datum_cb)
    {A} (m : M A) (failed : A → Prop) : Prop :=
  ∀ s a s', callbacks <$> datum s = Some cbs → m s = Some (a, s') →
    ∃ evs, Forall (λ e, is_call e = false) evs
           ∧ trace s' = cb_trace Unlock_called cbs.2 (evs ++ trace s)
           ∧ (cb_fails cbs.2 (evs ++ trace s) = true → failed a).

(** A TIFF file of two scanlines of two samples, without tags; the same
    with a second scanline that cannot be read; and an io that holds the
    first one open, with a map of two by two samples. *)
Definition two_rows : Geotiff16.tiff_file :=
  Geotiff16.Tiff 2 2 None None
    (λ i, if i =? 0 then Some [1; 2] else if i =? 1 then Some [3; 65535]
          else None).

Definition torn_rows : Geotiff16.tiff_file :=
  Geotiff16.Tiff 2 2 None None (λ i, if i =? 0 then Some [1; 2] else None).

Definition two_by_two : Geotiff16.turtle_meta :=
  Geotiff16.Meta 2 2 0 0 0 0 (-32767) 1 Geotiff16.PROJECTION_NONE.

Definition open_io : Geotiff16.geotiff16_io :=
  Geotiff16.Io two_by_two (Some 1%positive) (Some "tile.tif"%string).

Definition blank_map : Geotiff16.turtle_map :=
  Geotiff16.Map two_by_two [0; 0; 0; 0].

Definition one_open (f : Geotiff16.tiff_file) : Geotiff16.world :=
  Geotiff16.World (λ _, Some f) {[1%positive := f]}.

(** The context of an error owns the heap of the messages: the heap holds
    the message of the context when it is dynamic, and nothing else. *)
Definition owns (error_ : Error.turtle_error_context) (st : Error.state)
  : Prop :=
  if Error.dynamic error_ then
    ∃ a text, Error.message error_ = Some (Error.Block a)
              ∧ Error.messages st = {[a := text]}
  else Error.messages st = ∅.

(** A context without an error, for [turtle_stack_load]. *)
Definition no_error : Error.turtle_error_context :=
  Error.Context "turtle_stack_load" TURTLE_RETURN_SUCCESS "" 0 None false.

(** The state of a program that has set a handler that returns, and the
    context and the state once the error of a file that cannot be read has
    been registered for [turtle_stack_load]. *)
Definition handled : Error.state :=
  Error.State (Some Error.user_handler) ∅ [].

Definition read_error : Error.turtle_error_context :=
  Error.Context "turtle_stack_load" TURTLE_RETURN_BAD_FORMAT "geotiff16.c"
                164 (Some (Error.Block 1)) true.

Definition read_error_state : Error.state :=
  Error.State (Some Error.user_handler)
              {[1%positive := "a libtiff error occured"%string]} [].

(** * The properties of the program *)

(** ** Linked lists of tiles *)

Lemma erase_set_prev v t : erase (set_prev v t) = erase t.
Proof. reflexivity. Qed.

Lemma erase_set_next v t : erase (set_next v t) = erase t.
Proof. reflexivity. Qed.

Lemma bind_eq {A B} (m : M A) (k : A → M B) s a s' :
  m s = Some (a, s') → bind m k s = k a s'.
Proof. unfold bind. now intros ->. Qed.

Lemma bind_Some_inv {A B} (m : M A) (k : A → M B) s r :
  bind m k s = Some r → ∃ a s1, m s = Some (a, s1) ∧ k a s1 = Some r.
Proof.
  unfold bind. destruct (m s) as [[a s1]|]; [|done]. eauto.
Qed.

Lemma deref_eq s a t :
  heap s !! a = Some t → deref (Some a) s = Some (t, s).
Proof. unfold deref. now intros ->. Qed.

Lemma update_eq s a t f :
  heap s !! a = Some t →
  update (Some a) f s
  = Some (tt, State (<[a := f t]> (heap s)) (datum s) (handles s) (trace s)).
Proof.
  intros H. unfold update.
  rewrite (bind_eq _ _ _ _ _ (deref_eq _ _ _ H)). reflexivity.
Qed.

Lemma dll_lookup_inj h l i j a :
  dll h l → l !! i = Some a → l !! j = Some a → i = j.
Proof. intros [Hnd _]. eapply NoDup_lookup; eauto. Qed.

Ltac solve_lookup :=
  repeat case_decide; simplify_eq;
  repeat first
    [ rewrite lookup_insert_eq
    | rewrite lookup_insert_ne by congruence
    | rewrite lookup_delete_eq
    | rewrite lookup_delete_ne by congruence ];
  repeat match goal with
         | H : ?m !! ?k = _ |- context [?m !! ?k] => rewrite H
         end;
  simpl; try congruence; auto.

Lemma unlink_lookup h l i a t b :
  dll h l → l !! i = Some a → h !! a = Some t →
  unlink h t !! b =
    if decide (Some b = prev t) then set_next (next t) <$> h !! b
    else if decide (Some b = next t) then set_prev (prev t) <$> h !! b
    else h !! b.
Proof.
  intros Hd Hi Ha.
  destruct (dll_links _ _ Hd _ _ Hi) as (t' & Ht' & Hp & Hn).
  rewrite Ha in Ht'. injection Ht' as <-.
  assert (Hpn : ∀ x, prev t = Some x → next t = Some x → False).
  { intros x H1 H2. rewrite Hp in H1. rewrite Hn in H2.
    destruct i as [|i]; [discriminate|]. simpl in H2.
    pose proof (dll_lookup_inj _ _ _ _ _ Hd H1 H2). lia. }
  unfold unlink.
  destruct (prev t) as [p|] eqn:Ep.
  - destruct (dll_links _ _ Hd (S i) p) as (tp & Htp & _); [congruence|].
    rewrite Htp.
    destruct (next t) as [n|] eqn:En.
    + assert (n ≠ p) by (intros ->; eauto).
      destruct i as [|i]; [discriminate|]. simpl in Hn.
      destruct (dll_links _ _ Hd i n) as (tn & Htn & _); [congruence|].
      rewrite lookup_insert_ne by congruence. rewrite Htn.
      solve_lookup.
    + solve_lookup.
  - destruct (next t) as [n|] eqn:En.
    + destruct i as [|i]; [discriminate|]. simpl in Hn.
      destruct (dll_links _ _ Hd i n) as (tn & Htn & _); [congruence|].
      rewrite Htn.
      solve_lookup.
    + solve_lookup.
Qed.

Lemma above_delete_lt l i j : (j <= i)%nat → above (delete i l) j = above l j.
Proof.
  destruct j as [|j]; [reflexivity|]. simpl. intros H.
  apply list_lookup_delete_lt. lia.
Qed.

Lemma above_delete_gt l i j : (i < j)%nat → above (delete i l) j = l !! j.
Proof.
  destruct j as [|j]; [lia|]. simpl. intros H.
  apply list_lookup_delete_ge. lia.
Qed.

Lemma unlink_links h l i a t j b :
  dll h l → l !! i = Some a → h !! a = Some t →
  delete i l !! j = Some b →
  b ≠ a ∧
  ∃ tb, unlink h t !! b = Some tb ∧ prev tb = delete i l !! S j
        ∧ next tb = above (delete i l) j.
Proof.
  intros Hd Hi Ha Hj.
  destruct (dll_links _ _ Hd _ _ Hi) as (t' & Ht' & Hp & Hn).
  rewrite Ha in Ht'. injection Ht' as <-.
  destruct (decide (j < i)%nat) as [Hlt|Hge].
  + rewrite list_lookup_delete_lt in Hj by done.
    destruct (dll_links _ _ Hd _ _ Hj) as (tb & Htb & Hpb & Hnb).
    assert (b ≠ a).
    { intros ->. pose proof (dll_lookup_inj _ _ _ _ _ Hd Hi Hj). lia. }
    split; [done|].
    rewrite (unlink_lookup _ _ _ _ _ _ Hd Hi Ha).
    rewrite above_delete_lt by lia.
    case_decide as E1.
    { rewrite Hp in E1. symmetry in E1.
      pose proof (dll_lookup_inj _ _ _ _ _ Hd E1 Hj). lia. }
    case_decide as E2.
    * rewrite Hn in E2. destruct i as [|i]; [discriminate|]. simpl in E2.
      symmetry in E2.
      pose proof (dll_lookup_inj _ _ _ _ _ Hd E2 Hj). subst j.
      rewrite Htb. simpl. eexists; split; [reflexivity|]. simpl.
      rewrite list_lookup_delete_ge by lia. split; [congruence|done].
    * rewrite Htb. eexists; split; [reflexivity|].
      split; [|done]. rewrite Hpb.
      destruct (decide (S j < i)%nat).
      -- now rewrite list_lookup_delete_lt.
      -- exfalso. assert (S j = i) by lia. subst i.
         apply E2. rewrite Hn. simpl. done.
  + rewrite list_lookup_delete_ge in Hj by lia.
    destruct (dll_links _ _ Hd _ _ Hj) as (tb & Htb & Hpb & Hnb).
    assert (b ≠ a).
    { intros ->. pose proof (dll_lookup_inj _ _ _ _ _ Hd Hi Hj). lia. }
    split; [done|].
    rewrite (unlink_lookup _ _ _ _ _ _ Hd Hi Ha).
    rewrite list_lookup_delete_ge by lia.
    case_decide as E1.
    * rewrite Hp in E1. symmetry in E1.
      pose proof (dll_lookup_inj _ _ _ _ _ Hd E1 Hj).
      assert (j = i) by lia. subst j.
      rewrite Htb. simpl. eexists; split; [reflexivity|]. simpl.
      split; [done|]. rewrite Hn. now rewrite above_delete_lt.
    * case_decide as E2.
      { rewrite Hn in E2. destruct i as [|i]; [discriminate|]. simpl in E2.
        symmetry in E2.
        pose proof (dll_lookup_inj _ _ _ _ _ Hd E2 Hj). lia. }
      rewrite Htb. eexists; split; [reflexivity|].
      split; [done|]. rewrite Hnb. simpl.
      destruct (decide (j = i)).
      -- subst j. exfalso. apply E1. congruence.
      -- rewrite above_delete_gt by lia. done.
Qed.

Lemma NoDup_list_delete (l : list addr) i : NoDup l → NoDup (delete i l).
Proof. intros H. eapply sublist_NoDup; [apply H|apply sublist_delete]. Qed.

Lemma dll_unlink h l i a t :
  dll h l → l !! i = Some a → h !! a = Some t →
  dll (delete a (unlink h t)) (delete i l).
Proof.
  intros Hd Hi Ha. split.
  - apply NoDup_list_delete, Hd.
  - intros j b Hj.
    destruct (unlink_links _ _ _ _ _ _ _ Hd Hi Ha Hj) as (Hne & tb & H1 & H2).
    exists tb. now rewrite lookup_delete_ne.
Qed.

Lemma set_stack_id d : set_stack (stack d) d = d.
Proof. now destruct d. Qed.

Lemma unlink_erase h l i a t b :
  dll h l → l !! i = Some a → h !! a = Some t →
  erase <$> unlink h t !! b = erase <$> h !! b.
Proof.
  intros Hd Hi Ha. rewrite (unlink_lookup _ _ _ _ _ _ Hd Hi Ha).
  repeat case_decide; destruct (h !! b); reflexivity.
Qed.

Lemma unlink_self h l i a t :
  dll h l → l !! i = Some a → h !! a = Some t → unlink h t !! a = Some t.
Proof.
  intros Hd Hi Ha. rewrite (unlink_lookup _ _ _ _ _ _ Hd Hi Ha).
  destruct (dll_links _ _ Hd _ _ Hi) as (t' & Ht' & Hp & Hn).
  rewrite Ha in Ht'. injection Ht' as <-.
  case_decide as E1.
  { rewrite Hp in E1. symmetry in E1.
    pose proof (dll_lookup_inj _ _ _ _ _ Hd E1 Hi). lia. }
  case_decide as E2; [|done].
  rewrite Hn in E2. destruct i as [|i]; [discriminate|]. simpl in E2.
  symmetry in E2. pose proof (dll_lookup_inj _ _ _ _ _ Hd E2 Hi). lia.
Qed.

Lemma deref_State h d c tr a t :
  h !! a = Some t →
  deref (Some a) (State h d c tr) = Some (t, State h d c tr).
Proof. unfold deref. simpl. now intros ->. Qed.

Lemma update_State h d c tr a t f :
  h !! a = Some t →
  update (Some a) f (State h d c tr)
  = Some (tt, State (<[a := f t]> h) d c tr).
Proof.
  intros H. unfold update.
  rewrite (bind_eq _ _ _ _ _ (deref_State _ _ _ _ _ _ H)). reflexivity.
Qed.

Lemma get_datum_State h d c tr :
  get_datum (State h (Some d) c tr) = Some (d, State h (Some d) c tr).
Proof. reflexivity. Qed.

Lemma put_datum_State h d0 d c tr :
  put_datum d (State h d0 c tr) = Some (tt, State h (Some d) c tr).
Proof. reflexivity. Qed.

Lemma free_State h d c tr a t :
  h !! a = Some t →
  free a (State h d c tr)
  = Some (tt, State (delete a h) d c (Tile_freed a (clients t) :: tr)).
Proof.
  intros H. unfold free.
  rewrite (bind_eq _ _ _ _ _ (deref_State _ _ _ _ _ _ H)). reflexivity.
Qed.

Lemma ret_eq {A} (a : A) s : ret a s = Some (a, s).
Proof. reflexivity. Qed.

Lemma bind_assoc {A B C} (m : M A) (f : A → M B) (g : B → M C) s :
  bind (bind m f) g s = bind m (fun a => bind (f a) g) s.
Proof. unfold bind. destruct (m s) as [[a s']|]; reflexivity. Qed.

(** One step of a computation whose first action is known. *)
Ltac mstep :=
  first
    [ rewrite ret_eq
    | rewrite bind_assoc
    | erewrite bind_eq;
      [| first [ apply ret_eq
               | apply get_datum_State
               | apply put_datum_State
               | apply deref_State; solve_lookup; fail
               | apply update_State; solve_lookup; fail
               | apply free_State; solve_lookup; fail ] ]
    | rewrite put_datum_State
    | rewrite get_datum_State
    | erewrite update_State by (solve_lookup; fail)
    | erewrite deref_State by (solve_lookup; fail)
    | erewrite free_State by (solve_lookup; fail) ];
  cbn [heap datum handles trace].

Lemma datum_tile_destroy_eq s d l i a t :
  datum s = Some d → stack d = l !! 0%nat → dll (heap s) l →
  l !! i = Some a → heap s !! a = Some t →
  datum_tile_destroy a s
  = Some (tt, State (delete a (unlink (heap s) t))
                    (Some (set_stack_size (stack_size d - 1)
                             (set_stack (delete i l !! 0%nat) d)))
                    (handles s)
                    (Tile_freed a (clients t) :: trace s)).
Proof.
  intros Hdat Hst Hd Hi Ha.
  pose proof (unlink_self _ _ _ _ _ Hd Hi Ha) as Hself.
  destruct (dll_links _ _ Hd _ _ Hi) as (t' & Ht' & Hp & Hn).
  rewrite Ha in Ht'. injection Ht' as <-.
  destruct s as [h dd c tr]. simpl in *. subst dd.
  unfold datum_tile_destroy. mstep.
  unfold unlink in *.
  destruct (prev t) as [p|] eqn:Ep.
  - destruct (dll_links _ _ Hd (S i) p) as (tp & Htp & _); [congruence|].
    rewrite Htp in *. mstep.
    destruct (next t) as [n|] eqn:En.
    + destruct i as [|i]; [discriminate|]. simpl in Hn.
      destruct (dll_links _ _ Hd i n) as (tn & Htn & _); [congruence|].
      assert (n ≠ p).
      { intros ->. symmetry in Hp, Hn.
        pose proof (dll_lookup_inj _ _ _ _ _ Hd Hp Hn). lia. }
      rewrite lookup_insert_ne in * by congruence. rewrite Htn in *.
      repeat mstep.
      rewrite list_lookup_delete_lt by lia. rewrite <- Hst, set_stack_id.
      reflexivity.
    + repeat mstep.
      destruct i as [|i]; [|simpl in Hn; apply lookup_lt_Some in Hi;
                             symmetry in Hn; apply lookup_ge_None in Hn; lia].
      rewrite list_lookup_delete_ge by lia. rewrite <- Hp. reflexivity.
  - mstep.
    destruct (next t) as [n|] eqn:En.
    + destruct i as [|i]; [discriminate|]. simpl in Hn.
      destruct (dll_links _ _ Hd i n) as (tn & Htn & _); [congruence|].
      rewrite Htn in *.
      repeat mstep.
      rewrite list_lookup_delete_lt by lia. rewrite <- Hst, set_stack_id.
      reflexivity.
    + repeat mstep.
      destruct i as [|i]; [|simpl in Hn; apply lookup_lt_Some in Hi;
                             symmetry in Hn; apply lookup_ge_None in Hn; lia].
      rewrite list_lookup_delete_ge by lia. rewrite <- Hp. reflexivity.
Qed.

Lemma list_delete_not_in (l : list addr) i a :
  NoDup l → l !! i = Some a → a ∉ delete i l.
Proof.
  intros Hnd Hi Hin. apply list_elem_of_lookup in Hin as [j Hj].
  destruct (decide (j < i)%nat).
  - rewrite list_lookup_delete_lt in Hj by done.
    pose proof (NoDup_lookup _ _ _ _ Hnd Hi Hj). lia.
  - rewrite list_lookup_delete_ge in Hj by lia.
    pose proof (NoDup_lookup _ _ _ _ Hnd Hi Hj). lia.
Qed.

Lemma dll_relink h l i a t top :
  dll h l → l !! S i = Some a → h !! a = Some t → l !! 0%nat = Some top →
  dll (relink h top a t) (a :: delete (S i) l).
Proof.
  intros Hd Hi Ha Htop.
  assert (Htop' : delete (S i) l !! 0%nat = Some top)
    by (rewrite list_lookup_delete_lt by lia; done).
  destruct (unlink_links _ _ _ _ _ _ _ Hd Hi Ha Htop')
    as (Hne & ttop & Ht1 & Ht2 & Ht3).
  split.
  - constructor; [|apply NoDup_list_delete, Hd].
    eapply list_delete_not_in; [apply Hd|done].
  - intros j b Hj. unfold relink. rewrite Ht1.
    destruct j as [|j]; simpl in Hj.
    + injection Hj as <-. rewrite lookup_insert_eq.
      eexists; split; [reflexivity|]. simpl. now rewrite Htop'.
    + destruct (unlink_links _ _ _ _ _ _ _ Hd Hi Ha Hj)
        as (Hne' & tb & Hb1 & Hb2 & Hb3).
      rewrite lookup_insert_ne by done.
      destruct (decide (b = top)) as [->|Hbt].
      * rewrite lookup_insert_eq. eexists; split; [reflexivity|]. simpl.
        assert (j = 0)%nat as ->.
        { eapply NoDup_lookup; [apply NoDup_list_delete, Hd|done..]. }
        simpl. split; [|done]. congruence.
      * rewrite lookup_insert_ne by done. rewrite Hb1.
        eexists; split; [reflexivity|]. split; [done|].
        rewrite Hb3. destruct j as [|j]; [congruence|]. reflexivity.
Qed.

Lemma datum_tile_touch_top s d l a t :
  datum s = Some d → dll (heap s) l →
  l !! 0%nat = Some a → heap s !! a = Some t →
  datum_tile_touch a s = Some (tt, s).
Proof.
  intros Hdat Hd Hi Ha.
  destruct (dll_links _ _ Hd _ _ Hi) as (t' & Ht' & Hp & Hn).
  rewrite Ha in Ht'. injection Ht' as <-.
  destruct s as [h dd c tr]. simpl in *. subst dd.
  unfold datum_tile_touch. mstep. rewrite Hn. reflexivity.
Qed.

Lemma datum_tile_touch_eq s d l i a t top :
  datum s = Some d → stack d = l !! 0%nat → dll (heap s) l →
  l !! S i = Some a → heap s !! a = Some t → l !! 0%nat = Some top →
  datum_tile_touch a s
  = Some (tt, State (relink (heap s) top a t)
                    (Some (set_stack (Some a) d)) (handles s) (trace s)).
Proof.
  intros Hdat Hst Hd Hi Ha Htop.
  pose proof (unlink_self _ _ _ _ _ Hd Hi Ha) as Hself.
  assert (Htop' : delete (S i) l !! 0%nat = Some top)
    by (rewrite list_lookup_delete_lt by lia; done).
  destruct (unlink_links _ _ _ _ _ _ _ Hd Hi Ha Htop')
    as (Hne & ttop & Ht1 & _).
  destruct (dll_links _ _ Hd _ _ Hi) as (t' & Ht' & Hp & Hn).
  rewrite Ha in Ht'. injection Ht' as <-.
  destruct s as [h dd c tr]. simpl in *. subst dd.
  unfold datum_tile_touch. mstep.
  destruct (dll_links _ _ Hd i) with (a := default a (l !! i))
    as (tn & Htn & _).
  { destruct (l !! i) eqn:E; [done|].
    apply lookup_ge_None in E. apply lookup_lt_Some in Hi. lia. }
  destruct (l !! i) as [n|] eqn:En; [|
    apply lookup_ge_None in En; apply lookup_lt_Some in Hi; lia].
  simpl in Htn. rewrite Hn. mstep.
  assert (Hsd : stack d = Some top) by congruence.
  unfold relink, unlink in *. rewrite Hn in *.
  destruct (prev t) as [p|] eqn:Ep.
  - destruct (dll_links _ _ Hd (S (S i)) p) as (tp & Htp & _); [congruence|].
    assert (n ≠ p).
    { intros ->. symmetry in Hp.
      pose proof (dll_lookup_inj _ _ _ _ _ Hd Hp En). lia. }
    rewrite Htp in *. rewrite lookup_insert_ne in * by congruence.
    rewrite Htn in *. mstep. mstep. rewrite Hsd.
    pose proof Ht1 as Ht1'.
    rewrite (insert_insert_ne h n p) in Ht1', Hself by congruence.
    mstep. mstep. mstep. mstep.
    rewrite Ht1, insert_insert_eq.
    rewrite (insert_insert_ne h p n) by congruence. reflexivity.
  - rewrite Htn in *. mstep. mstep. rewrite Hsd. mstep. mstep. mstep. mstep.
    rewrite insert_insert_eq. rewrite Ht1. reflexivity.
Qed.

Lemma relink_erase h l i a t top b :
  dll h l → l !! S i = Some a → h !! a = Some t → l !! 0%nat = Some top →
  erase <$> relink h top a t !! b = erase <$> h !! b.
Proof.
  intros Hd Hi Ha Htop. unfold relink.
  destruct (decide (b = a)) as [->|Hba].
  { rewrite lookup_insert_eq, Ha. reflexivity. }
  rewrite lookup_insert_ne by done.
  pose proof (unlink_erase _ _ _ _ _ top Hd Hi Ha) as Het.
  destruct (unlink h t !! top) as [t0|] eqn:E.
  - destruct (decide (b = top)) as [->|Hbt].
    + rewrite lookup_insert_eq. rewrite <- Het. reflexivity.
    + rewrite lookup_insert_ne by done.
      apply (unlink_erase _ _ _ _ _ b Hd Hi Ha).
  - apply (unlink_erase _ _ _ _ _ b Hd Hi Ha).
Qed.

(** ** Steps of the stack *)

Lemma pins_erase h h' b :
  erase <$> h' !! b = erase <$> h !! b → pins h' b = pins h b.
Proof.
  unfold pins. destruct (h' !! b), (h !! b); simpl; try congruence.
  intros [=]. done.
Qed.

Lemma stack_step_refl s l : rep s l → stack_step s s l l.
Proof.
  intros H. split; auto. exists []. split; [done|]. intros e He.
  now apply elem_of_nil in He.
Qed.

Lemma stack_step_trans s1 s2 s3 l1 l2 l3 :
  stack_step s1 s2 l1 l2 → stack_step s2 s3 l2 l3 → stack_step s1 s3 l1 l3.
Proof.
  intros H1 H2. split.
  - apply H2.
  - intros b Hb. apply H1, H2, Hb.
  - intros b Hb. rewrite (st_payload _ _ _ _ H2) by done.
    apply H1, H2, Hb.
  - intros b Hb. rewrite (st_frame _ _ _ _ H2).
    + now apply H1.
    + intros Hb2. apply Hb. now apply H1.
  - rewrite (st_handles _ _ _ _ H2). apply H1.
  - rewrite (st_static _ _ _ _ H2). apply H1.
  - destruct (st_trace _ _ _ _ H1) as (e1 & Ht1 & He1).
    destruct (st_trace _ _ _ _ H2) as (e2 & Ht2 & He2).
    exists (e2 ++ e1). split.
    + rewrite Ht2, Ht1. now rewrite app_assoc.
    + intros e [He|He]%elem_of_app.
      * destruct (He2 _ He) as (b & -> & Hb2 & Hb3).
        exists b. split; [|split].
        -- f_equal. apply pins_erase. now apply H1.
        -- now apply H1.
        -- done.
      * destruct (He1 _ He) as (b & -> & Hb1 & Hb2).
        exists b. split; [done|split; [done|]].
        intros Hb3. apply Hb2. now apply H2.
Qed.

Lemma rep_nodup s l : rep s l → NoDup l.
Proof. intros (d & _ & _ & _ & Hd). apply Hd. Qed.

Lemma rep_lookup s l i a :
  rep s l → l !! i = Some a →
  ∃ t, heap s !! a = Some t ∧ prev t = l !! S i ∧ next t = above l i.
Proof. intros (d & _ & _ & _ & Hd) Hi. eapply dll_links; eauto. Qed.

Lemma length_list_delete (l : list addr) i a :
  l !! i = Some a → Z.of_nat (length (delete i l)) = Z.of_nat (length l) - 1.
Proof.
  intros Hi. rewrite length_delete by eauto. apply lookup_lt_Some in Hi. lia.
Qed.

Lemma elem_of_list_delete (l : list addr) i b :
  b ∈ delete i l → b ∈ l.
Proof.
  intros H. eapply elem_of_sublist; [exact H|apply sublist_delete].
Qed.

Lemma datum_tile_destroy_step s l i a :
  rep s l → l !! i = Some a →
  ∃ s', datum_tile_destroy a s = Some (tt, s')
        ∧ stack_step s s' l (delete i l)
        ∧ trace s' = Tile_freed a (pins (heap s) a) :: trace s.
Proof.
  intros Hrep Hi.
  destruct (rep_lookup _ _ _ _ Hrep Hi) as (t & Ha & _).
  destruct Hrep as (d & Hdat & Hst & Hsz & Hd).
  eexists. split; [eapply datum_tile_destroy_eq; eauto|].
  assert (Hpins : pins (heap s) a = clients t) by (unfold pins; now rewrite Ha).
  split; [split|]; simpl.
  - eexists. split; [reflexivity|]. simpl. split; [done|]. split.
    + erewrite length_list_delete by eauto. lia.
    + eapply dll_unlink; eauto.
  - apply elem_of_list_delete.
  - intros b Hb. rewrite lookup_delete_ne.
    + apply (unlink_erase _ _ _ _ _ b Hd Hi Ha).
    + intros ->. eapply list_delete_not_in; [apply Hd|eauto..].
  - intros b Hb. rewrite lookup_delete_ne.
    + rewrite (unlink_lookup _ _ _ _ _ _ Hd Hi Ha).
      destruct (dll_links _ _ Hd _ _ Hi) as (t' & Ht' & Hp & Hn).
      rewrite Ha in Ht'. injection Ht' as <-.
      case_decide as E1.
      { exfalso. apply Hb. rewrite Hp in E1. symmetry in E1.
        eapply list_elem_of_lookup_2; eauto. }
      case_decide as E2; [|done].
      exfalso. apply Hb. rewrite Hn in E2. destruct i; [done|].
      symmetry in E2. eapply list_elem_of_lookup_2; eauto.
    + intros ->. apply Hb. eapply list_elem_of_lookup_2; eauto.
  - done.
  - rewrite Hdat. reflexivity.
  - exists [Tile_freed a (clients t)]. split; [done|].
    intros e ->%list_elem_of_singleton. exists a. rewrite Hpins.
    split; [done|]. split; [eapply list_elem_of_lookup_2; eauto|].
    eapply list_delete_not_in; [apply Hd|eauto].
  - now rewrite Hpins.
Qed.

Lemma datum_tile_touch_step s l i a :
  rep s l → l !! i = Some a →
  ∃ s', datum_tile_touch a s = Some (tt, s')
        ∧ stack_step s s' l (a :: delete i l)
        ∧ trace s' = trace s.
Proof.
  intros Hrep Hi.
  destruct (rep_lookup _ _ _ _ Hrep Hi) as (t & Ha & _).
  pose proof Hrep as (d & Hdat & Hst & Hsz & Hd).
  destruct i as [|i].
  - exists s. split; [eapply datum_tile_touch_top; eauto|].
    destruct l as [|a' l]; [done|]. injection Hi as ->. simpl.
    split; [now apply stack_step_refl|done].
  - destruct (l !! 0%nat) as [top|] eqn:Htop.
    2:{ apply lookup_ge_None in Htop. apply lookup_lt_Some in Hi. lia. }
    eexists. split.
    { apply (datum_tile_touch_eq s d l i a t top); auto; congruence. }
    split; [split|]; cbn [heap datum handles trace].
    + eexists. split; [reflexivity|]. split; [done|]. split.
      * rewrite length_cons, length_delete by eauto.
        apply lookup_lt_Some in Hi.
        change (stack_size (set_stack (Some a) d)) with (stack_size d). lia.
      * eapply dll_relink; eauto.
    + intros b [->|Hb]%elem_of_cons.
      * eapply list_elem_of_lookup_2; eauto.
      * eapply elem_of_list_delete; eauto.
    + intros b _. apply (relink_erase _ _ _ _ _ _ b Hd Hi Ha Htop).
    + intros b Hb. unfold relink.
      assert (b ≠ a) by (intros ->; apply Hb; eapply list_elem_of_lookup_2; eauto).
      assert (b ≠ top) by (intros ->; apply Hb; eapply list_elem_of_lookup_2; eauto).
      assert (Hu : unlink (heap s) t !! b = heap s !! b).
      { rewrite (unlink_lookup _ _ _ _ _ _ Hd Hi Ha).
        destruct (dll_links _ _ Hd _ _ Hi) as (t' & Ht' & Hp & Hn).
        rewrite Ha in Ht'. injection Ht' as <-.
        case_decide as E1.
        { exfalso. apply Hb. rewrite Hp in E1. symmetry in E1.
          eapply list_elem_of_lookup_2; eauto. }
        case_decide as E2; [|done].
        exfalso. apply Hb. rewrite Hn in E2. simpl in E2.
        symmetry in E2. eapply list_elem_of_lookup_2; eauto. }
      rewrite lookup_insert_ne by done.
      destruct (unlink (heap s) t !! top); [rewrite lookup_insert_ne by done|];
        done.
    + done.
    + rewrite Hdat. reflexivity.
    + exists []. split; [done|]. intros e He. now apply elem_of_nil in He.
    + done.
Qed.

Lemma lookup_app_head (l1 l2 : list addr) :
  (l1 ++ l2) !! length l1 = head l2.
Proof.
  rewrite lookup_app_r by lia. rewrite Nat.sub_diag. now destruct l2.
Qed.

Lemma lookup_app_next (l1 l2 : list addr) a :
  (l1 ++ a :: l2) !! S (length l1) = head l2.
Proof.
  rewrite lookup_app_r by lia.
  replace (S (length l1) - length l1)%nat with 1%nat by lia.
  now destruct l2.
Qed.

Lemma delete_app_middle (l1 l2 : list addr) a :
  delete (length l1) (l1 ++ a :: l2) = l1 ++ l2.
Proof. induction l1; simpl; [done|]. now f_equal. Qed.

Lemma filter_in_use_ext h h' force (l : list addr) :
  (∀ b, b ∈ l → pins h' b = pins h b) →
  filter (in_use h' force) l = filter (in_use h force) l.
Proof.
  induction l as [|a l IH]; intros H; [done|].
  assert (Ha : in_use h' force a ↔ in_use h force a).
  { unfold in_use. rewrite H; [done|]. apply elem_of_cons. now left. }
  assert (Hl : filter (in_use h' force) l = filter (in_use h force) l).
  { apply IH. intros b Hb. apply H. apply elem_of_cons. now right. }
  destruct (decide (in_use h force a)) as [Hu|Hu].
  - rewrite !filter_cons_True by tauto. now f_equal.
  - rewrite !filter_cons_False by tauto. done.
Qed.

Lemma deref_rep s l i a :
  rep s l → l !! i = Some a →
  ∃ t, deref (Some a) s = Some (t, s) ∧ heap s !! a = Some t
       ∧ prev t = l !! S i ∧ next t = above l i.
Proof.
  intros Hr Hi. destruct (rep_lookup _ _ _ _ Hr Hi) as (t & Ht & Hp & Hn).
  exists t. split; [now apply deref_eq|done].
Qed.

Lemma datum_clear_loop_spec force l2 : ∀ l1 s n,
  rep s (l1 ++ l2) → (length l2 <= n)%nat →
  ∃ s', datum_clear_loop n force (head l2) s = Some (tt, s')
        ∧ stack_step s s' (l1 ++ l2)
            (l1 ++ filter (in_use (heap s) force) l2).
Proof.
  induction l2 as [|a l2 IH]; intros l1 s n Hrep Hn.
  - exists s. split; [now destruct n|]. now apply stack_step_refl.
  - destruct n as [|n]; [simpl in Hn; lia|]. simpl in Hn.
    assert (Hi : (l1 ++ a :: l2) !! length l1 = Some a)
      by now rewrite lookup_app_head.
    destruct (deref_rep _ _ _ _ Hrep Hi) as (t & Hde & Ht & Hp & _).
    rewrite lookup_app_next in Hp.
    cbn [head datum_clear_loop]. rewrite (bind_eq _ _ _ _ _ Hde).
    assert (Hpin : pins (heap s) a = clients t)
      by (unfold pins; now rewrite Ht).
    rewrite Hp.
    destruct (force || (clients t =? 0)) eqn:Ek.
    + destruct (datum_tile_destroy_step _ _ _ _ Hrep Hi)
        as (s1 & Hs1 & Hst1 & _).
      rewrite (bind_eq _ _ _ _ _ Hs1).
      rewrite delete_app_middle in Hst1.
      destruct (IH l1 s1 n (st_rep _ _ _ _ Hst1)) as (s' & Hs' & Hst');
        [lia|].
      exists s'. split; [done|].
      rewrite filter_cons_False.
      2:{ unfold in_use. rewrite Hpin. intros [-> H]. simpl in Ek. lia. }
      eapply stack_step_trans; [exact Hst1|].
      erewrite <- filter_in_use_ext; [exact Hst'|].
      intros b Hb. apply pins_erase. apply Hst1.
      apply elem_of_app. now right.
    + rewrite (bind_eq _ _ _ _ _ (ret_eq _ _)).
      replace (l1 ++ a :: l2) with ((l1 ++ [a]) ++ l2) in *
        by now rewrite <- app_assoc.
      destruct (IH (l1 ++ [a]) s n Hrep) as (s' & Hs' & Hst'); [lia|].
      exists s'. split; [done|].
      rewrite filter_cons_True.
      2:{ unfold in_use. rewrite Hpin.
          apply orb_false_iff in Ek as [-> Ek]. split; [done|]. lia. }
      replace (l1 ++ a :: filter (in_use (heap s) force) l2)
        with ((l1 ++ [a]) ++ filter (in_use (heap s) force) l2)
        by now rewrite <- app_assoc.
      done.
Qed.

Lemma rep_length_le s l : rep s l → (length l <= size (heap s))%nat.
Proof.
  intros (d & _ & _ & _ & Hd).
  rewrite <- size_dom.
  change (size (dom (heap s))) with (length (elements (dom (heap s)))).
  apply submseteq_length, NoDup_submseteq; [apply Hd|].
  intros a [i Hi]%list_elem_of_lookup.
  destruct (dll_links _ _ Hd _ _ Hi) as (t & Ht & _).
  apply elem_of_elements, elem_of_dom. eauto.
Qed.

Lemma fuel_eq s : fuel s = Some (S (size (heap s)), s).
Proof. reflexivity. Qed.

Lemma rep_datum s l :
  rep s l → ∃ d, datum s = Some d ∧ get_datum s = Some (d, s)
                 ∧ stack d = head l
                 ∧ stack_size d = Z.of_nat (length l).
Proof.
  intros (d & Hdat & Hst & Hsz & _). exists d. unfold get_datum.
  rewrite Hdat. repeat split; try done. rewrite Hst. now destruct l.
Qed.

Lemma datum_clear_spec force s l :
  rep s l →
  ∃ s', datum_clear force s = Some (tt, s')
        ∧ stack_step s s' l (filter (in_use (heap s) force) l).
Proof.
  intros Hrep. destruct (rep_datum _ _ Hrep) as (d & _ & Hg & Hst & _).
  unfold datum_clear. rewrite (bind_eq _ _ _ _ _ Hg).
  rewrite (bind_eq _ _ _ _ _ (fuel_eq s)). rewrite Hst.
  apply (datum_clear_loop_spec force l [] s); [done|].
  pose proof (rep_length_le _ _ Hrep). lia.
Qed.

(** The first loop of [datum_tile_load] ends on the last tile. *)
Lemma last_tile_spec s l : ∀ n i a,
  rep s l → l !! i = Some a → (length l <= n + i)%nat →
  last_tile n (Some a) s = Some (last l, s).
Proof.
  induction n as [|n IH]; intros i a Hrep Hi Hn.
  - apply lookup_lt_Some in Hi. lia.
  - destruct (deref_rep _ _ _ _ Hrep Hi) as (t & Hde & _ & Hp & _).
    cbn [last_tile]. rewrite (bind_eq _ _ _ _ _ Hde).
    destruct (prev t) as [p|] eqn:Ep.
    + apply (IH (S i)); [done|congruence|lia].
    + rewrite ret_eq. do 2 f_equal.
      symmetry in Hp. apply lookup_ge_None in Hp.
      rewrite last_lookup. rewrite <- Hi. f_equal.
      apply lookup_lt_Some in Hi. lia.
Qed.

Lemma scan_ext pin pin' max size rl :
  (∀ b, b ∈ rl → pin' b = pin b) →
  scan pin' max size rl = scan pin max size rl.
Proof.
  revert size. induction rl as [|a rl IH]; intros size H; [done|].
  simpl. rewrite (H a) by (apply elem_of_cons; now left).
  rewrite !IH by (intros b Hb; apply H, elem_of_cons; now right).
  done.
Qed.

Lemma elem_of_rev (l : list addr) b : b ∈ rev l ↔ b ∈ l.
Proof. rewrite !list_elem_of_In. symmetry. apply in_rev. Qed.

Lemma elem_of_rev_1 (l : list addr) b : b ∈ rev l → b ∈ l.
Proof. apply elem_of_rev. Qed.

Lemma elem_of_rev_2 (l : list addr) b : b ∈ l → b ∈ rev l.
Proof. apply elem_of_rev. Qed.

Lemma lookup_rev_head (rl l2 : list addr) a :
  (rev rl ++ a :: l2) !! length rl = Some a.
Proof.
  rewrite <- length_rev. now rewrite lookup_app_head.
Qed.

Lemma above_rev_head (rl l2 : list addr) a :
  above (rev rl ++ a :: l2) (length rl) = head rl.
Proof.
  destruct rl as [|b rl]; [done|]. simpl.
  rewrite <- app_assoc. simpl. rewrite <- length_rev.
  now rewrite lookup_app_head.
Qed.

Lemma make_room_unfold n a :
  make_room n (Some a)
  = bind get_datum (fun d =>
      if stack_size d >=? max_size d then
        match n with
        | O => fault
        | S n' =>
            bind (deref (Some a)) (fun t =>
              bind (if clients t =? 0 then datum_tile_destroy a else ret tt)
                   (fun _ => make_room n' (next t)))
        end
      else ret tt).
Proof. now destruct n. Qed.

Lemma make_room_spec rl : ∀ l2 s n d,
  rep s (rev rl ++ l2) → datum s = Some d → (length rl <= n)%nat →
  ∃ s', make_room n (head rl) s = Some (tt, s')
        ∧ stack_step s s' (rev rl ++ l2)
            (rev (scan (pins (heap s)) (max_size d) (stack_size d) rl)
             ++ l2).
Proof.
  induction rl as [|a rl IH]; intros l2 s n d Hrep Hdat Hn.
  - exists s. split; [now destruct n|]. now apply stack_step_refl.
  - cbn [head scan]. rewrite make_room_unfold.
    destruct (rep_datum _ _ Hrep) as (d' & Hdat' & Hg & _ & Hsz).
    assert (d' = d) as -> by congruence.
    rewrite (bind_eq _ _ _ _ _ Hg).
    destruct (stack_size d >=? max_size d) eqn:Efull.
    2:{ exists s. rewrite ret_eq. split; [done|]. now apply stack_step_refl. }
    destruct n as [|n]; [simpl in Hn; lia|]. simpl in Hn.
    simpl in Hrep. rewrite <- app_assoc in Hrep. simpl in Hrep.
    assert (Hi : (rev rl ++ a :: l2) !! length rl = Some a)
      by apply lookup_rev_head.
    destruct (deref_rep _ _ _ _ Hrep Hi) as (t & Hde & Ht & _ & Hnx).
    rewrite above_rev_head in Hnx.
    rewrite (bind_eq _ _ _ _ _ Hde).
    assert (Hpin : pins (heap s) a = clients t)
      by (unfold pins; now rewrite Ht).
    rewrite Hnx, Hpin.
    destruct (clients t =? 0) eqn:Ek.
    + destruct (datum_tile_destroy_step _ _ _ _ Hrep Hi)
        as (s1 & Hs1 & Hst1 & _).
      rewrite (bind_eq _ _ _ _ _ Hs1).
      rewrite <- length_rev, delete_app_middle in Hst1.
      destruct (rep_datum _ _ (st_rep _ _ _ _ Hst1))
        as (d1 & Hdat1 & _ & _ & Hsz1).
      destruct (IH l2 s1 n d1 (st_rep _ _ _ _ Hst1) Hdat1)
        as (s' & Hs' & Hst'); [lia|].
      exists s'. split; [done|].
      simpl. rewrite <- app_assoc. simpl.
      eapply stack_step_trans; [exact Hst1|].
      assert (Hmax : max_size d1 = max_size d).
      { pose proof (st_static _ _ _ _ Hst1) as Hs.
        rewrite Hdat, Hdat1 in Hs. now injection Hs. }
      assert (Hsize : stack_size d1 = stack_size d - 1).
      { rewrite Hsz1, Hsz. cbn [rev].
        rewrite !length_app, !length_rev. cbn [length]. lia. }
      rewrite Hmax, Hsize in Hst'.
      erewrite <- scan_ext; [exact Hst'|].
      intros b Hb. apply pins_erase. apply Hst1.
      apply elem_of_app. left. now apply elem_of_rev.
    + rewrite (bind_eq _ _ _ _ _ (ret_eq _ _)).
      replace (rev rl ++ a :: l2) with (rev rl ++ [a] ++ l2) in * by done.
      destruct (IH ([a] ++ l2) s n d Hrep Hdat) as (s' & Hs' & Hst'); [lia|].
      exists s'. split; [done|].
      simpl. rewrite <- !app_assoc. simpl. exact Hst'.
Qed.

Lemma push_heap_lookup h l a t b :
  dll h l → a ∉ l →
  push_heap h l a t !! b =
    if decide (b = a) then Some (set_prev (head l) (set_next None t))
    else if decide (Some b = head l) then set_next (Some a) <$> h !! b
    else h !! b.
Proof.
  intros Hd Ha. unfold push_heap.
  destruct l as [|top l]; simpl.
  - case_decide; solve_lookup.
  - assert (top ≠ a) by (intros ->; apply Ha; now left).
    destruct (dll_links _ _ Hd 0%nat top) as (tt & Htt & _); [done|].
    rewrite lookup_insert_ne by done. rewrite Htt.
    repeat case_decide; solve_lookup.
Qed.

Lemma dll_push h l a t :
  dll h l → a ∉ l → dll (push_heap h l a t) (a :: l).
Proof.
  intros Hd Ha. split.
  - constructor; [done|apply Hd].
  - intros j b Hj. rewrite (push_heap_lookup _ _ _ _ _ Hd Ha).
    destruct j as [|j]; simpl in Hj.
    + injection Hj as <-. rewrite decide_True by done.
      eexists; split; [reflexivity|]. simpl. split; [|done].
      now destruct l.
    + assert (b ≠ a).
      { intros ->. apply Ha. eapply list_elem_of_lookup_2; eauto. }
      rewrite decide_False by done.
      destruct (dll_links _ _ Hd _ _ Hj) as (tb & Htb & Hp & Hn).
      rewrite Htb. case_decide as E.
      * assert (j = 0)%nat as ->.
        { destruct l as [|top l]; [done|]. simpl in E. injection E as ->.
          eapply NoDup_lookup; [apply Hd|done..]. }
        eexists; split; [reflexivity|]. simpl. split; done.
      * eexists; split; [reflexivity|]. split; [done|].
        rewrite Hn. destruct j as [|j]; [|done].
        exfalso. apply E. destruct l; [done|]. simpl in *. congruence.
Qed.

Lemma push_heap_erase h l a t b :
  dll h l → a ∉ l → b ≠ a →
  erase <$> push_heap h l a t !! b = erase <$> h !! b.
Proof.
  intros Hd Ha Hb. rewrite (push_heap_lookup _ _ _ _ _ Hd Ha).
  rewrite decide_False by done. case_decide; [|done].
  now destruct (h !! b).
Qed.

Lemma rep_not_in s l a : rep s l → heap s !! a = None → a ∉ l.
Proof.
  intros Hrep Ha [i Hi]%list_elem_of_lookup.
  destruct (rep_lookup _ _ _ _ Hrep Hi) as (t & Ht & _). congruence.
Qed.

Lemma dll_insert_other h l a t : dll h l → a ∉ l → dll (<[a := t]> h) l.
Proof.
  intros Hd Ha. split; [apply Hd|].
  intros i b Hi. destruct (dll_links _ _ Hd _ _ Hi) as (tb & Htb & H).
  exists tb. split; [|done]. rewrite lookup_insert_ne; [done|].
  intros ->. apply Ha. eapply list_elem_of_lookup_2; eauto.
Qed.

Lemma scan_sub pin max size rl b : b ∈ scan pin max size rl → b ∈ rl.
Proof.
  revert size. induction rl as [|a rl IH]; intros size; simpl; [done|].
  destruct (size >=? max); [|done].
  destruct (pin a =? 0).
  - intros H%IH. now right.
  - intros [->|H%IH]%elem_of_cons; [now left|now right].
Qed.

Lemma head_rev_last (l : list addr) : head (rev l) = last l.
Proof.
  induction l as [|a l IH] using rev_ind; [done|].
  rewrite rev_app_distr. simpl. now rewrite last_snoc.
Qed.

Section Load_success.

Variable reader : string → geotiff16.

Lemma datum_tile_load_success s l d la lo w h data :
  rep s l → datum s = Some d → format d = DATUM_FORMAT_ASTER_GDEM2 →
  Z.abs lo <= 180 → Z.abs la <= 89 →
  reader (path_string (set_buffer (gdem2_name la lo) d)) = Raster w h data →
  stack_size d < max_size d ∨ l ≠ [] →
  let a := fresh (dom (heap s)) in
  let l' := rev (scan (pins (heap s)) (max_size d) (stack_size d) (rev l)) in
  ∃ s', datum_tile_load reader la lo s = Some (TURTLE_RETURN_SUCCESS, s')
    ∧ rep s' (a :: l')
    ∧ heap s !! a = None
    ∧ erase <$> heap s' !! a
      = Some (erase (init_tile la lo (new_tile w h data)))
    ∧ (∀ b, b ∈ l' →
         b ∈ l ∧ erase <$> heap s' !! b = erase <$> heap s !! b)
    ∧ (∀ b, b ∉ l → b ≠ a → heap s' !! b = heap s !! b)
    ∧ handles s' = handles s
    ∧ static <$> datum s' = Some (static (set_buffer (gdem2_name la lo) d))
    ∧ ∃ evs,
        trace s' = evs ++ File_opened
                     (path_string (set_buffer (gdem2_name la lo) d))
                   :: trace s
        ∧ ∀ e, e ∈ evs →
            ∃ b, e = Tile_freed b (pins (heap s) b) ∧ b ∈ l ∧ b ∉ l'.
Proof.
  intros Hrep Hdat Hfmt Hlo Hla Hread Hroom a l'.
  assert (Hfresh : heap s !! a = None).
  { apply not_elem_of_dom. apply is_fresh. }
  assert (Hal : a ∉ l) by (eapply rep_not_in; eauto).
  pose proof Hrep as (d0 & Hdat0 & Hst & Hsz & Hd).
  assert (d0 = d) as -> by congruence.
  destruct s as [h0 dd c tr]. cbn [heap datum handles trace] in *. subst dd.
  unfold datum_tile_load. mstep. rewrite Hfmt.
  replace ((Z.abs lo >? 180) || (Z.abs la >? 89)) with false
    by (symmetry; apply orb_false_iff; lia).
  mstep. mstep. unfold load_gdem2. rewrite bind_assoc.
  unfold emit at 1. erewrite bind_eq by reflexivity.
  cbn [heap datum handles trace]. rewrite Hread.
  rewrite bind_assoc. unfold malloc_tile at 1.
  erewrite bind_eq by reflexivity. cbn [heap datum handles trace].
  fold a. mstep.
  change (negb (bool_decide (TURTLE_RETURN_SUCCESS = TURTLE_RETURN_SUCCESS)))
    with false. cbn iota.
  mstep. rewrite insert_insert_eq. mstep.
  change (Tile None None 0 w h 0 0 0 0 data) with (new_tile w h data).
  set (t0 := init_tile la lo (new_tile w h data)).
  set (d1 := set_buffer (gdem2_name la lo) d).
  set (s3 := State (<[a := t0]> h0) (Some d1) c
                   (File_opened (path_string d1) :: tr)).
  assert (Hrep3 : rep s3 l).
  { exists d1. split; [done|]. split; [done|]. split; [done|].
    now apply dll_insert_other. }
  assert (Hroom' : ∃ s4,
    (if stack_size d1 >=? max_size d1
     then bind fuel (fun n => bind (last_tile n (stack d1))
                                (fun last => make_room n last))
     else ret tt) s3 = Some (tt, s4) ∧ stack_step s3 s4 l l').
  { assert (Hl' : l' = rev (scan (pins (heap s3)) (max_size d1)
                                 (stack_size d1) (rev l))).
    { unfold l'. f_equal. symmetry. apply scan_ext. intros b Hb.
      apply (proj1 (elem_of_rev _ _)) in Hb.
      unfold pins, s3. cbn [heap]. rewrite lookup_insert_ne; [done|].
      intros ->. done. }
    destruct (stack_size d1 >=? max_size d1) eqn:Efull.
    - destruct Hroom as [Hr|Hr];
        [change (stack_size d1) with (stack_size d) in Efull;
         change (max_size d1) with (max_size d) in Efull; lia|].
      rewrite (bind_eq _ _ _ _ _ (fuel_eq s3)).
      destruct (l !! 0%nat) as [top|] eqn:Etop.
      2:{ destruct l; [done|discriminate]. }
      change (stack d1) with (stack d). rewrite Hst.
      pose proof (rep_length_le _ _ Hrep3) as Hlen.
      erewrite bind_eq.
      2:{ eapply (last_tile_spec s3 l _ 0%nat top); eauto. lia. }
      rewrite <- head_rev_last.
      destruct (make_room_spec (rev l) [] s3 (S (size (heap s3))) d1)
        as (s4 & Hs4 & Hst4).
      + rewrite rev_involutive, app_nil_r. done.
      + done.
      + rewrite length_rev. lia.
      + exists s4. split; [done|].
        rewrite rev_involutive, !app_nil_r in Hst4. now rewrite Hl'.
    - exists s3. split; [done|].
      replace l' with l; [now apply stack_step_refl|].
      rewrite Hl'. destruct (rev l) as [|x rl] eqn:E.
      + simpl. apply (f_equal (@rev _)) in E.
        now rewrite rev_involutive in E.
      + cbn [scan]. rewrite Efull. rewrite <- E. now rewrite rev_involutive. }
  destruct Hroom' as (s4 & Hs4 & Hst4).
  rewrite (bind_eq _ _ _ _ _ Hs4).
  pose proof (st_rep _ _ _ _ Hst4) as (d4 & Hdat4 & Hst4' & Hsz4 & Hd4).
  assert (Ha4 : heap s4 !! a = Some t0).
  { rewrite (st_frame _ _ _ _ Hst4) by done. unfold s3. cbn [heap].
    apply lookup_insert_eq. }
  assert (Hal' : a ∉ l') by (intros H; apply Hal; now apply Hst4).
  destruct s4 as [h4 dd4 c4 tr4]. cbn [heap datum handles trace] in *.
  subst dd4. mstep. mstep. mstep. rewrite insert_insert_eq.
  assert (Hhead : stack d4 = head l') by (rewrite Hst4'; now destruct l').
  assert (Hpush : ∃ h5,
    (match stack d4 with
     | Some _ => update (stack d4) (set_next (Some a))
     | None => ret tt
     end) (State (<[a := set_prev (stack d4) (set_next None t0)]> h4)
                 (Some d4) c4 tr4)
    = Some (tt, State h5 (Some d4) c4 tr4)
    ∧ h5 = push_heap h4 l' a t0).
  { unfold push_heap. rewrite <- Hhead.
    destruct (stack d4) as [top|] eqn:Etop.
    - destruct (dll_links _ _ Hd4 0%nat top) as (ttop & Httop & _);
        [congruence|].
      assert (top ≠ a).
      { intros ->. apply Hal'. eapply list_elem_of_lookup_2.
        rewrite <- Hst4'. done. }
      rewrite lookup_insert_ne by done. rewrite Httop.
      eexists. split; [|reflexivity].
      apply update_State. now rewrite lookup_insert_ne.
    - eexists. split; reflexivity. }
  destruct Hpush as (h5 & Hpush & ->).
  rewrite (bind_eq _ _ _ _ _ Hpush). mstep. mstep.
  eexists. split; [reflexivity|]. cbn [heap datum handles trace].
  split; [|split; [done|split; [|split; [|split; [|split; [|split]]]]]].
  - eexists. split; [reflexivity|]. split; [done|]. split.
    + cbn [stack_size set_stack_size length]. rewrite Hsz4. lia.
    + now apply dll_push.
  - rewrite (push_heap_lookup _ _ _ _ _ Hd4 Hal'). rewrite decide_True by done.
    reflexivity.
  - intros b Hb. split; [now apply Hst4|].
    assert (b ≠ a) by (intros ->; done).
    rewrite push_heap_erase by done.
    rewrite (st_payload _ _ _ _ Hst4) by done. unfold s3. cbn [heap].
    now rewrite lookup_insert_ne.
  - intros b Hb Hba.
    rewrite (push_heap_lookup _ _ _ _ _ Hd4 Hal').
    rewrite decide_False by done. rewrite decide_False.
    + rewrite (st_frame _ _ _ _ Hst4) by done. unfold s3. cbn [heap].
      now rewrite lookup_insert_ne.
    + intros E. apply Hb. apply Hst4. destruct l'; [done|].
      simpl in E. injection E as ->. now left.
  - apply (st_handles _ _ _ _ Hst4).
  - pose proof (st_static _ _ _ _ Hst4) as Hs. cbn [datum] in Hs.
    simpl in Hs. injection Hs as Hs. simpl. f_equal.
    unfold static in *. simpl. congruence.
  - destruct (st_trace _ _ _ _ Hst4) as (evs & Htr & Hevs).
    exists evs. split; [exact Htr|].
    intros e He. destruct (Hevs e He) as (b & -> & Hb1 & Hb2).
    exists b. split; [|done]. f_equal. unfold pins, s3. cbn [heap].
    rewrite lookup_insert_ne; [done|]. intros ->. done.
Qed.

End Load_success.

(** ** Reference counts *)

Lemma pinned_by_insert_fresh cs c cl a :
  cs !! c = None →
  pinned_by (<[c := cl]> cs) a
  = (one_if (tile cl = Some a) + pinned_by cs a)%nat.
Proof.
  intros Hc. unfold pinned_by, one_if. rewrite map_filter_insert.
  unfold pinning at 1. simpl. case_decide.
  - rewrite decide_True by done. rewrite map_size_insert_None; [done|].
    apply map_lookup_filter_None. now left.
  - rewrite decide_False by done. now rewrite delete_id.
Qed.

Lemma pinned_by_delete cs c cl a :
  cs !! c = Some cl →
  pinned_by cs a
  = (one_if (tile cl = Some a) + pinned_by (delete c cs) a)%nat.
Proof.
  intros Hc. rewrite <- (insert_delete_id cs c cl) at 1 by done.
  apply pinned_by_insert_fresh. apply lookup_delete_eq.
Qed.

Lemma pinned_by_insert cs c cl a :
  pinned_by (<[c := cl]> cs) a
  = (one_if (tile cl = Some a) + pinned_by (delete c cs) a)%nat.
Proof.
  rewrite <- insert_delete_eq. apply pinned_by_insert_fresh.
  apply lookup_delete_eq.
Qed.

Lemma pinned_by_pos cs c cl a :
  cs !! c = Some cl → tile cl = Some a → (1 <= pinned_by cs a)%nat.
Proof.
  intros Hc Ht. rewrite (pinned_by_delete _ _ _ _ Hc). unfold one_if.
  rewrite decide_True by done. lia.
Qed.

Lemma stack_step_good s s' l l' :
  good s l → stack_step s s' l l' →
  (∀ b, b ∈ l → b ∉ l' → pins (heap s) b = 0) →
  good s' l'.
Proof.
  intros [Hrep [Hp1 Hp2]] Hst Hz. split; [apply Hst|]. split.
  - intros a Ha. rewrite (st_handles _ _ _ _ Hst).
    rewrite <- Hp1 by now apply Hst. apply pins_erase. now apply Hst.
  - intros c cl a Hc Ht. rewrite (st_handles _ _ _ _ Hst) in Hc.
    pose proof (Hp2 _ _ _ Hc Ht) as Hal.
    destruct (decide (a ∈ l')) as [|Hn]; [done|].
    pose proof (Hz _ Hal Hn) as H0. rewrite Hp1 in H0 by done.
    pose proof (pinned_by_pos _ _ _ _ Hc Ht). lia.
Qed.

Lemma stack_step_harmless s s' l l' :
  stack_step s s' l l' →
  (∀ b, b ∈ l → b ∉ l' → pins (heap s) b = 0) →
  ∃ evs, trace s' = evs ++ trace s ∧ Forall harmless evs.
Proof.
  intros Hst Hz. destruct (st_trace _ _ _ _ Hst) as (evs & Ht & He).
  exists evs. split; [done|]. apply Forall_forall. intros e Hin.
  destruct (He _ Hin) as (b & -> & Hb1 & Hb2). simpl. now apply Hz.
Qed.

(** ** Callbacks *)

Lemma fails_State e cb h d c tr :
  fails e cb (State h d c tr)
  = Some (cb_fails cb tr, State h d c (cb_trace e cb tr)).
Proof. destruct cb; reflexivity. Qed.

Lemma cb_trace_harmless e cb tr :
  harmless e → ∃ evs, cb_trace e cb tr = evs ++ tr ∧ Forall harmless evs.
Proof.
  intros He. destruct cb; simpl.
  - exists [e]. split; [done|]. now constructor.
  - exists []. split; [done|]. constructor.
Qed.

Lemma dll_set_clients h l a t k :
  dll h l → h !! a = Some t → dll (<[a := set_clients k t]> h) l.
Proof.
  intros Hd Ha. split; [apply Hd|]. intros i b Hi.
  destruct (dll_links _ _ Hd _ _ Hi) as (tb & Htb & Hp & Hn).
  destruct (decide (b = a)) as [->|Hne].
  - rewrite lookup_insert_eq. eexists; split; [reflexivity|].
    assert (tb = t) as -> by congruence. done.
  - rewrite lookup_insert_ne by done. eauto.
Qed.

Lemma pins_insert h a t b :
  pins (<[a := t]> h) b = if decide (b = a) then clients t else pins h b.
Proof.
  unfold pins. case_decide as E; [subst; now rewrite lookup_insert_eq|].
  now rewrite lookup_insert_ne.
Qed.

Lemma static_settings (d d' : option turtle_datum) :
  static <$> d' = static <$> d → settings <$> d' = settings <$> d.
Proof.
  destruct d, d'; simpl; try done. unfold static, settings.
  intros [=]. congruence.
Qed.

(** ** The release of a tile by a client *)

Lemma get_client_State h d cs tr c cl :
  cs !! c = Some cl →
  get_client c (State h d cs tr) = Some (cl, State h d cs tr).
Proof. unfold get_client. simpl. now intros ->. Qed.

Lemma put_client_State h d cs tr c cl :
  put_client c cl (State h d cs tr) = Some (tt, State h d (<[c := cl]> cs) tr).
Proof. reflexivity. Qed.

Ltac cstep :=
  first
    [ mstep
    | erewrite bind_eq;
      [| first [ apply get_client_State; solve_lookup; fail
               | apply put_client_State
               | apply fails_State ] ]
    | erewrite get_client_State by (solve_lookup; fail)
    | rewrite put_client_State
    | rewrite fails_State ];
  cbn [heap datum handles trace].

Lemma rep_pins_data s l h' cs' tr' :
  rep s l →
  (∀ b, b ∈ l →
        ∃ t k, heap s !! b = Some t ∧ h' !! b = Some (set_clients k t)) →
  rep (State h' (datum s) cs' tr') l.
Proof.
  intros (d & Hdat & Hst & Hsz & Hd) Hh. exists d.
  split; [done|]. split; [done|]. split; [done|].
  split; [apply Hd|]. intros i b Hi.
  destruct (dll_links _ _ Hd _ _ Hi) as (tb & Htb & Hp & Hn).
  destruct (Hh b) as (t & k & Ht & Ht'); [eapply list_elem_of_lookup_2; eauto|].
  cbn [heap]. rewrite Ht'. eexists; split; [reflexivity|].
  assert (t = tb) as -> by congruence. done.
Qed.

Lemma set_clients_id t : set_clients (clients t) t = t.
Proof. now destruct t. Qed.

Lemma released_good s l c cl a t :
  good s l → handles s !! c = Some cl → tile cl = Some a →
  heap s !! a = Some t →
  1 <= clients t ∧ good (released s c cl a t) l.
Proof.
  intros [Hrep [Hp1 Hp2]] Hc Ht Ha.
  pose proof (Hp2 _ _ _ Hc Ht) as Hal.
  pose proof (Hp1 _ Hal) as Hk. unfold pins in Hk. rewrite Ha in Hk.
  pose proof (pinned_by_pos _ _ _ _ Hc Ht) as Hpos.
  split; [lia|]. split; [|split].
  - apply rep_pins_data; [done|]. intros b Hb.
    destruct (decide (b = a)) as [->|Hne].
    + exists t, (clients t - 1). now rewrite lookup_insert_eq.
    + apply list_elem_of_lookup in Hb as [i Hi].
      destruct (rep_lookup _ _ _ _ Hrep Hi) as (tb & Htb & _).
      exists tb, (clients tb). rewrite lookup_insert_ne by done.
      now rewrite set_clients_id.
  - intros b Hb. unfold released. cbn [heap handles].
    rewrite pins_insert, pinned_by_insert. unfold one_if.
    rewrite (decide_False (P := tile (set_tile None cl) = Some b)) by done.
    rewrite (Hp1 _ Hb), (pinned_by_delete _ _ _ b Hc). unfold one_if.
    case_decide as E.
    + subst b. cbn [set_clients clients].
      rewrite Hk, (pinned_by_delete _ _ _ a Hc). unfold one_if.
      rewrite decide_True by done. lia.
    + rewrite decide_False by congruence. done.
  - intros c' cl' b Hc' Ht'. unfold released in Hc'. cbn [handles] in Hc'.
    destruct (decide (c' = c)) as [->|Hne].
    + rewrite lookup_insert_eq in Hc'. injection Hc' as <-. discriminate.
    + rewrite lookup_insert_ne in Hc' by done. eauto.
Qed.

Lemma good_in s l c cl a :
  good s l → handles s !! c = Some cl → tile cl = Some a →
  ∃ i t, l !! i = Some a ∧ heap s !! a = Some t.
Proof.
  intros [Hrep [_ Hp2]] Hc Ht.
  pose proof (Hp2 _ _ _ Hc Ht) as Hal.
  apply list_elem_of_lookup in Hal as [i Hi].
  destruct (rep_lookup _ _ _ _ Hrep Hi) as (t & Ha & _). eauto.
Qed.

Lemma within_sub s s' l l' cur :
  within s l cur →
  static <$> datum s' = static <$> datum s →
  (length l' <= length l)%nat →
  (∀ b, b ∈ l' → Some b ≠ cur →
        b ∈ l ∧ (0 < pins (heap s) b → 0 < pins (heap s') b)) →
  (∀ d, datum s = Some d → max_size d < Z.of_nat (length l) →
     Z.of_nat (length l') <= max_size d ∨
     ∀ b, b ∈ l' → Some b ≠ cur → 0 < pins (heap s) b → 0 < pins (heap s') b) →
  within s' l' cur.
Proof.
  intros (d & Hdat & Hw) Hs Hlen Hsub _.
  rewrite Hdat in Hs. destruct (datum s') as [d'|] eqn:E; [|done].
  simpl in Hs. injection Hs as Hs. exists d'. split; [done|].
  assert (max_size d' = max_size d) as -> by (unfold static in Hs; congruence).
  destruct Hw as [Hw|Hw]; [left; lia|].
  right. intros b Hb Hne. destruct (Hsub b Hb Hne) as [Hbl Hpos].
  apply Hpos. now apply Hw.
Qed.

Lemma set_tile_id cl : tile cl = None → set_tile None cl = cl.
Proof. destruct cl. simpl. now intros ->. Qed.

Lemma client_release_good s l c cl :
  good s l → handles s !! c = Some cl →
  ∃ s' l', client_release c false s = Some (TURTLE_RETURN_SUCCESS, s')
           ∧ release_post s s' l l' c cl.
Proof.
  intros Hgood Hc.
  destruct (tile cl) as [a|] eqn:Ht.
  2:{ exists s, l. split.
      - destruct s as [h dd cs tr]. cbn [handles] in Hc.
        unfold client_release. cstep. now rewrite Ht.
      - split; try done.
        + rewrite set_tile_id by done. now rewrite insert_id.
        + exists []. split; [done|constructor].
        + congruence. }
  destruct (good_in _ _ _ _ _ Hgood Hc Ht) as (i & t & Hi & Ha).
  destruct (released_good _ _ _ _ _ _ Hgood Hc Ht Ha) as [Hk Hgood1].
  pose proof Hgood as [Hrep [Hp1 Hp2]].
  destruct (rep_datum _ _ Hrep) as (d & Hdat & _ & _ & Hsz).
  set (s1 := released s c cl a t) in *.
  assert (Hpa : pins (heap s) a = clients t) by (unfold pins; now rewrite Ha).
  assert (Hkeep1 : ∀ b, b ∈ l → Some b ≠ Some a →
            erase <$> heap s1 !! b = erase <$> heap s !! b).
  { intros b _ Hb. unfold s1, released. cbn [heap].
    rewrite lookup_insert_ne by congruence. done. }
  assert (Hw1 : ∀ cur, within s l cur →
     ∃ d, datum s = Some d ∧
       (Z.of_nat (length l) <= max_size d
        ∨ ∀ b, b ∈ l → Some b ≠ cur → b ≠ a → 0 < pins (heap s1) b)).
  { intros cur (d0 & Hd0 & Hw). exists d0. split; [done|].
    destruct Hw as [Hw|Hw]; [now left|right].
    intros b Hb Hcur Hba. unfold s1, released. cbn [heap].
    rewrite pins_insert, decide_False by done. now apply Hw. }
  destruct ((clients t - 1 =? 0) && (stack_size d >? max_size d)) eqn:Edes.
  - (* the tile is removed *)
    apply andb_true_iff in Edes as [Ezero Eover].
    destruct Hgood1 as [Hrep1 Hpin1].
    destruct (datum_tile_destroy_step s1 l i a Hrep1 Hi)
      as (s2 & Hs2 & Hst2 & Htr2).
    assert (Hp1a : pins (heap s1) a = 0).
    { unfold s1, released. cbn [heap]. rewrite pins_insert, decide_True by done.
      simpl. lia. }
    assert (Hz : ∀ b, b ∈ l → b ∉ delete i l → pins (heap s1) b = 0).
    { intros b Hb Hnb. destruct (decide (b = a)) as [->|Hne]; [done|].
      exfalso. apply Hnb. apply list_elem_of_lookup in Hb as [j Hj].
      apply list_elem_of_lookup.
      destruct (decide (j < i)%nat).
      - exists j. now rewrite list_lookup_delete_lt.
      - assert (j ≠ i) by (intros ->; congruence).
        exists (pred j). rewrite list_lookup_delete_ge by lia.
        now replace (S (pred j)) with j by lia. }
    exists s2, (delete i l). split.
    + destruct s as [h dd cs tr]. cbn [heap datum handles trace] in *.
      subst dd. unfold client_release. cstep. rewrite Ht. cstep. cstep.
      cbn iota. cstep. cstep. cstep.
      replace (clients t - 1 <? 0) with false by lia.
      rewrite bind_assoc. cstep. rewrite Ezero.
      replace (stack_size d >? max_size d) with true by done.
      cbn [andb]. rewrite bind_assoc.
      fold (released (State h (Some d) cs tr) c cl a t). fold s1.
      rewrite (bind_eq _ _ _ _ _ Hs2). cstep.
      destruct (st_rep _ _ _ _ Hst2) as (d2 & Hd2 & _).
      destruct s2 as [h2 dd2 cs2 tr2]. cbn [datum] in Hd2. subst dd2.
      cstep. cstep. reflexivity.
    + split.
      * eapply stack_step_good; [split|exact Hst2|exact Hz]; done.
      * rewrite (st_handles _ _ _ _ Hst2). done.
      * apply elem_of_list_delete.
      * intros b Hb Hne. rewrite Ht in Hne.
        assert (Hbd : b ∈ delete i l).
        { apply list_elem_of_lookup in Hb as [j Hj].
          apply list_elem_of_lookup.
          destruct (decide (j < i)%nat).
          - exists j. now rewrite list_lookup_delete_lt.
          - assert (j ≠ i) by (intros ->; congruence).
            exists (pred j). rewrite list_lookup_delete_ge by lia.
            now replace (S (pred j)) with j by lia. }
        split; [done|].
        rewrite (st_payload _ _ _ _ Hst2) by done.
        apply Hkeep1; [|done].
        eapply elem_of_list_delete; eauto.
      * intros b Hb. rewrite (st_frame _ _ _ _ Hst2) by done.
        unfold s1, released. cbn [heap]. rewrite lookup_insert_ne; [done|].
        intros ->. apply Hb. eapply list_elem_of_lookup_2; eauto.
      * exists [Tile_freed a 0]. split.
        -- rewrite Htr2, Hp1a. done.
        -- constructor; [eauto|constructor].
      * rewrite (st_static _ _ _ _ Hst2). done.
      * intros cur Hw. destruct (Hw1 cur Hw) as (d0 & Hd0 & Hw').
        assert (d0 = d) as -> by congruence.
        destruct (st_rep _ _ _ _ Hst2) as (d2 & Hd2 & _ & Hsz2 & _).
        exists d2. split; [done|].
        assert (max_size d2 = max_size d) as ->.
        { pose proof (st_static _ _ _ _ Hst2) as Hs. unfold s1 in Hs.
          cbn [datum released] in Hs. rewrite Hd2, Hdat in Hs.
          injection Hs. congruence. }
        destruct Hw' as [Hw'|Hw'].
        { left. rewrite length_delete by eauto. lia. }
        right. intros b Hb Hcur.
        assert (b ≠ a).
        { intros ->. eapply list_delete_not_in; [|exact Hi|exact Hb].
          eapply rep_nodup; eauto. }
        rewrite (pins_erase (heap s1)).
        -- apply Hw'; [eapply elem_of_list_delete; eauto|done..].
        -- now apply Hst2.
      * intros a' Ha' Hin. assert (a' = a) as -> by congruence. exfalso.
        eapply list_delete_not_in; [|exact Hi|exact Hin].
        eapply rep_nodup; eauto.
  - (* the tile stays *)
    exists s1, l. split.
    + destruct s as [h dd cs tr]. cbn [heap datum handles trace] in *.
      subst dd. unfold client_release. cstep. rewrite Ht. cstep. cstep.
      cbn iota. cstep. cstep. cstep.
      replace (clients t - 1 <? 0) with false by lia.
      rewrite bind_assoc. cstep. rewrite Edes.
      cstep. cstep. cstep. cstep. reflexivity.
    + split; try done.
      * intros b Hb Hne. rewrite Ht in Hne. split; [done|]. now apply Hkeep1.
      * intros b Hb. unfold s1, released. cbn [heap].
        rewrite lookup_insert_ne; [done|].
        intros ->. apply Hb. eapply list_elem_of_lookup_2; eauto.
      * exists []. split; [done|constructor].
      * intros cur Hw. destruct (Hw1 cur Hw) as (d0 & Hd0 & Hw').
        assert (d0 = d) as -> by congruence.
        exists d. split; [done|].
        destruct Hw' as [Hw'|Hw']; [now left|].
        apply andb_false_iff in Edes as [Enz|Eu]; [|left; lia].
        right. intros b Hb Hcur.
        destruct (decide (b = a)) as [->|Hne]; [|now apply Hw'].
        unfold s1, released. cbn [heap].
        rewrite pins_insert, decide_True by done. simpl. lia.
      * intros a' Ha' _. assert (a' = a) as -> by congruence.
        unfold s1, released. cbn [heap].
        rewrite pins_insert, decide_True by done. simpl. lia.
Qed.

(** ** The search of a tile *)

Lemma client_find_unfold n skip lat lon a :
  client_find n skip lat lon (Some a)
  = match n with
    | O => fault
    | S n' =>
        bind (deref (Some a)) (fun t =>
          if bool_decide (Some a = skip)
          then client_find n' skip lat lon (prev t)
          else
            if inside_tile t (grid_x t lon) (grid_y t lat) then
              bind (datum_tile_touch a)
                   (fun _ => ret (Some (a, grid_x t lon, grid_y t lat)))
            else client_find n' skip lat lon (prev t))
    end.
Proof. now destruct n. Qed.

Lemma client_find_None n skip lat lon s :
  client_find n skip lat lon None s = Some (None, s).
Proof. now destruct n. Qed.

Lemma client_find_spec skip lat lon s l : ∀ n i,
  rep s l → (length l <= n + i)%nat →
  ∃ r s', client_find n skip lat lon (l !! i) s = Some (r, s') ∧
    match r with
    | None =>
        s' = s ∧
        ∀ j b t, (i <= j)%nat → l !! j = Some b → Some b ≠ skip →
          heap s !! b = Some t →
          inside_tile t (grid_x t lon) (grid_y t lat) = false
    | Some (a, hx, hy) =>
        ∃ j t, l !! j = Some a ∧ Some a ≠ skip ∧ heap s !! a = Some t
          ∧ hx = grid_x t lon ∧ hy = grid_y t lat
          ∧ inside_tile t hx hy = true
          ∧ stack_step s s' l (a :: delete j l)
          ∧ trace s' = trace s
    end.
Proof.
  induction n as [|n IH]; intros i Hrep Hlen.
  - assert (l !! i = None) as -> by (apply lookup_ge_None; lia).
    exists None, s. split; [done|]. split; [done|].
    intros j b t Hj Hb. apply lookup_lt_Some in Hb. lia.
  - destruct (l !! i) as [a|] eqn:Hi.
    2:{ exists None, s. split; [apply client_find_None|]. split; [done|].
        intros j b t Hj Hb. apply lookup_ge_None in Hi.
        apply lookup_lt_Some in Hb. lia. }
    rewrite client_find_unfold.
    destruct (deref_rep _ _ _ _ Hrep Hi) as (t & Hde & Ht & Hp & _).
    rewrite (bind_eq _ _ _ _ _ Hde). rewrite Hp.
    assert (Hnext : ∀ r s',
      client_find n skip lat lon (l !! S i) s = Some (r, s') →
      (Some a = skip ∨ inside_tile t (grid_x t lon) (grid_y t lat) = false) →
      match r with
      | None =>
          s' = s ∧
          (∀ j b t, (S i <= j)%nat → l !! j = Some b → Some b ≠ skip →
             heap s !! b = Some t →
             inside_tile t (grid_x t lon) (grid_y t lat) = false)
      | Some _ => True
      end →
      match r with
      | None =>
          s' = s ∧
          (∀ j b t, (i <= j)%nat → l !! j = Some b → Some b ≠ skip →
             heap s !! b = Some t →
             inside_tile t (grid_x t lon) (grid_y t lat) = false)
      | Some _ => True
      end).
    { intros r s' _ Hcur Hr. destruct r; [done|]. destruct Hr as [-> Hr].
      split; [done|]. intros j b tb Hj Hb Hskip Htb.
      destruct (decide (j = i)) as [->|Hne].
      - assert (b = a) as -> by congruence.
        assert (tb = t) as -> by congruence.
        destruct Hcur; [congruence|done].
      - apply (Hr j b tb); [lia|done..]. }
    destruct (IH (S i) Hrep) as (r & s' & Hr & Hpost); [lia|].
    case_bool_decide as Eskip.
    + exists r, s'. split; [done|].
      destruct r as [[[a' hx] hy]|]; [done|].
      eapply (Hnext None); eauto.
    + destruct (inside_tile t (grid_x t lon) (grid_y t lat)) eqn:Ein.
      * destruct (datum_tile_touch_step _ _ _ _ Hrep Hi)
          as (s1 & Hs1 & Hst1 & Htr1).
        exists (Some (a, grid_x t lon, grid_y t lat)), s1.
        rewrite (bind_eq _ _ _ _ _ Hs1). split; [done|].
        exists i, t. do 6 (split; [done|]). done.
      * exists r, s'. split; [done|].
        destruct r as [[[a' hx] hy]|]; [done|].
        eapply (Hnext None); eauto.
Qed.

Lemma pinned_by_zero cs a :
  (∀ c cl, cs !! c = Some cl → tile cl ≠ Some a) → pinned_by cs a = 0%nat.
Proof.
  intros H. unfold pinned_by. apply map_size_empty_iff, map_empty.
  intros c. apply map_lookup_filter_None. right. intros cl Hc.
  unfold pinning. simpl. eauto.
Qed.

Lemma scan_removed pin max size rl b :
  b ∈ rl → b ∉ scan pin max size rl → pin b = 0.
Proof.
  revert size. induction rl as [|a rl IH]; intros size Hb Hn.
  - now apply elem_of_nil in Hb.
  - simpl in Hn. destruct (size >=? max); [|done].
    destruct (pin a =? 0) eqn:Ea.
    + apply elem_of_cons in Hb as [->|Hb]; [lia|]. eapply IH; eauto.
    + apply not_elem_of_cons in Hn as [Hne Hn].
      apply elem_of_cons in Hb as [->|Hb]; [done|]. eapply IH; eauto.
Qed.

Lemma scan_length pin max size rl :
  (length (scan pin max size rl) <= length rl)%nat.
Proof.
  revert size. induction rl as [|a rl IH]; intros size; simpl; [done|].
  destruct (size >=? max); [|done].
  destruct (pin a =? 0); simpl.
  - specialize (IH (size - 1)). lia.
  - specialize (IH size). lia.
Qed.

(** When the scan is over, the stack has room for a tile, or all its tiles
    are in use. *)
Lemma scan_bound pin max size rl :
  let r := scan pin max size rl in
  size - (Z.of_nat (length rl) - Z.of_nat (length r)) < max
  ∨ ∀ b, b ∈ r → pin b ≠ 0.
Proof.
  revert size. induction rl as [|a rl IH]; intros size; simpl.
  - right. intros b Hb. now apply elem_of_nil in Hb.
  - destruct (size >=? max) eqn:Efull.
    2:{ left. simpl. lia. }
    destruct (pin a =? 0) eqn:Ea.
    + destruct (IH (size - 1)) as [H|H]; [left|now right].
      pose proof (scan_length pin max (size - 1) rl). lia.
    + destruct (IH size) as [H|H].
      * left. simpl. pose proof (scan_length pin max size rl). lia.
      * right. intros b [->|Hb]%elem_of_cons; [lia|now apply H].
Qed.

Section Load_failure.

Variable reader : string → geotiff16.

(** The cases in which [datum_tile_load] loads no tile. *)
Lemma datum_tile_load_error s d la lo :
  datum s = Some d →
  let d1 := set_buffer (gdem2_name la lo) d in
  let s1 h := State h (Some d1) (handles s)
                    (File_opened (path_string d1) :: trace s) in
  match format d with
  | DATUM_FORMAT_NONE =>
      datum_tile_load reader la lo s = Some (TURTLE_RETURN_BAD_FORMAT, s)
  | DATUM_FORMAT_ASTER_GDEM2 =>
      if (Z.abs lo >? 180) || (Z.abs la >? 89) then
        datum_tile_load reader la lo s = Some (TURTLE_RETURN_DOMAIN_ERROR, s)
      else
        match reader (path_string d1) with
        | No_file =>
            datum_tile_load reader la lo s
            = Some (TURTLE_RETURN_PATH_ERROR, s1 (heap s))
        | No_memory =>
            datum_tile_load reader la lo s
            = Some (TURTLE_RETURN_MEMORY_ERROR, s1 (heap s))
        | Unreadable w h =>
            datum_tile_load reader la lo s
            = Some (TURTLE_RETURN_BAD_FORMAT,
                    s1 (<[fresh (dom (heap s)) := new_tile w h []]> (heap s)))
        | Raster _ _ _ => True
        end
  end.
Proof.
  intros Hdat d1 s1. destruct s as [h0 dd c tr].
  cbn [heap datum handles trace] in *. subst dd.
  destruct (format d) eqn:Ef.
  - unfold datum_tile_load, bind, get_datum. cbn [datum]. now rewrite Ef.
  - destruct ((Z.abs lo >? 180) || (Z.abs la >? 89)) eqn:Edom.
    + unfold datum_tile_load, bind, get_datum. cbn [datum].
      rewrite Ef. cbv zeta. now rewrite Edom.
    + unfold datum_tile_load, bind, get_datum. cbn [datum].
      rewrite Ef. cbv zeta. rewrite Edom.
      unfold put_datum, set_datum, load_gdem2, bind, emit, malloc_tile, ret.
      cbn [heap datum handles trace]. fold d1.
      destruct (reader (path_string d1)); try done.
Qed.

(** Without room and without a tile to remove, the loader dereferences
    [NULL]. *)
Lemma datum_tile_load_fault s d la lo w h data :
  datum s = Some d → format d = DATUM_FORMAT_ASTER_GDEM2 →
  Z.abs lo <= 180 → Z.abs la <= 89 →
  reader (path_string (set_buffer (gdem2_name la lo) d)) = Raster w h data →
  stack d = None → max_size d <= stack_size d →
  datum_tile_load reader la lo s = None.
Proof.
  intros Hdat Hf Hlo Hla Hr Hst Hfull. destruct s as [h0 dd c tr].
  cbn [heap datum handles trace] in *. subst dd.
  unfold datum_tile_load. mstep. rewrite Hf.
  replace ((Z.abs lo >? 180) || (Z.abs la >? 89)) with false
    by (symmetry; apply orb_false_iff; lia).
  mstep. mstep. unfold load_gdem2. rewrite bind_assoc.
  unfold emit at 1. erewrite bind_eq by reflexivity.
  cbn [heap datum handles trace]. rewrite Hr.
  rewrite bind_assoc. unfold malloc_tile at 1.
  erewrite bind_eq by reflexivity. cbn [heap datum handles trace].
  mstep.
  change (negb (bool_decide (TURTLE_RETURN_SUCCESS = TURTLE_RETURN_SUCCESS)))
    with false. cbn iota.
  mstep. mstep.
  change (stack_size (set_buffer (gdem2_name la lo) d)) with (stack_size d).
  change (max_size (set_buffer (gdem2_name la lo) d)) with (max_size d).
  change (stack (set_buffer (gdem2_name la lo) d)) with (stack d).
  replace (stack_size d >=? max_size d) with true by lia.
  rewrite Hst. reflexivity.
Qed.

End Load_failure.

(** ** Operations on well-formed states *)

Lemma op_post_refl s l : good s l → op_post s s l.
Proof. intros H. split; [done| |done]. exists []. split; [done|constructor]. Qed.

Lemma op_post_trans s1 s2 s3 l2 l3 :
  op_post s1 s2 l2 → op_post s2 s3 l3 → op_post s1 s3 l3.
Proof.
  intros H1 H2. split.
  - apply H2.
  - destruct (op_trace _ _ _ H1) as (e1 & Ht1 & He1).
    destruct (op_trace _ _ _ H2) as (e2 & Ht2 & He2).
    exists (e2 ++ e1). split.
    + rewrite Ht2, Ht1. now rewrite app_assoc.
    + now apply Forall_app.
  - rewrite (op_settings _ _ _ H2). apply H1.
Qed.

Lemma rep_ext s s' l :
  rep s l →
  (∀ d, datum s = Some d →
     ∃ d', datum s' = Some d' ∧ stack d' = stack d
           ∧ stack_size d' = stack_size d) →
  (∀ b, b ∈ l →
     ∃ t k, heap s !! b = Some t ∧ heap s' !! b = Some (set_clients k t)) →
  rep s' l.
Proof.
  intros (d & Hdat & Hst & Hsz & Hd) Hdd Hh.
  destruct (Hdd d Hdat) as (d' & Hdat' & Hst' & Hsz').
  exists d'. split; [done|]. split; [congruence|]. split; [congruence|].
  split; [apply Hd|]. intros i b Hi.
  destruct (dll_links _ _ Hd _ _ Hi) as (tb & Htb & Hp & Hn).
  destruct (Hh b) as (t & k & Ht & Ht'); [eapply list_elem_of_lookup_2; eauto|].
  rewrite Ht'. eexists; split; [reflexivity|].
  assert (t = tb) as -> by congruence. done.
Qed.

Lemma rep_same_heap s s' l :
  rep s l →
  (∀ d, datum s = Some d →
     ∃ d', datum s' = Some d' ∧ stack d' = stack d
           ∧ stack_size d' = stack_size d) →
  (∀ b, b ∈ l → heap s' !! b = heap s !! b) →
  rep s' l.
Proof.
  intros Hrep Hd Hh. eapply rep_ext; eauto. intros b Hb.
  pose proof Hb as Hb'. apply list_elem_of_lookup in Hb' as [i Hi].
  destruct (rep_lookup _ _ _ _ Hrep Hi) as (t & Ht & _).
  exists t, (clients t). rewrite set_clients_id. rewrite Hh by done. done.
Qed.

Lemma good_same s s' l :
  good s l → rep s' l →
  (∀ b, b ∈ l → pins (heap s') b = pins (heap s) b) →
  handles s' = handles s →
  good s' l.
Proof.
  intros [_ [Hp1 Hp2]] Hrep Hpins Hh. split; [done|]. split.
  - intros a Ha. rewrite Hpins, Hh by done. now apply Hp1.
  - intros c cl a Hc. rewrite Hh in Hc. eauto.
Qed.

Lemma pins_same_lookup h h' b : h' !! b = h !! b → pins h' b = pins h b.
Proof. unfold pins. now intros ->. Qed.

Lemma within_same s s' l cur :
  within s l cur →
  settings <$> datum s' = settings <$> datum s →
  (∀ b, b ∈ l → pins (heap s') b = pins (heap s) b) →
  within s' l cur.
Proof.
  intros (d & Hdat & Hw) Hs Hp. rewrite Hdat in Hs.
  destruct (datum s') as [d'|] eqn:Ed'; [|done]. simpl in Hs.
  exists d'. split; [done|].
  assert (max_size d' = max_size d) as -> by (unfold settings in Hs; congruence).
  destruct Hw as [Hw|Hw]; [now left|right].
  intros b Hb Hc. rewrite Hp by done. now apply Hw.
Qed.

Lemma good_pins_nonneg s l b : good s l → b ∈ l → 0 <= pins (heap s) b.
Proof. intros [_ [Hp _]] Hb. rewrite Hp by done. lia. Qed.

Lemma quiet_harmless evs : Forall quiet evs → Forall harmless evs.
Proof. intros H. eapply Forall_impl; [exact H|]. now intros []. Qed.

Lemma quiet_freed evs :
  Forall (λ e, ∃ b, e = Tile_freed b 0) evs → Forall quiet evs.
Proof. intros H. eapply Forall_impl; [exact H|]. intros e (b & ->). done. Qed.

Section Load_invariant.

Variable reader : string → geotiff16.

(** The loader on a well-formed state. *)
Lemma datum_tile_load_good s l la lo :
  good s l →
  match datum_tile_load reader la lo s with
  | None => l = [] ∧ ∃ d, datum s = Some d ∧ max_size d <= 0
  | Some (rc, s') =>
      handles s' = handles s ∧
      ((trace s' = trace s ∧ rc ≠ TURTLE_RETURN_PATH_ERROR)
       ∨ ∃ f evs, trace s' = evs ++ File_opened f :: trace s
                  ∧ load_code (reader f) = rc ∧ Forall quiet evs) ∧
      if bool_decide (rc = TURTLE_RETURN_SUCCESS) then
        ∃ a l' t, op_post s s' (a :: l') ∧ heap s !! a = None
          ∧ heap s' !! a = Some t ∧ clients t = 0
          ∧ within s' (a :: l') (Some a)
          ∧ (∀ b, b ∈ l' → b ∈ l ∧ pins (heap s') b = pins (heap s) b)
          ∧ (∀ b, b ∈ l → b ∉ l' → pins (heap s) b = 0)
      else
        op_post s s' l
        ∧ (∀ b, b ∈ l → heap s' !! b = heap s !! b)
  end.
Proof.
  intros Hgood. pose proof Hgood as [Hrep Hpin].
  destruct (rep_datum _ _ Hrep) as (d & Hdat & _ & Hst & Hsz).
  pose proof (datum_tile_load_error reader s d la lo Hdat) as Herr.
  cbv zeta in Herr.
  set (d1 := set_buffer (gdem2_name la lo) d) in *.
  assert (Hfail : ∀ h, (∀ b, b ∈ l → h !! b = heap s !! b) →
    let s' := State h (Some d1) (handles s)
                    (File_opened (path_string d1) :: trace s) in
    op_post s s' l ∧ (∀ b, b ∈ l → heap s' !! b = heap s !! b)).
  { intros h Hh s'. split; [|done]. split.
    - eapply good_same; [exact Hgood| | |done].
      + eapply rep_same_heap; [exact Hrep| |done].
        intros d0 Hd0. exists d1. split; [done|].
        assert (d0 = d) as -> by congruence. done.
      + intros b Hb. apply pins_same_lookup. now apply Hh.
    - exists [File_opened (path_string d1)]. split; [done|].
      constructor; [done|constructor].
    - simpl. now rewrite Hdat. }
  destruct (format d) eqn:Ef.
  { rewrite Herr. split; [done|]. split; [now left|].
    split; [now apply op_post_refl|done]. }
  destruct ((Z.abs lo >? 180) || (Z.abs la >? 89)) eqn:Edom.
  { rewrite Herr. split; [done|]. split; [now left|].
    split; [now apply op_post_refl|done]. }
  apply orb_false_iff in Edom as [Elo Ela].
  assert (Hfile : ∀ h rc, load_code (reader (path_string d1)) = rc →
    let s' := State h (Some d1) (handles s)
                    (File_opened (path_string d1) :: trace s) in
    (trace s' = trace s ∧ rc ≠ TURTLE_RETURN_PATH_ERROR)
    ∨ ∃ f evs, trace s' = evs ++ File_opened f :: trace s
               ∧ load_code (reader f) = rc ∧ Forall quiet evs).
  { intros h0 rc Hrc s'. right. exists (path_string d1), [].
    split; [done|]. split; [done|constructor]. }
  destruct (reader (path_string d1)) as [| |w h|w h data] eqn:Er.
  - rewrite Herr. split; [done|]. split; [now apply Hfile|]. now apply Hfail.
  - rewrite Herr. split; [done|]. split; [now apply Hfile|]. now apply Hfail.
  - rewrite Herr. split; [done|]. split; [now apply Hfile|].
    apply Hfail. intros b Hb.
    rewrite lookup_insert_ne; [done|]. intros <-.
    eapply rep_not_in; [exact Hrep| |exact Hb].
    apply not_elem_of_dom, is_fresh.
  - destruct (decide (stack_size d < max_size d ∨ l ≠ [])) as [Hroom|Hroom].
    + destruct (datum_tile_load_success reader s l d la lo w h data)
        as (s' & Hs' & Hrep' & Hfresh & Hnew & Hold & Hframe & Hh & Hstat
            & evs & Htr & Hevs); try done; try lia.
      rewrite Hs'. split; [done|].
      set (a := fresh (dom (heap s))) in *.
      set (l' := rev (scan (pins (heap s)) (max_size d) (stack_size d)
                        (rev l))) in *.
      assert (Hrem : ∀ b, b ∈ l → b ∉ l' → pins (heap s) b = 0).
      { intros b Hb Hnb.
        apply (scan_removed (pins (heap s)) (max_size d) (stack_size d)
                            (rev l)).
        - apply elem_of_rev_2. exact Hb.
        - intros Hin. apply Hnb. unfold l'. now apply elem_of_rev_2. }
      assert (Hq : Forall quiet evs).
      { apply Forall_forall. intros e He.
        destruct (Hevs e He) as (b & -> & Hb1 & Hb2). simpl.
        now apply Hrem. }
      split.
      { right. exists (path_string d1), evs. split; [done|].
        split; [now rewrite Er|done]. }
      rewrite bool_decide_eq_true_2 by done.
      assert (Hpa : ∃ t, heap s' !! a = Some t ∧ clients t = 0).
      { destruct (heap s' !! a) as [t|]; [|done]. exists t. split; [done|].
        simpl in Hnew. injection Hnew. done. }
      destruct Hpa as (t & Hta & Hct).
      assert (Hal : a ∉ l) by (eapply rep_not_in; eauto).
      exists a, l', t. split; [split|].
      * split; [done|]. destruct Hpin as [Hp1 Hp2]. split.
        -- intros b [->|Hb]%elem_of_cons.
           ++ unfold pins. rewrite Hta, Hct, Hh.
              rewrite pinned_by_zero; [done|].
              intros c cl Hc Htc. apply Hal. eauto.
           ++ destruct (Hold b Hb) as [Hbl Hpay].
              rewrite (pins_erase _ _ _ Hpay), Hh. now apply Hp1.
        -- intros c cl b Hc Htc. rewrite Hh in Hc.
           pose proof (Hp2 _ _ _ Hc Htc) as Hbl.
           destruct (decide (b ∈ l')) as [|Hn]; [now right|].
           pose proof (Hrem _ Hbl Hn) as H0. rewrite Hp1 in H0 by done.
           pose proof (pinned_by_pos _ _ _ _ Hc Htc). lia.
      * exists (evs ++ [File_opened (path_string d1)]). split.
        -- rewrite Htr. now rewrite <- app_assoc.
        -- apply Forall_app. split; [|constructor; [done|constructor]].
           now apply quiet_harmless.
      * rewrite Hdat. destruct (datum s') as [d'|]; [|done].
        simpl in *. injection Hstat. unfold settings. intros. congruence.
      * split; [done|]. split; [done|]. split; [done|].
        split; [|split; [|done]].
        -- destruct (datum s') as [d'|] eqn:Ed'; [|done].
           exists d'. split; [done|].
           assert (max_size d' = max_size d) as ->.
           { simpl in Hstat. injection Hstat. congruence. }
           destruct (scan_bound (pins (heap s)) (max_size d) (stack_size d)
                       (rev l)) as [Hb|Hb].
           ++ left. cbn [length]. unfold l'. rewrite length_rev.
              rewrite length_rev in Hb. lia.
           ++ right. intros b [->|Hbl]%elem_of_cons Hcur; [done|].
              destruct (Hold b Hbl) as [Hbl' Hpay].
              rewrite (pins_erase _ _ _ Hpay).
              pose proof (good_pins_nonneg _ _ _ Hgood Hbl').
              assert (pins (heap s) b ≠ 0); [|lia].
              apply Hb. unfold l' in Hbl. now apply elem_of_rev_1 in Hbl.
        -- intros b Hb. destruct (Hold b Hb) as [Hbl Hpay].
           split; [done|]. now apply pins_erase.
    + assert (l = []) as ->.
      { destruct l; [done|]. exfalso. apply Hroom. now right. }
      assert (max_size d <= stack_size d) by lia.
      rewrite (datum_tile_load_fault reader s d la lo w h data); try done;
        try lia.
      split; [done|]. exists d. split; [done|]. simpl in Hsz. lia.
Qed.

End Load_invariant.

(** ** The labels of [turtle_client_elevation] *)

Lemma elevation_unlock_State hi rc hx hy h d cs tr :
  elevation_unlock hi rc hx hy (State h (Some d) cs tr)
  = Some (unlock_result hi rc hx hy (cb_fails (unlock d) tr),
          State h (Some d) cs (cb_trace Unlock_called (unlock d) tr)).
Proof.
  unfold elevation_unlock, unlock_result. cstep. cstep.
  destruct (cb_fails (unlock d) tr); [reflexivity|].
  destruct rc, hi; reflexivity.
Qed.

Lemma taken_good s l c cl a t cur :
  good s l → handles s !! c = Some cl → tile cl = None →
  a ∈ l → heap s !! a = Some t →
  good (taken s c a t) l
  ∧ (within s l (Some a) ∨ within s l cur → within (taken s c a t) l cur).
Proof.
  intros Hgood Hc Ht Hal Ha. pose proof Hgood as [Hrep [Hp1 Hp2]].
  assert (Hk : clients t = Z.of_nat (pinned_by (handles s) a)).
  { rewrite <- Hp1 by done. unfold pins. now rewrite Ha. }
  split; [split; [|split]|].
  - eapply rep_ext; [exact Hrep|eauto|]. intros b Hb. cbn [taken heap].
    destruct (decide (b = a)) as [->|Hne].
    + exists t, (clients t + 1). now rewrite lookup_insert_eq.
    + pose proof Hb as Hb'. apply list_elem_of_lookup in Hb' as [i Hi].
      destruct (rep_lookup _ _ _ _ Hrep Hi) as (tb & Htb & _).
      exists tb, (clients tb). rewrite lookup_insert_ne by done.
      now rewrite set_clients_id.
  - intros b Hb. cbn [taken heap handles].
    rewrite pins_insert, pinned_by_insert. unfold one_if. cbn [tile].
    rewrite (pinned_by_delete _ _ _ _ Hc) in Hk.
    pose proof (Hp1 b Hb) as Hkb.
    rewrite (pinned_by_delete _ _ _ _ Hc) in Hkb. unfold one_if in *.
    rewrite Ht in *. rewrite decide_False in Hk by done.
    rewrite decide_False in Hkb by done.
    destruct (decide (b = a)) as [->|Hne].
    + rewrite decide_True by done. cbn [set_clients clients]. lia.
    + rewrite decide_False by congruence. done.
  - intros c' cl' b Hc' Ht'. cbn [taken handles] in Hc'.
    destruct (decide (c' = c)) as [->|Hne].
    + rewrite lookup_insert_eq in Hc'. injection Hc' as <-.
      simpl in Ht'. congruence.
    + rewrite lookup_insert_ne in Hc' by done. eauto.
  - assert (Hk0 : 0 <= clients t) by lia.
    intros [(d & Hdat & Hw)|(d & Hdat & Hw)]; exists d; (split; [done|]);
      (destruct Hw as [Hw|Hw]; [now left|right]);
      intros b Hb Hcur; cbn [taken heap]; rewrite pins_insert;
      case_decide as E; try (cbn [set_clients clients]; lia).
    + apply Hw; [done|congruence].
    + now apply Hw.
Qed.

Lemma harmless_freed evs :
  Forall (λ e, ∃ b, e = Tile_freed b 0) evs → Forall harmless evs.
Proof. intros H. eapply Forall_impl; [exact H|]. intros e (b & ->). done. Qed.

Lemma elevation_update_good s l c cl a hi hx hy :
  good s l → handles s !! c = Some cl → a ∈ l → tile cl ≠ Some a →
  ∃ s' l' d tr1,
    elevation_update c hi (Some a) hx hy s
    = Some (unlock_result hi TURTLE_RETURN_SUCCESS hx hy
              (cb_fails (unlock d) tr1), s')
    ∧ settings <$> datum s = Some (settings d)
    ∧ op_post s s' l'
    ∧ handles s' = <[c := Client (Some a) INT_MIN INT_MIN]> (handles s)
    ∧ a ∈ l' ∧ pins (heap s') a = pins (heap s) a + 1
    ∧ (∀ cur, within s l (Some a) ∨ within s l cur → within s' l' cur)
    ∧ trace s' = cb_trace Unlock_called (unlock d) tr1
    ∧ ∃ evs, tr1 = evs ++ trace s
             ∧ Forall (λ e, ∃ b, e = Tile_freed b 0) evs.
Proof.
  intros Hgood Hc Hal Hne.
  destruct (client_release_good _ _ _ _ Hgood Hc) as (s1 & l1 & Hs1 & Hpost).
  destruct (rp_keep _ _ _ _ _ _ Hpost a Hal) as [Hal1 Hpay]; [congruence|].
  assert (Hc1 : handles s1 !! c = Some (set_tile None cl)).
  { rewrite (rp_handles _ _ _ _ _ _ Hpost). apply lookup_insert_eq. }
  pose proof (rp_good _ _ _ _ _ _ Hpost) as Hgood1.
  pose proof Hal1 as Hi. apply list_elem_of_lookup in Hi as [i Hi].
  destruct (rep_lookup _ _ _ _ (proj1 Hgood1) Hi) as (t & Ht & _).
  pose proof (λ cur, proj2 (taken_good s1 l1 c _ a t cur Hgood1 Hc1 eq_refl
                              Hal1 Ht)) as Hw2.
  pose proof (proj1 (taken_good s1 l1 c _ a t None Hgood1 Hc1 eq_refl
                       Hal1 Ht)) as Hgood2.
  destruct (rep_datum _ _ (proj1 Hgood1)) as (d1 & Hd1 & _).
  destruct (rp_trace _ _ _ _ _ _ Hpost) as (evs & Htr1 & Hevs).
  exists (State (heap (taken s1 c a t)) (Some d1) (handles (taken s1 c a t))
                (cb_trace Unlock_called (unlock d1) (trace s1))),
         l1, d1, (trace s1).
  assert (Hset : settings <$> datum s = Some (settings d1)).
  { rewrite <- (static_settings _ _ (rp_static _ _ _ _ _ _ Hpost)).
    now rewrite Hd1. }
  split; [|split; [done|]].
  { unfold elevation_update. rewrite (bind_eq _ _ _ _ _ Hs1).
    change (negb (bool_decide
                    (TURTLE_RETURN_SUCCESS = TURTLE_RETURN_SUCCESS)))
      with false. cbn iota.
    destruct s1 as [h1 dd1 cs1 tr1]. cbn [heap datum handles trace] in *.
    subst dd1. cstep. cstep. cstep.
    rewrite elevation_unlock_State. reflexivity. }
  set (s2 := taken s1 c a t) in *.
  assert (Heq : ∀ tr, good (State (heap s2) (Some d1) (handles s2) tr) l1).
  { intros tr. eapply good_same; [exact Hgood2| |done|done].
    eapply rep_same_heap; [exact (proj1 Hgood2)| |done].
    intros d0 Hd0. exists d0. split; [|done].
    unfold s2, taken in Hd0. cbn [datum] in *. congruence. }
  split; [split|].
  - apply Heq.
  - destruct (cb_trace_harmless Unlock_called (unlock d1) (trace s1) I)
      as (e2 & He2 & Hh2).
    exists (e2 ++ evs). cbn [trace]. split.
    + rewrite He2, Htr1. now rewrite app_assoc.
    + apply Forall_app. split; [done|]. now apply harmless_freed.
  - cbn [datum]. rewrite Hset. done.
  - cbn [heap handles trace]. split; [|split; [done|split; [|split; [|split]]]].
    + unfold s2, taken. cbn [handles].
      rewrite (rp_handles _ _ _ _ _ _ Hpost). apply insert_insert_eq.
    + unfold s2, taken. cbn [heap]. rewrite pins_insert, decide_True by done.
      cbn [set_clients clients].
      rewrite <- (pins_erase _ _ _ Hpay). unfold pins. now rewrite Ht.
    + intros cur Hw.
      assert (Hw1 : within s1 l1 (Some a) ∨ within s1 l1 cur).
      { destruct Hw as [Hw|Hw]; [left|right];
          now apply (rp_within _ _ _ _ _ _ Hpost). }
      apply Hw2 in Hw1. destruct Hw1 as (d0 & Hd0 & Hw1).
      exists d0. split; [|done]. unfold s2, taken in Hd0.
      cbn [datum] in *. congruence.
    + done.
    + eauto.
Qed.

Lemma get_client_eq s c cl :
  handles s !! c = Some cl → get_client c s = Some (cl, s).
Proof. unfold get_client. now intros ->. Qed.

Lemma fails_eq e cb s :
  fails e cb s
  = Some (cb_fails cb (trace s),
          State (heap s) (datum s) (handles s) (cb_trace e cb (trace s))).
Proof. destruct s. apply fails_State. Qed.

Lemma to_int_eq x s :
  to_int x s = match int_of_double x with
               | Some n => Some (n, s)
               | None => None
               end.
Proof. reflexivity. Qed.

Lemma bind_to_int {B} x (k : Z → M B) s :
  bind (to_int x) k s = match int_of_double x with
                        | Some n => k n s
                        | None => None
                        end.
Proof. unfold bind, to_int. now destruct (int_of_double x). Qed.

Lemma bind_None {A B} (m : M A) (k : A → M B) s :
  m s = None → bind m k s = None.
Proof. unfold bind. now intros ->. Qed.

Lemma good_locked s l tr : good s l →
  good (State (heap s) (datum s) (handles s) tr) l.
Proof.
  intros Hg. eapply good_same; [exact Hg| |done|done].
  eapply rep_same_heap; [apply Hg| |done]. eauto.
Qed.

Lemma within_None s l cur : within s l None → within s l cur.
Proof.
  intros (d & Hd & [Hw|Hw]); exists d; (split; [done|]); [now left|right].
  intros b Hb _. now apply Hw.
Qed.

(** Moving a tile to the top of the stack keeps the bound. *)
Lemma within_touch s s' l j a cur :
  stack_step s s' l (a :: delete j l) → l !! j = Some a →
  within s l cur → within s' (a :: delete j l) cur.
Proof.
  intros Hst Hj Hw.
  assert (Hp : ∀ b, b ∈ a :: delete j l → pins (heap s') b = pins (heap s) b).
  { intros b Hb. apply pins_erase. now apply (st_payload _ _ _ _ Hst). }
  eapply within_sub; [exact Hw|apply Hst| | |].
  - cbn [length]. rewrite length_delete by eauto.
    apply lookup_lt_Some in Hj. lia.
  - intros b Hb _. split; [now apply Hst|]. now rewrite Hp.
  - intros d Hd Hlt. right. intros b Hb _. now rewrite Hp.
Qed.

Lemma within_locked s l cur tr : within s l cur →
  within (State (heap s) (datum s) (handles s) tr) l cur.
Proof. intros H. eapply within_same; eauto. Qed.

Lemma good_reindex s l c cl la lo tr :
  good s l → handles s !! c = Some cl →
  good (State (heap s) (datum s)
              (<[c := Client (tile cl) la lo]> (handles s)) tr) l.
Proof.
  intros [Hrep [Hp1 Hp2]] Hc. split; [|split].
  - eapply rep_same_heap; [exact Hrep| |done]. eauto.
  - intros b Hb. cbn [heap handles]. rewrite (Hp1 b Hb).
    rewrite pinned_by_insert, (pinned_by_delete _ _ _ _ Hc). done.
  - intros c' cl' b Hc' Ht'. cbn [handles] in Hc'.
    destruct (decide (c' = c)) as [->|Hne].
    + rewrite lookup_insert_eq in Hc'. injection Hc' as <-. simpl in Ht'.
      eauto.
    + rewrite lookup_insert_ne in Hc' by done. eauto.
Qed.

Lemma elem_of_touch (l : list addr) i a b :
  l !! i = Some a → b ∈ l → b ∈ a :: delete i l.
Proof.
  intros Hi Hb. destruct (decide (b = a)) as [->|Hne]; [now left|].
  right. apply list_elem_of_lookup in Hb as [j Hj].
  apply list_elem_of_lookup.
  destruct (decide (j < i)%nat).
  - exists j. now rewrite list_lookup_delete_lt.
  - assert (j ≠ i) by (intros ->; congruence).
    exists (pred j). rewrite list_lookup_delete_ge by lia.
    now replace (S (pred j)) with j by lia.
Qed.

Section Lookup.

Variable reader : string → geotiff16.

Lemma event_of_quiet rc evs : Forall quiet evs → Forall (event_of reader rc) evs.
Proof. intros H. eapply Forall_impl; [exact H|]. now intros []. Qed.

Lemma event_of_harmless rc evs :
  Forall (event_of reader rc) evs → Forall harmless evs.
Proof. intros H. eapply Forall_impl; [exact H|]. now intros []. Qed.

Lemma elevation_locked_cases s l c cl lat lon hi d :
  good s l → handles s !! c = Some cl → datum s = Some d →
  match elevation_locked reader c lat lon hi s with
  | None =>
      int_of_double lat = None ∨ int_of_double lon = None
      ∨ (l = [] ∧ max_size d <= 0)
  | Some (b, s') =>
      locked_case reader c cl lat lon hi s d b s'
      ∧ ∃ l', op_post s s' l'
              ∧ ∀ cur, within s l cur → within s' l' cur
  end.
Proof.
  intros Hgood Hc Hdat.
  destruct (rep_datum _ _ (proj1 Hgood)) as (d0 & Hdat0 & Hg & Hst & Hsz).
  assert (d0 = d) as -> by congruence.
  unfold elevation_locked.
  rewrite (bind_eq _ _ _ _ _ (get_client_eq _ _ _ Hc)).
  rewrite (bind_eq _ _ _ _ _ Hg).
  rewrite (bind_eq _ _ _ _ _ (fails_eq _ _ _)).
  fold (locked s d). set (s0 := locked s d).
  assert (Hgood0 : good s0 l) by now apply good_locked.
  assert (Hop0 : op_post s s0 l).
  { split; [done| |done].
    destruct (cb_trace_harmless Lock_called (lock d) (trace s) I)
      as (e & He & Hh). exists e. split; done. }
  destruct (cb_fails (lock d) (trace s)) eqn:Elock.
  { rewrite ret_eq. split; [now constructor|].
    exists l. split; [done|]. intros cur. apply within_locked. }
  rewrite (bind_eq _ _ _ _ _ (fuel_eq s0)).
  destruct (client_find_spec (tile cl) lat lon s0 l (S (size (heap s0))) 0
              (proj1 Hgood0)) as (r & s1 & Hfind & Hr).
  { pose proof (rep_length_le _ _ (proj1 Hgood0)). lia. }
  assert (Hhead : stack d = l !! 0%nat) by (rewrite Hst; now destruct l).
  rewrite Hhead. rewrite (bind_eq _ _ _ _ _ Hfind).
  destruct r as [[[a hx] hy]|].
  - (* a tile of the stack holds the point *)
    destruct Hr as (j & t & Hj & Hskip & Ht & -> & -> & Hin & Hst1 & Htr1).
    assert (Hgood1 : good s1 (a :: delete j l)).
    { eapply stack_step_good; [exact Hgood0|exact Hst1|].
      intros b Hb Hnb. exfalso. apply Hnb. eapply elem_of_touch; eauto. }
    assert (Hc1 : handles s1 !! c = Some cl).
    { rewrite (st_handles _ _ _ _ Hst1). done. }
    destruct (elevation_update_good s1 _ c cl a hi
                (grid_x t lon) (grid_y t lat) Hgood1 Hc1)
      as (s' & l' & d' & tr1 & Hs' & Hset & Hop & Hh & Hal' & Hpin & Hw
          & Htr & evs & -> & Hevs).
    { now left. } { congruence. }
    rewrite Hs'.
    assert (Hu : unlock d' = unlock d).
    { rewrite (static_settings _ _ (st_static _ _ _ _ Hst1)) in Hset.
      cbn [s0 locked datum] in Hset. rewrite Hdat in Hset.
      injection Hset. congruence. }
    rewrite Hu in *. rewrite Htr1 in *.
    split.
    + eapply Tile_taken; eauto.
      * rewrite Hh. now rewrite (st_handles _ _ _ _ Hst1).
      * destruct (proj1 (op_good _ _ _ Hop)) as (dd & _ & _ & _ & Hdl).
        apply list_elem_of_lookup in Hal' as [i Hi].
        destruct (dll_links _ _ Hdl _ _ Hi) as (ta & Hta & _). eauto.
      * rewrite Hpin. f_equal.
        apply pins_erase. apply (st_payload _ _ _ _ Hst1). now left.
      * apply event_of_quiet. now apply quiet_freed.
    + exists l'. split.
      * eapply op_post_trans; [exact Hop0|].
        eapply op_post_trans; [|exact Hop].
        split; [done| |].
        -- exists []. split; [now rewrite Htr1|constructor].
        -- apply static_settings, Hst1.
      * intros cur Hw0. apply Hw. right.
        apply (within_locked _ _ _ (trace s0)) in Hw0.
        eapply within_touch; eauto.
  - (* no tile of the stack holds the point *)
    destruct Hr as [-> Hnone].
    rewrite bind_to_int.
    destruct (int_of_double lat) as [la|] eqn:Ela; [|now left].
    rewrite bind_to_int.
    destruct (int_of_double lon) as [lo|] eqn:Elo; [|right; now left].
    pose proof (datum_tile_load_good reader s0 l la lo Hgood0) as Hload.
    destruct (datum_tile_load reader la lo s0) as [[rc s1]|] eqn:El.
    2:{ rewrite bind_None by done. right. right.
        destruct Hload as (-> & dd & Hdd & Hm). split; [done|].
        cbn [s0 locked datum] in Hdd. congruence. }
    rewrite (bind_eq _ _ _ _ _ El).
    destruct Hload as (Hh1 & Hfile & Hload).
    assert (Hev1 : ∃ e1, trace s1 = e1 ++ trace s0
                         ∧ Forall (event_of reader rc) e1).
    { destruct Hfile as [[Hsame _]|(f & evs & Htr & Hcode & Hq)].
      - exists []. split; [done|constructor].
      - exists (evs ++ [File_opened f]). split.
        + rewrite Htr. now rewrite <- app_assoc.
        + apply Forall_app. split; [now apply event_of_quiet|].
          constructor; [done|constructor]. }
    destruct Hev1 as (e1 & Htr1 & He1).
    case_bool_decide as Erc; cbn [negb].
    + (* the tile has been loaded *)
      subst rc.
      destruct Hload as (a & l1 & t & Hop1 & Hfresh & Hta & Hct & Hw1
                         & Hold & Hrem).
      pose proof (op_good _ _ _ Hop1) as Hgood1.
      destruct (rep_datum _ _ (proj1 Hgood1)) as (d1 & Hd1 & Hg1 & Hst1 & _).
      rewrite (bind_eq _ _ _ _ _ Hg1). rewrite Hst1. cbn [head].
      rewrite (bind_eq _ _ _ _ _ (deref_eq _ _ _ Hta)).
      assert (Hc1 : handles s1 !! c = Some cl) by now rewrite Hh1.
      assert (Hne : tile cl ≠ Some a).
      { intros Htc. destruct (good_in _ _ _ _ _ Hgood Hc Htc)
          as (i & ta & _ & Hha). cbn [s0 locked heap] in Hfresh.
        congruence. }
      destruct (elevation_update_good s1 _ c cl a hi
                  (grid_x t lon) (grid_y t lat) Hgood1 Hc1)
        as (s' & l' & d' & tr1 & Hs' & Hset & Hop & Hh & Hal' & Hpin & Hw
            & Htr & evs & -> & Hevs).
      { now left. } { done. }
      rewrite Hs'.
      assert (Hu : unlock d' = unlock d).
      { rewrite (op_settings _ _ _ Hop1) in Hset.
        cbn [s0 locked datum] in Hset. rewrite Hdat in Hset.
        injection Hset. congruence. }
      rewrite Hu in *. rewrite Htr1 in *. rewrite app_assoc in *.
      split.
      * eapply Tile_taken; eauto.
        -- rewrite Hh. now rewrite Hh1.
        -- destruct (proj1 (op_good _ _ _ Hop)) as (dd & _ & _ & _ & Hdl).
           apply list_elem_of_lookup in Hal' as [i Hi].
           destruct (dll_links _ _ Hdl _ _ Hi) as (ta & Hta' & _). eauto.
        -- rewrite Hpin. unfold pins. cbn [s0 locked heap] in Hfresh.
           rewrite Hta, Hfresh. lia.
        -- apply Forall_app. split; [|done].
           apply event_of_quiet. now apply quiet_freed.
      * exists l'. split.
        -- eapply op_post_trans; [exact Hop0|].
           eapply op_post_trans; [exact Hop1|exact Hop].
        -- intros cur _. apply Hw. now left.
    + (* the tile is not available *)
      destruct Hload as (Hop1 & Hsame).
      pose proof (op_good _ _ _ Hop1) as Hgood1.
      assert (Hc1 : handles s1 !! c = Some cl) by now rewrite Hh1.
      destruct (client_release_good _ _ _ _ Hgood1 Hc1)
        as (s2 & l2 & Hs2 & Hpost).
      rewrite (bind_eq _ _ _ _ _ Hs2).
      assert (Hc2 : handles s2 !! c = Some (set_tile None cl)).
      { rewrite (rp_handles _ _ _ _ _ _ Hpost). apply lookup_insert_eq. }
      rewrite (bind_eq _ _ _ _ _ (get_client_eq _ _ _ Hc2)).
      pose proof (rp_good _ _ _ _ _ _ Hpost) as Hgood2.
      destruct (rep_datum _ _ (proj1 Hgood2)) as (d2 & Hd2 & _).
      destruct (rp_trace _ _ _ _ _ _ Hpost) as (e2 & Htr2 & He2).
      pose proof (rp_handles _ _ _ _ _ _ Hpost) as Hh2.
      pose proof (static_settings _ _ (rp_static _ _ _ _ _ _ Hpost)) as Hset2.
      pose proof (rp_within _ _ _ _ _ _ Hpost) as Hw2.
      clear Hpost.
      destruct s2 as [h2 dd2 cs2 tr2]. cbn [heap datum handles trace] in *.
      subst dd2. cstep. rewrite elevation_unlock_State.
      assert (Hu : unlock d2 = unlock d).
      { rewrite (op_settings _ _ _ Hop1) in Hset2.
        cbn [s0 locked datum] in Hset2. rewrite Hdat in Hset2.
        injection Hset2. congruence. }
      rewrite Hu. rewrite Htr2, Htr1, app_assoc.
      pose proof (good_reindex _ _ c _ la lo
                    (cb_trace Unlock_called (unlock d)
                       ((e2 ++ e1) ++ trace s0)) Hgood2 Hc2) as Hgood3.
      cbn [heap datum handles trace set_tile tile] in Hgood3.
      split.
      * eapply No_tile; eauto.
        -- cbn [handles]. rewrite Hh2.
           rewrite insert_insert_eq. now rewrite Hh1.
        -- apply Forall_app. split; [|done].
           apply event_of_quiet. now apply quiet_freed.
      * exists l2. split; [split|].
        -- exact Hgood3.
        -- cbn [trace].
           destruct (cb_trace_harmless Unlock_called (unlock d)
                       ((e2 ++ e1) ++ trace s0) I) as (e3 & He3 & Hh3).
           destruct (op_trace _ _ _ Hop0) as (e0 & He0 & Hh0).
           exists (e3 ++ (e2 ++ e1) ++ e0). split.
           ++ rewrite He3, He0. now rewrite <- !app_assoc.
           ++ repeat (apply Forall_app; split); try done.
              ** now apply harmless_freed.
              ** eapply event_of_harmless; eauto.
        -- cbn [datum]. rewrite Hset2, (op_settings _ _ _ Hop1). done.
        -- intros cur Hw0. apply (within_locked _ _ _ (trace s0)) in Hw0.
           assert (Hw1 : within s1 l cur).
           { eapply within_same; [exact Hw0|apply Hop1|].
             intros b Hb. apply pins_same_lookup. now apply Hsame. }
           apply Hw2 in Hw1.
           eapply within_same; [exact Hw1|done|done].
Qed.

Lemma elevation_lookup_cases s l c cl lat lon hi d :
  good s l → handles s !! c = Some cl → datum s = Some d →
  match elevation_lookup reader c lat lon hi s with
  | None =>
      int_of_double lat = None ∨ int_of_double lon = None
      ∨ (l = [] ∧ max_size d <= 0)
  | Some (b, s') =>
      lookup_case reader c cl lat lon hi s d b s'
      ∧ ∃ l', op_post s s' l'
              ∧ ∀ cur, within s l cur → within s' l' cur
  end.
Proof.
  intros Hgood Hc Hdat.
  pose proof (elevation_locked_cases s l c cl lat lon hi d Hgood Hc Hdat)
    as Hlocked.
  assert (Hl : (tile cl = None →
                ¬ (int_of_double lat = Some (index_la cl)
                   ∧ int_of_double lon = Some (index_lo cl))) →
    match elevation_locked reader c lat lon hi s with
    | None =>
        int_of_double lat = None ∨ int_of_double lon = None
        ∨ (l = [] ∧ max_size d <= 0)
    | Some (b, s') =>
        lookup_case reader c cl lat lon hi s d b s'
        ∧ ∃ l', op_post s s' l'
                ∧ ∀ cur, within s l cur → within s' l' cur
    end).
  { intros Hn. destruct (elevation_locked reader c lat lon hi s)
      as [[b s']|]; [|done].
    destruct Hlocked as [Hcase Hrest]. split; [|done].
    now apply Looked_up. }
  unfold elevation_lookup.
  rewrite (bind_eq _ _ _ _ _ (get_client_eq _ _ _ Hc)).
  destruct (tile cl) as [a|] eqn:Ht.
  - destruct (good_in _ _ _ _ _ Hgood Hc Ht) as (i & t & Hi & Ha).
    rewrite (bind_eq _ _ _ _ _ (deref_eq _ _ _ Ha)).
    destruct (inside_tile t (grid_x t lon) (grid_y t lat)) eqn:Ein.
    + rewrite ret_eq. split; [eapply In_tile; eauto|].
      exists l. split; [now apply op_post_refl|done].
    + apply Hl. discriminate.
  - rewrite bind_to_int.
    destruct (int_of_double lat) as [la|] eqn:Ela; [|now left].
    destruct (la =? index_la cl) eqn:Eqa.
    + rewrite bind_assoc, bind_to_int.
      destruct (int_of_double lon) as [lo|] eqn:Elo; [|right; now left].
      rewrite (bind_eq _ _ _ _ _ (ret_eq _ _)).
      destruct (lo =? index_lo cl) eqn:Eqo.
      * apply Z.eqb_eq in Eqa, Eqo. subst la lo.
        assert (Hres :
          (if hi
           then ret (Return (Result TURTLE_RETURN_SUCCESS None
                                    (write_inside hi 0)))
           else ret (Return (Result TURTLE_ERROR_MISSING_DATA None
                                    (write_inside hi 0)))) s
          = Some (Return (Result (if hi then TURTLE_RETURN_SUCCESS
                                   else TURTLE_RETURN_PATH_ERROR)
                                  None (write_inside hi 0)), s))
          by now destruct hi.
        rewrite Hres. split; [now apply Missing|].
        exists l. split; [now apply op_post_refl|done].
      * apply Hl. intros _ [_ [= ->]]. lia.
    + rewrite (bind_eq _ _ _ _ _ (ret_eq _ _)).
      apply Hl. intros _ [[= ->] _]. lia.
Qed.

Lemma reads_ret {A} (a : A) : reads (ret a).
Proof. intros s a' s' [= _ <-]. done. Qed.

Lemma reads_bind {A B} (m : M A) (k : A → M B) :
  reads m → (∀ a, reads (k a)) → reads (bind m k).
Proof.
  intros Hm Hk s b s'. unfold bind.
  destruct (m s) as [[a s1]|] eqn:E; [|done].
  apply Hm in E as ->. apply Hk.
Qed.

Lemma reads_to_int x : reads (to_int x).
Proof.
  intros s a s'. unfold to_int. destruct (int_of_double x); [|done].
  now intros [= _ <-].
Qed.

Lemma reads_deref p : reads (deref p).
Proof.
  intros s a s'. unfold deref. destruct p; [|done].
  destruct (heap s !! a0); [|done]. now intros [= _ <-].
Qed.

Lemma reads_sample t i : reads (sample t i).
Proof.
  intros s a s'. unfold sample. destruct (i <? 0); [done|].
  destruct (z t !! Z.to_nat i); [|done]. now intros [= _ <-].
Qed.

Lemma reads_interpolate p hx hy : reads (interpolate p hx hy).
Proof.
  unfold interpolate.
  repeat first [ apply reads_bind; [|intros ?]
               | apply reads_to_int | apply reads_deref
               | apply reads_sample | apply reads_ret ].
Qed.

Lemma interpolate_state p hx hy s v s' :
  interpolate p hx hy s = Some (v, s') → s' = s.
Proof. apply reads_interpolate. Qed.

Lemma reads_get_client c : reads (get_client c).
Proof.
  intros s a s'. unfold get_client. destruct (handles s !! c); [|done].
  now intros [= _ <-].
Qed.

Lemma elevation_interpolate_Some c hi hx hy s r s' :
  elevation_interpolate c hi hx hy s = Some (r, s') →
  s' = s ∧ rc r = TURTLE_RETURN_SUCCESS ∧ inside r = write_inside hi 1
  ∧ is_Some (elevation r).
Proof.
  unfold elevation_interpolate, zm. intros H.
  apply bind_Some_inv in H as (ix & s1 & E & H). apply reads_to_int in E as ->.
  apply bind_Some_inv in H as (iy & s1 & E & H). apply reads_to_int in E as ->.
  apply bind_Some_inv in H as (cl & s1 & E & H).
  apply reads_get_client in E as ->.
  apply bind_Some_inv in H as (t & s1 & E & H). apply reads_deref in E as ->.
  apply bind_Some_inv in H as (z00 & s1 & E & H). apply reads_sample in E as ->.
  apply bind_Some_inv in H as (z01 & s1 & E & H). apply reads_sample in E as ->.
  apply bind_Some_inv in H as (z10 & s1 & E & H). apply reads_sample in E as ->.
  apply bind_Some_inv in H as (z11 & s1 & E & H). apply reads_sample in E as ->.
  injection H as <- <-. simpl. eauto.
Qed.

End Lookup.

(** ** The release with the lock, clear and destroy *)

(** [client_release] with the lock is [client_release] without it, between
    the calls of the two callbacks. *)
Lemma client_release_lock s c cl a d rc s1 d1 :
  handles s !! c = Some cl → tile cl = Some a → datum s = Some d →
  cb_fails (lock d) (trace s) = false →
  client_release c false (locked s d) = Some (rc, s1) →
  datum s1 = Some d1 →
  client_release c true s
  = Some (if cb_fails (unlock d1) (trace s1)
          then TURTLE_RETURN_UNLOCK_ERROR else rc,
          State (heap s1) (datum s1) (handles s1)
                (cb_trace Unlock_called (unlock d1) (trace s1))).
Proof.
  intros Hc Ht Hdat Hlock Hrel Hd1.
  unfold client_release in *.
  rewrite (bind_eq _ _ _ _ _ (get_client_eq _ _ _ Hc)).
  rewrite (bind_eq _ _ _ _ _ (get_client_eq (locked s d) _ _ Hc)) in Hrel.
  rewrite Ht in *.
  assert (Hg : get_datum s = Some (d, s)) by (unfold get_datum; now rewrite Hdat).
  assert (Hg' : get_datum (locked s d) = Some (d, locked s d))
    by (unfold get_datum, locked; simpl; now rewrite Hdat).
  rewrite (bind_eq _ _ _ _ _ Hg).
  rewrite (bind_eq _ _ _ _ _ Hg') in Hrel.
  rewrite (bind_eq _ _ _ _ _ (fails_eq _ _ _)). fold (locked s d).
  rewrite Hlock.
  rewrite (bind_eq _ _ _ _ _ (ret_eq _ _)) in Hrel.
  apply bind_Some_inv in Hrel as (u1 & s2 & H1 & Hrel).
  rewrite (bind_eq _ _ _ _ _ H1).
  apply bind_Some_inv in Hrel as (t & s3 & H2 & Hrel).
  rewrite (bind_eq _ _ _ _ _ H2).
  apply bind_Some_inv in Hrel as (u2 & s4 & H3 & Hrel).
  rewrite (bind_eq _ _ _ _ _ H3).
  apply bind_Some_inv in Hrel as (rc' & s5 & H4 & Hrel).
  rewrite (bind_eq _ _ _ _ _ H4).
  apply bind_Some_inv in Hrel as (d5 & s6 & H5 & Hrel).
  rewrite (bind_eq _ _ _ _ _ H5).
  rewrite (bind_eq _ _ _ _ _ (ret_eq _ _)) in Hrel.
  injection Hrel as <- <-.
  unfold get_datum in H5. destruct (datum s5) as [d5'|] eqn:E5; [|done].
  injection H5 as <- <-. rewrite E5 in Hd1. injection Hd1 as ->.
  rewrite (bind_eq _ _ _ _ _ (fails_eq _ _ _)).
  rewrite E5. now destruct (cb_fails (unlock d1) (trace s5)).
Qed.

Lemma client_release_lock_failed s c cl a d :
  handles s !! c = Some cl → tile cl = Some a → datum s = Some d →
  cb_fails (lock d) (trace s) = true →
  client_release c true s = Some (TURTLE_RETURN_LOCK_ERROR, locked s d).
Proof.
  intros Hc Ht Hdat Hlock. unfold client_release.
  rewrite (bind_eq _ _ _ _ _ (get_client_eq _ _ _ Hc)). rewrite Ht.
  assert (Hg : get_datum s = Some (d, s)) by (unfold get_datum; now rewrite Hdat).
  rewrite (bind_eq _ _ _ _ _ Hg).
  rewrite (bind_eq _ _ _ _ _ (fails_eq _ _ _)). now rewrite Hlock.
Qed.

Lemma client_release_idle s c cl lock0 :
  handles s !! c = Some cl → tile cl = None →
  client_release c lock0 s = Some (TURTLE_RETURN_SUCCESS, s).
Proof.
  intros Hc Ht. unfold client_release.
  rewrite (bind_eq _ _ _ _ _ (get_client_eq _ _ _ Hc)). now rewrite Ht.
Qed.

(** [client_release] with the lock on a well-formed state. *)
Lemma client_release_true_good s l c cl :
  good s l → handles s !! c = Some cl →
  ∃ rc s' l', client_release c true s = Some (rc, s')
    ∧ op_post s s' l'
    ∧ (∀ cur, within s l cur → within s' l' cur)
    ∧ (rc ≠ TURTLE_RETURN_LOCK_ERROR →
       handles s' = <[c := set_tile None cl]> (handles s))
    ∧ (rc = TURTLE_RETURN_LOCK_ERROR → handles s' = handles s)
    ∧ (rc = TURTLE_RETURN_SUCCESS ∨ rc = TURTLE_RETURN_LOCK_ERROR
       ∨ rc = TURTLE_RETURN_UNLOCK_ERROR).
Proof.
  intros Hgood Hc.
  destruct (tile cl) as [a|] eqn:Ht.
  2:{ exists TURTLE_RETURN_SUCCESS, s, l.
      split; [now apply (client_release_idle s c cl)|].
      split; [now apply op_post_refl|]. split; [done|].
      split; [|split; [done|now left]].
      intros _. rewrite set_tile_id by done. now rewrite insert_id. }
  destruct (rep_datum _ _ (proj1 Hgood)) as (d & Hdat & _).
  assert (Hop0 : op_post s (locked s d) l).
  { split; [now apply good_locked| |done].
    destruct (cb_trace_harmless Lock_called (lock d) (trace s) I)
      as (e & He & Hh). exists e. split; done. }
  destruct (cb_fails (lock d) (trace s)) eqn:Elock.
  { exists TURTLE_RETURN_LOCK_ERROR, (locked s d), l.
    split; [eapply client_release_lock_failed; eauto|].
    split; [done|]. split; [intros cur; apply within_locked|].
    split; [done|]. split; [done|]. right. now left. }
  assert (Hgood0 : good (locked s d) l) by now apply good_locked.
  destruct (client_release_good _ _ _ _ Hgood0 Hc) as (s1 & l1 & Hs1 & Hpost).
  destruct (rep_datum _ _ (proj1 (rp_good _ _ _ _ _ _ Hpost)))
    as (d1 & Hd1 & _).
  eexists _, _, l1.
  split; [eapply client_release_lock; eauto|].
  split; [|split; [|split; [|split]]].
  - eapply op_post_trans; [exact Hop0|]. split.
    + apply good_locked. apply Hpost.
    + cbn [trace].
      destruct (cb_trace_harmless Unlock_called (unlock d1) (trace s1) I)
        as (e2 & He2 & Hh2).
      destruct (rp_trace _ _ _ _ _ _ Hpost) as (e1 & He1 & Hh1).
      exists (e2 ++ e1). split.
      * rewrite He2, He1. now rewrite app_assoc.
      * apply Forall_app. split; [done|]. now apply harmless_freed.
    + cbn [datum]. apply static_settings. apply Hpost.
  - intros cur Hw. apply within_locked.
    apply (rp_within _ _ _ _ _ _ Hpost). now apply within_locked.
  - intros _. cbn [handles]. apply Hpost.
  - destruct (cb_fails (unlock d1) (trace s1)); discriminate.
  - destruct (cb_fails (unlock d1) (trace s1)); [right; now right|now left].
Qed.

Lemma within_delete_client s l cur c tr :
  within s l cur →
  within (State (heap s) (datum s) (delete c (handles s)) tr) l cur.
Proof. intros H. eapply within_same; eauto. Qed.

Lemma good_delete_client s l c cl tr :
  good s l → handles s !! c = Some cl → tile cl = None →
  good (State (heap s) (datum s) (delete c (handles s)) tr) l.
Proof.
  intros [Hrep [Hp1 Hp2]] Hc Ht. split; [|split].
  - eapply rep_same_heap; [exact Hrep| |done]. eauto.
  - intros b Hb. cbn [heap handles]. rewrite (Hp1 b Hb).
    rewrite (pinned_by_delete _ _ _ _ Hc). unfold one_if.
    rewrite Ht. now rewrite decide_False.
  - intros c' cl' b Hc' Ht'. cbn [handles] in Hc'.
    apply lookup_delete_Some in Hc' as [_ Hc']. eauto.
Qed.

Lemma turtle_client_clear_good s l c cl :
  good s l → handles s !! c = Some cl →
  ∃ rc s' l', turtle_client_clear c s = Some (rc, s')
    ∧ op_post s s' l' ∧ (∀ cur, within s l cur → within s' l' cur).
Proof.
  intros Hgood Hc.
  destruct (client_release_true_good _ _ _ _ Hgood Hc)
    as (rc & s' & l' & Hs' & Hop & Hw & _ & _ & Hrc).
  unfold turtle_client_clear. rewrite (bind_eq _ _ _ _ _ Hs').
  eexists _, s', l'. split; [|done].
  destruct Hrc as [-> | [-> | ->]]; reflexivity.
Qed.

Lemma turtle_client_destroy_good s l c cl :
  good s l → handles s !! c = Some cl →
  ∃ rc s' l', turtle_client_destroy (Some c) s = Some (rc, s')
    ∧ op_post s s' l' ∧ (∀ cur, within s l cur → within s' l' cur).
Proof.
  intros Hgood Hc.
  destruct (client_release_true_good _ _ _ _ Hgood Hc)
    as (rc & s' & l' & Hs' & Hop & Hw & Hh & _ & Hrc).
  unfold turtle_client_destroy. rewrite (bind_eq _ _ _ _ _ Hs').
  destruct Hrc as [-> | [-> | ->]].
  - exists TURTLE_RETURN_SUCCESS,
      (State (heap s') (datum s') (delete c (handles s')) (trace s')), l'.
    split; [reflexivity|].
    assert (Hc' : handles s' !! c = Some (set_tile None cl)).
    { rewrite Hh by done. apply lookup_insert_eq. }
    split.
    + split.
      * eapply good_delete_client; [apply Hop|exact Hc'|done].
      * apply Hop.
      * apply Hop.
    + intros cur H. apply within_delete_client. now apply Hw.
  - exists TURTLE_RETURN_LOCK_ERROR, s', l'. split; [reflexivity|done].
  - exists TURTLE_RETURN_UNLOCK_ERROR, s', l'. split; [reflexivity|done].
Qed.

(** ** The operations of the stack *)

Lemma turtle_datum_clear_good s l :
  good s l →
  ∃ rc s' l', turtle_datum_clear s = Some (rc, s')
    ∧ op_post s s' l'
    ∧ (∀ cur, within s l cur → within s' l' cur)
    ∧ (rc ≠ TURTLE_RETURN_LOCK_ERROR → within s' l' None).
Proof.
  intros Hgood.
  destruct (rep_datum _ _ (proj1 Hgood)) as (d & Hdat & Hg & _).
  assert (Hop0 : op_post s (locked s d) l).
  { split; [now apply good_locked| |done].
    destruct (cb_trace_harmless Lock_called (lock d) (trace s) I)
      as (e & He & Hh). exists e. split; done. }
  unfold turtle_datum_clear. rewrite (bind_eq _ _ _ _ _ Hg).
  rewrite (bind_eq _ _ _ _ _ (fails_eq _ _ _)). fold (locked s d).
  destruct (cb_fails (lock d) (trace s)) eqn:Elock.
  { exists TURTLE_RETURN_LOCK_ERROR, (locked s d), l.
    split; [done|]. split; [done|].
    split; [intros cur; apply within_locked|done]. }
  assert (Hgood0 : good (locked s d) l) by now apply good_locked.
  destruct (datum_clear_spec false _ _ (proj1 Hgood0)) as (s1 & Hs1 & Hst).
  set (l1 := filter (in_use (heap (locked s d)) false) l) in *.
  assert (Hz : ∀ b, b ∈ l → b ∉ l1 → pins (heap (locked s d)) b = 0).
  { intros b Hb Hnb. destruct (decide (pins (heap (locked s d)) b = 0));
      [done|]. exfalso. apply Hnb. apply list_elem_of_filter.
    split; [split|]; done. }
  pose proof (stack_step_good _ _ _ _ Hgood0 Hst Hz) as Hgood1.
  destruct (stack_step_harmless _ _ _ _ Hst Hz) as (e1 & He1 & Hh1).
  destruct (rep_datum _ _ (proj1 Hgood1)) as (d1 & Hd1 & Hg1 & _).
  rewrite (bind_eq _ _ _ _ _ Hs1). rewrite (bind_eq _ _ _ _ _ Hg1).
  rewrite (bind_eq _ _ _ _ _ (fails_eq _ _ _)).
  set (s2 := State (heap s1) (datum s1) (handles s1)
                   (cb_trace Unlock_called (unlock d1) (trace s1))).
  assert (Hw1 : within s1 l1 None).
  { exists d1. split; [done|]. right. intros b Hb _.
    apply list_elem_of_filter in Hb as [[_ Hb] Hbl].
    rewrite (pins_erase _ _ _ (st_payload _ _ _ _ Hst b
              ltac:(apply list_elem_of_filter; split; [split|]; done))).
    pose proof (good_pins_nonneg _ _ _ Hgood0 Hbl). lia. }
  exists (if cb_fails (unlock d1) (trace s1)
          then TURTLE_RETURN_UNLOCK_ERROR else TURTLE_RETURN_SUCCESS),
    s2, l1.
  split; [now destruct (cb_fails (unlock d1) (trace s1))|].
  split; [|split].
  - eapply op_post_trans; [exact Hop0|]. split.
    + now apply good_locked.
    + cbn [s2 trace].
      destruct (cb_trace_harmless Unlock_called (unlock d1) (trace s1) I)
        as (e2 & He2 & Hh2).
      exists (e2 ++ e1). split.
      * rewrite He2, He1. now rewrite app_assoc.
      * now apply Forall_app.
    + cbn [s2 datum]. apply static_settings, Hst.
  - intros cur _. apply within_locked. now apply within_None.
  - intros _. now apply within_locked.
Qed.

Lemma datum_find_client_find n lat lon p s :
  datum_find n lat lon p s
  = match client_find n None lat lon p s with
    | Some (Some (a, hx, hy), s') => Some (Some (hx, hy), s')
    | Some (None, s') => Some (None, s')
    | None => None
    end.
Proof.
  revert p s. induction n as [|n IH]; intros [a|] s; try reflexivity.
  cbn [datum_find client_find]. unfold bind at 1 3.
  destruct (deref (Some a) s) as [[t s1]|]; [|done].
  rewrite bool_decide_eq_false_2 by done.
  destruct (inside_tile t (grid_x t lon) (grid_y t lat)).
  - unfold bind. destruct (datum_tile_touch a s1) as [[u s2]|]; done.
  - apply IH.
Qed.

Section Datum.

Variable reader : string → geotiff16.

Lemma turtle_datum_elevation_good s l lat lon :
  good s l →
  match turtle_datum_elevation reader lat lon s with
  | None => True
  | Some (r, s') =>
      ∃ l', op_post s s' l'
            ∧ ∀ cur, within s l cur → ∃ cur', within s' l' cur'
  end.
Proof.
  intros Hgood.
  destruct (rep_datum _ _ (proj1 Hgood)) as (d & Hdat & Hg & Hst & _).
  assert (Hload : ∀ k : _ → M (turtle_return * option float),
    (∀ x, reads (k x)) →
    match bind (to_int lat) (fun la => bind (to_int lon) (fun lo =>
            bind (datum_tile_load reader la lo) (fun rc =>
              if negb (bool_decide (rc = TURTLE_RETURN_SUCCESS))
              then ret (TURTLE_RETURN rc, None) else k rc))) s with
    | None => True
    | Some (r, s') =>
        ∃ l', op_post s s' l'
              ∧ ∀ cur, within s l cur → ∃ cur', within s' l' cur'
    end).
  { intros k Hk. rewrite bind_to_int.
    destruct (int_of_double lat) as [la|]; [|done].
    rewrite bind_to_int. destruct (int_of_double lon) as [lo|]; [|done].
    pose proof (datum_tile_load_good reader s l la lo Hgood) as Hl.
    unfold bind. destruct (datum_tile_load reader la lo s) as [[rc s1]|];
      [|done].
    destruct Hl as (_ & _ & Hl). case_bool_decide as Erc; cbn [negb].
    - destruct Hl as (a & l1 & t & Hop & _ & _ & _ & Hw & _).
      destruct (k rc s1) as [[r s2]|] eqn:Ek; [|done].
      apply Hk in Ek as ->. exists (a :: l1). eauto.
    - rewrite ret_eq. destruct Hl as [Hop Hsame].
      exists l. split; [done|]. intros cur Hw. exists cur.
      eapply within_same; [exact Hw|apply Hop|].
      intros b Hb. apply pins_same_lookup. now apply Hsame. }
  assert (Hreads : ∀ (rc : turtle_return),
    reads (bind get_datum (fun d => bind (deref (stack d)) (fun t =>
      bind (interpolate (stack d) (grid_x t lon) (grid_y t lat))
           (fun v => ret (TURTLE_RETURN_SUCCESS, Some v)))))).
  { intros _. apply reads_bind.
    - intros s0 d0 s1. unfold get_datum. destruct (datum s0); [|done].
      now intros [= _ <-].
    - intros d0. apply reads_bind; [apply reads_deref|]. intros t.
      apply reads_bind; [apply reads_interpolate|]. intros v.
      apply reads_ret. }
  unfold turtle_datum_elevation. rewrite (bind_eq _ _ _ _ _ Hg).
  destruct l as [|top l'].
  - simpl in Hst. rewrite Hst. rewrite (bind_eq _ _ _ _ _ (ret_eq _ _)).
    apply (Hload _ Hreads).
  - simpl in Hst. rewrite Hst.
    destruct (deref_rep s (top :: l') 0 top (proj1 Hgood) eq_refl)
      as (t & Hde & Ht & Hp & _).
    rewrite bind_assoc. rewrite (bind_eq _ _ _ _ _ Hde).
    destruct (outside_tile t (grid_x t lon) (grid_y t lat)).
    + rewrite bind_assoc. rewrite (bind_eq _ _ _ _ _ (fuel_eq s)).
      destruct (client_find_spec None lat lon s (top :: l')
                  (S (size (heap s))) 1 (proj1 Hgood))
        as (r & s1 & Hfind & Hr).
      { pose proof (rep_length_le _ _ (proj1 Hgood)). lia. }
      unfold bind at 1. rewrite datum_find_client_find. rewrite Hp, Hfind.
      destruct r as [[[a hx] hy]|].
      * destruct Hr as (j & ta & Hj & _ & _ & _ & _ & _ & Hst1 & Htr1).
        assert (Hgood1 : good s1 (a :: delete j (top :: l'))).
        { eapply stack_step_good; [exact Hgood|exact Hst1|].
          intros b Hb Hnb. exfalso. apply Hnb. eapply elem_of_touch; eauto. }
        match goal with
        | |- match ?m with _ => _ end =>
            destruct m as [[r s2]|] eqn:Em; [|done]
        end.
        assert (s2 = s1) as ->.
        { revert Em. apply reads_bind.
          - intros s0 d0 s3. unfold get_datum. destruct (datum s0); [|done].
            now intros [= _ <-].
          - intros d0. apply reads_bind; [apply reads_interpolate|].
            intros v. apply reads_ret. }
        exists (a :: delete j (top :: l')). split; [split|].
        -- done.
        -- exists []. split; [now rewrite Htr1|constructor].
        -- apply static_settings, Hst1.
        -- intros cur Hw. exists cur. eapply within_touch; eauto.
      * destruct Hr as [-> _]. apply (Hload _ Hreads).
    + rewrite (bind_eq _ _ _ _ _ (ret_eq _ _)).
      match goal with
      | |- match ?m with _ => _ end =>
          destruct m as [[r s2]|] eqn:Em; [|done]
      end.
      assert (s2 = s) as ->.
      { revert Em. apply reads_bind.
        - intros s0 d0 s3. unfold get_datum. destruct (datum s0); [|done].
          now intros [= _ <-].
        - intros d0. apply reads_bind; [apply reads_interpolate|].
          intros v. apply reads_ret. }
      exists (top :: l'). split; [now apply op_post_refl|eauto].
Qed.

Lemma turtle_client_elevation_good s l c cl lat lon hi :
  good s l → handles s !! c = Some cl →
  match turtle_client_elevation reader c lat lon hi s with
  | None => True
  | Some (r, s') =>
      ∃ l', op_post s s' l' ∧ ∀ cur, within s l cur → within s' l' cur
  end.
Proof.
  intros Hgood Hc.
  destruct (rep_datum _ _ (proj1 Hgood)) as (d & Hdat & _).
  pose proof (elevation_lookup_cases reader s l c cl lat lon hi d
                Hgood Hc Hdat) as Hl.
  unfold turtle_client_elevation, bind.
  destruct (elevation_lookup reader c lat lon hi s) as [[b s1]|]; [|done].
  destruct Hl as [_ Hl]. destruct b as [r|hx hy]; [done|].
  destruct (elevation_interpolate c hi hx hy s1) as [[r s2]|] eqn:E; [|done].
  apply elevation_interpolate_Some in E as [-> _]. done.
Qed.

End Datum.

Lemma turtle_client_create_good s l ok :
  good s l →
  ∃ r s', turtle_client_create ok s = Some (r, s') ∧ op_post s s' l
          ∧ (∀ cur, within s l cur → within s' l cur).
Proof.
  intros Hgood. pose proof Hgood as [Hrep [Hp1 Hp2]].
  destruct (rep_datum _ _ Hrep) as (d & Hdat & _).
  unfold turtle_client_create. rewrite Hdat.
  destruct d as [st sz mx fm [lk|] ul pa ps bu].
  2:{ eexists _, s. split; [reflexivity|].
      split; [now apply op_post_refl|done]. }
  destruct ok; cbn [negb].
  2:{ eexists _, s. split; [reflexivity|].
      split; [now apply op_post_refl|done]. }
  eexists _, _. split; [reflexivity|].
  set (c := fresh (dom (handles s))).
  assert (Hc : handles s !! c = None) by apply not_elem_of_dom, is_fresh.
  split; [split|].
  - split; [|split].
    + eapply rep_same_heap; [exact Hrep| |done]. intros d0 Hd0. cbn [datum].
      exists d0. rewrite <- Hdat. done.
    + intros b Hb. cbn [heap handles]. rewrite (Hp1 b Hb).
      rewrite pinned_by_insert_fresh by done. unfold one_if.
      now rewrite decide_False.
    + intros c' cl' b Hc' Ht'. cbn [handles] in Hc'.
      destruct (decide (c' = c)) as [->|Hne].
      * rewrite lookup_insert_eq in Hc'. injection Hc' as <-. done.
      * rewrite lookup_insert_ne in Hc' by done. eauto.
  - exists []. split; [done|constructor].
  - cbn [datum]. now rewrite Hdat.
  - intros cur Hw. eapply within_same; [exact Hw| |done]. cbn [datum].
    now rewrite Hdat.
Qed.

(** ** The soft bound *)

Lemma void_Some {A} (m : M A) s s' :
  void m s = Some (tt, s') ↔ ∃ a, m s = Some (a, s').
Proof.
  unfold void, bind, ret. destruct (m s) as [[a s1]|].
  - split; [intros [= <-]; eauto|intros (a' & [= _ <-]); done].
  - split; [done|intros (a' & [=])].
Qed.

Lemma filter_all {A} (P : A → Prop) `{∀ x, Decision (P x)} l :
  Forall P l → filter P l = l.
Proof.
  induction 1 as [|x l Hx _ IH]; [done|].
  rewrite filter_cons, decide_True by done. now rewrite IH.
Qed.

Lemma length_filter_all {A} (P : A → Prop) `{∀ x, Decision (P x)} l :
  (length l ≤ length (filter P l))%nat → Forall P l.
Proof.
  induction l as [|x l IH]; [constructor|].
  rewrite filter_cons. pose proof (length_filter P l).
  destruct (decide (P x)); simpl; intros Hle.
  - constructor; [done|]. apply IH. lia.
  - lia.
Qed.

Lemma length_filter_but_one {A} `{EqDecision A} (P : A → Prop)
    `{∀ x, Decision (P x)} (l : list A) a :
  NoDup l → (∀ b, b ∈ l → b ≠ a → P b) →
  (length l ≤ length (filter P l) + 1)%nat.
Proof.
  induction l as [|x l IH]; [simpl; lia|].
  intros Hnd Hall. apply NoDup_cons in Hnd as [Hx Hnd].
  rewrite filter_cons. destruct (decide (P x)) as [|Hn]; simpl.
  - assert (length l ≤ length (filter P l) + 1)%nat; [|lia].
    apply IH; [done|]. intros b Hb. apply Hall. now right.
  - assert (x = a) as ->.
    { destruct (decide (x = a)); [done|]. exfalso. apply Hn, Hall; [left|done]. }
    assert (Forall P l).
    { apply Forall_forall. intros b Hb. apply Hall; [now right|].
      intros ->. done. }
    rewrite (filter_all P l) by done. lia.
Qed.

Lemma soft_bound_within s l :
  rep s l → (soft_bound s l ↔ within s l None).
Proof.
  intros Hrep. destruct (rep_datum _ _ Hrep) as (d & Hdat & _ & _ & Hsz).
  unfold soft_bound, soft_bound_plus, within, in_use_count. split.
  - intros (d0 & Hd0 & Hle). assert (d0 = d) as -> by congruence.
    exists d. split; [done|].
    destruct (decide (Z.of_nat (length l) <= max_size d)); [now left|right].
    intros b Hb _.
    assert (Hall : Forall (λ b, 0 < pins (heap s) b) l).
    { apply (length_filter_all (λ b, 0 < pins (heap s) b)). lia. }
    rewrite Forall_forall in Hall. now apply Hall.
  - intros (d0 & Hd0 & Hw). assert (d0 = d) as -> by congruence.
    exists d. split; [done|]. destruct Hw as [Hw|Hw]; [lia|].
    assert (Hall : Forall (λ b, 0 < pins (heap s) b) l).
    { apply Forall_forall. intros b Hb. now apply Hw. }
    rewrite (filter_all _ l Hall). lia.
Qed.

Lemma within_soft_bound_plus s l cur :
  rep s l → within s l cur → soft_bound_plus 1 s l.
Proof.
  intros Hrep (d & Hdat & Hw).
  destruct (rep_datum _ _ Hrep) as (d0 & Hd0 & _ & _ & Hsz).
  assert (d0 = d) as -> by congruence.
  exists d. split; [done|]. unfold in_use_count.
  destruct Hw as [Hw|Hw]; [lia|].
  destruct cur as [a|].
  - pose proof (length_filter_but_one (λ b, 0 < pins (heap s) b) l a
                  (rep_nodup _ _ Hrep)) as Hlen.
    assert (Hall : ∀ b, b ∈ l → b ≠ a → 0 < pins (heap s) b).
    { intros b Hb Hne. apply Hw; [done|congruence]. }
    specialize (Hlen Hall). lia.
  - assert (Hall : Forall (λ b, 0 < pins (heap s) b) l).
    { apply Forall_forall. intros b Hb. now apply Hw. }
    rewrite (filter_all _ l Hall). lia.
Qed.

Lemma length_filter_one_out {A} (P : A → Prop) `{∀ x, Decision (P x)}
    (l : list A) :
  (length l ≤ length (filter P l) + 1)%nat →
  ∃ cur : option A, ∀ b, b ∈ l → Some b ≠ cur → P b.
Proof.
  induction l as [|x l IH]; intros Hle.
  - exists None. intros b Hb. inversion Hb.
  - rewrite filter_cons in Hle. destruct (decide (P x)) as [Hx|Hx].
    + destruct IH as [cur Hcur]; [simpl in Hle; lia|].
      exists cur. intros b [->|Hb]%elem_of_cons Hne; [done|].
      now apply Hcur.
    + assert (Hall : Forall P l).
      { apply (length_filter_all P). simpl in Hle. lia. }
      rewrite Forall_forall in Hall.
      exists (Some x). intros b [->|Hb]%elem_of_cons Hne; [done|].
      now apply Hall.
Qed.

(** The bound with one more tile allowed is the bound with a tile aside. *)
Lemma soft_bound_plus_within s l :
  rep s l → (soft_bound_plus 1 s l ↔ ∃ cur, within s l cur).
Proof.
  intros Hrep. split; [|intros [cur Hw]; eapply within_soft_bound_plus; eauto].
  destruct (rep_datum _ _ Hrep) as (d & Hdat & _ & _ & Hsz).
  intros (d0 & Hd0 & Hle). assert (d0 = d) as -> by congruence.
  unfold in_use_count in Hle.
  destruct (decide (Z.of_nat (length l) <= max_size d)) as [Hm|Hm].
  - exists None, d. split; [done|now left].
  - destruct (length_filter_one_out (λ b, 0 < pins (heap s) b) l)
      as [cur Hcur]; [lia|].
    exists cur, d. split; [done|now right].
Qed.

(** ** Every operation *)

Lemma release_post_op_post s s' l l' c cl :
  release_post s s' l l' c cl → op_post s s' l'.
Proof.
  intros H. split.
  - apply H.
  - destruct (rp_trace _ _ _ _ _ _ H) as (evs & Ht & He).
    exists evs. split; [done|]. now apply harmless_freed.
  - apply static_settings, H.
Qed.

Lemma get_client_None {B} c (k : turtle_client → M B) s :
  handles s !! c = None → bind (get_client c) k s = None.
Proof. intros H. unfold bind, get_client. now rewrite H. Qed.

Lemma client_release_handle c lock0 s x :
  client_release c lock0 s = Some x → is_Some (handles s !! c).
Proof.
  intros H. destruct (handles s !! c) eqn:E; [eauto|].
  unfold client_release in H. now rewrite get_client_None in H.
Qed.

Lemma client_release_op s l c lock0 rc s' :
  good s l → client_release c lock0 s = Some (rc, s') →
  ∃ l', op_post s s' l' ∧ ∀ cur, within s l cur → within s' l' cur.
Proof.
  intros Hgood H.
  destruct (client_release_handle _ _ _ _ H) as [cl Hc].
  destruct lock0.
  - destruct (client_release_true_good s l c cl Hgood Hc)
      as (rc1 & s1 & l1 & E & Hop & Hw & _).
    rewrite E in H. injection H as <- <-. eauto.
  - destruct (client_release_good s l c cl Hgood Hc) as (s1 & l1 & E & Hp).
    rewrite E in H. injection H as <- <-. exists l1. split.
    + eapply release_post_op_post; eauto.
    + apply Hp.
Qed.

Section Run_good.

Variable reader : string → geotiff16.

(** Every operation but the destruction of the stack keeps the state well
    formed and frees no tile in use; the operations that do not load a tile
    keep the stack within its bound, whatever the tile left aside; the others
    keep it within its bound, some tile aside. *)
Lemma run_good o s l s' :
  good s l → o ≠ Datum_destroy → run reader o s = Some (tt, s') →
  ∃ l', op_post s s' l'
        ∧ (loads o = false → ∀ cur, within s l cur → within s' l' cur)
        ∧ (∀ cur, within s l cur → ∃ cur', within s' l' cur').
Proof.
  intros Hgood Hne Hrun. destruct o; cbn [run loads] in *; try done;
    apply void_Some in Hrun as [r Hrun].
  - destruct (turtle_datum_clear_good s l Hgood)
      as (rc1 & s1 & l1 & E & Hop & Hw & _).
    rewrite E in Hrun. injection Hrun as <- <-. eauto 6.
  - pose proof (turtle_datum_elevation_good reader s l latitude longitude
                  Hgood) as H.
    rewrite Hrun in H. destruct H as (l' & Hop & Hw). exists l'. done.
  - pose proof (datum_tile_load_good reader s l latitude longitude Hgood)
      as H.
    rewrite Hrun in H. destruct H as (_ & _ & H).
    case_bool_decide.
    + destruct H as (a & l' & t & Hop & _ & _ & _ & Hw & _).
      exists (a :: l'). split; [done|]. split; [done|]. eauto.
    + destruct H as [Hop Hsame]. exists l. split; [done|]. split; [done|].
      intros cur Hw. exists cur.
      eapply within_same; [exact Hw|apply Hop|].
      intros b Hb. apply pins_same_lookup. now apply Hsame.
  - destruct (turtle_client_create_good s l malloc_ok Hgood)
      as (r1 & s1 & E & Hop & Hw).
    rewrite E in Hrun. injection Hrun as <- <-. eauto 6.
  - destruct c as [c|].
    + assert (Hc : is_Some (handles s !! c)).
      { destruct (handles s !! c) eqn:E; [eauto|].
        unfold turtle_client_destroy, client_release in Hrun.
        rewrite bind_assoc in Hrun. now rewrite get_client_None in Hrun. }
      destruct Hc as [cl Hc].
      destruct (turtle_client_destroy_good s l c cl Hgood Hc)
        as (r1 & s1 & l1 & E & Hop & Hw).
      rewrite E in Hrun. injection Hrun as <- <-. eauto 6.
    + injection Hrun as <- <-. exists l.
      split; [now apply op_post_refl|eauto].
  - assert (Hc : is_Some (handles s !! c)).
    { destruct (handles s !! c) eqn:E; [eauto|].
      unfold turtle_client_clear, client_release in Hrun.
      rewrite bind_assoc in Hrun. now rewrite get_client_None in Hrun. }
    destruct Hc as [cl Hc].
    destruct (turtle_client_clear_good s l c cl Hgood Hc)
      as (r1 & s1 & l1 & E & Hop & Hw).
    rewrite E in Hrun. injection Hrun as <- <-. eauto 6.
  - assert (Hc : is_Some (handles s !! c)).
    { destruct (handles s !! c) eqn:E; [eauto|].
      unfold turtle_client_elevation, elevation_lookup in Hrun.
      rewrite bind_assoc in Hrun. now rewrite get_client_None in Hrun. }
    destruct Hc as [cl Hc].
    pose proof (turtle_client_elevation_good reader s l c cl latitude
                  longitude has_inside Hgood Hc) as H.
    rewrite Hrun in H. destruct H as (l' & Hop & Hw). eauto 6.
  - destruct (client_release_op s l c lock0 r s' Hgood Hrun)
      as (l' & Hop & Hw).
    eauto 6.
Qed.

End Run_good.

(** ** The checker of the well-formed states *)

Lemma dllb_dll h l : dllb h l = true → dll h l.
Proof.
  unfold dllb. intros [Hnd Hall]%andb_true_iff. split.
  - now apply bool_decide_eq_true in Hnd.
  - intros i a Hi. rewrite forallb_forall in Hall.
    assert (Hin : In i (seq 0 (length l))).
    { apply in_seq. apply lookup_lt_Some in Hi. lia. }
    specialize (Hall i Hin). unfold linked in Hall. rewrite Hi in Hall.
    destruct (h !! a) as [t|]; [|done].
    apply andb_true_iff in Hall as [H1 H2].
    apply bool_decide_eq_true in H1, H2. eauto.
Qed.

Lemma repb_rep s l : repb s l = true → rep s l.
Proof.
  unfold repb. intros Hrep. destruct (datum s) as [d|] eqn:Hd; [|done].
  apply andb_true_iff in Hrep as [[H1 H2]%andb_true_iff H3].
  exists d. split; [done|]. split; [now apply bool_decide_eq_true in H1|].
  split; [lia|]. now apply dllb_dll.
Qed.

Lemma goodb_good s l : goodb s l = true → good s l.
Proof.
  unfold goodb. intros [Hrep Hpin]%andb_true_iff. split.
  - now apply repb_rep.
  - unfold pin_accountingb in Hpin.
    apply andb_true_iff in Hpin as [H1 H2].
    rewrite forallb_forall in H1, H2. split.
    + intros a Ha. apply list_elem_of_In in Ha. specialize (H1 a Ha). lia.
    + intros c cl a Hc Ht.
      assert (Hin : In (c, cl) (map_to_list (handles s))).
      { apply list_elem_of_In. now apply elem_of_map_to_list. }
      specialize (H2 _ Hin). unfold holds_tile_of in H2. simpl in H2.
      rewrite Ht in H2. now apply bool_decide_eq_true in H2.
Qed.

(** ** Runs of the library *)

Section Runs.

Variable reader : string → geotiff16.

Lemma created_good ok path0 size lock0 unlock0 d :
  turtle_datum_create ok path0 size lock0 unlock0
  = (TURTLE_RETURN_SUCCESS, Some d) →
  good (created d) [].
Proof.
  intros H. assert (stack d = None ∧ stack_size d = 0) as [H1 H2].
  { unfold turtle_datum_create in H.
    repeat (case_match; try discriminate). injection H as <-. done. }
  split; [|split].
  - exists d. split; [done|]. split; [done|]. split; [done|].
    split; [constructor|]. intros i a Hi. done.
  - intros a Ha. inversion Ha.
  - intros c cl a Hc. done.
Qed.

(** The states that the library reaches are well formed. *)
Lemma runs_good os : ∀ s l s',
  good s l → Forall (λ o, o ≠ Datum_destroy) os → runs reader os s = Some s' →
  wf s'.
Proof.
  induction os as [|o os IH]; intros s l s' Hgood Hos Hrun.
  - injection Hrun as <-. now exists l.
  - cbn [runs] in Hrun. apply Forall_cons in Hos as [Ho Hos].
    destruct (run reader o s) as [[[] s1]|] eqn:E; [|done].
    destruct (run_good reader o s l s1 Hgood Ho E) as (l1 & Hop & _).
    eapply IH; [apply Hop|done|done].
Qed.

(** They hold no more tiles than the larger of the maximal size of the stack
    and of the number of tiles in use, but for one tile. *)
Lemma runs_soft_bound os : ∀ s l s',
  good s l → soft_bound_plus 1 s l →
  Forall (λ o, o ≠ Datum_destroy) os → runs reader os s = Some s' →
  ∃ l', good s' l' ∧ soft_bound_plus 1 s' l'.
Proof.
  induction os as [|o os IH]; intros s l s' Hgood Hb Hos Hrun.
  - injection Hrun as <-. now exists l.
  - cbn [runs] in Hrun. apply Forall_cons in Hos as [Ho Hos].
    destruct (run reader o s) as [[[] s1]|] eqn:E; [|done].
    destruct (run_good reader o s l s1 Hgood Ho E) as (l1 & Hop & _ & Hw).
    apply soft_bound_plus_within in Hb as [cur Hcur]; [|apply Hgood].
    destruct (Hw cur Hcur) as [cur1 Hcur1].
    eapply (IH s1 l1); [apply Hop| |done|done].
    apply soft_bound_plus_within; [apply Hop|eauto].
Qed.

End Runs.

(** ** The examples *)

Lemma small_datum_created :
  turtle_datum_create true "data/ASTGTM2" 1 (Some (always 0))
                      (Some (always 0))
  = (TURTLE_RETURN_SUCCESS, Some small_datum).
Proof. reflexivity. Qed.

Lemma one_pinned_good : good one_pinned [1%positive].
Proof. apply goodb_good. vm_compute. reflexivity. Qed.

(** ** Creation of a stack *)

Lemma after_last_slash_snoc p : after_last_slash (p ++ "/") = Some ""%string.
Proof.
  induction p as [|c p IH]; [reflexivity|].
  change (String c p ++ "/")%string with (String c (p ++ "/")).
  cbn [after_last_slash]. now rewrite IH.
Qed.

Lemma basename_snoc p : basename (p ++ "/") = ""%string.
Proof. unfold basename. now rewrite after_last_slash_snoc. Qed.

Lemma turtle_datum_create_cases ok path0 size lock0 unlock0 :
  turtle_datum_create ok path0 size lock0 unlock0
  = if one_callback lock0 unlock0 then (TURTLE_RETURN_BAD_ADDRESS, None)
    else if negb (String.eqb (basename path0) "ASTGTM2")
    then (TURTLE_RETURN_BAD_FORMAT, None)
    else if negb ok then (TURTLE_RETURN_MEMORY_ERROR, None)
    else (TURTLE_RETURN_SUCCESS,
          Some (Datum None 0 size DATUM_FORMAT_ASTER_GDEM2 lock0 unlock0
                      path0
                      (negb (bool_decide (last_char path0 = Some "/"%char)))
                      "")).
Proof.
  unfold turtle_datum_create.
  destruct lock0, unlock0; cbn [one_callback];
    try reflexivity;
    destruct (String.eqb (basename path0) "ASTGTM2"); reflexivity.
Qed.

Lemma last_char_basename s :
  basename s ≠ ""%string → last_char s = last_char (basename s).
Proof.
  unfold basename. induction s as [|c s IH]; [done|].
  cbn [after_last_slash].
  destruct (after_last_slash s) as [b|] eqn:E.
  - intros Hb. rewrite <- (IH Hb). destruct s; [discriminate E|done].
  - destruct (Ascii.eqb c "/"); [|done].
    intros Hs. destruct s; [done|done].
Qed.

(** The datum that [turtle_datum_create] returns: its stack is empty, its
    format is that of ASTER-GDEM2, and a ['/'] follows its path. *)
Lemma turtle_datum_create_settings ok path0 size lock0 unlock0 d :
  turtle_datum_create ok path0 size lock0 unlock0
  = (TURTLE_RETURN_SUCCESS, Some d) →
  stack d = None ∧ stack_size d = 0 ∧ max_size d = size
  ∧ format d = DATUM_FORMAT_ASTER_GDEM2 ∧ path d = path0
  ∧ path_slash d = true.
Proof.
  rewrite turtle_datum_create_cases.
  destruct (one_callback lock0 unlock0); [discriminate|].
  destruct (String.eqb_spec (basename path0) "ASTGTM2") as [Hb|Hb];
    [|discriminate].
  destruct ok; [|discriminate]. cbn [negb]. intros [= <-]. cbn.
  rewrite last_char_basename by (rewrite Hb; discriminate).
  rewrite Hb. done.
Qed.

(** C10, as the code has it: [turtle_datum_create] returns a datum only if
    the part of the path after its last ['/'] is exactly ["ASTGTM2"]; for
    any other such part, the empty one of a path that ends with ['/']
    included, no datum is created, whether the allocation would succeed or
    not, and the code is [BAD_FORMAT], unless exactly one of the two
    callbacks is given: this is checked first and the code is then
    [BAD_ADDRESS]. *)
Theorem turtle_datum_create_basename ok path0 size lock0 unlock0 :
  let r := turtle_datum_create ok path0 size lock0 unlock0 in
  (r.1 = TURTLE_RETURN_SUCCESS → basename path0 = "ASTGTM2"%string)
  ∧ (is_Some r.2 → basename path0 = "ASTGTM2"%string)
  ∧ (basename path0 ≠ "ASTGTM2"%string →
     r = (if one_callback lock0 unlock0 then TURTLE_RETURN_BAD_ADDRESS
          else TURTLE_RETURN_BAD_FORMAT, None))
  ∧ (∀ p, basename (p ++ "/") ≠ "ASTGTM2"%string).
Proof.
  cbv zeta. rewrite turtle_datum_create_cases.
  destruct (String.eqb_spec (basename path0) "ASTGTM2") as [Hb|Hb];
    cbn [negb].
  - split; [done|]. split; [done|]. split; [done|].
    intros p. now rewrite basename_snoc.
  - split; [|split; [|split]].
    + destruct (one_callback lock0 unlock0); simpl; discriminate.
    + destruct (one_callback lock0 unlock0); simpl; intros [? [=]].
    + intros _. now destruct (one_callback lock0 unlock0).
    + intros p. now rewrite basename_snoc.
Qed.

(** C10, as stated, fails: with a lock and no unlock callback, the path
    ["data"] is rejected with [BAD_ADDRESS], not [BAD_FORMAT]. *)
Lemma create_bad_address_counterexample :
  ¬ (∀ ok path0 size lock0 unlock0,
       basename path0 ≠ "ASTGTM2"%string →
       turtle_datum_create ok path0 size lock0 unlock0
       = (TURTLE_RETURN_BAD_FORMAT, None)).
Proof.
  intros H.
  specialize (H true "data"%string 1 (Some (always 0)) None).
  discriminate H. vm_compute. discriminate.
Qed.

(** ** The loader of the tiles *)

Lemma below_forall (P : Z → bool) (n : nat) :
  forallb (λ k, P (Z.of_nat k)) (seq 0 n) = true →
  ∀ i, 0 <= i < Z.of_nat n → P i = true.
Proof.
  intros H i Hi. rewrite forallb_forall in H.
  specialize (H (Z.to_nat i)). rewrite Z2Nat.id in H by lia.
  apply H. apply in_seq. lia.
Qed.

Lemma zero_pad_two n : 0 <= n < 100 → zero_pad 2 n = two_digits n.
Proof.
  intros Hn.
  apply (String.eqb_eq (zero_pad 2 n) (two_digits n)).
  apply (below_forall (λ i, String.eqb (zero_pad 2 i) (two_digits i)) 100);
    [|done].
  vm_compute. reflexivity.
Qed.

Lemma zero_pad_three n : 0 <= n < 1000 → zero_pad 3 n = three_digits n.
Proof.
  intros Hn.
  apply (String.eqb_eq (zero_pad 3 n) (three_digits n)).
  apply (below_forall (λ i, String.eqb (zero_pad 3 i) (three_digits i)) 1000);
    [|done].
  vm_compute. reflexivity.
Qed.

Lemma gdem2_name_aster la lo :
  Z.abs la <= 99 → Z.abs lo <= 999 → gdem2_name la lo = aster_name la lo.
Proof.
  intros Hla Hlo. unfold gdem2_name, aster_name. cbv zeta.
  rewrite zero_pad_two, zero_pad_three by lia.
  replace (la >=? 0) with (0 <=? la) by lia.
  replace (lo >=? 0) with (0 <=? lo) by lia.
  destruct (0 <=? la), (0 <=? lo); reflexivity.
Qed.

Lemma erase_fields t t' :
  erase t = erase t' →
  clients t = clients t' ∧ nx t = nx t' ∧ ny t = ny t' ∧ x0 t = x0 t'
  ∧ y0 t = y0 t' ∧ dx t = dx t' ∧ dy t = dy t' ∧ z t = z t'.
Proof. destruct t, t'. unfold erase. simpl. intros [=]. by subst. Qed.

Section Loader_contract.

Variable reader : string → geotiff16.

(** C6, as the code has it.  For integer degrees whose absolute value C
    defines, and a stack created by [turtle_datum_create] (its format is
    ASTER-GDEM2): out of the domain the loader returns [DOMAIN_ERROR] and
    leaves the state alone; in the domain it asks the reader for the file
    [ASTGTM2_{N|S}{LL:02}{E|W}{LLL:03}_dem.tif] under the path of the stack,
    whose answer decides the code that it returns, and, given a raster and
    a stack that is not both empty and of maximal size zero, returns
    [SUCCESS] with a new tile on top of the stack, with
    [x0 = lon], [y0 = lat], no client, and [dx = 1/(nx-1)] when [nx > 1]
    but [dx = 0] otherwise, and the same for [dy]. *)
Theorem datum_tile_load_contract s l d la lo :
  rep s l → datum s = Some d → format d = DATUM_FORMAT_ASTER_GDEM2 →
  path_slash d = true →
  INT_MIN < la <= INT_MAX → INT_MIN < lo <= INT_MAX →
  let file := String.append (path d) (String "/" (aster_name la lo)) in
  (180 < Z.abs lo ∨ 89 < Z.abs la →
   datum_tile_load reader la lo s = Some (TURTLE_RETURN_DOMAIN_ERROR, s))
  ∧ (Z.abs lo <= 180 → Z.abs la <= 89 →
     ∀ rc s', datum_tile_load reader la lo s = Some (rc, s') →
     rc = load_code (reader file)
     ∧ ∃ evs, trace s' = evs ++ File_opened file :: trace s)
  ∧ (Z.abs lo <= 180 → Z.abs la <= 89 →
     ∀ w h data, reader file = Raster w h data →
     stack_size d < max_size d ∨ l ≠ [] →
     ∃ s' d' a t,
       datum_tile_load reader la lo s = Some (TURTLE_RETURN_SUCCESS, s')
       ∧ (∃ evs, trace s' = evs ++ File_opened file :: trace s)
       ∧ heap s !! a = None ∧ heap s' !! a = Some t
       ∧ datum s' = Some d' ∧ stack d' = Some a
       ∧ x0 t = double_of_int lo ∧ y0 t = double_of_int la
       ∧ dx t = (if nx t >? 1 then 1 / double_of_int (nx t - 1) else 0)%float
       ∧ dy t = (if ny t >? 1 then 1 / double_of_int (ny t - 1) else 0)%float
       ∧ clients t = 0 ∧ nx t = w ∧ ny t = h ∧ z t = data).
Proof.
  intros Hrep Hdat Hfmt Hslash _ _ file.
  assert (Hfile : Z.abs lo <= 180 → Z.abs la <= 89 →
            path_string (set_buffer (gdem2_name la lo) d) = file).
  { intros Hlo Hla. unfold path_string, file. destruct d. simpl in *.
    rewrite Hslash. rewrite gdem2_name_aster by lia. done. }
  pose proof (datum_tile_load_error reader s d la lo Hdat) as Herr.
  cbv zeta in Herr. rewrite Hfmt in Herr.
  split; [|split].
  - intros Hout.
    replace ((Z.abs lo >? 180) || (Z.abs la >? 89)) with true in Herr;
      [done|].
    symmetry. apply orb_true_iff. lia.
  - intros Hlo Hla rc s' Hrun. specialize (Hfile Hlo Hla).
    replace ((Z.abs lo >? 180) || (Z.abs la >? 89)) with false in Herr
      by (symmetry; apply orb_false_iff; lia).
    rewrite Hfile in Herr.
    destruct (reader file) as [| |w h|w h data] eqn:Hread.
    + rewrite Herr in Hrun. injection Hrun as <- <-.
      split; [done|]. now exists [].
    + rewrite Herr in Hrun. injection Hrun as <- <-.
      split; [done|]. now exists [].
    + rewrite Herr in Hrun. injection Hrun as <- <-.
      split; [done|]. now exists [].
    + destruct (decide (stack_size d < max_size d ∨ l ≠ [])) as [Hroom|Hno].
      * destruct (datum_tile_load_success reader s l d la lo w h data)
          as (s1 & Hs1 & _ & _ & _ & _ & _ & _ & _ & evs & Htr & _);
          try done; [now rewrite Hfile|].
        rewrite Hs1 in Hrun. injection Hrun as <- <-.
        split; [done|]. exists evs. now rewrite <- Hfile.
      * rewrite (datum_tile_load_fault reader s d la lo w h data) in Hrun;
          try done; [now rewrite Hfile| |].
        -- destruct Hrep as (d0 & Hd0 & Hst & _).
           assert (d0 = d) as -> by congruence.
           destruct l; [done|]. exfalso. apply Hno. now right.
        -- lia.
  - intros Hlo Hla w h data Hread Hroom. specialize (Hfile Hlo Hla).
    destruct (datum_tile_load_success reader s l d la lo w h data)
      as (s' & Hs' & Hrep' & Hfresh & Hnew & _ & _ & _ & _ & evs & Htr & _);
      try done; [now rewrite Hfile|].
    destruct (rep_datum _ _ Hrep') as (d' & Hd' & _ & Hst' & _).
    destruct (heap s' !! fresh (dom (heap s))) as [t|] eqn:Ht; [|done].
    simpl in Hnew. apply (inj Some) in Hnew.
    apply erase_fields in Hnew
      as (Hc & Hnx & Hny & Hx0 & Hy0 & Hdx & Hdy & Hz).
    exists s', d', (fresh (dom (heap s))), t.
    split; [done|]. split; [exists evs; now rewrite <- Hfile|].
    split; [done|]. split; [done|]. split; [done|]. split; [done|].
    simpl in *. rewrite Hnx, Hny. done.
Qed.

End Loader_contract.

(** C6 at work: a tile of 2 by 2 samples is loaded at 45 degrees North and
    7 degrees West into the empty stack. *)
Lemma datum_tile_load_contract_witness :
  ∃ s' t,
    datum_tile_load (every_file 2 2 [10; 20; 30; 40]) 45 (-7)
                    (created small_datum)
    = Some (TURTLE_RETURN_SUCCESS, s')
    ∧ (∃ evs, trace s'
              = evs ++ [File_opened "data/ASTGTM2/ASTGTM2_N45W007_dem.tif"])
    ∧ heap s' !! 1%positive = Some t
    ∧ x0 t = (-7)%float ∧ y0 t = 45%float ∧ dx t = 1%float ∧ clients t = 0.
Proof.
  destruct (datum_tile_load_contract (every_file 2 2 [10; 20; 30; 40])
              (created small_datum) [] small_datum 45 (-7))
    as (_ & _ & H); try (vm_compute; done).
  - apply (goodb_good (created small_datum) []). vm_compute. reflexivity.
  - destruct (H ltac:(vm_compute; discriminate) ltac:(vm_compute; discriminate)
                2 2 [10; 20; 30; 40] eq_refl ltac:(left; vm_compute; done))
      as (s' & d' & a & t & Hs' & Htr & Hfresh & Ht & Hd' & Hst
          & Hx0 & Hy0 & Hdx & _ & Hc & Hnx & _).
    assert (a = 1%positive) as ->.
    { assert (E : datum_tile_load (every_file 2 2 [10; 20; 30; 40]) 45 (-7)
                    (created small_datum)
                  = Some (TURTLE_RETURN_SUCCESS, s')) by exact Hs'.
      vm_compute in E. injection E as <-. vm_compute in Hd'.
      injection Hd' as <-. now injection Hst as <-. }
    exists s', t. split; [done|]. split; [done|]. split; [done|].
    rewrite Hdx, Hnx. done.
Defined.

(** C6, as stated, fails: the tile of a raster of one sample has [dx = 0],
    which is not [1/(nx-1)]. *)
Lemma tile_step_counterexample :
  ¬ (∀ reader s la lo s' a t,
       datum_tile_load reader la lo s = Some (TURTLE_RETURN_SUCCESS, s') →
       heap s !! a = None → heap s' !! a = Some t →
       dx t = (1 / double_of_int (nx t - 1))%float).
Proof.
  intros H.
  assert (E : dx (Tile None None 0 1 1 0 0 0 0 [7])
              = (1 / double_of_int (1 - 1))%float).
  { apply (H (every_file 1 1 [7]) (created small_datum) 0 0
             (after (every_file 1 1 [7]) [Tile_load 0 0] small_datum)
             1%positive);
      vm_compute; reflexivity. }
  apply (f_equal (λ x, (x =? 0)%float)) in E. vm_compute in E. discriminate.
Qed.

(** ** The geodetic coordinates *)

Section Geodetic_cases.

Variable atan : float → float.

Variable atan2 : float → float → float.

(** C9: for a datum of a valid format, with [a] and [e] the parameters of
    its ellipsoid and [b = sqrt(a²(1-e²))] the polar radius,
    [turtle_datum_geodetic] returns, when [x] and [y] are both zero, the
    latitude 90 or -90 by the sign of [z], the longitude 0 and the elevation
    [|z| - b]; when they are not both zero and [z] is zero, the latitude 0
    and the elevation [sqrt(x²+y²) - a]; and otherwise the latitude and the
    elevation of one iteration of Bowring's formulas.  The longitude is
    [atan2(y, x)] in degrees in the last two cases. *)
Theorem turtle_datum_geodetic_cases datum x y z :
  format datum = DATUM_FORMAT_ASTER_GDEM2 →
  let a := 6378137%float in
  let e := 0x1.4f21a3cdaafbfp-4%float in
  let b := PrimFloat.sqrt (a * a * (1 - e * e)) in
  let p := PrimFloat.sqrt (x * x + y * y) in
  let longitude := (atan2 y x * 180 / M_PI)%float in
  let r := turtle_datum_geodetic atan atan2 datum (x, y, z) in
  (((x =? 0) && (y =? 0))%float = true →
   r = (TURTLE_RETURN_SUCCESS,
        Some ((if (0 <=? z)%float then 90 else -90)%float, 0%float,
              (PrimFloat.abs z - b)%float)))
  ∧ (((x =? 0) && (y =? 0))%float = false → (z =? 0)%float = true →
     r = (TURTLE_RETURN_SUCCESS, Some (0%float, longitude, (p - a)%float)))
  ∧ (((x =? 0) && (y =? 0))%float = false → (z =? 0)%float = false →
     let eb2 := (e * e * a * a / (a * a * (1 - e * e)))%float in
     let r0 := PrimFloat.sqrt (x * x + y * y + z * z) in
     let tu := (b * z * (1 + eb2 * b / r0) / (a * p))%float in
     let cu := (1 / PrimFloat.sqrt (1 + tu * tu))%float in
     let su := (cu * tu)%float in
     let tp := ((z + eb2 * b * su * su * su)
                / (p - e * e * a * cu * cu * cu))%float in
     let cp := (1 / PrimFloat.sqrt (1 + tp * tp))%float in
     let sp := (cp * tp)%float in
     r = (TURTLE_RETURN_SUCCESS,
          Some ((atan tp * 180 / M_PI)%float, longitude,
                (p * cp + z * sp
                 - a * PrimFloat.sqrt (1 - e * e * sp * sp))%float))).
Proof.
  intros Hf. cbv zeta. unfold turtle_datum_geodetic, get_ellipsoid.
  rewrite Hf. cbv zeta.
  split; [|split].
  - now intros ->.
  - now intros -> ->.
  - now intros -> ->.
Qed.

End Geodetic_cases.

(** C9 at work: the pole, a point of the equator and a point of the axis
    below the centre. *)
Lemma turtle_datum_geodetic_cases_witness :
  turtle_datum_geodetic (λ x, x) (λ y x, y) small_datum (0, 0, 6356752)%float
  = (TURTLE_RETURN_SUCCESS,
     Some (90, 0, 6356752 - PrimFloat.sqrt
                     (6378137 * 6378137
                      * (1 - 0x1.4f21a3cdaafbfp-4 * 0x1.4f21a3cdaafbfp-4)))%float)
  ∧ turtle_datum_geodetic (λ x, x) (λ y x, y) small_datum
                          (6378137, 0, 0)%float
    = (TURTLE_RETURN_SUCCESS, Some (0, 0, 0)%float).
Proof.
  pose proof (turtle_datum_geodetic_cases (λ x, x) (λ y x, y) small_datum
                0 0 6356752 eq_refl) as [H1 _].
  pose proof (turtle_datum_geodetic_cases (λ x, x) (λ y x, y) small_datum
                6378137 0 0 eq_refl) as (_ & H2 & _).
  split.
  - rewrite (H1 eq_refl). vm_compute. reflexivity.
  - rewrite (H2 eq_refl eq_refl). vm_compute. reflexivity.
Defined.

Lemma sample_node t ix iy s :
  0 <= iy * nx t + ix →
  sample t (iy * nx t + ix) s = (λ v, (v, s)) <$> node t ix iy.
Proof.
  intros H. unfold sample, node.
  replace (iy * nx t + ix <? 0) with false by lia.
  now destruct (z t !! Z.to_nat (iy * nx t + ix)).
Qed.

(** Where the conversion of C and the floor agree and give a column and a
    row of the grid, the interpolation of [turtle_datum_elevation] is that
    of the specification. *)
Lemma interpolate_bilinear s a t hx hy ix iy :
  heap s !! a = Some t →
  int_of_double hx = Some ix → floor_of_double hx = Some ix →
  int_of_double hy = Some iy → floor_of_double hy = Some iy →
  0 <= ix <= nx t - 1 → 0 <= iy <= ny t - 1 →
  interpolate (Some a) hx hy s = (λ v, (v, s)) <$> bilinear t hx hy.
Proof.
  intros Ha Hix Hfx Hiy Hfy Hx Hy.
  unfold interpolate, bilinear. rewrite Hfx, Hfy.
  rewrite bind_to_int, Hix, bind_to_int, Hiy.
  rewrite (bind_eq _ _ _ _ _ (deref_eq _ _ _ Ha)). cbv zeta.
  replace (ix <? 0) with false by lia. replace (iy <? 0) with false by lia.
  replace (clamp ix 0 (nx t - 1)) with ix by (unfold clamp; lia).
  replace (clamp iy 0 (ny t - 1)) with iy by (unfold clamp; lia).
  replace (if ix >=? nx t - 1 then nx t - 1 else ix + 1)
    with (Z.min (ix + 1) (nx t - 1)) by (destruct (ix >=? nx t - 1) eqn:E; lia).
  replace (if iy >=? ny t - 1 then ny t - 1 else iy + 1)
    with (Z.min (iy + 1) (ny t - 1)) by (destruct (iy >=? ny t - 1) eqn:E; lia).
  unfold bind.
  rewrite sample_node by nia. destruct (node t ix iy); [|done]. simpl.
  rewrite sample_node by nia.
  destruct (node t ix (Z.min (iy + 1) (ny t - 1))); [|done]. simpl.
  rewrite sample_node by nia.
  destruct (node t (Z.min (ix + 1) (nx t - 1)) iy); [|done]. simpl.
  rewrite sample_node by nia.
  now destruct (node t (Z.min (ix + 1) (nx t - 1))
                       (Z.min (iy + 1) (ny t - 1))).
Qed.

(** ** The interpolation at the edge of a tile *)

(** C5 fails in the code at the upper edge of a tile.  At the longitude 1.5
    of the tile above, [hx = 3 = nx] and [hy = 0] pass the test
    [0 ≤ hx ≤ nx], [0 ≤ hy ≤ ny].  The formula of the specification clamps
    [ix] to [nx-1 = 2] and gives the sample of the node (2, 0).  The code
    does not clamp [ix] from above: it reads [zm[iy*nx+ix] = zm[3]], the
    sample of the node (0, 1), and returns it, from the stack and from the
    client alike; at the latitude 1.5 too, [hy = 3] and it reads [zm[12]],
    out of the 9 samples of the tile, where the specification gives the
    sample of the node (2, 2). *)
Example interpolate_upper_edge :
  heap ramp_stack !! 1%positive = Some ramp_tile
  ∧ grid_x ramp_tile 1.5 = 3%float ∧ grid_y ramp_tile 0 = 0%float
  ∧ inside_tile ramp_tile 3 0 = true
  ∧ bilinear ramp_tile 3 0 = Some 2%float
  ∧ fst <$> turtle_datum_elevation (every_file 3 3 ramp) 0 1.5 ramp_stack
    = Some (TURTLE_RETURN_SUCCESS, Some 3%float)
  ∧ fst <$> turtle_client_elevation (every_file 3 3 ramp) 1 0 1.5 true
              ramp_client
    = Some (Result TURTLE_RETURN_SUCCESS (Some 3%float) (Some 1))
  ∧ inside_tile ramp_tile 3 3 = true
  ∧ bilinear ramp_tile 3 3 = Some 8%float
  ∧ turtle_datum_elevation (every_file 3 3 ramp) 1.5 1.5 ramp_stack = None
  ∧ turtle_client_elevation (every_file 3 3 ramp) 1 1.5 1.5 true ramp_client
    = None.
Proof. vm_compute. repeat split; reflexivity. Qed.

(** ** The elevation from a client *)

Lemma cb_trace_cases e cb tr :
  cb_trace e cb tr = tr ∨ cb_trace e cb tr = e :: tr.
Proof. destruct cb; [now right|now left]. Qed.

Lemma always_fails (d : turtle_datum) u tr :
  unlock d = Some u → (∀ tr, u tr ≠ 0) → cb_fails (unlock d) tr = true.
Proof.
  intros -> Hu. unfold cb_fails. specialize (Hu tr).
  apply negb_true_iff. lia.
Qed.

Section Client_elevation.

Variable reader : string → geotiff16.

(** The outcomes of [turtle_client_elevation] on a well-formed state. *)
Lemma turtle_client_elevation_cases s l c cl d lat lon hi r s' :
  good s l → handles s !! c = Some cl → datum s = Some d →
  turtle_client_elevation reader c lat lon hi s = Some (r, s') →
  (s' = s ∧ (rc r = TURTLE_RETURN_SUCCESS ∨ rc r = TURTLE_RETURN_PATH_ERROR))
  ∨ ∃ b s1, locked_case reader c cl lat lon hi s d b s1
            ∧ match b with
              | Return r1 => r = r1 ∧ s' = s1
              | Goto_interpolate hx hy =>
                  s' = s1 ∧ rc r = TURTLE_RETURN_SUCCESS
                  ∧ inside r = write_inside hi 1
              end.
Proof.
  intros Hgood Hc Hdat Hrun.
  pose proof (elevation_lookup_cases reader s l c cl lat lon hi d
                Hgood Hc Hdat) as Hl.
  unfold turtle_client_elevation, bind in Hrun.
  destruct (elevation_lookup reader c lat lon hi s) as [[b s1]|]; [|done].
  destruct Hl as [Hcase _]. destruct Hcase as [a t Ht Ha Hin|Ht Hla Hlo|b s1 _ Hlk].
  - left. apply elevation_interpolate_Some in Hrun as (-> & Hrc & _).
    split; [done|now left].
  - left. injection Hrun as <- <-. split; [done|].
    destruct hi; [now left|now right].
  - right. exists b, s1. split; [done|]. destruct b as [r1|hx hy].
    + now injection Hrun as <- <-.
    + apply elevation_interpolate_Some in Hrun as (-> & Hrc & Hin & _). done.
Qed.


End Client_elevation.


Lemma known_missing_int : known_missing int_of_double.
Proof.
  intros reader s c cl lat lon hi Hc Ht Hla Hlo.
  exists (Result (if hi then TURTLE_RETURN_SUCCESS
                  else TURTLE_RETURN_PATH_ERROR) None (write_inside hi 0)).
  split; [|done].
  unfold turtle_client_elevation, elevation_lookup.
  rewrite bind_assoc. rewrite (bind_eq _ _ _ _ _ (get_client_eq _ _ _ Hc)).
  rewrite Ht. rewrite bind_assoc. rewrite bind_to_int, Hla.
  rewrite Z.eqb_refl. rewrite !bind_assoc. rewrite bind_to_int, Hlo.
  rewrite Z.eqb_refl. now destruct hi.
Qed.

Lemma app_cb_trace e cb tr :
  ∃ pre, cb_trace e cb tr = pre ++ tr
         ∧ ∀ f, File_opened f ∈ pre → e = File_opened f.
Proof.
  destruct cb; simpl.
  - exists [e]. split; [done|]. intros f Hf.
    apply list_elem_of_singleton in Hf. done.
  - exists []. split; [done|]. intros f Hf. inversion Hf.
Qed.

Section Missing.

Variable reader : string → geotiff16.


End Missing.

(** ** The release of a tile, whatever its count of clients *)

Lemma client_release_core s l i c cl a t d :
  rep s l → l !! i = Some a → handles s !! c = Some cl →
  tile cl = Some a → heap s !! a = Some t → datum s = Some d →
  ∃ rc s',
    client_release c false s = Some (rc, s')
    ∧ (settings <$> datum s' = Some (settings d))
    ∧ (clients t - 1 < 0 →
       rc = TURTLE_RETURN_LIBRARY_ERROR ∧ s' = snapped s c cl a t)
    ∧ (0 <= clients t - 1 →
       rc = TURTLE_RETURN_SUCCESS
       ∧ if (clients t - 1 =? 0) && (stack_size d >? max_size d)
         then heap s' !! a = None ∧ trace s' = Tile_freed a 0 :: trace s
         else s' = released s c cl a t).
Proof.
  intros Hrep Hi Hc Ht Ha Hdat.
  assert (Hrep1 : rep (released s c cl a t) l).
  { apply rep_pins_data; [done|]. intros b Hb.
    destruct (decide (b = a)) as [->|Hne].
    - exists t, (clients t - 1). now rewrite lookup_insert_eq.
    - apply list_elem_of_lookup in Hb as [j Hj].
      destruct (rep_lookup _ _ _ _ Hrep Hj) as (tb & Htb & _).
      exists tb, (clients tb). rewrite lookup_insert_ne by done.
      now rewrite set_clients_id. }
  destruct (clients t - 1 <? 0) eqn:Eneg.
  - exists TURTLE_RETURN_LIBRARY_ERROR, (snapped s c cl a t).
    split; [|split; [|split]].
    + destruct s as [h dd cs tr]. cbn [heap datum handles trace] in *.
      subst dd. unfold client_release. cstep. rewrite Ht. cstep. cstep.
      cbn iota. cstep. cstep. cstep. rewrite Eneg.
      rewrite bind_assoc. cstep. cstep. cstep. cstep.
      unfold snapped. cbn [heap datum handles trace].
      now rewrite insert_insert_eq.
    + unfold snapped. cbn [datum]. now rewrite Hdat.
    + done.
    + lia.
  - destruct ((clients t - 1 =? 0) && (stack_size d >? max_size d)) eqn:Edes.
    + apply andb_true_iff in Edes as [Ezero Eover].
      destruct Hrep1 as (d1 & Hd1 & Hst1 & Hsz1 & Hdll1).
      assert (d1 = d) as -> by (cbn [released datum] in Hd1; congruence).
      assert (Ha1 : heap (released s c cl a t) !! a
                    = Some (set_clients (clients t - 1) t))
        by (cbn [released heap]; apply lookup_insert_eq).
      pose proof (datum_tile_destroy_eq _ _ _ _ _ _ Hd1 Hst1 Hdll1 Hi Ha1)
        as Hdes.
      eexists TURTLE_RETURN_SUCCESS, _. split; [|split; [|split]].
      * destruct s as [h dd cs tr]. cbn [heap datum handles trace] in *.
        subst dd. unfold client_release. cstep. rewrite Ht. cstep. cstep.
        cbn iota. cstep. cstep. cstep. rewrite Eneg.
        rewrite bind_assoc. cstep. rewrite Ezero, Eover. cbn [andb].
        rewrite bind_assoc.
        fold (released (State h (Some d) cs tr) c cl a t).
        rewrite (bind_eq _ _ _ _ _ Hdes). cstep. cstep. cstep. reflexivity.
      * reflexivity.
      * lia.
      * intros _. split; [done|]. cbn [heap trace released].
        split; [apply lookup_delete_eq|]. cbn [set_clients clients].
        replace (clients t - 1) with 0 by lia. done.
    + exists TURTLE_RETURN_SUCCESS, (released s c cl a t).
      split; [|split; [|split]].
      * destruct s as [h dd cs tr]. cbn [heap datum handles trace] in *.
        subst dd. unfold client_release. cstep. rewrite Ht. cstep. cstep.
        cbn iota. cstep. cstep. cstep. rewrite Eneg.
        rewrite bind_assoc. cstep. rewrite Edes.
        cstep. cstep. cstep. reflexivity.
      * unfold released. cbn [datum]. now rewrite Hdat.
      * lia.
      * done.
Qed.

Lemma rep_locked s l tr :
  rep s l → rep (State (heap s) (datum s) (handles s) tr) l.
Proof. intros H. eapply rep_same_heap; [exact H| |done]. eauto. Qed.




(** ** The invariants of the stack *)

Lemma harmless_unused s s' :
  (∃ evs, trace s' = evs ++ trace s ∧ Forall harmless evs) →
  frees_only_unused s s'.
Proof.
  intros (evs & Ht & He). exists evs. split; [done|]. intros a n Hin.
  rewrite Forall_forall in He. now apply (He _ Hin).
Qed.

Lemma scan_all_pinned pin max size rl :
  (∀ b, b ∈ rl → pin b ≠ 0) → scan pin max size rl = rl.
Proof.
  revert size. induction rl as [|a rl IH]; intros size H; [done|].
  simpl. destruct (size >=? max); [|done].
  destruct (pin a =? 0) eqn:E.
  - exfalso. apply (H a); [now left|lia].
  - rewrite IH; [done|]. intros b Hb. apply H. now right.
Qed.

Lemma rep_unique s l1 l2 : rep s l1 → rep s l2 → l1 = l2.
Proof.
  intros (d1 & Hd1 & Hs1 & _ & Hl1) (d2 & Hd2 & Hs2 & _ & Hl2).
  assert (d2 = d1) as -> by congruence.
  apply list_eq. intros i. induction i as [|i IH]; [congruence|].
  destruct (l1 !! i) as [a|] eqn:E1.
  - symmetry in IH.
    destruct (dll_links _ _ Hl1 _ _ E1) as (t1 & Ht1 & Hp1 & _).
    destruct (dll_links _ _ Hl2 _ _ IH) as (t2 & Ht2 & Hp2 & _).
    congruence.
  - symmetry in IH. apply lookup_ge_None in E1, IH.
    rewrite !(proj2 (lookup_ge_None _ _)) by lia. done.
Qed.

Lemma client_ops_return s l c :
  good s l → is_Some (handles s !! c) →
  (∀ lock0, is_Some (client_release c lock0 s))
  ∧ is_Some (turtle_client_clear c s)
  ∧ is_Some (turtle_client_destroy (Some c) s).
Proof.
  intros Hgood [cl Hc]. split; [|split].
  - intros [].
    + destruct (client_release_true_good s l c cl Hgood Hc)
        as (rc & s' & l' & E & _). rewrite E. eauto.
    + destruct (client_release_good s l c cl Hgood Hc)
        as (s' & l' & E & _). rewrite E. eauto.
  - destruct (turtle_client_clear_good s l c cl Hgood Hc)
      as (rc & s' & l' & E & _). rewrite E. eauto.
  - destruct (turtle_client_destroy_good s l c cl Hgood Hc)
      as (rc & s' & l' & E & _). rewrite E. eauto.
Qed.

Section Invariants.

Variable reader : string → geotiff16.

(** C1: pin accounting is an invariant.  In a state in which the stack is
    a well-formed list of tiles and the count of clients of each of its
    tiles is the number of clients that hold it, every operation on the
    stack or on a client, the destruction of the stack aside, leads to such
    a state when it returns: the elevation from a client, the clearing and
    the destruction of a client and the internal release among them; and
    these last three always return for a client of the state. *)
Theorem pin_accounting_preserved s l :
  rep s l → pin_accounting s l →
  (∀ o s', o ≠ Datum_destroy → run reader o s = Some (tt, s') →
           ∃ l', rep s' l' ∧ pin_accounting s' l')
  ∧ (∀ c, is_Some (handles s !! c) →
          (∀ lock0, is_Some (client_release c lock0 s))
          ∧ is_Some (turtle_client_clear c s)
          ∧ is_Some (turtle_client_destroy (Some c) s)).
Proof.
  intros Hrep Hpin. assert (Hgood : good s l) by done. split.
  - intros o s' Ho Hrun.
    destruct (run_good reader o s l s' Hgood Ho Hrun) as (l' & Hop & _).
    exists l'. apply Hop.
  - intros c Hc. now apply (client_ops_return s l c).
Qed.

(** C2, as the code has it: every operation but the destruction of the
    stack frees only tiles that have no client when they are freed, and
    leaves no client with a tile that has been freed. *)
Theorem no_premature_eviction o s l s' :
  good s l → o ≠ Datum_destroy → run reader o s = Some (tt, s') →
  frees_only_unused s s'
  ∧ ∀ c cl a, handles s' !! c = Some cl → tile cl = Some a →
              ∃ t, heap s' !! a = Some t ∧ 0 < clients t.
Proof.
  intros Hgood Ho Hrun.
  destruct (run_good reader o s l s' Hgood Ho Hrun) as (l' & Hop & _).
  split; [apply harmless_unused, Hop|].
  intros c cl a Hc Ht. destruct Hop as [Hgood' _ _].
  destruct (good_in _ _ _ _ _ Hgood' Hc Ht) as (i & t & Hi & Ha).
  exists t. split; [done|].
  destruct Hgood' as [_ [Hp1 _]].
  pose proof (Hp1 a ltac:(eapply list_elem_of_lookup_2; eauto)) as Hk.
  unfold pins in Hk. rewrite Ha in Hk.
  pose proof (pinned_by_pos _ _ _ _ Hc Ht). lia.
Qed.

(** C3, as the code has it.  Every sequence of operations without the
    destruction of the stack keeps the stack within its soft bound with one
    more tile allowed; the operations that do not load a tile keep
    the stack within its soft bound; the clearing of the stack, once it has
    the lock, leaves it within this bound; a load leaves it within the
    bound with one more tile, the new one, which nobody holds yet; a load
    into a stack that is not empty succeeds whenever the file is read, and
    keeps under the new tile those that [scan] keeps, from the last tile
    of the stack upwards: all of them when they are all in use, whatever the
    maximal size. *)
Theorem soft_bound_kept s l :
  good s l →
  (∀ os s', Forall (λ o, o ≠ Datum_destroy) os → soft_bound_plus 1 s l →
            runs reader os s = Some s' →
            ∃ l', good s' l' ∧ soft_bound_plus 1 s' l')
  ∧ (∀ o s', o ≠ Datum_destroy → loads o = false → soft_bound s l →
             run reader o s = Some (tt, s') →
             ∃ l', good s' l' ∧ soft_bound s' l')
  ∧ (∀ rc s', turtle_datum_clear s = Some (rc, s') →
              rc ≠ TURTLE_RETURN_LOCK_ERROR →
              ∃ l', good s' l' ∧ soft_bound s' l')
  ∧ (∀ la lo s',
       datum_tile_load reader la lo s = Some (TURTLE_RETURN_SUCCESS, s') →
       ∃ l', good s' l' ∧ soft_bound_plus 1 s' l')
  ∧ (∀ la lo d w h data,
       datum s = Some d → format d = DATUM_FORMAT_ASTER_GDEM2 →
       Z.abs lo <= 180 → Z.abs la <= 89 →
       reader (path_string (set_buffer (gdem2_name la lo) d))
       = Raster w h data →
       l ≠ [] →
       ∃ s', datum_tile_load reader la lo s
             = Some (TURTLE_RETURN_SUCCESS, s')
             ∧ good s' (fresh (dom (heap s))
                        :: rev (scan (pins (heap s)) (max_size d)
                                     (stack_size d) (rev l)))
             ∧ ((∀ b, b ∈ l → 0 < pins (heap s) b) →
                good s' (fresh (dom (heap s)) :: l))).
Proof.
  intros Hgood. split; [|split; [|split; [|split]]].
  - intros os s' Hos Hb Hrun. eapply runs_soft_bound; eauto.
  - intros o s' Ho Hl Hb Hrun.
    destruct (run_good reader o s l s' Hgood Ho Hrun)
      as (l' & Hop & Hw & _).
    exists l'. split; [apply Hop|].
    apply soft_bound_within; [apply Hop|]. apply Hw; [done|].
    now apply soft_bound_within; [apply Hgood|].
  - intros rc s' Hrun Hrc.
    destruct (turtle_datum_clear_good s l Hgood)
      as (rc1 & s1 & l1 & E & Hop & _ & Hw).
    rewrite E in Hrun. injection Hrun as <- <-.
    exists l1. split; [apply Hop|].
    apply soft_bound_within; [apply Hop|]. now apply Hw.
  - intros la lo s' Hrun.
    pose proof (datum_tile_load_good reader s l la lo Hgood) as H.
    rewrite Hrun in H. destruct H as (_ & _ & H).
    rewrite bool_decide_eq_true_2 in H by done.
    destruct H as (a & l' & t & Hop & _ & _ & _ & Hw & _).
    exists (a :: l'). split; [apply Hop|].
    eapply within_soft_bound_plus; [apply Hop|exact Hw].
  - intros la lo d w h data Hdat Hfmt Hlo Hla Hread Hne.
    destruct (datum_tile_load_success reader s l d la lo w h data)
      as (s' & Hs' & Hrep' & _); try done; [apply Hgood|now right|].
    exists s'. split; [done|].
    pose proof (datum_tile_load_good reader s l la lo Hgood) as H.
    rewrite Hs' in H. destruct H as (_ & _ & H).
    rewrite bool_decide_eq_true_2 in H by done.
    destruct H as (a & l' & t & [Hgood1 _ _] & _).
    rewrite (rep_unique _ _ _ (proj1 Hgood1) Hrep') in Hgood1.
    split; [done|]. intros Hall.
    rewrite scan_all_pinned in Hgood1; [now rewrite rev_involutive in Hgood1|].
    intros b Hb%elem_of_rev_1. specialize (Hall b Hb). lia.
Qed.

End Invariants.

(** ** The invariants at work *)

(** C1 at work: the client of [one_pinned] clears its memory. *)
Lemma pin_accounting_preserved_witness :
  ∃ l', rep (after (every_file 2 2 [10; 20; 30; 40])
                   [Client_create true; Client_elevation 1 0.5 0.5 true;
                    Client_clear 1] small_datum) l'
        ∧ pin_accounting
            (after (every_file 2 2 [10; 20; 30; 40])
                   [Client_create true; Client_elevation 1 0.5 0.5 true;
                    Client_clear 1] small_datum) l'.
Proof.
  destruct (pin_accounting_preserved (every_file 2 2 [10; 20; 30; 40])
              one_pinned [1%positive]
              (proj1 one_pinned_good) (proj2 one_pinned_good)) as [H _].
  apply (H (Client_clear 1)); [discriminate|]. vm_compute. reflexivity.
Defined.

(** C2 at work: the load of a second tile frees the first one, which has no
    client. *)
Lemma no_premature_eviction_witness :
  frees_only_unused one_unused
    (after (every_file 2 2 [10; 20; 30; 40])
           [Datum_elevation 0.5 0.5; Tile_load 2 2] small_datum)
  ∧ Tile_freed 1%positive 0
    ∈ trace (after (every_file 2 2 [10; 20; 30; 40])
                   [Datum_elevation 0.5 0.5; Tile_load 2 2] small_datum).
Proof.
  split.
  - apply (no_premature_eviction (every_file 2 2 [10; 20; 30; 40])
             (Tile_load 2 2) one_unused [1%positive]).
    + apply goodb_good. vm_compute. reflexivity.
    + discriminate.
    + vm_compute. reflexivity.
  - vm_compute. apply list_elem_of_In. simpl. tauto.
Defined.

(** C2, as stated, fails: [turtle_datum_destroy] frees the tile of
    [one_pinned], which a client holds. *)
Lemma destroy_frees_pinned_counterexample :
  ¬ (∀ reader o s l s',
       good s l → run reader o s = Some (tt, s') → frees_only_unused s s').
Proof.
  intros H.
  assert (Hrun : run no_file Datum_destroy one_pinned
                 = Some (tt, after (every_file 2 2 [10; 20; 30; 40])
                               [Client_create true;
                                Client_elevation 1 0.5 0.5 true;
                                Datum_destroy] small_datum))
    by (vm_compute; reflexivity).
  destruct (H no_file Datum_destroy one_pinned [1%positive] _
              one_pinned_good Hrun) as (evs & E & Hev).
  assert (E1 : trace (after (every_file 2 2 [10; 20; 30; 40])
                        [Client_create true; Client_elevation 1 0.5 0.5 true;
                         Datum_destroy] small_datum)
               = [Tile_freed 1%positive 1] ++ trace one_pinned)
    by (vm_compute; reflexivity).
  rewrite E1 in E. apply app_inv_tail in E. subst evs.
  specialize (Hev 1%positive 1 ltac:(now left)). discriminate Hev.
Qed.

(** C3 at work: a second tile is loaded into the stack of [one_pinned]. *)
Lemma soft_bound_kept_witness :
  ∃ l', good (after (every_file 2 2 [10; 20; 30; 40])
                    [Client_create true; Client_elevation 1 0.5 0.5 true;
                     Tile_load 2 2] small_datum) l'
        ∧ soft_bound_plus 1
            (after (every_file 2 2 [10; 20; 30; 40])
                   [Client_create true; Client_elevation 1 0.5 0.5 true;
                    Tile_load 2 2] small_datum) l'.
Proof.
  destruct (soft_bound_kept (every_file 2 2 [10; 20; 30; 40])
              one_pinned [1%positive] one_pinned_good)
    as (_ & _ & _ & H & _).
  apply (H 2 2). vm_compute. reflexivity.
Defined.

(** C3, as stated, fails: the stack of [one_pinned] is of one tile at most
    and holds one tile, in use; after the load of a second tile it holds two
    tiles, of which one is in use. *)
Lemma soft_bound_counterexample :
  ¬ (∀ reader o s l s' l',
       good s l → soft_bound s l → run reader o s = Some (tt, s') →
       good s' l' → soft_bound s' l').
Proof.
  intros H.
  destruct (H (every_file 2 2 [10; 20; 30; 40]) (Tile_load 2 2)
              one_pinned [1%positive]
              (after (every_file 2 2 [10; 20; 30; 40])
                     [Client_create true; Client_elevation 1 0.5 0.5 true;
                      Tile_load 2 2] small_datum)
              [2%positive; 1%positive] one_pinned_good)
    as (d & Hd & Hle).
  - eexists. split; [vm_compute; reflexivity|]. vm_compute. discriminate.
  - vm_compute. reflexivity.
  - apply goodb_good. vm_compute. reflexivity.
  - vm_compute in Hd. injection Hd as <-. vm_compute in Hle. now apply Hle.
Qed.



(** ** The routines on the tiles of a stack *)

Lemma two_tiles_rep : rep two_tiles [2%positive; 1%positive].
Proof. apply repb_rep. vm_compute. reflexivity. Qed.

(** X1. [datum_tile_touch] on a tile of a well-formed stack moves it to the
    top and keeps the other tiles in their order; the tiles keep their data
    and their counts of clients, nothing is freed, no callback is called and
    the clients are left alone. *)
Theorem datum_tile_touch_to_top s l i a :
  rep s l → l !! i = Some a →
  ∃ s', datum_tile_touch a s = Some (tt, s')
        ∧ rep s' (a :: delete i l)
        ∧ (∀ b, b ∈ l → erase <$> heap s' !! b = erase <$> heap s !! b)
        ∧ (∀ b, b ∉ l → heap s' !! b = heap s !! b)
        ∧ handles s' = handles s
        ∧ static <$> datum s' = static <$> datum s
        ∧ trace s' = trace s.
Proof.
  intros Hrep Hi.
  destruct (datum_tile_touch_step s l i a Hrep Hi) as (s' & Hs' & Hst & Htr).
  exists s'. split; [done|]. split; [apply Hst|]. split.
  { intros b Hb. apply (st_payload _ _ _ _ Hst). eapply elem_of_touch; eauto. }
  split; [apply Hst|]. split; [apply Hst|]. split; [apply Hst|done].
Qed.

(** X1 at work: the older tile of [two_tiles] comes to the top. *)
Lemma datum_tile_touch_to_top_witness :
  ∃ s', datum_tile_touch 1%positive two_tiles = Some (tt, s')
        ∧ rep s' [1%positive; 2%positive]
        ∧ (∀ b, b ∈ [2%positive; 1%positive] →
             erase <$> heap s' !! b = erase <$> heap two_tiles !! b)
        ∧ (∀ b, b ∉ [2%positive; 1%positive] →
             heap s' !! b = heap two_tiles !! b)
        ∧ handles s' = handles two_tiles
        ∧ static <$> datum s' = static <$> datum two_tiles
        ∧ trace s' = trace two_tiles.
Proof.
  apply (datum_tile_touch_to_top two_tiles [2%positive; 1%positive] 1%nat 1%positive
           two_tiles_rep eq_refl).
Defined.

Lemma datum_tile_destroy_gone s l i a s' :
  rep s l → l !! i = Some a → datum_tile_destroy a s = Some (tt, s') →
  heap s' !! a = None.
Proof.
  intros Hrep Hi Hs'.
  destruct (rep_lookup _ _ _ _ Hrep Hi) as (t & Ha & _).
  destruct Hrep as (d & Hdat & Hst & Hsz & Hd).
  rewrite (datum_tile_destroy_eq s d l i a t Hdat Hst Hd Hi Ha) in Hs'.
  injection Hs' as <-. cbn [heap]. apply lookup_delete_eq.
Qed.

(** X2. [datum_tile_destroy] on a tile of a well-formed stack takes it out
    of the stack, whose size goes down by one, and frees it, whatever its
    count of clients; the other tiles keep their order, their data and their
    counts of clients. *)
Theorem datum_tile_destroy_removes s l i a :
  rep s l → l !! i = Some a →
  ∃ s', datum_tile_destroy a s = Some (tt, s')
        ∧ rep s' (delete i l)
        ∧ heap s' !! a = None
        ∧ (∀ b, b ∈ l → b ≠ a →
             erase <$> heap s' !! b = erase <$> heap s !! b)
        ∧ (∀ b, b ∉ l → heap s' !! b = heap s !! b)
        ∧ handles s' = handles s
        ∧ static <$> datum s' = static <$> datum s
        ∧ trace s' = Tile_freed a (pins (heap s) a) :: trace s.
Proof.
  intros Hrep Hi.
  destruct (datum_tile_destroy_step s l i a Hrep Hi) as (s' & Hs' & Hst & Htr).
  exists s'. split; [done|]. split; [apply Hst|].
  split; [eapply datum_tile_destroy_gone; eauto|]. split.
  { intros b Hb Hne. apply (st_payload _ _ _ _ Hst).
    apply list_elem_of_lookup in Hb as [j Hj].
    apply list_elem_of_lookup.
    destruct (decide (j < i)%nat).
    - exists j. now rewrite list_lookup_delete_lt.
    - assert (j ≠ i) by (intros ->; congruence).
      exists (pred j). rewrite list_lookup_delete_ge by lia.
      now replace (S (pred j)) with j by lia. }
  split; [apply Hst|]. split; [apply Hst|]. split; [apply Hst|done].
Qed.

(** X2 at work: the top tile of [two_tiles] is destroyed. *)
Lemma datum_tile_destroy_removes_witness :
  ∃ s', datum_tile_destroy 2%positive two_tiles = Some (tt, s')
        ∧ rep s' [1%positive]
        ∧ heap s' !! 2%positive = None
        ∧ (∀ b, b ∈ [2%positive; 1%positive] → b ≠ 2%positive →
             erase <$> heap s' !! b = erase <$> heap two_tiles !! b)
        ∧ (∀ b, b ∉ [2%positive; 1%positive] →
             heap s' !! b = heap two_tiles !! b)
        ∧ handles s' = handles two_tiles
        ∧ static <$> datum s' = static <$> datum two_tiles
        ∧ trace s'
          = Tile_freed 2%positive (pins (heap two_tiles) 2%positive) :: trace two_tiles.
Proof.
  apply (datum_tile_destroy_removes two_tiles [2%positive; 1%positive] 0%nat 2%positive
           two_tiles_rep eq_refl).
Defined.

(** The tiles that [datum_clear] takes out of the stack are freed. *)
Lemma datum_clear_loop_gone force l2 : ∀ l1 s n s',
  rep s (l1 ++ l2) → (length l2 <= n)%nat →
  datum_clear_loop n force (head l2) s = Some (tt, s') →
  ∀ b, b ∈ l2 → ¬ in_use (heap s) force b → heap s' !! b = None.
Proof.
  induction l2 as [|a l2 IH]; intros l1 s n s' Hrep Hn Hrun b Hb Hfree.
  - inversion Hb.
  - destruct n as [|n]; [simpl in Hn; lia|]. simpl in Hn.
    assert (Hi : (l1 ++ a :: l2) !! length l1 = Some a)
      by now rewrite lookup_app_head.
    destruct (deref_rep _ _ _ _ Hrep Hi) as (t & Hde & Ht & Hp & _).
    rewrite lookup_app_next in Hp.
    cbn [head datum_clear_loop] in Hrun.
    rewrite (bind_eq _ _ _ _ _ Hde) in Hrun.
    assert (Hpin : pins (heap s) a = clients t)
      by (unfold pins; now rewrite Ht).
    rewrite Hp in Hrun.
    destruct (force || (clients t =? 0)) eqn:Ek.
    + destruct (datum_tile_destroy_step _ _ _ _ Hrep Hi)
        as (s1 & Hs1 & Hst1 & _).
      rewrite (bind_eq _ _ _ _ _ Hs1) in Hrun.
      pose proof (datum_tile_destroy_gone _ _ _ _ _ Hrep Hi Hs1) as Hgone.
      rewrite delete_app_middle in Hst1.
      pose proof (st_rep _ _ _ _ Hst1) as Hrep1.
      destruct (datum_clear_loop_spec force l2 l1 s1 n Hrep1)
        as (s2 & Hs2 & Hst2); [lia|].
      rewrite Hs2 in Hrun. injection Hrun as <-.
      assert (Hnd : NoDup (l1 ++ a :: l2)) by (eapply rep_nodup; eauto).
      apply NoDup_app in Hnd as (_ & Hl1 & Hnd).
      apply NoDup_cons in Hnd as [Hal2 _].
      apply elem_of_cons in Hb as [->|Hb].
      * rewrite (st_frame _ _ _ _ Hst2); [done|].
        intros [Ha|Ha]%elem_of_app; [|done].
        apply (Hl1 a Ha). now left.
      * apply (IH l1 s1 n s2 Hrep1 ltac:(lia) Hs2 b Hb).
        unfold in_use in *.
        rewrite (pins_erase _ _ _ (st_payload _ _ _ _ Hst1 b
                                     ltac:(apply elem_of_app; now right))).
        done.
    + rewrite (bind_eq _ _ _ _ _ (ret_eq _ _)) in Hrun.
      apply orb_false_iff in Ek as [-> Ek].
      apply elem_of_cons in Hb as [->|Hb].
      * exfalso. apply Hfree. unfold in_use. rewrite Hpin. split; [done|lia].
      * replace (l1 ++ a :: l2) with ((l1 ++ [a]) ++ l2) in Hrep
          by now rewrite <- app_assoc.
        apply (IH (l1 ++ [a]) s n s' Hrep ltac:(lia) Hrun b Hb Hfree).
Qed.

Lemma datum_clear_gone force s l s' :
  rep s l → datum_clear force s = Some (tt, s') →
  ∀ b, b ∈ l → ¬ in_use (heap s) force b → heap s' !! b = None.
Proof.
  intros Hrep Hrun. destruct (rep_datum _ _ Hrep) as (d & _ & Hg & Hst & _).
  unfold datum_clear in Hrun. rewrite (bind_eq _ _ _ _ _ Hg) in Hrun.
  rewrite (bind_eq _ _ _ _ _ (fuel_eq s)) in Hrun. rewrite Hst in Hrun.
  apply (datum_clear_loop_gone force l [] s (S (size (heap s))) s' Hrep);
    [|done].
  pose proof (rep_length_le _ _ Hrep). lia.
Qed.

(** X3. [turtle_datum_clear] on a well-formed stack.  If the lock callback
    fails, the code is [LOCK_ERROR] and nothing else has happened: the
    unlock callback is not called.  Otherwise the tiles that no client
    holds are freed, the others stay in their order with their data, and
    the unlock callback is called once, last; its failure turns the code
    into [UNLOCK_ERROR] but the stack has been cleared all the same. *)
Theorem turtle_datum_clear_cases s l d :
  rep s l → datum s = Some d →
  if cb_fails (lock d) (trace s) then
    turtle_datum_clear s = Some (TURTLE_RETURN_LOCK_ERROR, locked s d)
  else
    ∃ s' evs,
      turtle_datum_clear s
      = Some (if cb_fails (unlock d) (evs ++ trace (locked s d))
              then TURTLE_RETURN_UNLOCK_ERROR else TURTLE_RETURN_SUCCESS,
              s')
      ∧ trace s'
        = cb_trace Unlock_called (unlock d) (evs ++ trace (locked s d))
      ∧ (∀ e, e ∈ evs → ∃ b, e = Tile_freed b 0 ∧ b ∈ l)
      ∧ rep s' (filter (in_use (heap s) false) l)
      ∧ (∀ b, b ∈ l → pins (heap s) b = 0 → heap s' !! b = None)
      ∧ (∀ b, b ∈ l → pins (heap s) b ≠ 0 →
           erase <$> heap s' !! b = erase <$> heap s !! b)
      ∧ (∀ b, b ∉ l → heap s' !! b = heap s !! b)
      ∧ handles s' = handles s.
Proof.
  intros Hrep Hdat.
  destruct (rep_datum _ _ Hrep) as (d0 & Hdat0 & Hg & _).
  assert (d0 = d) as -> by congruence.
  unfold turtle_datum_clear. rewrite (bind_eq _ _ _ _ _ Hg).
  rewrite (bind_eq _ _ _ _ _ (fails_eq _ _ _)). fold (locked s d).
  destruct (cb_fails (lock d) (trace s)) eqn:Elock; [done|].
  assert (Hrep0 : rep (locked s d) l) by now apply rep_locked.
  destruct (datum_clear_spec false _ _ Hrep0) as (s1 & Hs1 & Hst).
  pose proof (datum_clear_gone false _ _ _ Hrep0 Hs1) as Hgone.
  cbn [locked heap] in Hst, Hgone.
  destruct (rep_datum _ _ (st_rep _ _ _ _ Hst)) as (d1 & Hd1 & Hg1 & _).
  assert (Hu : unlock d1 = unlock d).
  { pose proof (st_static _ _ _ _ Hst) as Hs. cbn [locked datum] in Hs.
    rewrite Hd1, Hdat in Hs. injection Hs. congruence. }
  destruct (st_trace _ _ _ _ Hst) as (evs & Htr & Hevs).
  rewrite (bind_eq _ _ _ _ _ Hs1). rewrite (bind_eq _ _ _ _ _ Hg1).
  rewrite (bind_eq _ _ _ _ _ (fails_eq _ _ _)). rewrite Hu, Htr.
  eexists _, evs. split.
  { destruct (cb_fails (unlock d) (evs ++ trace (locked s d))); reflexivity. }
  cbn [heap datum handles trace].
  split; [done|]. split.
  { intros e He. destruct (Hevs e He) as (b & -> & Hb & Hnb).
    exists b. split; [|done]. f_equal. cbn [locked heap].
    destruct (decide (pins (heap s) b = 0)) as [|Hn]; [done|].
    exfalso. apply Hnb. apply list_elem_of_filter. split; [split|]; done. }
  split.
  { eapply rep_same_heap; [exact (st_rep _ _ _ _ Hst)| |done]. eauto. }
  split.
  { intros b Hb Hz. apply Hgone; [done|]. unfold in_use. intros [_ H]. done. }
  split.
  { intros b Hb Hn. apply (st_payload _ _ _ _ Hst).
    apply list_elem_of_filter. split; [split|]; done. }
  split; [apply Hst|apply Hst].
Qed.

Lemma one_of_two_good : good one_of_two [2%positive; 1%positive].
Proof. apply goodb_good. vm_compute. reflexivity. Qed.

(** X3 at work: the stack of [one_of_two] is cleared of the tile that
    nobody holds. *)
Lemma turtle_datum_clear_cases_witness :
  ∃ s' evs,
    turtle_datum_clear one_of_two = Some (TURTLE_RETURN_SUCCESS, s')
    ∧ trace s' = Unlock_called :: evs ++ Lock_called :: trace one_of_two
    ∧ rep s' [1%positive]
    ∧ heap s' !! 2%positive = None.
Proof.
  pose proof (turtle_datum_clear_cases one_of_two [2%positive; 1%positive]
                (Datum (Some 2%positive) 2 4 DATUM_FORMAT_ASTER_GDEM2
                       (Some (always 0)) (Some (always 0)) "data/ASTGTM2"
                       true "ASTGTM2_N01E001_dem.tif")
                (proj1 one_of_two_good) ltac:(vm_compute; reflexivity)) as H.
  destruct H as (s' & evs & Hrun & Htr & _ & Hrep & Hgone & _).
  assert (E : filter (in_use (heap one_of_two) false)
                     [2%positive; 1%positive] = [1%positive])
    by (vm_compute; reflexivity).
  exists s', evs. split; [exact Hrun|]. split; [exact Htr|].
  split; [rewrite <- E; exact Hrep|].
  apply Hgone; [now left|]. vm_compute. reflexivity.
Defined.

(** X4. [turtle_datum_destroy] on a well-formed stack frees every tile of
    the stack, whatever its count of clients, and the handle; it calls no
    callback and leaves the clients as they are, with the tiles that they
    held.  On a handle that is already [NULL] it does nothing. *)
Theorem turtle_datum_destroy_frees_all s l :
  rep s l →
  ∃ s', turtle_datum_destroy s = Some (tt, s')
        ∧ datum s' = None
        ∧ (∀ b, b ∈ l → heap s' !! b = None)
        ∧ (∀ b, b ∉ l → heap s' !! b = heap s !! b)
        ∧ handles s' = handles s
        ∧ (∃ evs, trace s' = evs ++ trace s
                  ∧ ∀ e, e ∈ evs →
                      ∃ b, e = Tile_freed b (pins (heap s) b) ∧ b ∈ l)
        ∧ turtle_datum_destroy s' = Some (tt, s').
Proof.
  intros Hrep. destruct (rep_datum _ _ Hrep) as (d & Hdat & _).
  destruct (datum_clear_spec true _ _ Hrep) as (s1 & Hs1 & Hst).
  pose proof (datum_clear_gone true _ _ _ Hrep Hs1) as Hgone.
  exists (State (heap s1) None (handles s1) (trace s1)).
  split.
  { unfold turtle_datum_destroy. rewrite Hdat.
    rewrite (bind_eq _ _ _ _ _ Hs1). reflexivity. }
  cbn [heap datum handles trace]. split; [done|]. split.
  { intros b Hb. apply Hgone; [done|]. unfold in_use. now intros [? _]. }
  split; [apply Hst|]. split; [apply Hst|]. split; [|done].
  destruct (st_trace _ _ _ _ Hst) as (evs & Htr & Hevs).
  exists evs. split; [done|]. intros e He.
  destruct (Hevs e He) as (b & -> & Hb & _). eauto.
Qed.

(** X4 at work: the stack of [one_of_two] is destroyed, and its client
    keeps the address of a tile that is no longer allocated. *)
Lemma turtle_datum_destroy_frees_all_witness :
  ∃ s', turtle_datum_destroy one_of_two = Some (tt, s')
        ∧ datum s' = None
        ∧ heap s' !! 1%positive = None
        ∧ handles s' !! 1%positive = Some (Client (Some 1%positive)
                                              INT_MIN INT_MIN).
Proof.
  destruct (turtle_datum_destroy_frees_all one_of_two
              [2%positive; 1%positive] (proj1 one_of_two_good))
    as (s' & Hrun & Hd & Hgone & _ & Hh & _).
  exists s'. split; [exact Hrun|]. split; [exact Hd|].
  split; [apply Hgone; right; now left|]. rewrite Hh.
  vm_compute. reflexivity.
Defined.

(** ** The loader *)

Lemma scan_room pin max size rl : size < max → scan pin max size rl = rl.
Proof.
  intros H. destruct rl as [|a rl]; [done|]. cbn [scan].
  now replace (size >=? max) with false by lia.
Qed.

Section Loader.

Variable reader : string → geotiff16.

(** X5. As long as the stack holds less tiles than its maximal size, a load
    that reads its file puts the new tile on top of the stack and removes
    no tile: the other tiles keep their order, their data and their counts
    of clients, and the file is the only thing the environment is asked
    for. *)
Theorem datum_tile_load_with_room s l d la lo w h data :
  rep s l → datum s = Some d → format d = DATUM_FORMAT_ASTER_GDEM2 →
  Z.abs lo <= 180 → Z.abs la <= 89 →
  reader (path_string (set_buffer (gdem2_name la lo) d)) = Raster w h data →
  Z.of_nat (length l) < max_size d →
  ∃ s', datum_tile_load reader la lo s = Some (TURTLE_RETURN_SUCCESS, s')
        ∧ rep s' (fresh (dom (heap s)) :: l)
        ∧ heap s !! fresh (dom (heap s)) = None
        ∧ (∀ b, b ∈ l → erase <$> heap s' !! b = erase <$> heap s !! b)
        ∧ handles s' = handles s
        ∧ trace s'
          = File_opened (path_string (set_buffer (gdem2_name la lo) d))
            :: trace s.
Proof.
  intros Hrep Hdat Hfmt Hlo Hla Hread Hroom.
  destruct (rep_datum _ _ Hrep) as (d0 & Hd0 & _ & _ & Hsz).
  assert (d0 = d) as -> by congruence.
  destruct (datum_tile_load_success reader s l d la lo w h data)
    as (s' & Hs' & Hrep' & Hfresh & _ & Hkeep & _ & Hh & _ & evs & Htr & Hevs);
    try done; [left; lia|].
  rewrite scan_room, rev_involutive in * by lia.
  exists s'. split; [done|]. split; [done|]. split; [done|].
  split; [intros b Hb; now apply Hkeep|]. split; [done|].
  destruct evs as [|e evs]; [done|].
  destruct (Hevs e ltac:(now left)) as (b & _ & Hb & Hnb). done.
Qed.

(** X6. A stack whose maximal size is zero or less can be created, and its
    first load of a tile whose file is read dereferences the [NULL] top of
    the empty stack while it looks for the last tile: the loader has no
    defined result. *)
Theorem datum_tile_load_no_size ok path0 size lock0 unlock0 d la lo w h data :
  turtle_datum_create ok path0 size lock0 unlock0
  = (TURTLE_RETURN_SUCCESS, Some d) →
  size <= 0 → Z.abs lo <= 180 → Z.abs la <= 89 →
  reader (path_string (set_buffer (gdem2_name la lo) d)) = Raster w h data →
  datum_tile_load reader la lo (created d) = None.
Proof.
  intros Hc Hsize Hlo Hla Hread.
  destruct (turtle_datum_create_settings _ _ _ _ _ _ Hc)
    as (Hst & Hsz & Hmax & Hfmt & _).
  eapply datum_tile_load_fault; eauto. lia.
Qed.

(** X7. When the file of a tile opens but its samples cannot be read, the
    loader answers [BAD_FORMAT] and leaves the stack as it was, but the
    block that was allocated for the tile is not freed: it stays in the
    heap, out of the stack. *)
Theorem datum_tile_load_unreadable s l d la lo w h :
  rep s l → datum s = Some d → format d = DATUM_FORMAT_ASTER_GDEM2 →
  Z.abs lo <= 180 → Z.abs la <= 89 →
  reader (path_string (set_buffer (gdem2_name la lo) d)) = Unreadable w h →
  ∃ s', datum_tile_load reader la lo s = Some (TURTLE_RETURN_BAD_FORMAT, s')
        ∧ rep s' l
        ∧ (fresh (dom (heap s)) ∉ l)
        ∧ heap s !! fresh (dom (heap s)) = None
        ∧ is_Some (heap s' !! fresh (dom (heap s)))
        ∧ (∀ b, b ≠ fresh (dom (heap s)) → heap s' !! b = heap s !! b)
        ∧ handles s' = handles s.
Proof.
  intros Hrep Hdat Hfmt Hlo Hla Hread.
  pose proof (datum_tile_load_error reader s d la lo Hdat) as H.
  cbv zeta in H. rewrite Hfmt in H.
  replace ((Z.abs lo >? 180) || (Z.abs la >? 89)) with false in H
    by (symmetry; apply orb_false_iff; lia).
  rewrite Hread in H.
  assert (Hfresh : heap s !! fresh (dom (heap s)) = None)
    by (apply not_elem_of_dom, is_fresh).
  assert (Hnl : fresh (dom (heap s)) ∉ l) by (eapply rep_not_in; eauto).
  eexists. split; [exact H|]. cbn [heap datum handles trace].
  split; [|split; [done|split; [done|split; [|split; [|done]]]]].
  - eapply rep_same_heap; [exact Hrep| |].
    + intros d0 Hd0. assert (d0 = d) as -> by congruence.
      cbn [datum]. eauto.
    + intros b Hb. cbn [heap]. apply lookup_insert_ne. now intros <-.
  - rewrite lookup_insert_eq. eauto.
  - intros b Hb. now apply lookup_insert_ne.
Qed.

End Loader.

Lemma created_wide_rep : rep (created wide_datum) [].
Proof. apply repb_rep. vm_compute. reflexivity. Qed.

(** X5 at work: the first tile of a stack of four tiles at most. *)
Lemma datum_tile_load_with_room_witness :
  ∃ s', datum_tile_load (every_file 2 2 [10; 20; 30; 40]) 0 0
          (created wide_datum) = Some (TURTLE_RETURN_SUCCESS, s')
        ∧ rep s' [1%positive]
        ∧ trace s' = [File_opened "data/ASTGTM2/ASTGTM2_N00E000_dem.tif"].
Proof.
  destruct (datum_tile_load_with_room (every_file 2 2 [10; 20; 30; 40])
              (created wide_datum) [] wide_datum 0 0 2 2 [10; 20; 30; 40]
              created_wide_rep eq_refl eq_refl ltac:(simpl; lia)
              ltac:(simpl; lia) eq_refl ltac:(simpl; lia))
    as (s' & Hrun & Hrep & _ & _ & _ & Htr).
  exists s'. split; [exact Hrun|]. split; [exact Hrep|exact Htr].
Defined.

(** X6 at work: a stack of no tile at most. *)
Lemma datum_tile_load_no_size_witness :
  turtle_datum_create true "data/ASTGTM2" 0 None None
  = (TURTLE_RETURN_SUCCESS, Some no_room_datum)
  ∧ datum_tile_load (every_file 2 2 [10; 20; 30; 40]) 0 0
      (created no_room_datum) = None.
Proof.
  split; [reflexivity|].
  apply (datum_tile_load_no_size (every_file 2 2 [10; 20; 30; 40]) true
           "data/ASTGTM2" 0 None None no_room_datum 0 0 2 2
           [10; 20; 30; 40] eq_refl);
    [lia|simpl; lia|simpl; lia|reflexivity].
Defined.

(** X7 at work: a file that cannot be read, for an empty stack. *)
Lemma datum_tile_load_unreadable_witness :
  ∃ s', datum_tile_load (unreadable_file 2 2) 0 0 (created wide_datum)
        = Some (TURTLE_RETURN_BAD_FORMAT, s')
        ∧ rep s' []
        ∧ is_Some (heap s' !! 1%positive).
Proof.
  destruct (datum_tile_load_unreadable (unreadable_file 2 2)
              (created wide_datum) [] wide_datum 0 0 2 2
              created_wide_rep eq_refl eq_refl ltac:(simpl; lia)
              ltac:(simpl; lia) eq_refl)
    as (s' & Hrun & Hrep & _ & _ & Hin & _).
  exists s'. split; [exact Hrun|]. split; [exact Hrep|exact Hin].
Defined.

(** ** The names of the files *)

Lemma gdem2_name_length la lo :
  Z.abs lo <= 180 → Z.abs la <= 89 →
  String.length (gdem2_name la lo) = 23%nat.
Proof.
  intros Hlo Hla. rewrite gdem2_name_aster by lia. unfold aster_name.
  destruct (0 <=? la), (0 <=? lo); reflexivity.
Qed.

Section Buffer.

Variable reader : string → geotiff16.


End Buffer.

Lemma digit_inj m n : 0 <= m < 10 → 0 <= n < 10 → digit m = digit n → m = n.
Proof.
  intros Hm Hn H. unfold digit in H.
  apply (f_equal nat_of_ascii) in H.
  rewrite !nat_ascii_embedding in H by lia. lia.
Qed.

Lemma two_digits_inj m n :
  0 <= m < 100 → 0 <= n < 100 → two_digits m = two_digits n → m = n.
Proof.
  intros Hm Hn [= H1 H2].
  apply digit_inj in H1; [|split; [apply Z.div_pos|apply Z.div_lt_upper_bound];
                             lia..].
  apply digit_inj in H2; [|apply Z.mod_pos_bound; lia..].
  rewrite (Z.div_mod m 10), (Z.div_mod n 10) by lia. lia.
Qed.

Lemma three_digits_inj m n :
  0 <= m < 1000 → 0 <= n < 1000 → three_digits m = three_digits n → m = n.
Proof.
  intros Hm Hn [= H1 H2 H3].
  pose proof (Z.mod_pos_bound m 100 ltac:(lia)).
  pose proof (Z.mod_pos_bound n 100 ltac:(lia)).
  apply digit_inj in H1; [|split; [apply Z.div_pos|apply Z.div_lt_upper_bound];
                             lia..].
  apply digit_inj in H2; [|split; [apply Z.div_pos|apply Z.div_lt_upper_bound];
                             lia..].
  apply digit_inj in H3; [|apply Z.mod_pos_bound; lia..].
  rewrite (Z.div_mod m 100), (Z.div_mod n 100) by lia.
  rewrite (Z.div_mod (m mod 100) 10), (Z.div_mod (n mod 100) 10) by lia.
  lia.
Qed.

(** X9. Two tiles whose coordinates pass the check of the loader and
    differ have different names: no two tiles are read from the same
    file. *)
Theorem gdem2_name_inj la lo la' lo' :
  Z.abs lo <= 180 → Z.abs la <= 89 → Z.abs lo' <= 180 → Z.abs la' <= 89 →
  gdem2_name la lo = gdem2_name la' lo' → la = la' ∧ lo = lo'.
Proof.
  intros Hlo Hla Hlo' Hla' H.
  rewrite !gdem2_name_aster in H by lia. unfold aster_name in H.
  assert (Hs : ∀ (b b' : bool) x y,
    String.append (if b then "N" else "S") x
    = String.append (if b' then "N" else "S") y → b = b' ∧ x = y).
  { intros [] [] x y [=]; done. }
  assert (Hw : ∀ (b b' : bool) x y,
    String.append (if b then "E" else "W") x
    = String.append (if b' then "E" else "W") y → b = b' ∧ x = y).
  { intros [] [] x y [=]; done. }
  cbn [String.append] in H. injection H as H.
  apply Hs in H as [Ela H].
  unfold two_digits in H. cbn [String.append] in H.
  injection H as H1 H2 H.
  apply Hw in H as [Elo H].
  unfold three_digits, two_digits in H. cbn [String.append] in H.
  injection H as H3 H4 H5.
  assert (Ea : Z.abs la = Z.abs la').
  { apply two_digits_inj; [lia..|]. unfold two_digits. congruence. }
  assert (Eo : Z.abs lo = Z.abs lo').
  { apply three_digits_inj; [lia..|]. unfold three_digits, two_digits.
    congruence. }
  split; lia.
Qed.


(** X9 at work: the tiles at (1, 2) and at (2, 1) have different names. *)
Lemma gdem2_name_inj_witness : gdem2_name 1 2 ≠ gdem2_name 2 1.
Proof.
  intros E.
  destruct (gdem2_name_inj 1 2 2 1 ltac:(simpl; lia) ltac:(simpl; lia)
              ltac:(simpl; lia) ltac:(simpl; lia) E) as [H _].
  discriminate H.
Defined.

(** ** The clients *)

(** [client_release] with the lock, case by case. *)
Lemma client_release_true_cases s l c cl :
  good s l → handles s !! c = Some cl →
  ∃ rc s' l', client_release c true s = Some (rc, s') ∧ good s' l'
    ∧ match tile cl with
      | None => rc = TURTLE_RETURN_SUCCESS ∧ s' = s
      | Some a =>
          ∃ d, datum s = Some d ∧
            if cb_fails (lock d) (trace s) then
              rc = TURTLE_RETURN_LOCK_ERROR ∧ s' = locked s d
            else
              (rc = TURTLE_RETURN_SUCCESS ∨ rc = TURTLE_RETURN_UNLOCK_ERROR)
              ∧ handles s' = <[c := set_tile None cl]> (handles s)
              ∧ (a ∈ l' → pins (heap s') a = pins (heap s) a - 1)
              ∧ (∀ b, b ∈ l → b ≠ a →
                   b ∈ l' ∧ pins (heap s') b = pins (heap s) b)
      end.
Proof.
  intros Hgood Hc. destruct (tile cl) as [a|] eqn:Ht.
  2:{ exists TURTLE_RETURN_SUCCESS, s, l.
      split; [now apply (client_release_idle s c cl)|done]. }
  destruct (rep_datum _ _ (proj1 Hgood)) as (d & Hdat & _).
  destruct (cb_fails (lock d) (trace s)) eqn:Elock.
  { exists TURTLE_RETURN_LOCK_ERROR, (locked s d), l.
    split; [eapply client_release_lock_failed; eauto|].
    split; [now apply good_locked|]. exists d. rewrite Elock. done. }
  assert (Hgood0 : good (locked s d) l) by now apply good_locked.
  destruct (client_release_good _ _ _ _ Hgood0 Hc) as (s1 & l1 & Hs1 & Hpost).
  destruct (rep_datum _ _ (proj1 (rp_good _ _ _ _ _ _ Hpost)))
    as (d1 & Hd1 & _).
  eexists _, _, l1.
  split; [eapply client_release_lock; eauto|].
  split; [apply good_locked, Hpost|].
  exists d. rewrite Elock. split; [done|]. cbn [heap handles].
  split; [destruct (cb_fails (unlock d1) (trace s1)); eauto|].
  split; [apply Hpost|]. split.
  - intros Ha. now apply (rp_own _ _ _ _ _ _ Hpost).
  - intros b Hb Hne.
    destruct (rp_keep _ _ _ _ _ _ Hpost b Hb) as [Hb1 He]; [congruence|].
    split; [done|]. now apply pins_erase.
Qed.

(** X10. [turtle_client_clear] on a client of a well-formed stack.  A
    client without a tile is left alone and no callback is called.  If the
    lock fails, the code is [LOCK_ERROR] and the client keeps its tile.
    Otherwise the client has no tile any more, the tile that it held has
    one client less if it is still in the stack, and the other tiles stay
    with their counts, even when the unlock fails; clearing the client again
    then succeeds and changes nothing. *)
Theorem turtle_client_clear_cases s l c cl :
  good s l → handles s !! c = Some cl →
  ∃ rc s' l', turtle_client_clear c s = Some (rc, s') ∧ good s' l'
    ∧ match tile cl with
      | None => rc = TURTLE_RETURN_SUCCESS ∧ s' = s
      | Some a =>
          ∃ d, datum s = Some d ∧
            if cb_fails (lock d) (trace s) then
              rc = TURTLE_RETURN_LOCK_ERROR ∧ s' = locked s d
            else
              (rc = TURTLE_RETURN_SUCCESS ∨ rc = TURTLE_RETURN_UNLOCK_ERROR)
              ∧ handles s' = <[c := set_tile None cl]> (handles s)
              ∧ (a ∈ l' → pins (heap s') a = pins (heap s) a - 1)
              ∧ (∀ b, b ∈ l → b ≠ a →
                   b ∈ l' ∧ pins (heap s') b = pins (heap s) b)
              ∧ turtle_client_clear c s' = Some (TURTLE_RETURN_SUCCESS, s')
      end.
Proof.
  intros Hgood Hc.
  destruct (client_release_true_cases s l c cl Hgood Hc)
    as (rc & s' & l' & Hrun & Hgood' & Hcase).
  assert (Hclear : ∀ s0 rc0 s1,
    client_release c true s0 = Some (rc0, s1) →
    rc0 = TURTLE_RETURN_SUCCESS ∨ rc0 = TURTLE_RETURN_LOCK_ERROR
    ∨ rc0 = TURTLE_RETURN_UNLOCK_ERROR →
    turtle_client_clear c s0 = Some (rc0, s1)).
  { intros s0 rc0 s1 H Hrc. unfold turtle_client_clear.
    rewrite (bind_eq _ _ _ _ _ H). destruct Hrc as [-> | [-> | ->]]; reflexivity. }
  exists rc, s', l'. destruct (tile cl) as [a|] eqn:Ht.
  - destruct Hcase as (d & Hdat & Hcase).
    destruct (cb_fails (lock d) (trace s)) eqn:Elock.
    + destruct Hcase as [-> ->]. split; [apply Hclear; eauto|].
      split; [done|]. exists d. rewrite Elock. done.
    + destruct Hcase as (Hrc & Hh & Hown & Hkeep).
      split; [apply Hclear; [done|tauto]|]. split; [done|].
      exists d. rewrite Elock. repeat (split; [done|]).
      apply Hclear; [|now left].
      apply (client_release_idle s' c (set_tile None cl)); [|done].
      rewrite Hh. apply lookup_insert_eq.
  - destruct Hcase as [-> ->]. split; [apply Hclear; eauto|done].
Qed.

(** X10 at work: the client of [one_of_two] is cleared. *)
Lemma turtle_client_clear_cases_witness :
  ∃ rc s' l', turtle_client_clear 1%positive one_of_two = Some (rc, s')
    ∧ good s' l'
    ∧ (rc = TURTLE_RETURN_SUCCESS ∨ rc = TURTLE_RETURN_UNLOCK_ERROR)
    ∧ handles s' !! 1%positive = Some (Client None INT_MIN INT_MIN)
    ∧ (1%positive ∈ l' → pins (heap s') 1%positive = 0)
    ∧ turtle_client_clear 1%positive s' = Some (TURTLE_RETURN_SUCCESS, s').
Proof.
  destruct (turtle_client_clear_cases one_of_two [2%positive; 1%positive]
              1%positive (Client (Some 1%positive) INT_MIN INT_MIN)
              one_of_two_good) as (rc & s' & l' & Hrun & Hgood & Hcase).
  { vm_compute. reflexivity. }
  cbn [tile] in Hcase. destruct Hcase as (d & Hd & Hcase).
  assert (Hl : cb_fails (lock d) (trace one_of_two) = false).
  { assert (E : datum one_of_two
                = Some (Datum (Some 2%positive) 2 4 DATUM_FORMAT_ASTER_GDEM2
                              (Some (always 0)) (Some (always 0))
                              "data/ASTGTM2" true "ASTGTM2_N01E001_dem.tif"))
      by (vm_compute; reflexivity).
    rewrite E in Hd. injection Hd as <-. reflexivity. }
  rewrite Hl in Hcase. destruct Hcase as (Hrc & Hh & Hown & _ & Hagain).
  exists rc, s', l'. split; [exact Hrun|]. split; [exact Hgood|].
  split; [exact Hrc|]. split; [rewrite Hh; apply lookup_insert_eq|].
  split; [|exact Hagain].
  intros Ha. rewrite (Hown Ha). vm_compute. reflexivity.
Defined.


Section Fast_path.

Variable reader : string → geotiff16.

(** X12. When the point is in the tile that the client holds,
    [turtle_client_elevation] goes straight to the interpolation in this
    tile: it takes no lock, reads no file and changes nothing, and what it
    returns is a success with [inside] set to one. *)
Theorem turtle_client_elevation_in_tile s c cl a t lat lon hi :
  handles s !! c = Some cl → tile cl = Some a → heap s !! a = Some t →
  inside_tile t (grid_x t lon) (grid_y t lat) = true →
  turtle_client_elevation reader c lat lon hi s
  = elevation_interpolate c hi (grid_x t lon) (grid_y t lat) s
  ∧ ∀ r s', turtle_client_elevation reader c lat lon hi s = Some (r, s') →
            s' = s ∧ rc r = TURTLE_RETURN_SUCCESS
            ∧ inside r = write_inside hi 1 ∧ is_Some (elevation r).
Proof.
  intros Hc Ht Ha Hin.
  assert (E : turtle_client_elevation reader c lat lon hi s
              = elevation_interpolate c hi (grid_x t lon) (grid_y t lat) s).
  { unfold turtle_client_elevation, elevation_lookup.
    rewrite bind_assoc. rewrite (bind_eq _ _ _ _ _ (get_client_eq _ _ _ Hc)).
    rewrite Ht. rewrite bind_assoc.
    rewrite (bind_eq _ _ _ _ _ (deref_eq _ _ _ Ha)). rewrite Hin.
    now rewrite (bind_eq _ _ _ _ _ (ret_eq _ _)). }
  split; [done|]. intros r s' H. rewrite E in H.
  now apply elevation_interpolate_Some in H.
Qed.

End Fast_path.


(** X12 at work: the client of [one_pinned] asks again for the elevation at
    the middle of its tile. *)
Lemma turtle_client_elevation_in_tile_witness :
  ∃ r, turtle_client_elevation (every_file 2 2 [10; 20; 30; 40])
         1%positive 0.5 0.5 true one_pinned = Some (r, one_pinned)
       ∧ rc r = TURTLE_RETURN_SUCCESS ∧ inside r = Some 1.
Proof.
  destruct (turtle_client_elevation_in_tile
              (every_file 2 2 [10; 20; 30; 40]) one_pinned 1%positive
              (Client (Some 1%positive) INT_MIN INT_MIN) 1%positive
              (Tile None None 1 2 2 0 0 1 1 [10; 20; 30; 40])
              0.5 0.5 true) as [E H]; try (vm_compute; reflexivity).
  exists (Result TURTLE_RETURN_SUCCESS (Some 25%float) (Some 1)).
  assert (Hrun : elevation_interpolate 1%positive true
                   (grid_x (Tile None None 1 2 2 0 0 1 1 [10; 20; 30; 40])
                           0.5)
                   (grid_y (Tile None None 1 2 2 0 0 1 1 [10; 20; 30; 40])
                           0.5) one_pinned
                 = Some (Result TURTLE_RETURN_SUCCESS (Some 25%float)
                                (Some 1), one_pinned))
    by (vm_compute; reflexivity).
  rewrite Hrun in E. split; [exact E|]. split; reflexivity.
Defined.

(** ** The calls of the callbacks *)

Section Calm.

Variable cbs : option turtle_datum_cb * option turtle_datum_cb.

Lemma calm_reads {A} (m : M A) : reads m → calm cbs m.
Proof.
  intros Hm s a s' Hs H. apply Hm in H as ->. split; [done|].
  exists []. split; [done|constructor].
Qed.

Lemma calm_ret {A} (a : A) : calm cbs (ret a).
Proof. apply calm_reads, reads_ret. Qed.

Lemma calm_bind {A B} (m : M A) (k : A → M B) :
  calm cbs m → (∀ a, calm cbs (k a)) → calm cbs (bind m k).
Proof.
  intros Hm Hk s b s' Hs H.
  apply bind_Some_inv in H as (a & s1 & H1 & H2).
  destruct (Hm _ _ _ Hs H1) as (Hs1 & e1 & Ht1 & He1).
  destruct (Hk a _ _ _ Hs1 H2) as (Hs2 & e2 & Ht2 & He2).
  split; [done|]. exists (e2 ++ e1). split.
  - rewrite Ht2, Ht1. now rewrite app_assoc.
  - now apply Forall_app.
Qed.

Lemma calm_get_datum {B} (k : turtle_datum → M B) :
  (∀ d, callbacks d = cbs → calm cbs (k d)) → calm cbs (bind get_datum k).
Proof.
  intros Hk s b s' Hs H.
  apply bind_Some_inv in H as (d & s1 & H1 & H2).
  unfold get_datum in H1. destruct (datum s) as [d0|] eqn:Hd; [|done].
  injection H1 as <- <-.
  apply (Hk d0 ltac:(simpl in Hs; congruence) s b s'); [|done].
  now rewrite Hd.
Qed.

Lemma calm_put_datum d : callbacks d = cbs → calm cbs (put_datum d).
Proof.
  intros Hd s a s' Hs [= _ <-]. cbn [datum trace].
  split; [simpl; congruence|]. exists []. split; [done|constructor].
Qed.

Lemma calm_heap {A} (m : M A) :
  (∀ s a s', m s = Some (a, s') →
     datum s' = datum s ∧ trace s' = trace s) →
  calm cbs m.
Proof.
  intros Hm s a s' Hs H. destruct (Hm _ _ _ H) as [Hd Ht].
  split; [congruence|]. exists []. split; [done|constructor].
Qed.

Lemma calm_deref p : calm cbs (deref p).
Proof. apply calm_reads, reads_deref. Qed.

Lemma calm_to_int x : calm cbs (to_int x).
Proof. apply calm_reads, reads_to_int. Qed.

Lemma calm_get_client c : calm cbs (get_client c).
Proof. apply calm_reads, reads_get_client. Qed.

Lemma calm_fuel : calm cbs fuel.
Proof. apply calm_reads. intros s a s' [= _ <-]. done. Qed.

Lemma calm_update p f : calm cbs (update p f).
Proof.
  apply calm_heap. intros s a s' H. unfold update in H.
  apply bind_Some_inv in H as (t & s1 & H1 & H2).
  apply reads_deref in H1 as ->. destruct p; [|done].
  injection H2 as _ <-. done.
Qed.

Lemma calm_put_client c cl : calm cbs (put_client c cl).
Proof. apply calm_heap. intros s a s' [= _ <-]. done. Qed.

Lemma calm_emit e : is_call e = false → calm cbs (emit e).
Proof.
  intros He s a s' Hs [= _ <-]. split; [done|].
  exists [e]. split; [done|]. now constructor.
Qed.

Lemma calm_free a : calm cbs (free a).
Proof.
  unfold free. apply calm_bind; [apply calm_deref|]. intros t.
  apply calm_bind; [now apply calm_emit|]. intros _.
  apply calm_heap. intros s u s' [= _ <-]. done.
Qed.

Lemma calm_interpolate p hx hy : calm cbs (interpolate p hx hy).
Proof. apply calm_reads, reads_interpolate. Qed.

(** One step in the proof that a routine is calm. *)
Ltac calm_step :=
  first
    [ apply calm_ret | apply calm_deref | apply calm_update
    | apply calm_free | apply calm_to_int | apply calm_fuel
    | apply calm_get_client | apply calm_put_client
    | apply calm_interpolate
    | apply calm_put_datum; (done || (simpl; done))
    | apply calm_get_datum; intros ? ?
    | apply calm_bind; [|intros ?]
    | match goal with
      | |- calm _ (match ?x with _ => _ end) => destruct x
      end ].

Lemma calm_datum_tile_touch a : calm cbs (datum_tile_touch a).
Proof. unfold datum_tile_touch. repeat calm_step. Qed.

Lemma calm_datum_tile_destroy a : calm cbs (datum_tile_destroy a).
Proof. unfold datum_tile_destroy. repeat calm_step. Qed.

Lemma calm_datum_clear_loop force : ∀ n p,
  calm cbs (datum_clear_loop n force p).
Proof.
  induction n as [|n IH]; intros [a|]; cbn [datum_clear_loop];
    try apply calm_ret.
  - intros s u s' _ H. done.
  - repeat first [apply calm_datum_tile_destroy | apply IH | calm_step].
Qed.

Lemma calm_datum_clear force : calm cbs (datum_clear force).
Proof.
  unfold datum_clear.
  repeat first [apply calm_datum_clear_loop | calm_step].
Qed.

Lemma calm_last_tile : ∀ n p, calm cbs (last_tile n p).
Proof.
  induction n as [|n IH]; intros p; cbn [last_tile].
  - intros s u s' _ H. done.
  - repeat first [apply IH | calm_step].
Qed.

Lemma calm_make_room : ∀ n p, calm cbs (make_room n p).
Proof.
  induction n as [|n IH]; intros [a|]; cbn [make_room];
    try apply calm_ret.
  - apply calm_get_datum. intros d _.
    destruct (stack_size d >=? max_size d); [|apply calm_ret].
    intros s u s' _ H. done.
  - repeat first [apply calm_datum_tile_destroy | apply IH | calm_step].
Qed.

Lemma calm_malloc_tile w h data : calm cbs (malloc_tile w h data).
Proof. apply calm_heap. intros s a s' [= _ <-]. done. Qed.

Lemma calm_client_release c : calm cbs (client_release c false).
Proof.
  unfold client_release.
  repeat first [apply calm_datum_tile_destroy | calm_step].
Qed.

Lemma calm_elevation_interpolate c hi hx hy :
  calm cbs (elevation_interpolate c hi hx hy).
Proof.
  intros s r s' Hs H. apply elevation_interpolate_Some in H as [-> _].
  split; [done|]. exists []. split; [done|constructor].
Qed.

Lemma calm_client_find skip lat lon : ∀ n p,
  calm cbs (client_find n skip lat lon p).
Proof.
  induction n as [|n IH]; intros [a|]; cbn [client_find];
    try apply calm_ret.
  - intros s u s' _ H. done.
  - repeat first [apply calm_datum_tile_touch | apply IH | calm_step].
Qed.

Lemma calm_datum_find lat lon : ∀ n p, calm cbs (datum_find n lat lon p).
Proof.
  induction n as [|n IH]; intros [a|]; cbn [datum_find];
    try apply calm_ret.
  - intros s u s' _ H. done.
  - repeat first [apply calm_datum_tile_touch | apply IH | calm_step].
Qed.

Section Reader.

Variable reader : string → geotiff16.

Lemma calm_load_gdem2 file : calm cbs (load_gdem2 reader file).
Proof.
  unfold load_gdem2. apply calm_bind; [now apply calm_emit|]. intros _.
  repeat first [apply calm_malloc_tile | calm_step].
Qed.

Lemma calm_datum_tile_load la lo : calm cbs (datum_tile_load reader la lo).
Proof.
  unfold datum_tile_load.
  repeat first [ apply calm_load_gdem2 | apply calm_last_tile
               | apply calm_make_room | calm_step ].
Qed.

Lemma calm_turtle_datum_elevation lat lon :
  calm cbs (turtle_datum_elevation reader lat lon).
Proof.
  unfold turtle_datum_elevation.
  repeat first [ apply calm_datum_tile_load | apply calm_datum_find
               | calm_step ].
Qed.

End Reader.

End Calm.

Section Unlocking.

Variable cbs : option turtle_datum_cb * option turtle_datum_cb.

Lemma unlocking_bind {A B} (m : M A) (k : A → M B) failed :
  calm cbs m → (∀ a, unlocking cbs (k a) failed) →
  unlocking cbs (bind m k) failed.
Proof.
  intros Hm Hk s b s' Hs H.
  apply bind_Some_inv in H as (a & s1 & H1 & H2).
  destruct (Hm _ _ _ Hs H1) as (Hs1 & e1 & Ht1 & He1).
  destruct (Hk a _ _ _ Hs1 H2) as (e2 & He2 & Ht2 & Hf).
  exists (e2 ++ e1). rewrite Ht1, app_assoc in Ht2, Hf.
  split; [now apply Forall_app|done].
Qed.

Lemma unlocking_get_datum {B} (k : turtle_datum → M B) failed :
  (∀ d, callbacks d = cbs → unlocking cbs (k d) failed) →
  unlocking cbs (bind get_datum k) failed.
Proof.
  intros Hk s b s' Hs H.
  apply bind_Some_inv in H as (d & s1 & H1 & H2).
  unfold get_datum in H1. destruct (datum s) as [d0|] eqn:Hd; [|done].
  injection H1 as <- <-.
  apply (Hk d0 ltac:(simpl in Hs; congruence) s b s'); [|done].
  now rewrite Hd.
Qed.

Lemma unlocking_elevation_unlock hi rc hx hy :
  unlocking cbs (elevation_unlock hi rc hx hy)
    (λ b, b = Return (Result TURTLE_RETURN_UNLOCK_ERROR None
                             (write_inside hi 0))).
Proof.
  unfold elevation_unlock. apply unlocking_get_datum. intros d Hd s b s' Hs H.
  rewrite (bind_eq _ _ _ _ _ (fails_eq _ _ _)) in H.
  assert (Hu : unlock d = cbs.2) by (rewrite <- Hd; done).
  rewrite Hu in H. exists []. split; [constructor|]. cbn [app].
  destruct (cb_fails cbs.2 (trace s)).
  - injection H as <- <-. done.
  - split; [|done].
    destruct (negb (bool_decide (rc = TURTLE_RETURN_SUCCESS)));
      [destruct rc, hi|]; injection H as <- <-; done.
Qed.

Lemma unlocking_elevation_update c hi p hx hy :
  unlocking cbs (elevation_update c hi p hx hy)
    (λ b, b = Return (Result TURTLE_RETURN_UNLOCK_ERROR None
                             (write_inside hi 0))).
Proof.
  unfold elevation_update.
  apply unlocking_bind; [apply calm_client_release|]. intros rc.
  destruct (negb (bool_decide (rc = TURTLE_RETURN_SUCCESS)));
    [apply unlocking_elevation_unlock|].
  apply unlocking_bind; [apply calm_deref|]. intros t.
  apply unlocking_bind; [apply calm_update|]. intros _.
  apply unlocking_bind; [apply calm_put_client|]. intros _.
  apply unlocking_elevation_unlock.
Qed.

End Unlocking.

Section Locking.

Variable reader : string → geotiff16.

(** X13. [turtle_datum_elevation] calls neither the lock nor the unlock
    callback of the stack, though it may load a tile, move a tile to the top
    and free tiles: the only things that it asks of the environment are the
    file of a tile and the release of memory. *)
Theorem turtle_datum_elevation_no_callback s d lat lon r s' :
  datum s = Some d →
  turtle_datum_elevation reader lat lon s = Some (r, s') →
  ∃ evs, trace s' = evs ++ trace s
         ∧ Forall (λ e, is_call e = false) evs.
Proof.
  intros Hd H.
  apply (calm_turtle_datum_elevation (callbacks d) reader lat lon s r s');
    [|done].
  now rewrite Hd.
Qed.

Lemma elevation_locked_trace s d c lat lon hi b s' :
  datum s = Some d →
  elevation_locked reader c lat lon hi s = Some (b, s') →
  (cb_fails (lock d) (trace s) = true ∧ s' = locked s d
   ∧ b = Return (Result TURTLE_RETURN_LOCK_ERROR None (write_inside hi 0)))
  ∨ (cb_fails (lock d) (trace s) = false
     ∧ ∃ evs, Forall (λ e, is_call e = false) evs
         ∧ trace s'
           = cb_trace Unlock_called (unlock d) (evs ++ trace (locked s d))
         ∧ (cb_fails (unlock d) (evs ++ trace (locked s d)) = true →
            b = Return (Result TURTLE_RETURN_UNLOCK_ERROR None
                               (write_inside hi 0)))).
Proof.
  intros Hd H. unfold elevation_locked in H.
  apply bind_Some_inv in H as (cl & s1 & H1 & H).
  apply reads_get_client in H1 as ->.
  assert (Hg : get_datum s = Some (d, s)) by (unfold get_datum; now rewrite Hd).
  rewrite (bind_eq _ _ _ _ _ Hg) in H.
  rewrite (bind_eq _ _ _ _ _ (fails_eq _ _ _)) in H. fold (locked s d) in H.
  destruct (cb_fails (lock d) (trace s)) eqn:Elock.
  { injection H as <- <-. left. done. }
  right. split; [done|].
  match type of H with
  | ?m _ = _ =>
      assert (HU : unlocking (callbacks d) m
                     (λ b, b = Return (Result TURTLE_RETURN_UNLOCK_ERROR None
                                              (write_inside hi 0))))
  end.
  2:{ apply (HU (locked s d) b s'); [|done]. cbn [locked datum].
      now rewrite Hd. }
  clear.
  apply unlocking_bind; [apply calm_fuel|]. intros n.
  apply unlocking_bind; [apply calm_client_find|]. intros [[[a hx] hy]|].
  { apply unlocking_elevation_update. }
  apply unlocking_bind; [apply calm_to_int|]. intros la.
  apply unlocking_bind; [apply calm_to_int|]. intros lo.
  apply unlocking_bind; [apply calm_datum_tile_load|]. intros rc.
  destruct (negb (bool_decide (rc = TURTLE_RETURN_SUCCESS))).
  - apply unlocking_bind; [apply calm_client_release|]. intros _.
    apply unlocking_bind; [apply calm_get_client|]. intros cl'.
    apply unlocking_bind; [apply calm_put_client|]. intros _.
    apply unlocking_elevation_unlock.
  - apply unlocking_get_datum. intros d' _.
    apply unlocking_bind; [apply calm_deref|]. intros t.
    apply unlocking_elevation_update.
Qed.

Lemma elevation_lookup_locked s c lat lon hi b s' :
  elevation_lookup reader c lat lon hi s = Some (b, s') →
  s' = s ∨ elevation_locked reader c lat lon hi s = Some (b, s').
Proof.
  unfold elevation_lookup. intros H.
  apply bind_Some_inv in H as (cl & s1 & H1 & H).
  apply reads_get_client in H1 as ->.
  destruct (tile cl) as [a|].
  - apply bind_Some_inv in H as (t & s1 & H1 & H).
    apply reads_deref in H1 as ->.
    destruct (inside_tile t (grid_x t lon) (grid_y t lat)); [|now right].
    injection H as _ <-. now left.
  - apply bind_Some_inv in H as (la & s1 & H1 & H).
    apply reads_to_int in H1 as ->.
    apply bind_Some_inv in H as (known & s1 & H1 & H).
    assert (s1 = s) as ->.
    { destruct (la =? index_la cl); [|now injection H1 as _ <-].
      apply bind_Some_inv in H1 as (lo & s2 & H1 & H2).
      apply reads_to_int in H1 as ->. now injection H2 as _ <-. }
    destruct known; [|now right].
    left. destruct hi; now injection H as _ <-.
Qed.

(** X14. Whenever [turtle_client_elevation] returns, it has either changed
    nothing, or called the lock callback once, which failed, and nothing
    else, with the code [LOCK_ERROR], or called the lock callback once, then
    no callback while it searched, loaded and released tiles, then the
    unlock callback once, last; when that one fails the code is
    [UNLOCK_ERROR] and no elevation is written. *)
Theorem turtle_client_elevation_locking s d c lat lon hi r s' :
  datum s = Some d →
  turtle_client_elevation reader c lat lon hi s = Some (r, s') →
  s' = s
  ∨ (cb_fails (lock d) (trace s) = true ∧ s' = locked s d
     ∧ r = Result TURTLE_RETURN_LOCK_ERROR None (write_inside hi 0))
  ∨ (cb_fails (lock d) (trace s) = false
     ∧ ∃ evs, Forall (λ e, is_call e = false) evs
         ∧ trace s'
           = cb_trace Unlock_called (unlock d) (evs ++ trace (locked s d))
         ∧ (cb_fails (unlock d) (evs ++ trace (locked s d)) = true →
            r = Result TURTLE_RETURN_UNLOCK_ERROR None (write_inside hi 0))).
Proof.
  intros Hd H. unfold turtle_client_elevation in H.
  apply bind_Some_inv in H as (b & s1 & H1 & H).
  assert (Hs' : s' = s1 ∧ ∀ r0, b = Return r0 → r = r0).
  { destruct b as [r0|hx hy].
    - injection H as <- <-. split; [done|]. now intros r1 [= <-].
    - apply elevation_interpolate_Some in H as [-> _]. done. }
  destruct Hs' as [-> Hr].
  apply elevation_lookup_locked in H1 as [->|H1]; [now left|].
  right.
  destruct (elevation_locked_trace s d c lat lon hi b s1 Hd H1)
    as [(Hl & -> & ->)|(Hl & evs & Hevs & Htr & Hf)].
  - left. rewrite (Hr _ eq_refl). done.
  - right. split; [done|]. exists evs. split; [done|]. split; [done|].
    intros Hu. rewrite (Hr _ (Hf Hu)). done.
Qed.

End Locking.

(** X13 at work: [turtle_datum_elevation] loads the first tile of a stack. *)
Lemma turtle_datum_elevation_no_callback_witness :
  ∃ evs,
    trace (after (every_file 2 2 [10; 20; 30; 40])
                 [Datum_elevation 0.5 0.5] wide_datum)
    = evs ++ trace (created wide_datum)
    ∧ Forall (λ e, is_call e = false) evs.
Proof.
  apply (turtle_datum_elevation_no_callback
           (every_file 2 2 [10; 20; 30; 40]) (created wide_datum)
           wide_datum 0.5 0.5 (TURTLE_RETURN_SUCCESS, Some 25%float)
           (after (every_file 2 2 [10; 20; 30; 40])
                  [Datum_elevation 0.5 0.5] wide_datum) eq_refl).
  vm_compute. reflexivity.
Defined.

(** X14 at work: the first call of a client, with callbacks that succeed. *)
Lemma turtle_client_elevation_locking_witness :
  ∃ evs,
    Forall (λ e, is_call e = false) evs
    ∧ trace (after (every_file 2 2 [10; 20; 30; 40])
                   [Client_create true; Client_elevation 1 0.5 0.5 true]
                   wide_datum)
      = Unlock_called :: evs ++ [Lock_called].
Proof.
  destruct (turtle_client_elevation_locking
              (every_file 2 2 [10; 20; 30; 40])
              (after (every_file 2 2 [10; 20; 30; 40])
                     [Client_create true] wide_datum)
              wide_datum 1%positive 0.5 0.5 true
              (Result TURTLE_RETURN_SUCCESS (Some 25%float) (Some 1))
              (after (every_file 2 2 [10; 20; 30; 40])
                     [Client_create true; Client_elevation 1 0.5 0.5 true]
                     wide_datum))
    as [H|[(H & _)|(_ & evs & Hevs & Htr & _)]];
    try (vm_compute; reflexivity).
  - apply (f_equal (λ x, length (trace x))) in H. vm_compute in H.
    discriminate H.
  - vm_compute in H. discriminate H.
  - exists evs. split; [exact Hevs|exact Htr].
Defined.

(** ** The conversions on a datum that has been created *)

Section Conversions.

Variable sin cos asin atan : float → float.
Variable atan2 : float → float → float.

(** X15. On a datum that [turtle_datum_create] has returned, the four
    conversions of coordinates never answer [BAD_FORMAT]:
    [turtle_datum_ecef], [turtle_datum_geodetic] and
    [turtle_datum_direction] always succeed and write their result, and
    [turtle_datum_horizontal] fails only for a direction whose squared norm
    is not positive, with [DOMAIN_ERROR] and nothing written. *)
Theorem conversions_on_created ok path0 size lock0 unlock0 d :
  turtle_datum_create ok path0 size lock0 unlock0
  = (TURTLE_RETURN_SUCCESS, Some d) →
  (∀ latitude longitude elevation,
     ∃ v, turtle_datum_ecef sin cos d latitude longitude elevation
          = (TURTLE_RETURN_SUCCESS, Some v))
  ∧ (∀ ecef,
       ∃ v, turtle_datum_geodetic atan atan2 d ecef
            = (TURTLE_RETURN_SUCCESS, Some v))
  ∧ (∀ latitude longitude azimuth elevation,
       ∃ v, turtle_datum_direction sin cos d latitude longitude azimuth
              elevation
            = (TURTLE_RETURN_SUCCESS, Some v))
  ∧ (∀ latitude longitude d0 d1 d2,
       if (d0 * d0 + d1 * d1 + d2 * d2 <=? 0)%float then
         turtle_datum_horizontal sin cos asin atan2 d latitude longitude
           (d0, d1, d2)
         = (TURTLE_RETURN_DOMAIN_ERROR, None)
       else
         ∃ v, turtle_datum_horizontal sin cos asin atan2 d latitude
                longitude (d0, d1, d2)
              = (TURTLE_RETURN_SUCCESS, Some v)).
Proof.
  intros Hc.
  destruct (turtle_datum_create_settings _ _ _ _ _ _ Hc)
    as (_ & _ & _ & Hf & _).
  split; [|split; [|split]].
  - intros latitude longitude elevation.
    unfold turtle_datum_ecef, get_ellipsoid. rewrite Hf. eauto.
  - intros [[x y] z]. unfold turtle_datum_geodetic, get_ellipsoid.
    rewrite Hf. cbv zeta.
    destruct ((x =? 0) && (y =? 0))%float; [eauto|].
    destruct (z =? 0)%float; eauto.
  - intros latitude longitude azimuth elevation.
    unfold turtle_datum_direction. rewrite Hf. eauto.
  - intros latitude longitude d0 d1 d2.
    unfold turtle_datum_horizontal. rewrite Hf. cbn [compute_enu]. cbv zeta.
    destruct (d0 * d0 + d1 * d1 + d2 * d2 <=? 0)%float; eauto.
Qed.

End Conversions.

(** X15 at work: the datum of the examples, with functions that stand for
    those of the mathematical library. *)
Lemma conversions_on_created_witness :
  turtle_datum_horizontal (λ x, x) (λ x, x) (λ x, x) (λ x _, x) small_datum
    0 0 (0, 0, 0)%float
  = (TURTLE_RETURN_DOMAIN_ERROR, None)
  ∧ ∃ v, turtle_datum_horizontal (λ x, x) (λ x, x) (λ x, x) (λ x _, x)
           small_datum 0 0 (0, 0, 1)%float
         = (TURTLE_RETURN_SUCCESS, Some v).
Proof.
  destruct (conversions_on_created (λ x, x) (λ x, x) (λ x, x) (λ x, x)
              (λ x _, x) true "data/ASTGTM2" 1 (Some (always 0))
              (Some (always 0)) small_datum small_datum_created)
    as (_ & _ & _ & H).
  split.
  - apply (H 0 0 0 0 0)%float.
  - apply (H 0 0 0 0 1)%float.
Defined.

(** ** The search of a tile and the room for a new one *)

Section Search.

Variable reader : string → geotiff16.

Lemma reads_get_datum : reads get_datum.
Proof.
  intros s0 d0 s1. unfold get_datum. destruct (datum s0); [|done].
  now intros [= _ <-].
Qed.

(** X23. [turtle_datum_elevation] on a well-formed stack, when it returns.
    If the point is not outside of the top tile, nothing changes.  Else, if
    a tile of the stack holds the point, such a tile is moved to the top,
    and nothing else changes.  Else no tile under the top holds the point,
    and the tile of the integral parts of the coordinates is loaded: the
    code of a loader that fails is returned and no elevation is written. *)
Theorem turtle_datum_elevation_search s l lat lon r s' :
  rep s l → turtle_datum_elevation reader lat lon s = Some (r, s') →
  (∃ top t, l !! 0%nat = Some top ∧ heap s !! top = Some t
            ∧ outside_tile t (grid_x t lon) (grid_y t lat) = false
            ∧ s' = s ∧ r.1 = TURTLE_RETURN_SUCCESS)
  ∨ (∃ j a t, l !! j = Some a ∧ heap s !! a = Some t
              ∧ inside_tile t (grid_x t lon) (grid_y t lat) = true
              ∧ rep s' (a :: delete j l)
              ∧ handles s' = handles s ∧ trace s' = trace s
              ∧ r.1 = TURTLE_RETURN_SUCCESS)
  ∨ ((∀ top t, l !! 0%nat = Some top → heap s !! top = Some t →
        outside_tile t (grid_x t lon) (grid_y t lat) = true)
     ∧ (∀ j b t, (1 ≤ j)%nat → l !! j = Some b → heap s !! b = Some t →
          inside_tile t (grid_x t lon) (grid_y t lat) = false)
     ∧ ∃ la lo rc,
         int_of_double lat = Some la ∧ int_of_double lon = Some lo
         ∧ datum_tile_load reader la lo s = Some (rc, s') ∧ r.1 = rc
         ∧ (rc ≠ TURTLE_RETURN_SUCCESS → r.2 = None)).
Proof.
  intros Hrep Hrun.
  destruct (rep_datum _ _ Hrep) as (d & Hdat & Hg & Hst & _).
  assert (Hreads : ∀ p hx hy,
    reads (bind get_datum (fun d => bind (interpolate (p d) hx hy)
                             (fun v => ret (TURTLE_RETURN_SUCCESS, Some v))))).
  { intros p hx hy. apply reads_bind; [apply reads_get_datum|]. intros d0.
    apply reads_bind; [apply reads_interpolate|]. intros v. apply reads_ret. }
  assert (Hfound : ∀ hx hy s0,
    bind get_datum (fun d => bind (interpolate (stack d) hx hy)
                     (fun v => ret (TURTLE_RETURN_SUCCESS, Some v))) s0
    = Some (r, s') → s' = s0 ∧ r.1 = TURTLE_RETURN_SUCCESS).
  { intros hx hy s0 H. pose proof (Hreads stack hx hy _ _ _ H) as ->.
    split; [done|].
    apply bind_Some_inv in H as (d0 & s1 & _ & H).
    apply bind_Some_inv in H as (v & s2 & _ & H). now injection H as <- _. }
  assert (Hload :
    bind (to_int lat) (fun la => bind (to_int lon) (fun lo =>
      bind (datum_tile_load reader la lo) (fun rc =>
        if negb (bool_decide (rc = TURTLE_RETURN_SUCCESS))
        then ret (TURTLE_RETURN rc, None)
        else bind get_datum (fun d => bind (deref (stack d)) (fun t =>
               bind (interpolate (stack d) (grid_x t lon) (grid_y t lat))
                 (fun v => ret (TURTLE_RETURN_SUCCESS, Some v))))))) s
    = Some (r, s') →
    ∃ la lo rc,
      int_of_double lat = Some la ∧ int_of_double lon = Some lo
      ∧ datum_tile_load reader la lo s = Some (rc, s') ∧ r.1 = rc
      ∧ (rc ≠ TURTLE_RETURN_SUCCESS → r.2 = None)).
  { intros H. rewrite bind_to_int in H.
    destruct (int_of_double lat) as [la|]; [|done].
    rewrite bind_to_int in H.
    destruct (int_of_double lon) as [lo|]; [|done].
    apply bind_Some_inv in H as (rc & s1 & Hl & H).
    exists la, lo, rc. split; [done|]. split; [done|].
    case_bool_decide as Erc; cbn [negb] in H.
    - subst rc.
      apply bind_Some_inv in H as (d0 & s2 & H0 & H).
      apply reads_get_datum in H0 as ->.
      apply bind_Some_inv in H as (t & s2 & H0 & H).
      apply reads_deref in H0 as ->.
      apply bind_Some_inv in H as (v & s2 & H0 & H).
      apply reads_interpolate in H0 as ->.
      injection H as <- <-. done.
    - injection H as <- <-. done. }
  unfold turtle_datum_elevation in Hrun.
  rewrite (bind_eq _ _ _ _ _ Hg) in Hrun.
  destruct l as [|top l'].
  - simpl in Hst. rewrite Hst in Hrun.
    rewrite (bind_eq _ _ _ _ _ (ret_eq _ _)) in Hrun.
    right. right. split; [done|]. split; [done|]. now apply Hload.
  - simpl in Hst. rewrite Hst in Hrun.
    destruct (deref_rep s (top :: l') 0 top Hrep eq_refl)
      as (t & Hde & Ht & Hp & _).
    rewrite bind_assoc in Hrun. rewrite (bind_eq _ _ _ _ _ Hde) in Hrun.
    destruct (outside_tile t (grid_x t lon) (grid_y t lat)) eqn:Eout.
    + rewrite bind_assoc in Hrun.
      rewrite (bind_eq _ _ _ _ _ (fuel_eq s)) in Hrun.
      destruct (client_find_spec None lat lon s (top :: l')
                  (S (size (heap s))) 1 Hrep)
        as (f & s1 & Hfind & Hf).
      { pose proof (rep_length_le _ _ Hrep). lia. }
      unfold bind at 1 in Hrun. rewrite datum_find_client_find in Hrun.
      rewrite Hp, Hfind in Hrun.
      destruct f as [[[a hx] hy]|].
      * destruct Hf as (j & ta & Hj & _ & Hta & -> & -> & Hin & Hst1 & Htr1).
        apply Hfound in Hrun as [-> Hr].
        right. left. exists j, a, ta. split; [done|]. split; [done|].
        split; [done|]. split; [apply Hst1|]. split; [apply Hst1|done].
      * destruct Hf as [-> Hnone].
        right. right. split.
        { intros top0 t0 [= <-] Ht0. congruence. }
        split.
        { intros j b tb Hj Hb Htb. eapply Hnone; eauto. }
        now apply Hload.
    + rewrite (bind_eq _ _ _ _ _ (ret_eq _ _)) in Hrun.
      apply Hfound in Hrun as [-> Hr].
      left. exists top, t. done.
Qed.


(** X25. Whatever the operations on a stack that has just been created and
    on its clients, its destruction aside, the state that they lead to, if
    they all return, is well formed: the tiles of the stack are doubly
    linked without a repetition, from the top that the handle points to,
    the size of the handle is their number, the count of clients of every
    tile is the number of the clients that hold it, every client holds a
    tile of the stack or none, and the stack has no more tiles than the
    larger of its maximal size and of the number of its tiles in use plus
    one. *)
Theorem reachable_states ok path0 size lock0 unlock0 d os s' :
  turtle_datum_create ok path0 size lock0 unlock0
  = (TURTLE_RETURN_SUCCESS, Some d) →
  Forall (λ o, o ≠ Datum_destroy) os →
  runs reader os (created d) = Some s' →
  ∃ l, rep s' l ∧ pin_accounting s' l ∧ soft_bound_plus 1 s' l.
Proof.
  intros Hc Hos Hrun.
  pose proof (created_good _ _ _ _ _ _ Hc) as Hgood.
  destruct (runs_soft_bound reader os (created d) [] s' Hgood) as (l & Hl & Hb);
    try done.
  - destruct (turtle_datum_create_settings _ _ _ _ _ _ Hc)
      as (_ & Hsz & _).
    exists d. split; [done|]. unfold in_use_count. cbn. lia.
  - exists l. split; [apply Hl|]. split; [apply Hl|done].
Qed.

End Search.

(** X23 at work: the point is in the older tile of [two_tiles]. *)
Lemma turtle_datum_elevation_search_witness :
  ∃ s', turtle_datum_elevation (every_file 2 2 [10; 20; 30; 40]) 0.5 0.5
          two_tiles = Some ((TURTLE_RETURN_SUCCESS, Some 25%float), s')
        ∧ rep s' [1%positive; 2%positive].
Proof.
  set (s' := after (every_file 2 2 [10; 20; 30; 40])
                   [Tile_load 0 0; Tile_load 1 1; Datum_elevation 0.5 0.5]
                   wide_datum).
  assert (Hrun : turtle_datum_elevation (every_file 2 2 [10; 20; 30; 40])
                   0.5 0.5 two_tiles
                 = Some ((TURTLE_RETURN_SUCCESS, Some 25%float), s'))
    by (vm_compute; reflexivity).
  exists s'. split; [exact Hrun|].
  destruct (turtle_datum_elevation_search _ _ _ _ _ _ _ two_tiles_rep Hrun)
    as [(top & t & _ & _ & _ & E & _)
       |[(j & a & t & Hj & _ & _ & Hrep & _)
        |(Hout & Hin & _)]].
  - apply (f_equal (λ x, stack <$> datum x)) in E. vm_compute in E.
    discriminate E.
  - assert (Hs : stack <$> datum s' = Some (Some 1%positive))
      by (vm_compute; reflexivity).
    destruct Hrep as (d & Hd & Hst & _). rewrite Hd in Hs. cbn in Hs.
    injection Hs as Hs. rewrite Hs in Hst. cbn in Hst. injection Hst as <-.
    destruct j as [|[|j]]; [discriminate Hj| |discriminate Hj].
    apply repb_rep. vm_compute. reflexivity.
  - specialize (Hin 1%nat 1%positive
                  (Tile None (Some 2%positive) 0 2 2 0 0 1 1
                        [10; 20; 30; 40]) ltac:(lia) eq_refl
                  ltac:(vm_compute; reflexivity)).
    vm_compute in Hin. discriminate Hin.
Defined.

Lemma one_unused_rep : rep one_unused ([] ++ [1%positive]).
Proof. apply repb_rep. vm_compute. reflexivity. Qed.


(** X25 at work: the state [one_of_two]. *)
Lemma reachable_states_witness :
  ∃ l, rep one_of_two l ∧ pin_accounting one_of_two l
       ∧ soft_bound_plus 1 one_of_two l.
Proof.
  apply (reachable_states (every_file 2 2 [10; 20; 30; 40]) true
           "data/ASTGTM2" 4 (Some (always 0)) (Some (always 0)) wide_datum
           [Client_create true; Client_elevation 1 0.5 0.5 true;
            Tile_load 1 1]).
  - reflexivity.
  - repeat constructor; discriminate.
  - vm_compute. reflexivity.
Defined.

(** ** Coordinates that are not numbers *)

Lemma nan_sub x y : Prim2SF x = S754_nan → Prim2SF (x - y) = S754_nan.
Proof. intros H. rewrite sub_spec, H. reflexivity. Qed.

Lemma nan_div x y : Prim2SF x = S754_nan → Prim2SF (x / y) = S754_nan.
Proof. intros H. rewrite div_spec, H. reflexivity. Qed.

Lemma nan_leb x y : Prim2SF y = S754_nan → (x <=? y)%float = false.
Proof.
  intros H. rewrite leb_spec, H. unfold SFleb, SFcompare.
  now destruct (Prim2SF x) as [| | |[] ? ?].
Qed.

Lemma nan_int x : Prim2SF x = S754_nan → int_of_double x = None.
Proof. intros H. unfold int_of_double. now rewrite H. Qed.

Lemma nan_grid_x t lon : Prim2SF lon = S754_nan →
  Prim2SF (grid_x t lon) = S754_nan.
Proof. intros H. unfold grid_x. now apply nan_div, nan_sub. Qed.

Lemma nan_grid_y t lat : Prim2SF lat = S754_nan →
  Prim2SF (grid_y t lat) = S754_nan.
Proof. intros H. unfold grid_y. now apply nan_div, nan_sub. Qed.

Lemma nan_inside t lat lon :
  Prim2SF lat = S754_nan ∨ Prim2SF lon = S754_nan →
  inside_tile t (grid_x t lon) (grid_y t lat) = false.
Proof.
  intros [H|H]; unfold inside_tile.
  - rewrite (nan_leb 0 (grid_y t lat)) by now apply nan_grid_y.
    now rewrite andb_false_r.
  - rewrite (nan_leb 0 (grid_x t lon)) by now apply nan_grid_x.
    reflexivity.
Qed.

Lemma nan_to_int {B} lat lon (k : Z → Z → M B) s :
  Prim2SF lat = S754_nan ∨ Prim2SF lon = S754_nan →
  bind (to_int lat) (fun la => bind (to_int lon) (fun lo => k la lo)) s
  = None.
Proof.
  intros H. rewrite bind_to_int.
  destruct (int_of_double lat) as [la|] eqn:Ela; [|done].
  rewrite bind_to_int. destruct H as [H|H].
  - apply nan_int in H. congruence.
  - now rewrite (nan_int _ H).
Qed.

Section Not_a_number.

Variable reader : string → geotiff16.

(** X26. A coordinate that is not a number.  On a well-formed stack,
    [turtle_datum_elevation] has then no defined result and
    [turtle_client_elevation] has none either, unless the lock fails, in
    which case the code is [LOCK_ERROR]: no tile holds such a point, and the
    conversion of such a coordinate to an integer is undefined. *)
Theorem elevation_of_nan s l lat lon :
  rep s l → Prim2SF lat = S754_nan ∨ Prim2SF lon = S754_nan →
  turtle_datum_elevation reader lat lon s = None
  ∧ ∀ c hi r s',
      turtle_client_elevation reader c lat lon hi s = Some (r, s') →
      r = Result TURTLE_RETURN_LOCK_ERROR None (write_inside hi 0)
      ∧ ∃ d, datum s = Some d ∧ cb_fails (lock d) (trace s) = true
             ∧ s' = locked s d.
Proof.
  intros Hrep Hnan.
  destruct (rep_datum _ _ Hrep) as (d & Hdat & Hg & Hst & _).
  assert (Hfind : ∀ skip i,
    client_find (S (size (heap s))) skip lat lon (l !! i) s
    = Some (None, s)).
  { intros skip i.
    destruct (decide (i < length l)%nat) as [Hi|Hi].
    - destruct (client_find_spec skip lat lon s l (S (size (heap s))) i Hrep)
        as (f & s1 & Hf & Hcase).
      { pose proof (rep_length_le _ _ Hrep). lia. }
      destruct f as [[[a hx] hy]|].
      + destruct Hcase as (j & t & _ & _ & _ & -> & -> & Hin & _).
        now rewrite nan_inside in Hin.
      + destruct Hcase as [-> _]. done.
    - rewrite lookup_ge_None_2 by lia. reflexivity. }
  split.
  - unfold turtle_datum_elevation. rewrite (bind_eq _ _ _ _ _ Hg).
    destruct l as [|top l'].
    + simpl in Hst. rewrite Hst. rewrite (bind_eq _ _ _ _ _ (ret_eq _ _)).
      now apply nan_to_int.
    + simpl in Hst. rewrite Hst.
      destruct (deref_rep s (top :: l') 0 top Hrep eq_refl)
        as (t & Hde & Ht & Hp & _).
      rewrite bind_assoc. rewrite (bind_eq _ _ _ _ _ Hde).
      destruct (outside_tile t (grid_x t lon) (grid_y t lat)).
      * rewrite bind_assoc. rewrite (bind_eq _ _ _ _ _ (fuel_eq s)).
        unfold bind at 1. rewrite datum_find_client_find.
        rewrite Hp. rewrite (Hfind None 1%nat).
        now apply nan_to_int.
      * rewrite (bind_eq _ _ _ _ _ (ret_eq _ _)).
        rewrite (bind_eq _ _ _ _ _ Hg). unfold interpolate.
        rewrite bind_assoc, bind_to_int.
        destruct (int_of_double (grid_x t lon)) as [ix|] eqn:Ex; [|done].
        destruct Hnan as [H|H].
        -- rewrite bind_assoc, bind_to_int.
           now rewrite (nan_int _ (nan_grid_y t lat H)).
        -- rewrite (nan_int _ (nan_grid_x t lon H)) in Ex. discriminate Ex.
  - intros c hi r s' Hrun. unfold turtle_client_elevation in Hrun.
    apply bind_Some_inv in Hrun as (b & s1 & Hlook & Hrun).
    assert (Hlocked : elevation_locked reader c lat lon hi s = Some (b, s1) →
      b = Return (Result TURTLE_RETURN_LOCK_ERROR None (write_inside hi 0))
      ∧ cb_fails (lock d) (trace s) = true ∧ s1 = locked s d).
    { unfold elevation_locked. intros H.
      apply bind_Some_inv in H as (cl & s2 & H0 & H).
      apply reads_get_client in H0 as ->.
      rewrite (bind_eq _ _ _ _ _ Hg) in H.
      rewrite (bind_eq _ _ _ _ _ (fails_eq _ _ _)) in H.
      fold (locked s d) in H.
      destruct (cb_fails (lock d) (trace s)) eqn:Elock.
      { injection H as <- <-. done. }
      exfalso. rewrite (bind_eq _ _ _ _ _ (fuel_eq _)) in H.
      assert (Hrep0 : rep (locked s d) l) by now apply rep_locked.
      assert (Hf0 : client_find (S (size (heap (locked s d)))) (tile cl)
                      lat lon (stack d) (locked s d)
                    = Some (None, locked s d)).
      { destruct (client_find_spec (tile cl) lat lon (locked s d) l
                    (S (size (heap (locked s d)))) 0 Hrep0)
          as (f & s2 & Hf & Hcase).
        { pose proof (rep_length_le _ _ Hrep0). lia. }
        replace (stack d) with (l !! 0%nat) by (rewrite Hst; now destruct l).
        destruct f as [[[a hx] hy]|].
        - destruct Hcase as (j & t & _ & _ & _ & -> & -> & Hin & _).
          now rewrite nan_inside in Hin.
        - destruct Hcase as [-> _]. done. }
      rewrite (bind_eq _ _ _ _ _ Hf0) in H.
      now rewrite nan_to_int in H. }
    assert (Hb : b = Return (Result TURTLE_RETURN_LOCK_ERROR None
                                    (write_inside hi 0))
                 ∧ cb_fails (lock d) (trace s) = true ∧ s1 = locked s d).
    { unfold elevation_lookup in Hlook.
      apply bind_Some_inv in Hlook as (cl & s2 & H0 & H).
      apply reads_get_client in H0 as ->.
      destruct (tile cl) as [a|].
      - apply bind_Some_inv in H as (t & s2 & H0 & H).
        apply reads_deref in H0 as ->.
        rewrite nan_inside in H by done. now apply Hlocked.
      - rewrite bind_to_int in H.
        destruct (int_of_double lat) as [la|] eqn:Ela; [|done].
        destruct Hnan as [Hn|Hn]; [apply nan_int in Hn; congruence|].
        destruct (la =? index_la cl).
        + rewrite bind_assoc, bind_to_int in H.
          now rewrite (nan_int _ Hn) in H.
        + rewrite (bind_eq _ _ _ _ _ (ret_eq _ _)) in H. now apply Hlocked. }
    destruct Hb as (-> & Hl & ->). injection Hrun as <- <-.
    split; [done|]. exists d. done.
Qed.

End Not_a_number.

(** X26 at work: a latitude that is not a number, on a stack of two tiles. *)
Lemma elevation_of_nan_witness :
  turtle_datum_elevation (every_file 2 2 [10; 20; 30; 40]) nan 1.5 two_tiles
  = None.
Proof.
  exact (proj1 (elevation_of_nan (every_file 2 2 [10; 20; 30; 40]) two_tiles _ nan
                  1.5
                  two_tiles_rep (or_introl eq_refl))).
Defined.

(** ** The reader of GeoTIFF files *)

Module Geotiff16_facts.

Import Geotiff16.

Lemma write_row_eq off row data :
  0 <= off → off + Z.of_nat (length row) <= Z.of_nat (length data) →
  write_row off row data
  = Some (take (Z.to_nat off) data ++ row
          ++ drop (Z.to_nat off + length row) data).
Proof.
  intros H1 H2. unfold write_row.
  replace ((off <? 0)
           || (Z.of_nat (length data) <? off + Z.of_nat (length row)))
    with false; [done|].
  symmetry. apply orb_false_iff. lia.
Qed.

Lemma written_length (o : nat) (row data : list Z) :
  (o + length row ≤ length data)%nat →
  length (take o data ++ row ++ drop (o + length row) data) = length data.
Proof.
  intros H. rewrite !length_app, length_take, length_drop. lia.
Qed.

Lemma written_lookup (o : nat) (row data : list Z) (p : nat) :
  (o + length row ≤ length data)%nat →
  (take o data ++ row ++ drop (o + length row) data) !! p
  = if decide (p < o)%nat then data !! p
    else if decide (p < o + length row)%nat then row !! (p - o)%nat
    else data !! p.
Proof.
  intros H. case_decide as H1.
  - rewrite lookup_app_l by (rewrite length_take; lia).
    now rewrite lookup_take_lt.
  - rewrite lookup_app_r by (rewrite length_take; lia).
    rewrite length_take. replace (p - o `min` length data)%nat
      with (p - o)%nat by lia.
    case_decide as H2.
    + now rewrite lookup_app_l by lia.
    + rewrite lookup_app_r by lia. rewrite lookup_drop. f_equal. lia.
Qed.

(** The loop of [geotiff16_read] on a file whose first [stop] rows are read
    and whose next row, if there is one, is not. *)
Lemma read_rows_spec f width height stop :
  0 <= width → 0 <= stop <= height →
  (∀ j, 0 <= j < stop →
     ∃ row, scanline f j = Some row ∧ Z.of_nat (length row) = width) →
  (stop < height → scanline f stop = None) →
  ∀ n i data,
    0 <= i <= stop → Z.of_nat n = height - i →
    Z.of_nat (length data) = width * height →
    ∃ data',
      read_rows f width n i (width * (height - 1 - i)) data
      = Some (if decide (stop = height) then TURTLE_RETURN_SUCCESS
              else TURTLE_RETURN_BAD_FORMAT, data')
      ∧ length data' = length data
      ∧ (∀ j row k v, i <= j < stop → scanline f j = Some row →
           row !! k = Some v →
           data' !! Z.to_nat (width * (height - 1 - j) + Z.of_nat k)
           = Some v)
      ∧ (∀ p, 0 <= p → p < width * (height - stop)
                       ∨ width * (height - i) <= p →
           data' !! Z.to_nat p = data !! Z.to_nat p).
Proof.
  intros Hw Hstop Hrows Hfail.
  induction n as [|n IH]; intros i data Hi Hn Hlen.
  - exists data. assert (i = height) by lia. subst i.
    assert (stop = height) by lia. subst stop.
    rewrite decide_True by done. split; [done|]. split; [done|].
    split; [intros; lia|done].
  - cbn [read_rows].
    destruct (decide (i = stop)) as [->|Hne].
    { rewrite Hfail by lia. exists data. rewrite decide_False by lia.
      split; [done|]. split; [done|]. split; [intros; lia|done]. }
    destruct (Hrows i ltac:(lia)) as (row & Hrow & Hrl). rewrite Hrow.
    assert (Hoff : 0 <= width * (height - 1 - i)) by nia.
    assert (Hfit : width * (height - 1 - i) + Z.of_nat (length row)
                   <= Z.of_nat (length data)) by nia.
    rewrite write_row_eq by done.
    set (o := Z.to_nat (width * (height - 1 - i))).
    assert (Hfit' : (o + length row ≤ length data)%nat) by lia.
    set (data1 := take o data ++ row ++ drop (o + length row) data).
    destruct (IH (i + 1) data1) as (data' & Hrun & Hlen' & Hget & Hkeep).
    { lia. } { lia. }
    { unfold data1. rewrite written_length by done. done. }
    replace (width * (height - 1 - i) - width)
      with (width * (height - 1 - (i + 1))) by lia.
    exists data'. split; [done|].
    assert (Hl1 : length data1 = length data)
      by (unfold data1; now rewrite written_length).
    split; [congruence|]. split.
    + intros j row' k v Hj Hrow' Hk.
      destruct (decide (j = i)) as [->|Hji].
      * assert (row' = row) as -> by congruence.
        pose proof (lookup_lt_Some _ _ _ Hk) as Hkl.
        rewrite Hkeep by nia. unfold data1.
        rewrite written_lookup by done.
        rewrite decide_False by (unfold o; lia).
        rewrite decide_True by (unfold o; lia).
        rewrite <- Hk. f_equal. unfold o. lia.
      * apply (Hget j row' k v); [lia|done|done].
    + intros p Hp0 Hp. rewrite Hkeep by nia. unfold data1.
      rewrite written_lookup by done.
      destruct Hp as [Hp|Hp].
      * rewrite decide_True; [done|]. unfold o. nia.
      * rewrite decide_False by (unfold o; nia).
        rewrite decide_False; [done|]. unfold o. nia.
Qed.

(** X16. [geotiff16_read] turns the file upside down.  For an open file
    whose rows are all read, and a map of [nx] by [ny] samples, it succeeds
    and the row [iy] of the map holds the scanline [ny - 1 - iy] of the
    file: the last scanline is the row 0, which [get_z] gives as signed
    values. *)
Theorem geotiff16_read_flips io map w h f :
  tiff io = Some h → opened w !! h = Some f →
  0 <= nx (meta io) → 0 <= ny (meta io) →
  nx (map_meta map) = nx (meta io) →
  Z.of_nat (length (data map)) = nx (meta io) * ny (meta io) →
  (∀ j, 0 <= j < ny (meta io) →
     ∃ row, scanline f j = Some row
            ∧ Z.of_nat (length row) = nx (meta io)) →
  ∃ map',
    geotiff16_read io map w = Some (TURTLE_RETURN_SUCCESS, map')
    ∧ map_meta map' = map_meta map
    ∧ length (data map') = length (data map)
    ∧ ∀ ix iy, 0 <= ix < nx (meta io) → 0 <= iy < ny (meta io) →
        ∃ row v, scanline f (ny (meta io) - 1 - iy) = Some row
                 ∧ row !! Z.to_nat ix = Some v
                 ∧ get_z map' ix iy
                   = Some (double_of_int (int16_of_uint16 v)).
Proof.
  intros Ht Ho Hnx Hny Hmap Hlen Hrows. unfold geotiff16_read.
  destruct (ny (meta io) <=? 0) eqn:E.
  { exists map. split; [done|]. split; [done|]. split; [done|]. intros; lia. }
  rewrite Ht, Ho.
  destruct (read_rows_spec f (nx (meta io)) (ny (meta io)) (ny (meta io))
              Hnx ltac:(lia) Hrows ltac:(lia)
              (Z.to_nat (ny (meta io))) 0 (data map) ltac:(lia)
              ltac:(lia) Hlen)
    as (data' & Hrun & Hlen' & Hget & _).
  rewrite decide_True in Hrun by done.
  replace (ny (meta io) - 1 - 0) with (ny (meta io) - 1) in Hrun by lia.
  rewrite Hrun. eexists. split; [done|]. cbn [map_meta data].
  split; [done|]. split; [done|]. intros ix iy Hix Hiy.
  destruct (Hrows (ny (meta io) - 1 - iy) ltac:(lia)) as (row & Hrow & Hrl).
  destruct (lookup_lt_is_Some_2 row (Z.to_nat ix) ltac:(lia)) as [v Hv].
  exists row, v. split; [done|]. split; [done|].
  unfold get_z. cbn [map_meta data]. rewrite Hmap.
  replace (iy * nx (meta io) + ix <? 0) with false by nia.
  specialize (Hget (ny (meta io) - 1 - iy) row (Z.to_nat ix) v ltac:(lia)
                   Hrow Hv).
  replace (nx (meta io) * (ny (meta io) - 1 - (ny (meta io) - 1 - iy))
           + Z.of_nat (Z.to_nat ix))
    with (iy * nx (meta io) + ix) in Hget by lia.
  now rewrite Hget.
Qed.

(** X17. When [TIFFReadScanline] fails on the scanline [stop], after the
    scanlines before it have been read, [geotiff16_read] answers
    [BAD_FORMAT] with a map that is partly written: its [stop] last rows
    hold the scanlines that were read, upside down, and its other rows are
    as they were. *)
Theorem geotiff16_read_stops io map w h f stop :
  tiff io = Some h → opened w !! h = Some f →
  0 <= nx (meta io) → 0 <= stop < ny (meta io) →
  Z.of_nat (length (data map)) = nx (meta io) * ny (meta io) →
  (∀ j, 0 <= j < stop →
     ∃ row, scanline f j = Some row
            ∧ Z.of_nat (length row) = nx (meta io)) →
  scanline f stop = None →
  ∃ map',
    geotiff16_read io map w = Some (TURTLE_RETURN_BAD_FORMAT, map')
    ∧ map_meta map' = map_meta map
    ∧ (∀ j row k v, 0 <= j < stop → scanline f j = Some row →
         row !! k = Some v →
         data map' !! Z.to_nat (nx (meta io) * (ny (meta io) - 1 - j)
                                + Z.of_nat k)
         = Some v)
    ∧ (∀ p, 0 <= p < nx (meta io) * (ny (meta io) - stop) →
         data map' !! Z.to_nat p = data map !! Z.to_nat p).
Proof.
  intros Ht Ho Hnx Hstop Hlen Hrows Hfail. unfold geotiff16_read.
  replace (ny (meta io) <=? 0) with false by lia.
  rewrite Ht, Ho.
  destruct (read_rows_spec f (nx (meta io)) (ny (meta io)) stop
              Hnx ltac:(lia) Hrows ltac:(done)
              (Z.to_nat (ny (meta io))) 0 (data map) ltac:(lia)
              ltac:(lia) Hlen)
    as (data' & Hrun & Hlen' & Hget & Hkeep).
  rewrite decide_False in Hrun by lia.
  replace (ny (meta io) - 1 - 0) with (ny (meta io) - 1) in Hrun by lia.
  rewrite Hrun. eexists. split; [done|]. cbn [map_meta data].
  split; [done|]. split.
  - intros j row k v Hj. apply Hget. lia.
  - intros p Hp. apply Hkeep; [lia|]. left. lia.
Qed.

Lemma int16_uint16 v :
  - 2 ^ 15 <= v < 2 ^ 15 → int16_of_uint16 (uint16_of_int16 v) = v.
Proof.
  intros Hv. unfold int16_of_uint16, uint16_of_int16.
  destruct (decide (0 <= v)).
  - rewrite Z.mod_small by lia. now replace (v <? 2 ^ 15) with true by lia.
  - replace (v mod 2 ^ 16) with (v + 2 ^ 16).
    + replace (v + 2 ^ 16 <? 2 ^ 15) with false by lia. lia.
    + apply (Z.mod_unique _ _ (-1)); lia.
Qed.

(** X18. [set_z] then [get_z].  When the integral part [v] of [z] is an
    [int16_t] and the node is one of the samples of the map, [set_z] stores
    it and [get_z] at the same node gives [v] back, the fraction of [z]
    being lost; the samples at the other indices are as they were. *)
Theorem get_z_set_z map ix iy z v :
  int_of_double z = Some v → - 2 ^ 15 <= v < 2 ^ 15 →
  0 <= iy * nx (map_meta map) + ix < Z.of_nat (length (data map)) →
  ∃ map', set_z map ix iy z = Some map'
          ∧ map_meta map' = map_meta map
          ∧ get_z map' ix iy = Some (double_of_int v)
          ∧ ∀ ix' iy',
              iy' * nx (map_meta map) + ix' ≠ iy * nx (map_meta map) + ix →
              get_z map' ix' iy' = get_z map ix' iy'.
Proof.
  intros Hz Hv Hi. unfold set_z. rewrite Hz.
  replace ((iy * nx (map_meta map) + ix <? 0)
           || (Z.of_nat (length (data map))
               <=? iy * nx (map_meta map) + ix)
           || (v <? - 2 ^ 15) || (2 ^ 15 <=? v)) with false.
  2:{ symmetry. repeat (apply orb_false_iff; split); lia. }
  eexists. split; [done|]. cbn [map_meta]. split; [done|]. split.
  - unfold get_z. cbn [map_meta data].
    replace (iy * nx (map_meta map) + ix <? 0) with false by lia.
    rewrite list_lookup_insert_eq by lia. now rewrite int16_uint16.
  - intros ix' iy' Hne. unfold get_z. cbn [map_meta data].
    destruct (iy' * nx (map_meta map) + ix' <? 0) eqn:E; [done|].
    rewrite list_lookup_insert_ne by lia. done.
Qed.

(** X19. [geotiff16_open] on an io that holds an open file never closes
    this file: it stays in the table of the open files.  If the mode is
    refused the io is left as it was; otherwise the io forgets the file,
    whether the new file opens or not. *)
Theorem geotiff16_open_keeps_open io path0 mode w h rc io' w' :
  tiff io = Some h → is_Some (opened w !! h) →
  geotiff16_open io path0 mode w = (rc, io', w') →
  opened w' !! h = opened w !! h
  ∧ ((rc = TURTLE_RETURN_BAD_FORMAT ∧ io' = io ∧ w' = w)
     ∨ (rc = TURTLE_RETURN_PATH_ERROR ∧ tiff io' = None ∧ w' = w)
     ∨ (rc = TURTLE_RETURN_SUCCESS
        ∧ ∃ h', tiff io' = Some h' ∧ h' ≠ h ∧ opened w !! h' = None
                ∧ is_Some (opened w' !! h'))).
Proof.
  intros Ht Hh H. unfold geotiff16_open in H. rewrite Ht in H.
  assert (Hbad : (TURTLE_RETURN_BAD_FORMAT, io, w) = (rc, io', w') →
    opened w' !! h = opened w !! h
    ∧ ((rc = TURTLE_RETURN_BAD_FORMAT ∧ io' = io ∧ w' = w)
       ∨ (rc = TURTLE_RETURN_PATH_ERROR ∧ tiff io' = None ∧ w' = w)
       ∨ (rc = TURTLE_RETURN_SUCCESS
          ∧ ∃ h', tiff io' = Some h' ∧ h' ≠ h ∧ opened w !! h' = None
                  ∧ is_Some (opened w' !! h')))).
  { intros [= <- <- <-]. split; [done|]. now left. }
  destruct mode as [|c mode]; [now apply Hbad|].
  destruct (Ascii.eqb_spec c "r") as [->|Hc].
  2:{ apply Hbad. destruct c as [[] [] [] [] [] [] [] []]; try done. }
  cbv zeta in H. destruct (files w path0) as [f|].
  - destruct (get_field (pixel_scale f) 0 []) as [count data0] eqn:E1.
    destruct (get_field (tie_points f) count data0) as [count2 data2] eqn:E2.
    injection H as <- <- <-. cbn [opened tiff].
    assert (Hfresh : opened w !! fresh (dom (opened w)) = None)
      by apply not_elem_of_dom, is_fresh.
    assert (Hne : fresh (dom (opened w)) ≠ h).
    { intros E. rewrite E in Hfresh. rewrite Hfresh in Hh.
      now destruct Hh. }
    split; [now apply lookup_insert_ne|]. right. right. split; [done|].
    eexists. split; [done|]. split; [done|]. split; [done|].
    rewrite lookup_insert_eq. eauto.
  - injection H as <- <- <-. split; [done|]. right. left. done.
Qed.


(** X16 at work: the two scanlines of [two_rows]. *)
Lemma geotiff16_read_flips_witness :
  ∃ map',
    geotiff16_read open_io blank_map (one_open two_rows)
    = Some (TURTLE_RETURN_SUCCESS, map')
    ∧ map_meta map' = two_by_two
    ∧ length (data map') = 4%nat
    ∧ ∀ ix iy, 0 <= ix < 2 → 0 <= iy < 2 →
        ∃ row v, scanline two_rows (2 - 1 - iy) = Some row
                 ∧ row !! Z.to_nat ix = Some v
                 ∧ get_z map' ix iy
                   = Some (double_of_int (int16_of_uint16 v)).
Proof.
  apply (geotiff16_read_flips open_io blank_map (one_open two_rows)
           1%positive two_rows eq_refl eq_refl);
    try (simpl; lia); try reflexivity.
  intros j Hj. change (0 <= j < 2) in Hj.
  assert (j = 0 ∨ j = 1) as [-> | ->] by lia; eexists; split; reflexivity.
Defined.

(** X17 at work: the second scanline of [torn_rows] cannot be read. *)
Lemma geotiff16_read_stops_witness :
  ∃ map',
    geotiff16_read open_io blank_map (one_open torn_rows)
    = Some (TURTLE_RETURN_BAD_FORMAT, map')
    ∧ data map' !! 2%nat = Some 1 ∧ data map' !! 0%nat = Some 0.
Proof.
  destruct (geotiff16_read_stops open_io blank_map (one_open torn_rows)
              1%positive torn_rows 1 eq_refl eq_refl)
    as (map' & Hrun & _ & Hget & Hkeep);
    try (simpl; lia); try reflexivity.
  { intros j Hj. assert (j = 0) as -> by lia. eexists. split; reflexivity. }
  change (ny (meta open_io)) with 2 in *. change (nx (meta open_io)) with 2 in *.
  exists map'. split; [exact Hrun|]. split.
  - apply (Hget 0 [1; 2] 0%nat 1); [lia|reflexivity|reflexivity].
  - apply (Hkeep 0). simpl. lia.
Defined.

(** X18 at work: -1.5 is stored in a sample of [blank_map]. *)
Lemma get_z_set_z_witness :
  ∃ map', set_z blank_map 1 1 (-1.5) = Some map'
          ∧ get_z map' 1 1 = Some (-1)%float
          ∧ get_z map' 0 1 = Some 0%float.
Proof.
  assert (Hz : int_of_double (-1.5) = Some (-1)) by (vm_compute; reflexivity).
  destruct (get_z_set_z blank_map 1 1 (-1.5)%float (-1) Hz ltac:(lia))
    as (map' & Hset & _ & Hget & Hkeep).
  { change (0 <= 1 * 2 + 1 < 4). lia. }
  exists map'. split; [exact Hset|]. split; [exact Hget|].
  rewrite (Hkeep 0 1) by (change (1 * 2 + 0 ≠ 1 * 2 + 1); lia).
  reflexivity.
Defined.

(** X19 at work: [open_io] opens a second file. *)
Lemma geotiff16_open_keeps_open_witness :
  opened (geotiff16_open open_io "other.tif" "r" (one_open two_rows)).2
    !! 1%positive
  = Some two_rows
  ∧ tiff (geotiff16_open open_io "other.tif" "r" (one_open two_rows)).1.2
    = Some 2%positive.
Proof.
  destruct (geotiff16_open open_io "other.tif" "r" (one_open two_rows))
    as [[rc io'] w'] eqn:E.
  destruct (geotiff16_open_keeps_open open_io "other.tif" "r"
              (one_open two_rows) 1%positive rc io' w' eq_refl
              ltac:(vm_compute; eauto) E) as [Hkeep _].
  split; [exact Hkeep|].
  vm_compute in E. injection E as _ <- _. reflexivity.
Defined.


End Geotiff16_facts.

(** ** The errors of the library *)

Module Error_facts.

Import Error.

Lemma release_message_owns error_ st :
  owns error_ st →
  ∃ error' st', release_message error_ st = Some (error', st')
    ∧ messages st' = ∅ ∧ _handler st' = _handler st
    ∧ reports st' = reports st
    ∧ function error' = function error_ ∧ code error' = code error_
    ∧ file error' = file error_ ∧ line error' = line error_.
Proof.
  unfold owns, release_message. destruct (dynamic error_).
  - intros (a & text & -> & Hm). unfold free. rewrite Hm.
    rewrite lookup_singleton_eq. eexists _, _. split; [reflexivity|].
    cbn. rewrite delete_singleton_eq. done.
  - intros Hm. exists error_, st. done.
Qed.

(** X21. Registering an error, with [turtle_error_message_] or with
    [turtle_error_format_], in a context that owns the heap of the messages
    never faults and leaves a context that owns the heap: the message of
    the error before, if it was on the heap, is freed once, and at most one
    message is allocated.  The code of the context is the code given, which
    is returned; unless there is no handler or the code is a success, the
    message is the new one, or a fixed one if its allocation fails. *)
Theorem registration_owns error_ st rc file0 line0 :
  owns error_ st →
  (∀ message0,
     ∃ error' st',
       turtle_error_message_ error_ rc file0 line0 message0 st
       = Some (rc, error', st')
       ∧ owns error' st' ∧ code error' = rc
       ∧ (_handler st ≠ None → rc ≠ TURTLE_RETURN_SUCCESS →
          message error' = Some (Literal message0)
          ∧ file error' = file0 ∧ line error' = line0))
  ∧ (∀ text malloc_ok,
       ∃ error' st',
         turtle_error_format_ error_ rc file0 line0 text malloc_ok st
         = Some (rc, error', st')
         ∧ owns error' st' ∧ code error' = rc
         ∧ (_handler st ≠ None → rc ≠ TURTLE_RETURN_SUCCESS →
            string_at (message error') st'
            = Some (if malloc_ok then text
                    else "unknown error (could not allocate memory)"%string)
            ∧ file error' = file0 ∧ line error' = line0)).
Proof.
  intros Hown.
  destruct (release_message_owns
              (Context (function error_) rc file0 line0 (message error_)
                       (dynamic error_)) st Hown)
    as (e1 & st1 & Hrel & Hm1 & Hh1 & Hr1 & Hf1 & Hc1 & Hfile1 & Hline1).
  cbn in Hc1, Hfile1, Hline1.
  split.
  - intros message0. unfold turtle_error_message_. cbn [function code file
      line message dynamic].
    destruct (bool_decide (_handler st = None)
              || bool_decide (rc = TURTLE_RETURN_SUCCESS)) eqn:E.
    + eexists _, _. split; [reflexivity|]. split; [exact Hown|].
      split; [done|]. intros Hh Hrc.
      apply orb_true_iff in E as [E|E]; apply bool_decide_eq_true in E; done.
    + rewrite Hrel. cbn [function code file line message dynamic].
      eexists _, _. split; [now rewrite Hc1|]. split; [exact Hm1|].
      cbn. done.
  - intros text malloc_ok. unfold turtle_error_format_. cbn [function code
      file line message dynamic].
    destruct (bool_decide (_handler st = None)
              || bool_decide (rc = TURTLE_RETURN_SUCCESS)) eqn:E.
    + eexists _, _. split; [reflexivity|]. split; [exact Hown|].
      split; [done|]. intros Hh Hrc.
      apply orb_true_iff in E as [E|E]; apply bool_decide_eq_true in E; done.
    + rewrite Hrel. destruct malloc_ok; cbn [negb].
      * eexists _, _. split; [now rewrite Hc1|]. split.
        { unfold owns. cbn. exists (fresh (dom (messages st1))), text.
          split; [done|]. rewrite Hm1. apply insert_empty. }
        cbn. rewrite lookup_insert_eq. done.
      * eexists _, _. split; [reflexivity|]. split; [exact Hm1|].
        cbn. done.
Qed.

(** X22. [turtle_error_raise_] on a context that owns the heap of the
    messages.  Without a handler, or for a success, it returns the code and
    does nothing.  Otherwise, for a function that [turtle_error_function]
    knows and a message, it calls the handler once, with the message after
    its header, frees the message if it is dynamic, and returns the code
    unless the handler is the one that exits.  The context keeps the
    address of the message that was freed: raising the same error again
    reads freed memory. *)
Theorem turtle_error_raise_once error_ st :
  owns error_ st →
  (_handler st = None ∨ code error_ = TURTLE_RETURN_SUCCESS →
   turtle_error_raise_ error_ st = Some (Returns (code error_), error_, st))
  ∧ (∀ handler head text,
       _handler st = Some handler → code error_ ≠ TURTLE_RETURN_SUCCESS →
       header error_ = Some head →
       string_at (message error_) st = Some text →
       ∃ error' st',
         turtle_error_raise_ error_ st
         = Some (match handler with
                 | handle_error => Exits
                 | user_handler => Returns (code error_)
                 end, error', st')
         ∧ reports st'
           = Report (code error_) (function error_) (head ++ text)
             :: reports st
         ∧ messages st' = ∅ ∧ _handler st' = _handler st
         ∧ dynamic error' = false ∧ message error' = message error_
         ∧ (dynamic error_ = true →
            turtle_error_raise_ error' st' = None)).
Proof.
  intros Hown. split.
  - unfold turtle_error_raise_. intros [->| ->]; [done|].
    now destruct (_handler st).
  - intros handler head text Hh Hc Hhead Htext.
    assert (Hfun : function error_ ∈ known_functions).
    { unfold header, turtle_error_function in Hhead.
      case_bool_decide; [done|discriminate]. }
    unfold turtle_error_raise_. rewrite Hh.
    rewrite bool_decide_eq_false_2 by done. rewrite Hhead, Htext.
    unfold owns in Hown. destruct (dynamic error_) eqn:Ed.
    + destruct Hown as (a & text0 & Hmsg & Hm). rewrite Hmsg.
      unfold free. rewrite Hm, lookup_singleton_eq.
      cbn [function code file line message dynamic _handler messages
           reports].
      eexists _, _. split; [destruct handler; reflexivity|].
      cbn [function code file line message dynamic _handler messages
           reports].
      rewrite delete_singleton_eq. repeat (split; [done|]).
      intros _. unfold turtle_error_raise_.
      cbn [function code file line message dynamic _handler messages
           reports]. rewrite Hh. rewrite bool_decide_eq_false_2 by done.
      unfold header in *.
      cbn [function code file line message dynamic] in *.
      rewrite Hhead. unfold string_at. cbn [messages].
      now rewrite lookup_empty.
    + eexists _, _. split; [destruct handler; reflexivity|].
      cbn [function code file line message dynamic _handler messages
           reports]. done.
Qed.

(** X21 at work: the error of [read_error] is registered. *)
Lemma registration_owns_witness :
  ∃ error' st',
    turtle_error_format_ no_error TURTLE_RETURN_BAD_FORMAT "geotiff16.c" 164
      "a libtiff error occured" true handled
    = Some (TURTLE_RETURN_BAD_FORMAT, error', st')
    ∧ owns error' st' ∧ code error' = TURTLE_RETURN_BAD_FORMAT
    ∧ (_handler handled ≠ None →
       TURTLE_RETURN_BAD_FORMAT ≠ TURTLE_RETURN_SUCCESS →
       string_at (message error') st'
       = Some "a libtiff error occured"%string
       ∧ file error' = "geotiff16.c"%string ∧ line error' = 164).
Proof.
  destruct (registration_owns no_error handled TURTLE_RETURN_BAD_FORMAT
              "geotiff16.c" 164 eq_refl) as [_ H].
  apply (H "a libtiff error occured"%string true).
Defined.

(** X22 at work: the error of [read_error] is raised. *)
Lemma turtle_error_raise_once_witness :
  ∃ error' st',
    turtle_error_raise_ read_error read_error_state
    = Some (Returns TURTLE_RETURN_BAD_FORMAT, error', st')
    ∧ reports st'
      = [Report TURTLE_RETURN_BAD_FORMAT "turtle_stack_load"
           "{ turtle_stack_load [#3], geotiff16.c:164 } a libtiff error occured"]
    ∧ messages st' = ∅
    ∧ turtle_error_raise_ error' st' = None.
Proof.
  assert (Hown : owns read_error read_error_state).
  { exists 1%positive, "a libtiff error occured"%string. done. }
  destruct (turtle_error_raise_once read_error read_error_state Hown)
    as [_ H].
  destruct (H user_handler
              "{ turtle_stack_load [#3], geotiff16.c:164 } "%string
              "a libtiff error occured"%string eq_refl
              ltac:(discriminate) ltac:(vm_compute; reflexivity) eq_refl)
    as (error' & st' & Hrun & Hrep & Hm & _ & _ & _ & Hagain).
  exists error', st'. split; [exact Hrun|]. split; [exact Hrep|].
  split; [exact Hm|]. now apply Hagain.
Defined.

End Error_facts.
